(* ===== verification/_CoqProject ===== *)
-Q . S2P
Prelude.v
Marshall.v
RpcStub.v
RpcTest.v
Connection.v
Fifo.v
ThrPool.v
PollMgr.v
PollLoop.v
Handle.v
RpcServer.v
ConnLife.v
ConnServer.v
RpcClient.v
RpcSystem.v
RpcCall.v
RpcSession.v
ExtentServer.v
ExtentCache.v
LockServer.v
LockStub.v
LockCache.v
LockProtocol.v
Coherence.v
LockTester.v
YfsBlock.v
YfsFile.v
YfsDir.v
YfsOps.v
YfsNames.v
YfsLocks.v
YfsRefine.v
YfsAlloc.v
YfsDirSpec.v
YfsFileSpec.v
YfsListing.v
YfsUnlink.v
YfsGrow.v
YfsBytes.v
YfsCreate.v
YfsLife.v
YfsVolume.v
YfsSymlink.v
Fuse.v
FuseSpec.v
FuseFile.v
Posix.v
FsTester.v
FsTesterSpec.v
FsTesterA.v
