(* ===== verification/Prelude.v ===== *)
(** * A verification of the YFS code base

    The program is a distributed file system: a FUSE front end (fuse.cc) calls
    the file system client (yfs_client.cc), which keeps inodes, directories, data
    and a block bitmap in blocks of 512 bytes.  Blocks live on the extent server
    (extent_server.cc), a file on disk, and are reached through a client that
    caches them and writes them back (extent_client.cc, extent_client_cache.cc).
    Every block has a lock on the lock server (lock_server_cache.cc); clients
    keep locks until the server asks for them back (lock_client_cache.cc), and
    giving a lock back flushes the block of the same number.  All servers speak a
    remote procedure call library of their own (rpc/), with marshalled packets, a
    client that retransmits, and a server that executes each request at most
    once.

    ** Files and what they model

    - Prelude: results of running code ([res]: a return, a failed VERIFY, an
      undefined operation, waiting for ever, no fuel left), explicit state passing
      ([ST]), integers at their width, byte buffers, tactics and hints.
    - Marshall: rpc/marshall.h and the operators of rpc/rpc.cc.  A buffer is the
      list of its bytes; a pair of operators for a C++ type is a [codec] and
      [CodecOk] is its contract.
    - RpcStub: the templates rpcc::call, rpcc::call_m and rpcs::reg of rpc/rpc.h
      over any codec.  RpcTest: rpc/rpctest.cc, its service and the checks of its
      clients on single calls.
    - Connection: rpc/connection.cc, packets over a stream: the packet reader and
      writer, the two callbacks, and send with the threads that take turns
      ([sstep]).
    - Fifo: rpc/fifo.h, the bounded queue: one round of the loops of enq and deq
      under the mutex, and threads that call, wait on the two condition variables
      and are signalled ([fstep]).
    - ThrPool: rpc/thr_pool.cc over the queue: workers, threads that add jobs, and
      the destructor with its poison pills ([pstep]).
    - PollMgr: rpc/pollmgr.cc, the table of callbacks over the class [AioMgr],
      with SelectAIO and EPollAIO as instances; the kernel's side of epoll is the
      map of the descriptors of interest.  PollLoop: wait_loop beside threads that
      add, delete and remove callbacks ([pollstep]).
    - Handle: handle.cc, the cache of bound RPC clients over a heap of hinfo
      structures ([hstep]), with the implicit assignment of class handle that
      lock_server_cache.cc uses.
    - RpcServer: class rpcs.  rpcs::dispatch is cut at the points where it gives
      up its locks; [step] interleaves the pieces of any number of dispatch
      threads with arbitrary requests.  Reply buffers are heap locations; one that
      was freed may still be sent, with any bytes.
    - ConnLife: connection objects of rpc/connection.cc on a heap, with reference
      counts, death and deletion, the poll manager's table and the callback it is
      about to make, and the client's use of them ([r_run]: one action of a call, of
      the poll manager or of the destructor).  ConnServer: the listener
      with its garbage collection, the dispatch threads and the connections that
      the server keeps for its clients ([v_run]).
    - RpcClient: class rpcc.  rpcc::call1 is cut in the same way ([cstep]); the
      loop over deadlines is [call1_loop], with the wait inside it ([wait_loop]).
    - RpcSystem: one client, a network that repeats, reorders and loses, and the
      server.  RpcCall: call, bind, call1 and dispatch from end to end, over the
      bytes on the connection, one call after the other ([run_op]).  RpcSession:
      the specification of such sessions ([spec_step]) and the failure test of
      rpctest.cc.
    - ExtentServer: extent_server.cc over the disk file as a list of bytes.
    - ExtentCache: extent_client.cc and extent_client_cache.cc; the class
      [BlockStore] with its laws [BlockStoreLaws] is what they promise to the file
      system, with the disk file, the cache and a plain map of blocks as
      instances.
    - LockServer: lock_server.cc and lock_server_cache.cc.  LockStub: the calls of
      lock_client.cc and the handlers that lock_smain.cc registers.
    - LockCache: lock_client_cache.cc, cut where it gives up the mutex of a lock.
    - LockProtocol: the caching server with any number of clients, threads and
      calls under way ([lstep]).  Coherence: the caches of several clients over one
      extent server, with the flush that lock_flush_cache::dorelease makes when a
      lock is given back ([cstep]).  LockTester: lock_tester.cc, its threads as
      programs over the lock protocol ([tstep]).
    - YfsBlock, YfsFile, YfsDir: yfs_client.cc over any [BlockStore]: the inode
      layout of yfs_client.h, the bitmap and the block operations; reading,
      writing and attributes; directories.  YfsOps has all public operations as
      one type, YfsNames the conversions between inode numbers and decimal
      names.  The state is that of one thread: the store, the locks it holds
      and the clock.  Taking a lock that the thread has waits for ever.
    - YfsLocks, YfsRefine, YfsAlloc, YfsDirSpec, YfsFileSpec, YfsListing,
      YfsUnlink, YfsGrow, YfsBytes, YfsCreate, YfsLife, YfsVolume, YfsSymlink:
      theorems about the file system.  A file is described by its inodes and data blocks
      ([whole], YfsGrow) and by its bytes ([stored], YfsBytes), a directory by its
      blocks and their entries ([dir_blocks], YfsUnlink), the free space by the
      list of free blocks in the order of the allocator ([free_list], YfsGrow), and a
      directory with all its files and the free space by [volume] (YfsVolume).
    - Fuse: fuse.cc, one handler per request of the kernel, with the replies in
      the order in which they are sent; FuseSpec, FuseFile: theorems about whole
      requests and sequences of them.
    - Posix: programs over system calls with fork and waitpid ([prog]), what POSIX
      says of each call ([posix]), a kernel as a parameter (the classes [Kernel] and
      [KernelLaws], with a kernel that can be run as an instance), the runs of a
      process and its child ([run_step]), and rules for programs that own different
      files.  FsTester: test-lab-2-a.c and test-lab-2-b.c over these calls;
      FsTesterSpec, FsTesterA: their theorems.

    ** What the theorems show

    - The wire format: what is marshalled is unmarshalled, for headers, arguments
      and results of every type, and a whole call returns what the method of the
      server returned (RpcStub); the exact condition under which reading a string
      leaves the packet.
    - Connections: packets arrive whole, in order and once, in whatever pieces the
      two sides write and read, and packets of several threads are not mixed; the
      exact size fields for which the reader leaves its buffer (Connection).  The
      actions that use a deleted connection or fail an assertion, and that no other
      does; counts are exact, and the garbage collection deletes what it erases;
      what the server never gives back (ConnLife, ConnServer).
    - Threads of the RPC library: the queue is first in first out and loses no
      wakeup (Fifo); the pool runs every accepted job once and its destructor
      returns (ThrPool); the poll manager watches the right descriptors, the two
      ways of watching agree (PollMgr), and a removed callback is never called again
      (PollLoop); cached clients are not used after they are deleted, unless handles
      are assigned to and binds fail (Handle).
    - The RPC library: at-most-once execution and consistent replies for every
      interleaving and every network (RpcServer); the client's acknowledgements
      are exact, and when its calls end (RpcClient); a waiting call is never refused,
      its retransmission never executed again and its reply genuine (RpcSystem).  Without lost packets a
      session of calls is a sequence of local calls of the methods, with the
      failures that unbound clients, servers that are down and restarted servers
      cause (RpcSession).
    - The extent server and its clients: blocks are independent cells, and the
      cache refines a map of blocks (ExtentServer, ExtentCache).
    - Locks: mutual exclusion over all clients and threads, no failing assertion but
      those on a failed bind, revocation reaches the owner, by an invariant that counts tokens
      (LockProtocol), for lock ids below 2^31.  The caches of all clients behave
      like one array of blocks (Coherence), and lock_tester never reports an error
      (LockTester).
    - The file system: locks are given back (YfsLocks); it behaves over every
      store as over a map of blocks (YfsRefine); the bitmap is a set of used
      blocks (YfsAlloc); create and lookup agree on directories of any number of
      blocks (YfsDirSpec); reads return and writes replace exactly the bytes of
      their range (YfsFileSpec); readdir lists the entries (YfsListing); unlink frees
      the blocks of a file and removes its name only (YfsUnlink).  A file that
      grows, over any number of inodes, is a byte string under writes and reads
      (YfsBytes); create and mkdir work in directories whose blocks are all full,
      and what they make is found (YfsCreate); a file that is created, used and
      removed leaves no block in use (YfsLife); readlink returns what symlink was
      given (YfsSymlink).  All together: a directory is a map from names to byte
      strings under any sequence of create, write, read, unlink and readdir, and so
      is the root of a file system just formatted, over every store (YfsVolume).
      Reads are exact up to zeroes behind the end of the file ([read_gives]).
    - Requests of the kernel: each is answered once with a reply of its kind, and
      listings come in pieces of one buffer (FuseSpec); a file is created, written, read, found and removed as
      a byte string under its name (FuseFile).
    - The test programs: test-lab-2-a and test-lab-2-b end with exit code 0 on every
      kernel that does what POSIX says, whatever the schedule of their processes
      (FsTesterA, FsTesterSpec), so that a failure they report is one of the file
      system; what dircheck accepts, and what check1 does not see (FsTesterSpec).
    - Where the code does something else than it means to, a theorem states what
      it does, with a run or for every state in which it happens: reads past the
      end, resizing, bytes that come back after a file was made shorter, names
      in later directory blocks, issym, lost locks, truncated lock ids,
      uninitialised dirty flags, failed flushes, freed reply buffers, a leaked
      reference, a callback on a dead connection, normalisation of times, data
      that the test program does not compare, a spurious wakeup in
      block_remove_fd, is_watched over epoll, stubs that do not fit the server,
      a null connection, connections that are never freed, handles that are
      assigned to, EEXIST that is never sent.

    ** Bounds and fuel

    Loops that are not structural take fuel and answer [OutOfFuel] when it is
    used up; no theorem about a returned result assumes that it is enough without
    saying how much.  The loop of call1 needs 23, whatever the timeout, unless
    its final deadline is invalid; then no fuel is enough, which is a theorem.  The
    loops over one directory block have 8, since the seventh entry would leave
    the block.  The loops of a file or directory need one more than its blocks,
    the allocator one more than the number of the block it finds; theorems about
    files that grow say how many data blocks ([N]) they may have, and ask for as
    many free blocks as these and their inodes need.  The polling
    loop of extent_server::get never ends on a missing block, which is a theorem
    about every fuel.

    ** Environment

    Taken from outside the sources are the contents of fresh memory ([HeapJunk],
    [garbage], [junk]), the clock ([time], [round]), what each system call on a
    socket transfers ([rio]), which descriptors select reports, whether a bind
    succeeds, which waiting thread a signal wakes, and the network.  Condition
    variables may wake up without a signal, except where a theorem about
    termination says otherwise.  The theorems about the test programs ask for a
    kernel whose calls do not run out of resources and write everything.  Nothing is assumed of the rest
    but, in the termination of call1, that waiting until a deadline takes until
    the deadline, and of the FUSE library that fuse_add_dirent writes as many
    bytes as fuse_dirent_size says.  Remote calls of the lock protocol are
    executed once and answered (a client to which the server cannot bind fails an
    assertion of the server); in the coherence of the caches so are the calls of
    the extent server, while the dirty flag of a fresh cache entry, which its
    constructor does not set, may be anything at every use.  accept and socket return descriptors that are not open.  Of the kernel
    below the test programs [KernelLaws] is assumed: every call returns and has the
    effect that POSIX documents, and both mounts show one file system.  These laws
    are the contract of the mounted file system as a whole and are not derived from
    the model of fuse.cc: they ask for O_APPEND, truncation by creat and atomic
    calls, for which the kernel's part of FUSE would have to be modelled.

    ** Not modelled

    The listening socket, main of fuse.cc, logging, process start-up, and the
    threads of the concurrent and lossy tests in rpctest.cc, whose calls run over a
    lossy network for minutes of wall-clock time.  Lossy testing (RPC_LOSSY) is off
    in RpcSession.  gettime.cc is a clock for another platform, and the templates of
    rpc/method_thread.h only start a thread on a method. *)
From stdpp Require Export base tactics decidable numbers list gmap fin_maps sets strings.

(** * Results of running a piece of C++ code

    [Ret] is a normal return.  The other constructors are the ways in which a
    run of the code does not return: a failed [VERIFY] (lang/verify.h), an
    operation the language leaves undefined (out-of-bounds access, use of a
    null pointer), a thread that waits for ever (a mutex or a lock that nobody
    can give back, a polling loop that never succeeds), and the exhaustion of
    the fuel of a loop whose termination is not structural. *)
Inductive res (A : Type) : Type :=
  | Ret (a : A)
  | VerifyFailed
  | Undef
  | Blocked
  | OutOfFuel.
Arguments Ret {A} a.
Arguments VerifyFailed {A}.
Arguments Undef {A}.
Arguments Blocked {A}.
Arguments OutOfFuel {A}.

#[export] Instance res_ret : MRet res := @Ret.
#[export] Instance res_bind : MBind res := λ A B f m,
  match m with
  | Ret a => f a
  | VerifyFailed => VerifyFailed
  | Undef => Undef
  | Blocked => Blocked
  | OutOfFuel => OutOfFuel
  end.
#[export] Instance res_fmap : FMap res := λ A B f m, m ≫= λ a, Ret (f a).

Definition VERIFY (b : bool) : res unit := if b then Ret tt else VerifyFailed.

(** Stateful code: explicit state passing with the outcomes above. *)
Definition ST (S A : Type) : Type := S → res (A * S).

#[export] Instance st_ret S : MRet (ST S) := λ A a s, Ret (a, s).
#[export] Instance st_bind S : MBind (ST S) := λ A B f m s,
  match m s with
  | Ret (a, s') => f a s'
  | VerifyFailed => VerifyFailed
  | Undef => Undef
  | Blocked => Blocked
  | OutOfFuel => OutOfFuel
  end.

Definition st_get {S} : ST S S := λ s, Ret (s, s).
Definition st_mod {S} (f : S → S) : ST S unit := λ s, Ret (tt, f s).
Definition st_lift {S A} (r : res A) : ST S A := λ s, r ≫= λ a, Ret (a, s).
Definition st_block {S A} : ST S A := λ _, Blocked.
Definition st_undef {S A} : ST S A := λ _, Undef.
Definition st_fuel {S A} : ST S A := λ _, OutOfFuel.

(** * Integers at their width

    An unsigned w-bit value is a [Z] in [0, 2^w); conversions wrap. *)
Definition uwrap (w z : Z) : Z := (z `mod` 2 ^ w)%Z.
Definition swrap (w z : Z) : Z :=
  ((z + 2 ^ (w - 1)) `mod` 2 ^ w - 2 ^ (w - 1))%Z.

Abbreviation u8 := (uwrap 8).
Abbreviation u16 := (uwrap 16).
Abbreviation u32 := (uwrap 32).
Abbreviation u64 := (uwrap 64).
Abbreviation s8 := (swrap 8).
Abbreviation s16 := (swrap 16).
Abbreviation s32 := (swrap 32).
Abbreviation s64 := (swrap 64).

(** The k-th byte of an integer: [(x >> 8k) & 0xff]. *)
Definition byte_at (k x : Z) : Z := Z.land (Z.shiftr x (8 * k)) 255.

Arguments uwrap : simpl never.
Arguments swrap : simpl never.
Arguments byte_at : simpl never.

(** Little-endian codes (the in-memory layout of the x86-64 target). *)
Fixpoint le_bytes (n : nat) (x : Z) : list Z :=
  match n with
  | O => []
  | S n => (x `mod` 256)%Z :: le_bytes n (x `div` 256)%Z
  end.

Fixpoint le_val (bs : list Z) : Z :=
  match bs with
  | [] => 0%Z
  | b :: bs => (b + 256 * le_val bs)%Z
  end.

Definition is_byte (b : Z) : Prop := (0 ≤ b < 256)%Z.

(** * Buffers: [memcpy] out of and into a byte array *)
Definition slice {A} (off n : nat) (l : list A) : list A := take n (drop off l).

Definition splice {A} (off : nat) (bs l : list A) : list A :=
  take off l ++ bs ++ drop (off + length bs) l.

(** [std::map::operator[]] on a missing key creates the default value. *)
Definition mget {K A} `{Countable K} (d : A) (m : gmap K A) (k : K) : A :=
  default d (m !! k).

(** * Automation *)
Create HintDb yfs.
Create Rewrite HintDb yfs.

(** Running stateful code: the first step of a run, and the two parts of a run
    that returned. *)
Lemma bind_run {S A B} (p : ST S A) (f : A → ST S B) s a s1 :
  p s = Ret (a, s1) → (p ≫= f) s = f a s1.
Proof. unfold mbind, st_bind. by intros ->. Qed.

Lemma bind_ret {S A B} (p : ST S A) (f : A → ST S B) s r s2 :
  (p ≫= f) s = Ret (r, s2) → ∃ a s1, p s = Ret (a, s1) ∧ f a s1 = Ret (r, s2).
Proof. unfold mbind, st_bind. destruct (p s) as [[a s1]| | | |]; try done. eauto. Qed.

(** [run E]: the next step of the goal's run is the one that [E] describes. *)
Tactic Notation "run" uconstr(E) := rewrite (bind_run _ _ _ _ _ E).

(** Decidable facts of concrete data, by evaluation. *)
Ltac by_vm :=
  lazymatch goal with
  | |- _ = _ => vm_compute; reflexivity
  | |- is_Some _ => vm_compute; by eexists
  | _ => apply (bool_decide_unpack _); vm_compute; exact I
  end.

(** Splits a run [m ≫= f = Ret _] of either monad into its two parts. *)
Ltac inv_ret :=
  repeat match goal with
  | H : Ret _ = Ret _ |- _ => injection H as H; try subst
  | H : VerifyFailed = Ret _ |- _ => discriminate H
  | H : Undef = Ret _ |- _ => discriminate H
  | H : Blocked = Ret _ |- _ => discriminate H
  | H : OutOfFuel = Ret _ |- _ => discriminate H
  | H : (_, _) = (_, _) |- _ => injection H as ?; try subst
  end.

Ltac zbool :=
  repeat match goal with
  | H : (_ <=? _)%Z = true |- _ => apply Z.leb_le in H
  | H : (_ <=? _)%Z = false |- _ => apply Z.leb_gt in H
  | H : (_ <? _)%Z = true |- _ => apply Z.ltb_lt in H
  | H : (_ <? _)%Z = false |- _ => apply Z.ltb_ge in H
  | H : (_ =? _)%Z = true |- _ => apply Z.eqb_eq in H
  | H : (_ =? _)%Z = false |- _ => apply Z.eqb_neq in H
  end.

(** * Lemmas on integers *)
Section integers.
Local Open Scope Z_scope.

Lemma uwrap_small w z : 0 ≤ z < 2 ^ w → uwrap w z = z.
Proof. intros. by apply Z.mod_small. Qed.

Lemma uwrap_range w z : 0 ≤ w → 0 ≤ uwrap w z < 2 ^ w.
Proof. intros. apply Z.mod_pos_bound. lia. Qed.

Lemma swrap_small w z : - 2 ^ (w - 1) ≤ z < 2 ^ (w - 1) → 0 < w → swrap w z = z.
Proof.
  intros Hz Hw. unfold swrap.
  replace (2 ^ w) with (2 * 2 ^ (w - 1)).
  - rewrite Z.mod_small; lia.
  - replace w with (1 + (w - 1)) at 2 by lia. rewrite Z.pow_add_r; lia.
Qed.

Lemma swrap_uwrap w z : 0 < w → swrap w (uwrap w z) = swrap w z.
Proof. intros Hw. unfold swrap, uwrap. by rewrite Zplus_mod_idemp_l. Qed.

Lemma uwrap_swrap w z : 0 < w → uwrap w (swrap w z) = uwrap w z.
Proof.
  intros Hw. unfold swrap, uwrap.
  rewrite Zminus_mod_idemp_l. f_equal. lia.
Qed.

Lemma uwrap_idemp w z : uwrap w (uwrap w z) = uwrap w z.
Proof. unfold uwrap. apply Zmod_mod. Qed.

Lemma land_255 x : Z.land x 255 = x `mod` 256.
Proof. apply (Z.land_ones x 8). lia. Qed.

Lemma byte_at_div k x : 0 ≤ k → byte_at k x = (x `div` 2 ^ (8 * k)) `mod` 256.
Proof. intros. unfold byte_at. rewrite land_255, Z.shiftr_div_pow2; [done|lia]. Qed.

Lemma byte_at_range k x : is_byte (byte_at k x).
Proof. unfold byte_at, is_byte. rewrite land_255. apply Z.mod_pos_bound. lia. Qed.

Lemma length_le_bytes n x : length (le_bytes n x) = n.
Proof. revert x. induction n; intros; simpl; auto. Qed.

Lemma le_val_bytes n x : le_val (le_bytes n x) = x `mod` 2 ^ (8 * Z.of_nat n).
Proof.
  revert x. induction n as [|n IH]; intros x.
  - change (8 * Z.of_nat 0) with 0. rewrite Z.pow_0_r, Z.mod_1_r. done.
  - cbn [le_bytes le_val]. rewrite IH.
    replace (8 * Z.of_nat (S n)) with (8 + 8 * Z.of_nat n) by lia.
    rewrite Z.pow_add_r by lia. change (2 ^ 8) with 256.
    rewrite Z.rem_mul_r by lia. lia.
Qed.

Lemma le_bytes_is_byte n x : Forall is_byte (le_bytes n x).
Proof.
  revert x. induction n; intros; simpl; constructor; auto.
  apply Z.mod_pos_bound. lia.
Qed.

Lemma le_val_range bs :
  Forall is_byte bs → 0 ≤ le_val bs < 2 ^ (8 * Z.of_nat (length bs)).
Proof.
  induction 1 as [|b bs Hb _ IH]; simpl; [lia|].
  replace (8 * Z.of_nat (S (length bs))) with (8 + 8 * Z.of_nat (length bs)) by lia.
  rewrite Z.pow_add_r by lia. unfold is_byte in Hb. lia.
Qed.

Lemma le_bytes_val bs : Forall is_byte bs → le_bytes (length bs) (le_val bs) = bs.
Proof.
  induction 1 as [|b bs Hb _ IH]; [done|]. cbn [length le_val le_bytes].
  unfold is_byte in Hb.
  rewrite (Z.add_comm b), Z.mul_comm, Z.div_add_l by lia.
  rewrite Z.add_comm, Z_mod_plus_full, Z.mod_small, Z.div_small by lia.
  by rewrite Z.add_0_r, IH.
Qed.

Lemma lor_shiftl_low a b k :
  0 ≤ k → 0 ≤ b < 2 ^ k → Z.lor (a ≪ k) b = a * 2 ^ k + b.
Proof.
  intros Hk Hb. rewrite <- Z.add_nocarry_lor; [by rewrite Z.shiftl_mul_pow2|].
  apply Z.bits_inj'. intros i Hi. rewrite Z.land_spec, Z.bits_0.
  destruct (decide (i < k)).
  - by rewrite Z.shiftl_spec_low.
  - rewrite <- (Z.mod_small b (2 ^ k)), Z.mod_pow2_bits_high by lia.
    apply andb_false_r.
Qed.

Lemma s8_byte_land b : is_byte b → Z.land (u32 (s8 b)) 255 = b.
Proof.
  unfold is_byte. intros Hb. rewrite land_255.
  assert (s8 b = b ∨ s8 b = b - 256) as [->| ->].
  { unfold swrap. change (2 ^ (8 - 1)) with 128. change (2 ^ 8) with 256.
    destruct (decide (b < 128)).
    - left. rewrite Z.mod_small; lia.
    - right. replace (b + 128) with (b - 128 + 1 * 256) by lia.
      rewrite Z_mod_plus_full, Z.mod_small; lia. }
  - rewrite uwrap_small, Z.mod_small; lia.
  - unfold uwrap. change (2 ^ 32) with (256 * 16777216).
    rewrite Z.rem_mul_r, Z.mul_comm, Z_mod_plus_full, Zmod_mod by lia.
    replace (b - 256) with (b + (-1) * 256) by lia.
    rewrite Z_mod_plus_full, Z.mod_small; lia.
Qed.
End integers.

(** * Lemmas on buffers *)
Section buffers.
Context {A : Type}.
Implicit Types l bs : list A.

Lemma length_slice off n l : off + n ≤ length l → length (slice off n l) = n.
Proof. intros. unfold slice. rewrite length_take, length_drop. lia. Qed.

Lemma length_splice off bs l :
  off + length bs ≤ length l → length (splice off bs l) = length l.
Proof.
  intros. unfold splice. rewrite !length_app, length_take, length_drop. lia.
Qed.

Lemma slice_splice_eq off bs l :
  off ≤ length l → slice off (length bs) (splice off bs l) = bs.
Proof.
  intros. unfold slice, splice.
  rewrite drop_app_length' by (rewrite length_take; lia).
  by rewrite take_app_length.
Qed.

Lemma slice_splice_before off n off' bs l :
  off + n ≤ off' → off' ≤ length l → slice off n (splice off' bs l) = slice off n l.
Proof.
  intros. unfold slice, splice. rewrite drop_app_le by (rewrite length_take; lia).
  rewrite take_app_le by (rewrite length_drop, length_take; lia).
  rewrite skipn_firstn_comm, take_take. f_equal. lia.
Qed.

Lemma slice_splice_after off n off' bs l :
  off' + length bs ≤ off → off' + length bs ≤ length l →
  slice off n (splice off' bs l) = slice off n l.
Proof.
  intros. unfold slice, splice.
  rewrite drop_app_ge by (rewrite length_take; lia).
  rewrite drop_app_ge by (rewrite length_take; lia).
  rewrite drop_drop, length_take. f_equal. f_equal. lia.
Qed.

Lemma slice_slice off n off' n' l :
  off' + n' ≤ n → slice off' n' (slice off n l) = slice (off + off') n' l.
Proof.
  intros. unfold slice. rewrite skipn_firstn_comm, take_take, drop_drop.
  f_equal. lia.
Qed.

Lemma splice_splice_app off a b l :
  off + length a ≤ length l →
  splice (off + length a) b (splice off a l) = splice off (a ++ b) l.
Proof.
  intros. unfold splice.
  rewrite (take_app_ge (take off l)) by (rewrite length_take; lia).
  rewrite take_app_ge by (rewrite length_take; lia).
  rewrite length_take.
  replace (off + length a - off `min` length l - length a) with 0 by lia.
  rewrite take_0, app_nil_r.
  rewrite (drop_app_ge (take off l)) by (rewrite length_take; lia).
  rewrite drop_app_ge by (rewrite length_take; lia).
  rewrite drop_drop, length_take, length_app, <- !app_assoc.
  do 4 f_equal. lia.
Qed.

Lemma take_splice off bs l :
  off ≤ length l → take (off + length bs) (splice off bs l) = take off l ++ bs.
Proof.
  intros. unfold splice. rewrite app_assoc, take_app_length'; [done|].
  rewrite length_app, length_take. lia.
Qed.

Lemma take_splice_inside n off bs l :
  off + length bs ≤ n → n ≤ length l →
  take n (splice off bs l) = splice off bs (take n l).
Proof.
  intros. unfold splice. rewrite take_take, Nat.min_l by lia.
  rewrite take_app_ge by (rewrite length_take; lia). f_equal.
  rewrite length_take, take_app_ge by lia. f_equal.
  rewrite skipn_firstn_comm. f_equal. lia.
Qed.

Lemma splice_Forall P off bs l :
  Forall P l → Forall P bs → Forall P (splice off bs l).
Proof.
  intros. unfold splice. apply Forall_app; split; [by apply Forall_take|].
  apply Forall_app; split; [done|]. by apply Forall_drop.
Qed.

Lemma slice_Forall P off n l : Forall P l → Forall P (slice off n l).
Proof. intros. unfold slice. by apply Forall_take, Forall_drop. Qed.

(** Splicing into a concatenation: inside the first part, or across the joint. *)
Lemma splice_app_l off bs l r :
  off + length bs ≤ length l → splice off bs (l ++ r) = splice off bs l ++ r.
Proof.
  intros. unfold splice. rewrite take_app_le, drop_app_le by lia. by rewrite !app_assoc.
Qed.

Lemma splice_app_split off bs bs' l r :
  off + length bs = length l → splice off (bs ++ bs') (l ++ r) = splice off bs l ++ splice 0 bs' r.
Proof.
  intros. unfold splice. rewrite length_app, take_app_le, (drop_ge l) by lia.
  rewrite drop_app_ge by lia. rewrite <- !app_assoc. simpl. do 3 f_equal. f_equal. lia.
Qed.

Lemma lookup_splice_ne off bs l (i : nat) :
  off ≤ length l → i < off ∨ off + length bs ≤ i →
  splice off bs l !! i = l !! i.
Proof.
  intros Hl [Hi|Hi]; unfold splice.
  - rewrite lookup_app_l by (rewrite length_take; lia).
    rewrite lookup_take. case_decide; [done|lia].
  - rewrite lookup_app_r by (rewrite length_take; lia).
    rewrite length_take, lookup_app_r by lia.
    rewrite lookup_drop. f_equal. lia.
Qed.
End buffers.

Section maps.
Context {K A : Type} `{Countable K}.
Implicit Types (m : gmap K A) (d x : A).

Lemma mget_insert_eq d m k x : mget d (<[k:=x]> m) k = x.
Proof. unfold mget. by rewrite lookup_insert_eq. Qed.

Lemma mget_insert_ne d m k k' x : k ≠ k' → mget d (<[k:=x]> m) k' = mget d m k'.
Proof. intros. unfold mget. by rewrite lookup_insert_ne. Qed.

Lemma mget_empty d k : mget d (∅ : gmap K A) k = d.
Proof. unfold mget. by rewrite lookup_empty. Qed.
End maps.

(** * Counting the elements of a list with a property *)
Definition num {A} (p : A → bool) (l : list A) : nat := sum_list_with (Nat.b2n ∘ p) l.

Section counting.
Context {A : Type}.
Implicit Types (p : A → bool) (l : list A).

Lemma num_app p l l' : num p (l ++ l') = (num p l + num p l')%nat.
Proof. apply sum_list_with_app. Qed.

Lemma num_singleton p x : num p [x] = Nat.b2n (p x).
Proof. unfold num. simpl. lia. Qed.

Lemma sum_insert (f : A → nat) l i t t' :
  l !! i = Some t → (sum_list_with f (<[i := t']> l) + f t = sum_list_with f l + f t')%nat.
Proof.
  revert i. induction l as [|u l IH]; intros [|i] Hi; simplify_eq/=; [lia|].
  specialize (IH i Hi). lia.
Qed.

Lemma num_insert p l i t t' :
  l !! i = Some t → (num p (<[i := t']> l) + Nat.b2n (p t) = num p l + Nat.b2n (p t'))%nat.
Proof. apply (sum_insert (Nat.b2n ∘ p)). Qed.

Lemma num_pos p l i t : l !! i = Some t → p t = true → (0 < num p l)%nat.
Proof.
  unfold num. revert i. induction l as [|u l IH]; intros [|i] Hi Hp; simplify_eq/=.
  - rewrite Hp. simpl. lia.
  - specialize (IH i Hi Hp). lia.
Qed.

Lemma num_pos_inv p l : (0 < num p l)%nat → ∃ i t, l !! i = Some t ∧ p t = true.
Proof.
  unfold num. induction l as [|u l IH]; simpl; intros Hn; [lia|].
  destruct (p u) eqn:E; [by exists 0%nat, u|].
  destruct IH as (i & t & ? & ?); [simpl in Hn; lia|]. by exists (S i), t.
Qed.

Lemma num_replicate p n x : num p (replicate n x) = (n * Nat.b2n (p x))%nat.
Proof. unfold num. induction n; simpl; lia. Qed.

Lemma num_zero p l : Forall (λ x, p x = false) l → num p l = 0%nat.
Proof. unfold num. induction 1 as [|x l Hx _ IH]; simpl; [done|]. by rewrite Hx, IH. Qed.

Lemma num_neg p l : (num p l + num (negb ∘ p) l = length l)%nat.
Proof. unfold num. induction l as [|x l IH]; simpl; [lia|]. destruct (p x); simpl; lia. Qed.

Lemma num_length p l : (num p l ≤ length l)%nat.
Proof. pose proof (num_neg p l). lia. Qed.

Lemma num_lt_length p l i x : l !! i = Some x → p x = false → (num p l < length l)%nat.
Proof.
  intros Hi Hx. pose proof (num_neg p l). pose proof (num_pos (negb ∘ p) l i x Hi). simpl in *.
  rewrite Hx in *. simpl in *. lia.
Qed.

Lemma num_all p l : Forall (λ x, p x = true) l → num p l = length l.
Proof.
  intros H. pose proof (num_neg p l). rewrite (num_zero (negb ∘ p) l) in *; [lia|].
  eapply Forall_impl; [exact H|]. simpl. by intros x ->.
Qed.
End counting.

(** * How often an element occurs in a list *)
Definition count {A} `{EqDecision A} (c : A) (R : list A) : nat := num (λ x, bool_decide (x = c)) R.

Arguments count : simpl never.

Section count.
Context {A : Type} `{EqDecision A}.
Implicit Types (c x : A) (R : list A).

Lemma count_cons c x R : count c (x :: R) = (Nat.b2n (bool_decide (x = c)) + count c R)%nat.
Proof. done. Qed.

Lemma count_eq c R : count c (c :: R) = S (count c R).
Proof. by rewrite count_cons, bool_decide_true. Qed.

Lemma count_ne c x R : x ≠ c → count c (x :: R) = count c R.
Proof. intros. by rewrite count_cons, bool_decide_false. Qed.

Lemma count_app c R R' : count c (R ++ R') = (count c R + count c R')%nat.
Proof. apply num_app. Qed.

#[export] Instance count_perm c : Proper ((≡ₚ) ==> (=)) (count c).
Proof. intros R R' Hp. unfold count, num. induction Hp; simpl; lia. Qed.

Lemma count_pos c R : c ∈ R ↔ (0 < count c R)%nat.
Proof.
  induction R as [|x R IH]; [rewrite elem_of_nil; unfold count, num; simpl; lia|]. rewrite elem_of_cons.
  destruct (decide (x = c)) as [->|Hne]; [rewrite count_eq; naive_solver lia|].
  rewrite count_ne by done. naive_solver.
Qed.

Lemma count_zero c R : c ∉ R → count c R = 0%nat.
Proof. rewrite count_pos. lia. Qed.
End count.

#[export] Hint Rewrite @mget_insert_eq @mget_empty : yfs.
#[export] Hint Resolve byte_at_range le_bytes_is_byte uwrap_range : yfs.
