(* ===== verification/Marshall.v ===== *)
(** The wire format of the RPC library: [class marshall] and
    [class unmarshall] of rpc/marshall.h, their operators [<<] and [>>] in
    rpc/rpc.cc, the two RPC headers, and the codec of
    [extent_protocol::attr].

    A buffer is the list of its bytes.  Memory obtained from malloc or realloc
    holds the bytes [heap_junk], about which nothing is assumed.  An operator
    pair [<<]/[>>] for a C++ type is a [codec]; [CodecOk] is the contract the
    RPC layers rely on: [<<] appends the encoding of a value, and [>>] on a
    buffer that starts with this encoding gives the value back and leaves the
    rest. *)
From stdpp Require Import sorting.
From S2P Require Import Prelude.
Local Open Scope Z_scope.

Class HeapJunk := heap_junk : nat → Z.

Definition DEFAULT_RPC_SZ : Z := 1024.
Definition sizeof_rpc_sz_t : Z := 4.

Record req_header := ReqHeader {
  rq_xid : Z; rq_proc : Z; rq_clt_nonce : Z; rq_srv_nonce : Z; rq_xid_rep : Z }.
Record reply_header := ReplyHeader { rp_xid : Z; rp_ret : Z }.

(** [static_max<sizeof(req_header), sizeof(reply_header)>] + sizeof(rpc_sz_t);
    five and two 4-byte fields, RPC_CHECKSUMMING is off. *)
Definition RPC_HEADER_SZ : Z := Z.max (5 * 4) (2 * 4) + sizeof_rpc_sz_t.

(** ** class marshall *)
Record marshall := Marshall { m_buf : list Z; m_capa : Z; m_ind : Z }.

Record unmarshall := Unmarshall {
  u_buf : list Z; u_sz : Z; u_ind : Z; u_ok : bool }.

Section writer.
Context `{HeapJunk}.

Definition malloc (n : Z) : list Z := heap_junk <$> seq 0 (Z.to_nat n).

Definition realloc (b : list Z) (n : Z) : list Z :=
  take (Z.to_nat n) b ++
  (heap_junk <$> seq (length b) (Z.to_nat n - length b)).

Definition marshall_new : marshall :=
  Marshall (malloc DEFAULT_RPC_SZ) DEFAULT_RPC_SZ RPC_HEADER_SZ.

(** [_buf[_ind++] = x], after doubling a full buffer. *)
Definition m_rawbyte (x : Z) (m : marshall) : marshall :=
  let m := if m_capa m <=? m_ind m
           then Marshall (realloc (m_buf m) (m_capa m * 2)) (m_capa m * 2) (m_ind m)
           else m in
  Marshall (splice (Z.to_nat (m_ind m)) [u8 x] (m_buf m)) (m_capa m) (m_ind m + 1).

Definition m_rawbytes (p : list Z) (n : Z) (m : marshall) : marshall :=
  let m := if m_capa m <? m_ind m + n
           then let capa := if n <? m_capa m then 2 * m_capa m else m_capa m + n in
                Marshall (realloc (m_buf m) capa) capa (m_ind m)
           else m in
  Marshall (splice (Z.to_nat (m_ind m)) (take (Z.to_nat n) p) (m_buf m))
    (m_capa m) (m_ind m + n).

Definition m_pack (x : Z) (m : marshall) : marshall :=
  m_rawbyte (byte_at 0 x) (m_rawbyte (byte_at 1 x)
    (m_rawbyte (byte_at 2 x) (m_rawbyte (byte_at 3 x) m))).

Definition set_ind (i : Z) (m : marshall) : marshall :=
  Marshall (m_buf m) (m_capa m) i.

Definition pack_req_header (h : req_header) (m : marshall) : marshall :=
  let saved_sz := m_ind m in
  let m := set_ind sizeof_rpc_sz_t m in
  let m := m_pack (rq_xid h) m in
  let m := m_pack (rq_proc h) m in
  let m := m_pack (s32 (rq_clt_nonce h)) m in
  let m := m_pack (s32 (rq_srv_nonce h)) m in
  let m := m_pack (rq_xid_rep h) m in
  set_ind saved_sz m.

Definition pack_reply_header (h : reply_header) (m : marshall) : marshall :=
  let saved_sz := m_ind m in
  let m := set_ind sizeof_rpc_sz_t m in
  let m := m_pack (rp_xid h) m in
  let m := m_pack (rp_ret h) m in
  set_ind saved_sz m.

(** The bytes [_buf, _buf + _ind): what [cstr()]/[size()] and [take_buf] give. *)
Definition m_bytes (m : marshall) : list Z := take (Z.to_nat (m_ind m)) (m_buf m).

(** [get_content()] and [str()]: the same without the header. *)
Definition get_content (m : marshall) : list Z :=
  slice (Z.to_nat RPC_HEADER_SZ) (Z.to_nat (m_ind m - RPC_HEADER_SZ)) (m_buf m).

(** *** operator<< *)
Definition m_uchar (x : Z) : marshall → marshall := m_rawbyte x.
Definition m_bool (x : bool) : marshall → marshall := m_rawbyte (Z.b2z x).
Definition m_char (x : Z) : marshall → marshall := m_uchar (u8 x).
Definition m_ushort (x : Z) (m : marshall) : marshall :=
  m_rawbyte (byte_at 0 x) (m_rawbyte (byte_at 1 x) m).
Definition m_short (x : Z) : marshall → marshall := m_ushort (u16 x).
Definition m_uint (x : Z) (m : marshall) : marshall :=
  m_rawbyte (byte_at 0 x) (m_rawbyte (byte_at 1 x)
    (m_rawbyte (byte_at 2 x) (m_rawbyte (byte_at 3 x) m))).
Definition m_int (x : Z) : marshall → marshall := m_uint (u32 x).
Definition m_string (s : list Z) (m : marshall) : marshall :=
  m_rawbytes s (s32 (Z.of_nat (length s))) (m_uint (u32 (Z.of_nat (length s))) m).
Definition m_ull (x : Z) (m : marshall) : marshall :=
  m_uint (u32 x) (m_uint (u32 (x ≫ 32)) m).
End writer.

(** ** class unmarshall *)
Definition unmarshall_new : unmarshall := Unmarshall [] 0 0 false.
Definition unmarshall_of (b : list Z) (sz : Z) : unmarshall := Unmarshall b sz 0 true.

(** [unmarshall(const std::string &s)], that is [take_content]: the string is
    placed after RPC_HEADER_SZ bytes of fresh memory. *)
Definition take_content `{HeapJunk} (s : list Z) : unmarshall :=
  Unmarshall (malloc RPC_HEADER_SZ ++ s) (Z.of_nat (length s) + RPC_HEADER_SZ)
    RPC_HEADER_SZ true.

Definition okdone (u : unmarshall) : bool := u_ok u && (u_ind u =? u_sz u).

Definition advance (n : Z) (u : unmarshall) : unmarshall :=
  Unmarshall (u_buf u) (u_sz u) (u_ind u + n) (u_ok u).
Definition u_fail (u : unmarshall) : unmarshall :=
  Unmarshall (u_buf u) (u_sz u) (u_ind u) false.
Definition u_set_ind (i : Z) (u : unmarshall) : unmarshall :=
  Unmarshall (u_buf u) (u_sz u) i (u_ok u).

(** A [char] is signed: the byte is sign-extended into the unsigned result. *)
Definition u_rawbyte (u : unmarshall) : Z * unmarshall :=
  if u_sz u <=? u_ind u then (0, u_fail u)
  else (u32 (s8 (u_buf u !!! Z.to_nat (u_ind u))), advance 1 u).

(** The bounds test is made on unsigned 32-bit values; reading outside the
    buffer is undefined. *)
Definition u_rawbytes (ss : list Z) (n : Z) (u : unmarshall) : res (list Z * unmarshall) :=
  if u32 (u_sz u) <? u32 (u_ind u + n) then Ret (ss, u_fail u)
  else if Z.of_nat (length (u_buf u)) <? u_ind u + n then Undef
  else Ret (slice (Z.to_nat (u_ind u)) (Z.to_nat n) (u_buf u), advance n u).

Definition take_buf (u : unmarshall) : (list Z * Z) * unmarshall :=
  ((u_buf u, u_sz u), Unmarshall [] 0 0 (u_ok u)).

Definition take_in (u another : unmarshall) : unmarshall * unmarshall :=
  let '((b, sz), another) := take_buf another in
  (Unmarshall b sz RPC_HEADER_SZ (RPC_HEADER_SZ <=? sz), another).

(** Four bytes, most significant first, as in [operator>>(unsigned int)]. *)
Definition u_word (u : unmarshall) : Z * unmarshall :=
  let '(b0, u) := u_rawbyte u in
  let x := Z.land b0 255 ≪ 24 in
  let '(b1, u) := u_rawbyte u in
  let x := Z.lor x (Z.land b1 255 ≪ 16) in
  let '(b2, u) := u_rawbyte u in
  let x := Z.lor x (Z.land b2 255 ≪ 8) in
  let '(b3, u) := u_rawbyte u in
  (Z.lor x (Z.land b3 255), u).

Definition u_unpack (u : unmarshall) : Z * unmarshall :=
  let '(x, u) := u_word u in (s32 x, u).

Definition unpack_req_header (u : unmarshall) : req_header * unmarshall :=
  let u := u_set_ind sizeof_rpc_sz_t u in
  let '(xid, u) := u_unpack u in
  let '(proc, u) := u_unpack u in
  let '(clt, u) := u_unpack u in
  let '(srv, u) := u_unpack u in
  let '(rep, u) := u_unpack u in
  (ReqHeader xid proc (u32 clt) (u32 srv) rep, u_set_ind RPC_HEADER_SZ u).

Definition unpack_reply_header (u : unmarshall) : reply_header * unmarshall :=
  let u := u_set_ind sizeof_rpc_sz_t u in
  let '(xid, u) := u_unpack u in
  let '(ret, u) := u_unpack u in
  (ReplyHeader xid ret, u_set_ind RPC_HEADER_SZ u).

(** *** operator>> : the previous value of the variable, then the reader *)
Definition u_bool (_ : bool) (u : unmarshall) : res (bool * unmarshall) :=
  let '(b, u) := u_rawbyte u in Ret (negb (b =? 0), u).
Definition u_uchar (_ : Z) (u : unmarshall) : res (Z * unmarshall) :=
  let '(b, u) := u_rawbyte u in Ret (u8 b, u).
Definition u_char (_ : Z) (u : unmarshall) : res (Z * unmarshall) :=
  let '(b, u) := u_rawbyte u in Ret (s8 b, u).
Definition u_half (u : unmarshall) : Z * unmarshall :=
  let '(b0, u) := u_rawbyte u in
  let '(b1, u) := u_rawbyte u in
  (Z.lor (Z.land b0 255 ≪ 8) (Z.land b1 255), u).
Definition u_ushort (_ : Z) (u : unmarshall) : res (Z * unmarshall) :=
  let '(x, u) := u_half u in Ret (u16 x, u).
Definition u_short (_ : Z) (u : unmarshall) : res (Z * unmarshall) :=
  let '(x, u) := u_half u in Ret (s16 x, u).
Definition u_uint (_ : Z) (u : unmarshall) : res (Z * unmarshall) :=
  let '(x, u) := u_word u in Ret (u32 x, u).
Definition u_int (_ : Z) (u : unmarshall) : res (Z * unmarshall) :=
  let '(x, u) := u_word u in Ret (s32 x, u).
Definition u_ull (_ : Z) (u : unmarshall) : res (Z * unmarshall) :=
  '(h, u) ← u_uint 0 u;
  '(l, u) ← u_uint 0 u;
  Ret (Z.lor l (h ≪ 32), u).
Definition u_string (s : list Z) (u : unmarshall) : res (list Z * unmarshall) :=
  '(sz, u) ← u_uint 0 u;
  if u_ok u then u_rawbytes s sz u else Ret (s, u).

(** ** Codecs: an operator pair and the value a fresh variable holds *)
Record codec `{HeapJunk} (A : Type) := Codec {
  m_put : A → marshall → marshall;
  u_take : A → unmarshall → res (A * unmarshall);
  fresh : A }.
Arguments Codec {_ A} _ _ _.
Arguments m_put {_ A} _ _ _.
Arguments u_take {_ A} _ _ _.
Arguments fresh {_ A} _.

Section codecs.
Context `{HeapJunk}.

Definition c_bool : codec bool := Codec m_bool u_bool false.
Definition c_uchar : codec Z := Codec m_uchar u_uchar 0.
Definition c_char : codec Z := Codec m_char u_char 0.
Definition c_ushort : codec Z := Codec m_ushort u_ushort 0.
Definition c_short : codec Z := Codec m_short u_short 0.
Definition c_uint : codec Z := Codec m_uint u_uint 0.
Definition c_int : codec Z := Codec m_int u_int 0.
Definition c_ull : codec Z := Codec m_ull u_ull 0.
Definition c_string : codec (list Z) := Codec m_string u_string [].

(** [m << a << b] and [u >> a; u >> b]: the arguments of a call in order. *)
Definition c_pair {A B} (ca : codec A) (cb : codec B) : codec (A * B) :=
  Codec (λ '(a, b) m, m_put cb b (m_put ca a m))
        (λ '(a, b) u,
           '(a, u) ← u_take ca a u;
           '(b, u) ← u_take cb b u;
           Ret ((a, b), u))
        (fresh ca, fresh cb).

(** std::vector: the size, then the elements.  [>>] pushes at the back of the
    vector it is given, which it does not clear. *)
Definition m_vector {A} (c : codec A) (v : list A) (m : marshall) : marshall :=
  foldl (λ m x, m_put c x m) (m_uint (u32 (Z.of_nat (length v))) m) v.

Fixpoint u_vector_loop {A} (c : codec A) (n : nat) (v : list A) (u : unmarshall)
    : res (list A * unmarshall) :=
  match n with
  | O => Ret (v, u)
  | S n => '(z, u) ← u_take c (fresh c) u; u_vector_loop c n (v ++ [z]) u
  end.

Definition u_vector {A} (c : codec A) (v : list A) (u : unmarshall)
    : res (list A * unmarshall) :=
  '(n, u) ← u_uint 0 u; u_vector_loop c (Z.to_nat n) v u.

Definition c_vector {A} (c : codec A) : codec (list A) :=
  Codec (m_vector c) (u_vector c) [].

(** std::map, iterated in the order of its keys: the size, then keys and values.
    [>>] clears the map it is given; a key that comes twice keeps the last value. *)
Definition map_entries {A B} `{Countable A} (le : relation A) `{∀ a b, Decision (le a b)} (d : gmap A B) : list (A * B) :=
  merge_sort (λ x y, le x.1 y.1) (map_to_list d).

Definition m_map {A B} `{Countable A} (le : relation A) `{∀ a b, Decision (le a b)} (ca : codec A) (cb : codec B)
    (d : gmap A B) (m : marshall) : marshall :=
  foldl (λ m ab, m_put (c_pair ca cb) ab m) (m_uint (u32 (Z.of_nat (size d))) m) (map_entries le d).

Fixpoint u_map_loop {A B} `{Countable A} (ca : codec A) (cb : codec B) (n : nat) (d : gmap A B) (u : unmarshall)
    : res (gmap A B * unmarshall) :=
  match n with
  | O => Ret (d, u)
  | S n =>
      '(a, u) ← u_take ca (fresh ca) u;
      '(b, u) ← u_take cb (fresh cb) u;
      u_map_loop ca cb n (<[a := b]> d) u
  end.

Definition u_map {A B} `{Countable A} (ca : codec A) (cb : codec B) (_ : gmap A B) (u : unmarshall)
    : res (gmap A B * unmarshall) :=
  '(n, u) ← u_uint 0 u; u_map_loop ca cb (Z.to_nat n) ∅ u.

Definition c_map {A B} `{Countable A} (le : relation A) `{∀ a b, Decision (le a b)} (ca : codec A) (cb : codec B)
    : codec (gmap A B) :=
  Codec (m_map le ca cb) (u_map ca cb) ∅.

(** extent_protocol.h *)
Record attr := Attr { a_atime : Z; a_mtime : Z; a_ctime : Z; a_size : Z }.

Definition m_attr (a : attr) (m : marshall) : marshall :=
  m_uint (a_size a) (m_uint (a_ctime a) (m_uint (a_mtime a) (m_uint (a_atime a) m))).

Definition u_attr (a : attr) (u : unmarshall) : res (attr * unmarshall) :=
  '(at', u) ← u_uint (a_atime a) u;
  '(mt', u) ← u_uint (a_mtime a) u;
  '(ct', u) ← u_uint (a_ctime a) u;
  '(sz', u) ← u_uint (a_size a) u;
  Ret (Attr at' mt' ct' sz', u).

Definition c_attr : codec attr := Codec m_attr u_attr (Attr 0 0 0 0).
End codecs.

(** * Contracts *)

(** The representation invariant of [class marshall]. *)
Definition m_inv (m : marshall) : Prop :=
  length (m_buf m) = Z.to_nat (m_capa m) ∧ 0 ≤ m_ind m ≤ m_capa m ∧ 0 < m_capa m.

Definition appends (f : marshall → marshall) (bs : list Z) : Prop :=
  ∀ m, m_inv m → m_inv (f m) ∧ m_bytes (f m) = m_bytes m ++ bs.

(** The unread bytes, and a reader in good state. *)
Definition rest (u : unmarshall) : list Z :=
  drop (Z.to_nat (u_ind u)) (take (Z.to_nat (u_sz u)) (u_buf u)).

Definition u_wf (u : unmarshall) : Prop :=
  0 ≤ u_ind u ≤ u_sz u ∧ u_sz u ≤ Z.of_nat (length (u_buf u)) ∧
  u_sz u < 2 ^ 31 ∧ u_ok u = true.

Definition reads {A} (f : unmarshall → res (A * unmarshall)) (bs : list Z) (a : A) : Prop :=
  ∀ u r, u_wf u → rest u = bs ++ r → f u = Ret (a, advance (Z.of_nat (length bs)) u).

Class CodecOk `{HeapJunk} {A} (c : codec A) := {
  valid : A → Prop;
  enc : A → list Z;
  put_ok : ∀ a, valid a → appends (m_put c a) (enc a);
  take_ok : ∀ a, valid a → reads (u_take c (fresh c)) (enc a) a }.
Arguments valid {_ A} c {_} _.
Arguments enc {_ A} c {_} _.

(** Big-endian words, as both directions of the code spell them. *)
Definition be4 (x : Z) : list Z := [byte_at 3 x; byte_at 2 x; byte_at 1 x; byte_at 0 x].
Definition be2 (x : Z) : list Z := [byte_at 1 x; byte_at 0 x].
Arguments be4 : simpl never.
Arguments be2 : simpl never.

Lemma be4_combine x :
  Z.lor (Z.lor (Z.lor (byte_at 3 x ≪ 24) (byte_at 2 x ≪ 16)) (byte_at 1 x ≪ 8))
    (byte_at 0 x) = u32 x.
Proof.
  pose proof (byte_at_range 0 x) as H0. pose proof (byte_at_range 1 x) as H1.
  pose proof (byte_at_range 2 x) as H2. unfold is_byte in *.
  rewrite <- !Z.lor_assoc.
  rewrite (lor_shiftl_low (byte_at 1 x)) by lia.
  rewrite (lor_shiftl_low (byte_at 2 x)) by lia.
  rewrite (lor_shiftl_low (byte_at 3 x)) by lia.
  pose proof (le_val_bytes 4 x) as E. cbn [le_bytes le_val] in E.
  rewrite !Z.div_div in E by lia. rewrite !byte_at_div by lia.
  change (u32 x) with (x `mod` 2 ^ (8 * Z.of_nat 4)). rewrite <- E.
  change (256 * 256 * 256) with 16777216. change (256 * 256) with 65536.
  change (2 ^ (8 * 0)) with 1. change (2 ^ (8 * 1)) with 256.
  change (2 ^ (8 * 2)) with 65536. change (2 ^ (8 * 3)) with 16777216.
  rewrite Z.div_1_r. lia.
Qed.

Lemma be2_combine x : Z.lor (byte_at 1 x ≪ 8) (byte_at 0 x) = u16 x.
Proof.
  pose proof (byte_at_range 0 x) as H0. unfold is_byte in *.
  rewrite lor_shiftl_low by lia.
  pose proof (le_val_bytes 2 x) as E. cbn [le_bytes le_val] in E.
  rewrite !byte_at_div by lia.
  change (u16 x) with (x `mod` 2 ^ (8 * Z.of_nat 2)). rewrite <- E.
  change (2 ^ (8 * 0)) with 1. change (2 ^ (8 * 1)) with 256.
  rewrite Z.div_1_r. lia.
Qed.

Lemma u8_byte_at k x : u8 (byte_at k x) = byte_at k x.
Proof. apply uwrap_small. apply byte_at_range. Qed.

(** ** Writer lemmas *)
Section writer_lemmas.
Context `{HeapJunk}.

Lemma length_malloc n : length (malloc n) = Z.to_nat n.
Proof. unfold malloc. by rewrite length_fmap, length_seq. Qed.

Lemma length_realloc b n :
  Z.of_nat (length b) ≤ n → length (realloc b n) = Z.to_nat n.
Proof.
  intros. unfold realloc. rewrite length_app, length_take, length_fmap, length_seq. lia.
Qed.

Lemma take_realloc b n k :
  (k ≤ length b)%nat → Z.of_nat (length b) ≤ n → take k (realloc b n) = take k b.
Proof.
  intros. unfold realloc. rewrite (take_ge b) by lia. by rewrite take_app_le.
Qed.

Lemma marshall_new_inv : m_inv marshall_new ∧ m_bytes marshall_new = take 24 (malloc 1024).
Proof. by repeat split. Qed.

Lemma length_m_bytes m : m_inv m → length (m_bytes m) = Z.to_nat (m_ind m).
Proof. intros (?&?&?). unfold m_bytes. rewrite length_take. lia. Qed.

(** Writing in place: there is room, nothing is reallocated. *)
Lemma write_appends (b : list Z) (capa ind : Z) (bs : list Z) :
  m_inv (Marshall b capa ind) → ind + Z.of_nat (length bs) ≤ capa →
  let m' := Marshall (splice (Z.to_nat ind) bs b) capa (ind + Z.of_nat (length bs)) in
  m_inv m' ∧ m_bytes m' = m_bytes (Marshall b capa ind) ++ bs.
Proof.
  intros (Hl & Hi & Hc) Hb; simpl in *. split; [split|]; simpl.
  - rewrite length_splice; lia.
  - lia.
  - unfold m_bytes; simpl. rewrite Z2Nat.inj_add, Nat2Z.id by lia.
    apply take_splice. lia.
Qed.

(** Growing keeps the written bytes. *)
Lemma grow_inv b capa ind capa' :
  m_inv (Marshall b capa ind) → capa ≤ capa' →
  m_inv (Marshall (realloc b capa') capa' ind) ∧
  m_bytes (Marshall (realloc b capa') capa' ind) = m_bytes (Marshall b capa ind).
Proof.
  intros (Hl & Hi & Hc) Hg; simpl in *. split.
  - repeat split; simpl; try lia. apply length_realloc. lia.
  - unfold m_bytes; simpl. apply take_realloc; lia.
Qed.

Lemma m_rawbyte_appends x : appends (m_rawbyte x) [u8 x].
Proof.
  intros [b capa ind] Hm. unfold m_rawbyte; simpl.
  destruct (Z.leb_spec capa ind) as [Hge|Hlt]; simpl.
  - destruct (grow_inv b capa ind (capa * 2) Hm) as [Hm' <-]; [destruct Hm as (?&?&?); simpl in *; lia|].
    apply (write_appends _ (capa * 2) ind [u8 x] Hm').
    destruct Hm as (?&?&?); simpl in *; lia.
  - apply (write_appends b capa ind [u8 x] Hm). simpl. lia.
Qed.

Lemma m_rawbytes_appends p n :
  n = Z.of_nat (length p) → appends (m_rawbytes p n) p.
Proof.
  intros -> [b capa ind] Hm. unfold m_rawbytes; simpl.
  rewrite Nat2Z.id, take_ge by lia. set (n := Z.of_nat (length p)).
  destruct (Z.ltb_spec capa (ind + n)) as [Hlt|Hge]; simpl.
  - set (capa' := if n <? capa then 2 * capa else capa + n).
    assert (capa ≤ capa' ∧ ind + n ≤ capa') as [Hg Hr].
    { destruct Hm as (?&?&?); simpl in *. unfold capa'.
      destruct (Z.ltb_spec n capa); lia. }
    destruct (grow_inv b capa ind capa' Hm Hg) as [Hm' <-].
    by apply write_appends.
  - by apply write_appends.
Qed.

Lemma appends_comp f g a b : appends f a → appends g b → appends (λ m, g (f m)) (a ++ b).
Proof.
  intros Hf Hg m Hm. destruct (Hf m Hm) as [Hm1 E1]. destruct (Hg _ Hm1) as [Hm2 E2].
  split; [done|]. by rewrite E2, E1, app_assoc.
Qed.

Lemma m_byte_at_appends k x : appends (m_rawbyte (byte_at k x)) [byte_at k x].
Proof. rewrite <- (u8_byte_at k x) at 2. apply m_rawbyte_appends. Qed.

Lemma m_ushort_appends x : appends (m_ushort x) (be2 x).
Proof.
  apply (appends_comp _ _ [_] [_] (m_byte_at_appends 1 x) (m_byte_at_appends 0 x)).
Qed.

Lemma m_uint_appends x : appends (m_uint x) (be4 x).
Proof.
  apply (appends_comp _ _ [_;_;_] [_]
    (appends_comp _ _ [_;_] [_]
      (appends_comp _ _ [_] [_] (m_byte_at_appends 3 x) (m_byte_at_appends 2 x))
      (m_byte_at_appends 1 x)) (m_byte_at_appends 0 x)).
Qed.

Lemma byte_at_u32 k x : 0 ≤ k < 4 → byte_at k (u32 x) = byte_at k x.
Proof.
  intros Hk. rewrite !byte_at_div by lia. unfold uwrap.
  rewrite (Z.mod_eq x (2 ^ 32)) by lia.
  set (q := x `div` 2 ^ 32). change 256 with (2 ^ 8).
  assert (2 ^ 32 = 2 ^ (8 * k) * (2 ^ (24 - 8 * k) * 2 ^ 8)) as E.
  { rewrite <- !Z.pow_add_r by lia. f_equal. lia. }
  rewrite E. replace (x - _) with (x + (- (2 ^ (24 - 8 * k)) * q * 2 ^ 8) * 2 ^ (8 * k)) by lia.
  rewrite Z.div_add by lia. apply Z_mod_plus_full.
Qed.

Lemma be4_u32 x : be4 (u32 x) = be4 x.
Proof. unfold be4. by rewrite !byte_at_u32 by lia. Qed.
End writer_lemmas.

(** ** Reader lemmas *)
Lemma rest_advance u bs r :
  u_wf u → rest u = bs ++ r →
  u_wf (advance (Z.of_nat (length bs)) u) ∧
  rest (advance (Z.of_nat (length bs)) u) = r.
Proof.
  intros (Hi & Hs & Hb & Hk) E. unfold rest in *. simpl.
  assert (length bs ≤ Z.to_nat (u_sz u) - Z.to_nat (u_ind u))%nat as Hlen.
  { apply (f_equal length) in E. rewrite length_drop, length_take, length_app in E. lia. }
  split.
  - repeat split; simpl; try lia; done.
  - rewrite Z2Nat.inj_add, Nat2Z.id, <- drop_drop, E by lia.
    by rewrite drop_app_length.
Qed.

Lemma advance_advance a b u : advance b (advance a u) = advance (a + b) u.
Proof. destruct u; unfold advance; simpl. f_equal. lia. Qed.

Lemma advance_0 u : advance 0 u = u.
Proof. destruct u; unfold advance; simpl. f_equal. lia. Qed.

Lemma u_rawbyte_cons u b r :
  u_wf u → rest u = b :: r → u_rawbyte u = (u32 (s8 b), advance 1 u).
Proof.
  intros (Hi & Hs & Hb & Hk) E. unfold u_rawbyte.
  assert (rest u !! O = Some b) as L by by rewrite E.
  unfold rest in L. rewrite lookup_drop, Nat.add_0_r, lookup_take in L.
  case_decide as Hd; [|done]. destruct (Z.leb_spec (u_sz u) (u_ind u)); [lia|].
  by rewrite (list_lookup_total_correct _ _ _ L).
Qed.

Lemma u_rawbyte_end u : u_sz u ≤ u_ind u → u_rawbyte u = (0, u_fail u).
Proof. intros. unfold u_rawbyte. by destruct (Z.leb_spec (u_sz u) (u_ind u)); [|lia]. Qed.

Lemma rest_advance_1 u b r :
  u_wf u → rest u = b :: r → u_wf (advance 1 u) ∧ rest (advance 1 u) = r.
Proof. apply (rest_advance u [b] r). Qed.

(** Steps through the bytes a reader consumes one by one. *)
Ltac read_byte :=
  match goal with
  | Hw : u_wf ?u, E : rest ?u = ?b :: ?r |- context [u_rawbyte ?u] =>
      rewrite (u_rawbyte_cons u b r Hw E);
      destruct (rest_advance_1 u b r Hw E) as [? ?]
  end.

Lemma u_word_be4 u x r :
  u_wf u → rest u = be4 x ++ r → u_word u = (u32 x, advance 4 u).
Proof.
  intros Hw E. unfold u_word. unfold be4 in E; cbn [app] in E. do 4 read_byte.
  rewrite !s8_byte_land by apply byte_at_range.
  by rewrite be4_combine, !advance_advance.
Qed.

Lemma u_half_be2 u x r :
  u_wf u → rest u = be2 x ++ r → u_half u = (u16 x, advance 2 u).
Proof.
  intros Hw E. unfold u_half. unfold be2 in E; cbn [app] in E. do 2 read_byte.
  rewrite !s8_byte_land by apply byte_at_range.
  by rewrite be2_combine, !advance_advance.
Qed.

Lemma u_uint_reads old x : 0 ≤ x < 2 ^ 32 → reads (u_uint old) (be4 x) x.
Proof.
  intros Hx u r Hw E. unfold u_uint. rewrite (u_word_be4 u x r Hw E).
  by rewrite uwrap_idemp, uwrap_small.
Qed.

Lemma reads_bind {A B} (f : unmarshall → res (A * unmarshall))
    (g : A → unmarshall → res (B * unmarshall)) (h : unmarshall → res (B * unmarshall))
    bs a bs' b :
  (∀ u, h u = ('(a, u) ← f u; g a u)) →
  reads f bs a → reads (g a) bs' b → reads h (bs ++ bs') b.
Proof.
  intros Hh Hf Hg u r Hw E. rewrite <- app_assoc in E. rewrite Hh, (Hf u _ Hw E). simpl.
  destruct (rest_advance u bs _ Hw E) as [Hw' E']. rewrite (Hg _ _ Hw' E').
  rewrite advance_advance, length_app. do 3 f_equal. lia.
Qed.

Lemma reads_ret {A} (a : A) : reads (λ u, Ret (a, u)) [] a.
Proof. intros u r _ _. simpl. by rewrite advance_0. Qed.

Lemma u_rawbytes_reads old s :
  Z.of_nat (length s) < 2 ^ 31 →
  reads (u_rawbytes old (Z.of_nat (length s))) s s.
Proof.
  intros Hs u r Hw E. pose proof Hw as (Hi & Hz & Hb & Hk). unfold u_rawbytes.
  assert (length s ≤ Z.to_nat (u_sz u) - Z.to_nat (u_ind u))%nat as Hlen.
  { apply (f_equal length) in E. unfold rest in E.
    rewrite length_drop, length_take, length_app in E. lia. }
  rewrite !uwrap_small by lia.
  destruct (Z.ltb_spec (u_sz u) (u_ind u + Z.of_nat (length s))); [lia|].
  destruct (Z.ltb_spec (Z.of_nat (length (u_buf u))) (u_ind u + Z.of_nat (length s))); [lia|].
  do 2 f_equal. unfold rest in E. rewrite Nat2Z.id. unfold slice.
  apply (f_equal (take (length s))) in E. rewrite take_app_length in E.
  rewrite skipn_firstn_comm, take_take, Nat.min_l in E by lia. exact E.
Qed.

(** ** The codecs of the library meet the contract *)
Section instances.
Context `{HeapJunk}.

Lemma u8_u32_s8 b : is_byte b → u8 (u32 (s8 b)) = b.
Proof. intros Hb. rewrite <- (s8_byte_land b Hb) at 2. by rewrite land_255. Qed.

#[export] Program Instance c_uchar_ok : CodecOk c_uchar :=
  {| valid := is_byte; enc x := [x] |}.
Next Obligation. intros a Ha. rewrite <- (uwrap_small 8 a Ha) at 2. apply m_rawbyte_appends. Qed.
Next Obligation.
  intros a Ha u r Hw E. cbv beta in Ha. simpl. unfold u_uchar. rewrite (u_rawbyte_cons u a r Hw E).
  by rewrite u8_u32_s8.
Qed.

#[export] Program Instance c_bool_ok : CodecOk c_bool :=
  {| valid _ := True; enc x := [Z.b2z x] |}.
Next Obligation. intros [] _; apply m_rawbyte_appends. Qed.
Next Obligation.
  intros b _ u r Hw E. simpl. unfold u_bool. rewrite (u_rawbyte_cons u _ r Hw E). by destruct b.
Qed.

#[export] Program Instance c_char_ok : CodecOk c_char :=
  {| valid x := -128 ≤ x < 128; enc x := [u8 x] |}.
Next Obligation.
  intros a Ha. simpl. unfold m_char, m_uchar. rewrite <- (uwrap_idemp 8 a) at 2.
  apply m_rawbyte_appends.
Qed.
Next Obligation.
  intros a Ha u r Hw E. cbv beta in Ha. simpl. unfold u_char. rewrite (u_rawbyte_cons u _ r Hw E).
  rewrite <- (swrap_uwrap 8) by lia.
  rewrite u8_u32_s8 by (apply (uwrap_range 8); lia).
  rewrite swrap_uwrap by lia. by rewrite swrap_small by lia.
Qed.

#[export] Program Instance c_ushort_ok : CodecOk c_ushort :=
  {| valid x := 0 ≤ x < 2 ^ 16; enc := be2 |}.
Next Obligation. intros a _. apply m_ushort_appends. Qed.
Next Obligation.
  intros a Ha u r Hw E. cbv beta in Ha. simpl. unfold u_ushort. rewrite (u_half_be2 u a r Hw E).
  by rewrite uwrap_idemp, uwrap_small.
Qed.

#[export] Program Instance c_short_ok : CodecOk c_short :=
  {| valid x := - 2 ^ 15 ≤ x < 2 ^ 15; enc x := be2 (u16 x) |}.
Next Obligation. intros a _. apply m_ushort_appends. Qed.
Next Obligation.
  intros a Ha u r Hw E. cbv beta in Ha. simpl. unfold u_short. rewrite (u_half_be2 u _ r Hw E).
  rewrite uwrap_idemp, swrap_uwrap by lia. by rewrite swrap_small by lia.
Qed.

#[export] Program Instance c_uint_ok : CodecOk c_uint :=
  {| valid x := 0 ≤ x < 2 ^ 32; enc := be4 |}.
Next Obligation. intros a _. apply m_uint_appends. Qed.
Next Obligation. intros a Ha. by apply u_uint_reads. Qed.

#[export] Program Instance c_int_ok : CodecOk c_int :=
  {| valid x := - 2 ^ 31 ≤ x < 2 ^ 31; enc := be4 |}.
Next Obligation. intros a _. rewrite <- (be4_u32 a). exact (m_uint_appends (u32 a)). Qed.
Next Obligation.
  intros a Ha u r Hw E. cbv beta in Ha. simpl. unfold u_int. rewrite (u_word_be4 u _ r Hw E).
  rewrite swrap_uwrap by lia. by rewrite swrap_small by lia.
Qed.

#[export] Program Instance c_ull_ok : CodecOk c_ull :=
  {| valid x := 0 ≤ x < 2 ^ 64; enc x := be4 (u32 (x ≫ 32)) ++ be4 (u32 x) |}.
Next Obligation.
  intros a _.
  exact (appends_comp _ _ _ _ (m_uint_appends (u32 (a ≫ 32))) (m_uint_appends (u32 a))).
Qed.
Next Obligation.
  intros a Ha. cbv beta in Ha.
  change (reads (u_ull 0) (be4 (u32 (a ≫ 32)) ++ be4 (u32 a)) a).
  eapply (reads_bind (u_uint 0) (λ h u, '(l, u) ← u_uint 0 u; Ret (Z.lor l (h ≪ 32), u)));
    [done| |].
  - apply u_uint_reads. apply uwrap_range. lia.
  - rewrite <- (app_nil_r (be4 _)). eapply reads_bind; [done| |].
    + apply u_uint_reads. apply uwrap_range. lia.
    + intros u r _ _. cbv beta. rewrite advance_0. do 2 f_equal.
      rewrite Z.lor_comm, lor_shiftl_low by (try apply uwrap_range; lia).
      rewrite Z.shiftr_div_pow2 by lia.
      rewrite (uwrap_small 32 (a `div` 2 ^ 32))
        by (split; [apply Z.div_pos|apply Z.div_lt_upper_bound]; lia).
      unfold uwrap. pose proof (Z.div_mod a (2 ^ 32)). lia.
Qed.

#[export] Program Instance c_string_ok : CodecOk c_string :=
  {| valid s := Z.of_nat (length s) < 2 ^ 31;
     enc s := be4 (Z.of_nat (length s)) ++ s |}.
Next Obligation.
  intros s Hs. cbv beta in Hs.
  change (appends (m_string s) (be4 (Z.of_nat (length s)) ++ s)).
  unfold m_string. rewrite <- (be4_u32 (Z.of_nat _)).
  refine (appends_comp _ _ _ _ (m_uint_appends (u32 (Z.of_nat (length s)))) _).
  apply m_rawbytes_appends. apply swrap_small; lia.
Qed.
Next Obligation.
  intros s Hs. cbv beta in Hs.
  change (reads (u_string []) (be4 (Z.of_nat (length s)) ++ s) s).
  intros u r Hw E. rewrite <- app_assoc in E. unfold u_string.
  assert (0 ≤ Z.of_nat (length s) < 2 ^ 32) as Hn by lia.
  rewrite (u_uint_reads 0 _ Hn u _ Hw E). cbn [mbind res_bind].
  destruct (rest_advance u _ _ Hw E) as [Hw' E']. pose proof Hw' as (_&_&_&->).
  rewrite (u_rawbytes_reads [] s Hs _ _ Hw' E').
  rewrite advance_advance, length_app. do 3 f_equal. lia.
Qed.

#[export] Program Instance c_pair_ok {A B} (ca : codec A) (cb : codec B)
    `{!CodecOk ca, !CodecOk cb} : CodecOk (c_pair ca cb) :=
  {| valid '(a, b) := valid ca a ∧ valid cb b; enc '(a, b) := enc ca a ++ enc cb b |}.
Next Obligation.
  intros A B ca cb ?? [a b] [Ha Hb]. exact (appends_comp _ _ _ _ (put_ok a Ha) (put_ok b Hb)).
Qed.
Next Obligation.
  intros A B ca cb ?? [a b] [Ha Hb]; simpl.
  eapply reads_bind; [done|by apply take_ok|].
  rewrite <- (app_nil_r (enc cb b)). eapply reads_bind; [done|by apply take_ok|].
  apply reads_ret.
Qed.

Lemma u_vector_loop_reads {A} (c : codec A) `{!CodecOk c} (v w : list A) :
  Forall (valid c) v →
  reads (u_vector_loop c (length v) w) (mjoin (enc c <$> v)) (w ++ v).
Proof.
  intros Hv. revert w. induction Hv as [|a v Ha Hv IH]; intros w.
  - simpl. rewrite app_nil_r. apply reads_ret.
  - cbn [length fmap list_fmap mjoin list_join u_vector_loop].
    eapply reads_bind; [done|by apply take_ok|].
    replace (w ++ a :: v) with ((w ++ [a]) ++ v) by by rewrite <- app_assoc.
    apply IH.
Qed.

Lemma m_vector_appends {A} (c : codec A) `{!CodecOk c} (v : list A) m :
  Forall (valid c) v → m_inv m →
  let m' := foldl (λ m x, m_put c x m) m v in
  m_inv m' ∧ m_bytes m' = m_bytes m ++ mjoin (enc c <$> v).
Proof.
  intros Hv. revert m. induction Hv as [|a v Ha Hv IH]; intros m Hm; simpl.
  - split; [done|]. by rewrite app_nil_r.
  - destruct (put_ok a Ha m Hm) as [Hm1 E1]. destruct (IH _ Hm1) as [Hm2 E2].
    split; [done|]. by rewrite E2, E1, app_assoc.
Qed.

#[export] Program Instance c_vector_ok {A} (c : codec A) `{!CodecOk c} :
    CodecOk (c_vector c) :=
  {| valid v := Z.of_nat (length v) < 2 ^ 32 ∧ Forall (valid c) v;
     enc v := be4 (Z.of_nat (length v)) ++ mjoin (enc c <$> v) |}.
Next Obligation.
  intros A c ? v [Hl Hv] m Hm. simpl. unfold m_vector.
  destruct (m_uint_appends (u32 (Z.of_nat (length v))) m Hm) as [Hm1 E1].
  destruct (m_vector_appends c v _ Hv Hm1) as [Hm2 E2].
  split; [done|]. by rewrite E2, E1, be4_u32, <- app_assoc.
Qed.
Next Obligation.
  intros A c ? v [Hl Hv]. eapply reads_bind; [done|apply (u_uint_reads 0); lia|].
  cbv beta. rewrite Nat2Z.id. apply (u_vector_loop_reads c v [] Hv).
Qed.

(** Reading entries into a map. *)
Definition insert_all {A B} `{Countable A} (l : list (A * B)) (d : gmap A B) : gmap A B :=
  foldl (λ d ab, <[ab.1 := ab.2]> d) d l.

Lemma u_map_loop_reads {A B} `{Countable A} (ca : codec A) (cb : codec B) `{!CodecOk ca, !CodecOk cb} (l : list (A * B)) (d : gmap A B) :
  Forall (valid (c_pair ca cb)) l →
  reads (u_map_loop ca cb (length l) d) (mjoin (enc (c_pair ca cb) <$> l)) (insert_all l d).
Proof.
  intros Hl. revert d. induction Hl as [|[a b] l [Ha Hb] Hl IH]; intros d; [apply reads_ret|].
  cbn [length fmap list_fmap mjoin list_join u_map_loop enc c_pair_ok]. rewrite <- app_assoc.
  eapply reads_bind; [done|by apply take_ok|]. eapply reads_bind; [done|by apply take_ok|]. apply IH.
Qed.

Lemma insert_all_entries {A B} `{Countable A} (le : relation A) `{∀ a b, Decision (le a b)} (d : gmap A B) :
  insert_all (map_entries le d) ∅ = d.
Proof.
  assert (∀ l : list (A * B), insert_all l ∅ = list_to_map (reverse l)) as ->.
  { intros l. unfold insert_all. induction l as [|[a b] l IH] using rev_ind; [done|]. rewrite foldl_app, IH. simpl. by rewrite reverse_snoc. }
  assert (reverse (map_entries le d) ≡ₚ map_to_list d) as Hp.
  { rewrite reverse_Permutation. apply merge_sort_Permutation. }
  rewrite (list_to_map_proper _ (map_to_list d)); [apply list_to_map_to_list| |done].
  rewrite Hp. apply NoDup_fst_map_to_list.
Qed.

#[export] Program Instance c_map_ok {A B} `{Countable A} (le : relation A) `{∀ a b, Decision (le a b)}
    (ca : codec A) (cb : codec B) `{!CodecOk ca, !CodecOk cb} : CodecOk (c_map le ca cb) :=
  {| valid d := Z.of_nat (size d) < 2 ^ 32 ∧ Forall (valid (c_pair ca cb)) (map_entries le d);
     enc d := be4 (Z.of_nat (size d)) ++ mjoin (enc (c_pair ca cb) <$> map_entries le d) |}.
Next Obligation.
  intros A B ?? le ? ca cb ?? d [Hl Hv] m Hm. simpl. unfold m_map.
  destruct (m_uint_appends (u32 (Z.of_nat (size d))) m Hm) as [Hm1 E1].
  destruct (m_vector_appends (c_pair ca cb) (map_entries le d) _ Hv Hm1) as [Hm2 E2].
  split; [done|]. etrans; [exact E2|]. by rewrite E1, be4_u32, <- app_assoc.
Qed.
Next Obligation.
  intros A B ?? le ? ca cb ?? d [Hl Hv]. eapply reads_bind; [done|apply (u_uint_reads 0); lia|].
  cbv beta. rewrite Nat2Z.id. assert (size d = length (map_entries le d)) as ->.
  { unfold map_entries. by rewrite merge_sort_Permutation, length_map_to_list. }
  rewrite <- (insert_all_entries le d) at 2. by apply u_map_loop_reads.
Qed.

#[export] Program Instance c_attr_ok : CodecOk c_attr :=
  {| valid a := 0 ≤ a_atime a < 2 ^ 32 ∧ 0 ≤ a_mtime a < 2 ^ 32 ∧
                0 ≤ a_ctime a < 2 ^ 32 ∧ 0 ≤ a_size a < 2 ^ 32;
     enc a := ((be4 (a_atime a) ++ be4 (a_mtime a)) ++ be4 (a_ctime a)) ++ be4 (a_size a) |}.
Next Obligation.
  intros a _. exact (appends_comp _ _ _ _ (appends_comp _ _ _ _
    (appends_comp _ _ _ _ (m_uint_appends (a_atime a)) (m_uint_appends (a_mtime a)))
    (m_uint_appends (a_ctime a))) (m_uint_appends (a_size a))).
Qed.
Next Obligation.
  intros [a b c d] (?&?&?&?); cbn [a_atime a_mtime a_ctime a_size] in *.
  change (reads (u_attr (Attr 0 0 0 0)) (((be4 a ++ be4 b) ++ be4 c) ++ be4 d) (Attr a b c d)).
  rewrite <- !app_assoc.
  do 3 (eapply reads_bind; [done|by apply u_uint_reads|]).
  rewrite <- (app_nil_r (be4 d)).
  eapply reads_bind; [done|by apply u_uint_reads|]. apply reads_ret.
Qed.
End instances.

(** ** Headers *)
Section headers.
Context `{HeapJunk}.

Lemma m_rawbyte_inplace b capa ind x :
  ind < capa →
  m_rawbyte x (Marshall b capa ind)
  = Marshall (splice (Z.to_nat ind) [u8 x] b) capa (ind + 1).
Proof. intros. unfold m_rawbyte; simpl. by destruct (Z.leb_spec capa ind); [lia|]. Qed.

Lemma m_pack_inplace b capa ind x :
  0 ≤ ind → ind + 4 ≤ capa → length b = Z.to_nat capa →
  m_pack x (Marshall b capa ind) = Marshall (splice (Z.to_nat ind) (be4 x) b) capa (ind + 4).
Proof.
  intros Hi Hc Hl. unfold m_pack. rewrite !m_rawbyte_inplace, !u8_byte_at by lia.
  f_equal; [|lia].
  replace (Z.to_nat (ind + 1 + 1 + 1)) with (Z.to_nat ind + length [byte_at 3 x; byte_at 2 x; byte_at 1 x])%nat by (simpl; lia).
  replace (Z.to_nat (ind + 1 + 1)) with (Z.to_nat ind + length [byte_at 3 x; byte_at 2 x])%nat by (simpl; lia).
  replace (Z.to_nat (ind + 1)) with (Z.to_nat ind + length [byte_at 3 x])%nat by (simpl; lia).
  by rewrite !splice_splice_app by (simpl; lia).
Qed.

Definition req_header_bytes (h : req_header) : list Z :=
  (((be4 (rq_xid h) ++ be4 (rq_proc h)) ++ be4 (rq_clt_nonce h)) ++ be4 (rq_srv_nonce h))
  ++ be4 (rq_xid_rep h).

Definition reply_header_bytes (h : reply_header) : list Z :=
  be4 (rp_xid h) ++ be4 (rp_ret h).

Lemma be4_s32 x : be4 (s32 x) = be4 x.
Proof. rewrite <- (be4_u32 (s32 x)), uwrap_swrap by lia. apply be4_u32. Qed.

(** Consecutive in-place writes are one write. *)
Lemma m_pack_splice b capa ind bs x :
  0 ≤ ind → ind + Z.of_nat (length bs) + 4 ≤ capa → length b = Z.to_nat capa →
  m_pack x (Marshall (splice (Z.to_nat ind) bs b) capa (ind + Z.of_nat (length bs)))
  = Marshall (splice (Z.to_nat ind) (bs ++ be4 x) b) capa
      (ind + Z.of_nat (length (bs ++ be4 x))).
Proof.
  intros Hi Hc Hl. rewrite m_pack_inplace; [|lia|lia|rewrite length_splice; lia].
  f_equal; [|rewrite length_app; change (length (be4 x)) with 4%nat; lia].
  rewrite Z2Nat.inj_add, Nat2Z.id by lia. apply splice_splice_app. lia.
Qed.

Lemma pack_req_header_bytes h m :
  m_inv m → RPC_HEADER_SZ ≤ m_ind m →
  m_inv (pack_req_header h m) ∧ m_ind (pack_req_header h m) = m_ind m ∧
  m_bytes (pack_req_header h m) = splice 4 (req_header_bytes h) (m_bytes m).
Proof.
  destruct m as [b capa ind]. intros (Hl & Hi & Hc) Hh. simpl in *.
  change RPC_HEADER_SZ with 24 in Hh. unfold pack_req_header, set_ind.
  change sizeof_rpc_sz_t with 4. cbn [m_buf m_capa m_ind].
  rewrite m_pack_inplace by lia.
  do 4 (rewrite (m_pack_splice b capa 4) by (simpl; lia)).
  rewrite !be4_s32. fold (req_header_bytes h). cbn [m_buf m_capa m_ind].
  assert (length (req_header_bytes h) = 20%nat) as Hlen by done.
  split; [|split; [done|]].
  - repeat split; cbn; try lia. rewrite length_splice; lia.
  - apply take_splice_inside; simpl; lia.
Qed.

Lemma pack_reply_header_bytes h m :
  m_inv m → RPC_HEADER_SZ ≤ m_ind m →
  m_inv (pack_reply_header h m) ∧ m_ind (pack_reply_header h m) = m_ind m ∧
  m_bytes (pack_reply_header h m) = splice 4 (reply_header_bytes h) (m_bytes m).
Proof.
  destruct m as [b capa ind]. intros (Hl & Hi & Hc) Hh. simpl in *.
  change RPC_HEADER_SZ with 24 in Hh. unfold pack_reply_header, set_ind.
  change sizeof_rpc_sz_t with 4. cbn [m_buf m_capa m_ind].
  rewrite m_pack_inplace by lia. rewrite (m_pack_splice b capa 4) by (simpl; lia).
  fold (reply_header_bytes h). cbn [m_buf m_capa m_ind].
  assert (length (reply_header_bytes h) = 8%nat) as Hlen by done.
  split; [|split; [done|]].
  - repeat split; cbn; try lia. rewrite length_splice; lia.
  - apply take_splice_inside; simpl; lia.
Qed.
End headers.

Definition req_valid (h : req_header) : Prop :=
  - 2 ^ 31 ≤ rq_xid h < 2 ^ 31 ∧ - 2 ^ 31 ≤ rq_proc h < 2 ^ 31 ∧
  0 ≤ rq_clt_nonce h < 2 ^ 32 ∧ 0 ≤ rq_srv_nonce h < 2 ^ 32 ∧
  - 2 ^ 31 ≤ rq_xid_rep h < 2 ^ 31.

Definition reply_valid (h : reply_header) : Prop :=
  - 2 ^ 31 ≤ rp_xid h < 2 ^ 31 ∧ - 2 ^ 31 ≤ rp_ret h < 2 ^ 31.

Lemma u_unpack_be4 u x r :
  u_wf u → rest u = be4 x ++ r →
  u_unpack u = (s32 x, advance 4 u) ∧ u_wf (advance 4 u) ∧ rest (advance 4 u) = r.
Proof.
  intros Hw E. unfold u_unpack. rewrite (u_word_be4 u x r Hw E), swrap_uwrap by lia.
  split; [done|]. apply (rest_advance u (be4 x) r Hw E).
Qed.

Ltac unpack_word :=
  match goal with
  | Hw : u_wf ?u, E : rest ?u = be4 ?x ++ ?r |- context [u_unpack ?u] =>
      let Eq := fresh in
      destruct (u_unpack_be4 u x r Hw E) as (Eq & ? & ?); rewrite Eq; clear Eq Hw E
  end.

Lemma unpack_req_header_spec u h r :
  u_wf (u_set_ind 4 u) → rest (u_set_ind 4 u) = req_header_bytes h ++ r →
  req_valid h → unpack_req_header u = (h, u_set_ind RPC_HEADER_SZ u).
Proof.
  intros Hw E (H1&H2&H3&H4&H5). unfold unpack_req_header.
  change sizeof_rpc_sz_t with 4. unfold req_header_bytes in E.
  rewrite <- !app_assoc in E. repeat unpack_word.
  rewrite !uwrap_swrap, !swrap_small, !uwrap_small by lia. by destruct h.
Qed.

Lemma unpack_reply_header_spec u h r :
  u_wf (u_set_ind 4 u) → rest (u_set_ind 4 u) = reply_header_bytes h ++ r →
  reply_valid h → unpack_reply_header u = (h, u_set_ind RPC_HEADER_SZ u).
Proof.
  intros Hw E (H1&H2). unfold unpack_reply_header.
  change sizeof_rpc_sz_t with 4. unfold reply_header_bytes in E.
  rewrite <- !app_assoc in E. repeat unpack_word.
  rewrite !swrap_small by lia. by destruct h.
Qed.

(** A packet: four bytes of size, the header, the payload. *)
Lemma packet_reader (sz hdr pad body : list Z) :
  length sz = 4%nat → (length hdr + length pad = 20)%nat →
  let p := sz ++ hdr ++ pad ++ body in
  Z.of_nat (length p) < 2 ^ 31 →
  let u := unmarshall_of p (Z.of_nat (length p)) in
  u_wf (u_set_ind 4 u) ∧ rest (u_set_ind 4 u) = hdr ++ pad ++ body ∧
  u_wf (u_set_ind RPC_HEADER_SZ u) ∧ rest (u_set_ind RPC_HEADER_SZ u) = body.
Proof.
  intros Hs Hh p Hp u. assert (24 ≤ length p)%nat.
  { unfold p. rewrite !length_app. lia. }
  change RPC_HEADER_SZ with 24.
  assert (take (length p) p = p) as Ht by (apply take_ge; lia).
  assert (drop 4 p = hdr ++ pad ++ body) as E4 by (unfold p; by rewrite drop_app_length').
  repeat split; simpl; try lia; unfold rest; cbn [u_set_ind u_buf u_sz u_ind u unmarshall_of];
    rewrite Nat2Z.id, Ht.
  - exact E4.
  - change (Z.to_nat 24) with (4 + 20)%nat. rewrite <- drop_drop, E4.
    rewrite app_assoc. apply drop_app_length'. rewrite length_app. lia.
Qed.
