(* ===== verification/RpcStub.v ===== *)
(** The typed RPC stubs of rpc/rpc.h: how [rpcc::call] turns its arguments into
    a packet, how a handler registered with [rpcs::reg] unmarshalls them, runs
    the method and marshalls its result, and how [rpcc::call_m] reads the
    reply.  The seven arities of both templates are one definition each over
    the tuple of the arguments ([c_pair] is [<<] and [>>] in sequence). *)
From S2P Require Import Prelude Marshall.
Local Open Scope Z_scope.

(** class rpc_const *)
Definition rpc_bind : Z := 1.
Definition timeout_failure : Z := -1.
Definition unmarshal_args_failure : Z := -2.
Definition unmarshal_reply_failure : Z := -3.
Definition atmostonce_failure : Z := -4.
Definition oldsrv_failure : Z := -5.
Definition bind_failure : Z := -6.
Definition cancel_failure : Z := -7.

Section stubs.
Context `{HeapJunk}.

(** rpcc::call: the marshalled arguments, before call1 adds the header. *)
Definition call_req {A} (ca : codec A) (a : A) : marshall := m_put ca a marshall_new.

(** The first part of connection::writepdu: the size of the packet, in network
    order, over the four bytes the marshaller left empty. *)
Definition wire_pdu (m : marshall) : list Z :=
  splice 0 (be4 (m_ind m)) (m_bytes m).

(** h1::fn of rpcs::reg. *)
Definition h_fn {S A R} (ca : codec A) (cr : codec R)
    (meth : A → R → ST S (Z * R)) (args : unmarshall) (ret : marshall)
    : ST S (Z * marshall) :=
  '(a, args) ← st_lift (u_take ca (fresh ca) args);
  if negb (okdone args) then mret (unmarshal_args_failure, ret)
  else '(b, r) ← meth a (fresh cr);
       mret (b, m_put cr r ret).

(** rpcc::call_m after call1 returned [intret] and filled [u]. *)
Definition call_m {R} (cr : codec R) (r : R) (intret : Z) (u : unmarshall) : res (Z * R) :=
  if intret <? 0 then Ret (intret, r)
  else '(r, u) ← u_take cr r u;
       if negb (okdone u) then VerifyFailed else Ret (intret, r).

(** What rpcs::dispatch does with a new request once the duplicate check let it
    pass: read the header, run the handler, pack the reply. *)
Definition serve {S} (fn : unmarshall → marshall → ST S (Z * marshall)) (pdu : list Z)
    : ST S (list Z) :=
  let '(h, req) := unpack_req_header (unmarshall_of pdu (Z.of_nat (length pdu))) in
  '(ret, rep) ← fn req marshall_new;
  if ret =? unmarshal_args_failure then st_lift VerifyFailed
  else if ret <? 0 then st_lift VerifyFailed
  else mret (wire_pdu (pack_reply_header (ReplyHeader (rq_xid h) ret) rep)).

(** rpcc::got_pdu and the tail of call_m: the reply packet as the caller sees it. *)
Definition receive {R} (cr : codec R) (pdu : list Z) : res (Z * R) :=
  let '(h, rep) := unpack_reply_header (unmarshall_of pdu (Z.of_nat (length pdu))) in
  let '(un, _) := take_in unmarshall_new rep in
  call_m cr (fresh cr) (rp_ret h) un.

(** * Lemmas *)
Lemma call_req_bytes {A} (ca : codec A) `{!CodecOk ca} a :
  valid ca a →
  m_inv (call_req ca a) ∧
  m_bytes (call_req ca a) = take 24 (malloc 1024) ++ enc ca a ∧
  m_ind (call_req ca a) = 24 + Z.of_nat (length (enc ca a)).
Proof.
  intros Ha. destruct marshall_new_inv as [Hm E].
  destruct (put_ok a Ha _ Hm) as [Hm' E']. rewrite E in E'.
  split; [done|]. split; [done|].
  apply (f_equal length) in E'. rewrite length_m_bytes in E' by done.
  rewrite length_app, length_take, length_malloc in E'. unfold call_req.
  destruct Hm' as (_&?&_). lia.
Qed.

(** The packet of a marshaller with a header written over the first 24 bytes. *)
Lemma wire_pdu_shape (m : marshall) (j hdr body : list Z) :
  m_inv m → length j = 24%nat → (length hdr ≤ 20)%nat →
  m_bytes m = splice 4 hdr (j ++ body) →
  ∃ sz pad, length sz = 4%nat ∧ (length hdr + length pad = 20)%nat ∧
    wire_pdu m = sz ++ hdr ++ pad ++ body.
Proof.
  intros Hm Hj Hh E. exists (be4 (m_ind m)), (drop (4 + length hdr) j).
  split; [done|]. split; [rewrite length_drop; lia|].
  unfold wire_pdu. rewrite E. unfold splice.
  change (length (be4 (m_ind m))) with 4%nat. cbn [Nat.add]. rewrite take_0, app_nil_l. f_equal.
  rewrite take_app_le by lia. rewrite drop_app_length' by (rewrite length_take; lia).
  f_equal. by rewrite drop_app_le by lia.
Qed.

Lemma length_wire_pdu m :
  m_inv m → 4 ≤ m_ind m → Z.of_nat (length (wire_pdu m)) = m_ind m.
Proof.
  intros Hm Hi. unfold wire_pdu.
  rewrite length_splice; rewrite length_m_bytes by done; [lia|].
  change (length (be4 (m_ind m))) with 4%nat. lia.
Qed.

Lemma take_all {A} (c : codec A) `{!CodecOk c} a u :
  valid c a → u_wf u → rest u = enc c a →
  ∃ u', u_take c (fresh c) u = Ret (a, u') ∧ okdone u' = true.
Proof.
  intros Ha Hw E. rewrite <- (app_nil_r (enc c a)) in E.
  rewrite (take_ok a Ha u [] Hw E). eexists; split; [done|].
  destruct (rest_advance u _ _ Hw E) as [Hw' E'].
  destruct Hw' as (Hi&Hs&_&Hk). unfold okdone. rewrite Hk.
  apply (f_equal length) in E'. unfold rest in E'. rewrite length_drop, length_take in E'.
  cbn [length] in E'. apply Z.eqb_eq. lia.
Qed.

(** The two ends of a packet: written with a header by one side, read by the other. *)
Lemma req_packet {A} (ca : codec A) `{!CodecOk ca} h a :
  valid ca a → req_valid h → 24 + Z.of_nat (length (enc ca a)) < 2 ^ 31 →
  let p := wire_pdu (pack_req_header h (call_req ca a)) in
  let u := unmarshall_of p (Z.of_nat (length p)) in
  Z.of_nat (length p) = 24 + Z.of_nat (length (enc ca a)) ∧
  unpack_req_header u = (h, u_set_ind RPC_HEADER_SZ u) ∧
  u_wf (u_set_ind RPC_HEADER_SZ u) ∧ rest (u_set_ind RPC_HEADER_SZ u) = enc ca a.
Proof.
  intros Ha Hh Hl p u. destruct (call_req_bytes ca a Ha) as (Hm & E & Hi).
  destruct (pack_req_header_bytes h _ Hm) as (Hm' & Hi' & E');
    [rewrite Hi; change RPC_HEADER_SZ with 24; lia|].
  rewrite E in E'. rewrite Hi in Hi'.
  assert (Z.of_nat (length p) = 24 + Z.of_nat (length (enc ca a))) as Hp
    by (unfold p; rewrite length_wire_pdu by (done || lia); done).
  destruct (wire_pdu_shape _ (take 24 (malloc 1024)) (req_header_bytes h) (enc ca a) Hm')
    as (sz & pad & Hsz & Hpad & Ep); [done|done|done|].
  fold p in Ep. split; [done|].
  destruct (packet_reader sz (req_header_bytes h) pad (enc ca a) Hsz Hpad) as (W4&R4&W&R);
    rewrite <- Ep in *; [lia|].
  split; [|done]. by apply (unpack_req_header_spec u h _ W4 R4).
Qed.

Lemma reply_packet {R} (cr : codec R) `{!CodecOk cr} h r :
  valid cr r → reply_valid h → 24 + Z.of_nat (length (enc cr r)) < 2 ^ 31 →
  let p := wire_pdu (pack_reply_header h (m_put cr r marshall_new)) in
  let u := unmarshall_of p (Z.of_nat (length p)) in
  Z.of_nat (length p) = 24 + Z.of_nat (length (enc cr r)) ∧
  unpack_reply_header u = (h, u_set_ind RPC_HEADER_SZ u) ∧
  u_wf (u_set_ind RPC_HEADER_SZ u) ∧ rest (u_set_ind RPC_HEADER_SZ u) = enc cr r.
Proof.
  intros Ha Hh Hl p u. destruct (call_req_bytes cr r Ha) as (Hm & E & Hi).
  destruct (pack_reply_header_bytes h _ Hm) as (Hm' & Hi' & E');
    [rewrite Hi; change RPC_HEADER_SZ with 24; lia|].
  rewrite E in E'. rewrite Hi in Hi'.
  assert (Z.of_nat (length p) = 24 + Z.of_nat (length (enc cr r))) as Hp
    by (unfold p; fold (call_req cr r); rewrite length_wire_pdu by (done || lia); done).
  destruct (wire_pdu_shape _ (take 24 (malloc 1024)) (reply_header_bytes h) (enc cr r) Hm')
    as (sz & pad & Hsz & Hpad & Ep); [done|change (length (reply_header_bytes h)) with 8%nat; lia|done|].
  unfold call_req in Ep. fold p in Ep. split; [done|].
  destruct (packet_reader sz (reply_header_bytes h) pad (enc cr r) Hsz Hpad) as (W4&R4&W&R');
    rewrite <- Ep in *; [lia|].
  split; [|done]. by apply (unpack_reply_header_spec u h _ W4 R4).
Qed.

Lemma receive_packet {R} (cr : codec R) `{!CodecOk cr} pdu h r :
  let u := unmarshall_of pdu (Z.of_nat (length pdu)) in
  unpack_reply_header u = (h, u_set_ind RPC_HEADER_SZ u) →
  u_wf (u_set_ind RPC_HEADER_SZ u) → rest (u_set_ind RPC_HEADER_SZ u) = enc cr r →
  valid cr r → 0 ≤ rp_ret h → receive cr pdu = Ret (rp_ret h, r).
Proof.
  intros u E W Rs Hr Hret. destruct (take_all cr r _ Hr W Rs) as (u' & T & D).
  pose proof W as ((_ & Hi) & _). cbn [u_set_ind u_ind u_sz] in Hi.
  unfold receive. fold u. rewrite E. unfold take_in, take_buf.
  cbn [u_set_ind u_buf u_sz]. apply Z.leb_le in Hi as ->.
  unfold call_m. destruct (Z.ltb_spec (rp_ret h) 0); [lia|].
  change (Unmarshall (u_buf u) (u_sz u) RPC_HEADER_SZ true) with (u_set_ind RPC_HEADER_SZ u).
  rewrite T. simpl. by rewrite D.
Qed.

Lemma serve_packet {S A R} (ca : codec A) (cr : codec R) (meth : A → R → ST S (Z * R))
    pdu h a s s' b r u u' :
  unpack_req_header (unmarshall_of pdu (Z.of_nat (length pdu))) = (h, u) →
  u_take ca (fresh ca) u = Ret (a, u') → okdone u' = true →
  meth a (fresh cr) s = Ret ((b, r), s') → 0 ≤ b →
  serve (h_fn ca cr meth) pdu s
  = Ret (wire_pdu (pack_reply_header (ReplyHeader (rq_xid h) b) (m_put cr r marshall_new)), s').
Proof.
  intros E T D Hmeth Hb. unfold serve. rewrite E. unfold h_fn, st_lift.
  unfold mbind, st_bind, mret, st_ret, res_bind. rewrite T. cbv beta iota. rewrite D.
  cbn [negb]. rewrite Hmeth.
  destruct (Z.eqb_spec b unmarshal_args_failure) as [E'|]; [unfold unmarshal_args_failure in E'; lia|].
  by destruct (Z.ltb_spec b 0); [lia|].
Qed.

(** A whole call; the caller may marshall other types than the handler expects,
    as long as the bytes agree. *)
Lemma exchange_run {S B A R} (cb : codec B) (ca : codec A) (cr : codec R) `{!CodecOk cb, !CodecOk ca, !CodecOk cr}
    (meth : A → R → ST S (Z * R)) (h : req_header) (x : B) (a : A) (s s' : S) (b : Z) (r : R) :
  valid cb x → enc cb x = enc ca a → valid ca a → req_valid h → 24 + Z.of_nat (length (enc ca a)) < 2 ^ 31 →
  meth a (fresh cr) s = Ret ((b, r), s') →
  valid cr r → 0 ≤ b < 2 ^ 31 → 24 + Z.of_nat (length (enc cr r)) < 2 ^ 31 →
  ∃ pdu, serve (h_fn ca cr meth) (wire_pdu (pack_req_header h (call_req cb x))) s = Ret (pdu, s') ∧
         receive cr pdu = Ret (b, r).
Proof.
  intros Hx Ex Ha Hh Hl Hmeth Hr Hb Hl'. rewrite <- Ex in Hl.
  destruct (req_packet cb h x Hx Hh Hl) as (_ & E & W & Rs). rewrite Ex in Rs.
  destruct (take_all ca a _ Ha W Rs) as (u' & T & D).
  assert (reply_valid (ReplyHeader (rq_xid h) b)) as Hrv.
  { split; simpl; [apply Hh|lia]. }
  destruct (reply_packet cr _ r Hr Hrv Hl') as (_ & E2 & W2 & R2).
  eexists. split; [|by apply (receive_packet cr _ _ r E2 W2 R2 Hr); simpl; lia].
  exact (serve_packet ca cr meth _ h a s s' b r _ u' E T D Hmeth (proj1 Hb)).
Qed.

(** A request whose arguments are not of the handler's types stops the server. *)
Lemma serve_rejects {S A R} (ca : codec A) (cr : codec R) (meth : A → R → ST S (Z * R)) pdu h a s u u' :
  unpack_req_header (unmarshall_of pdu (Z.of_nat (length pdu))) = (h, u) →
  u_take ca (fresh ca) u = Ret (a, u') → okdone u' = false →
  serve (h_fn ca cr meth) pdu s = VerifyFailed.
Proof.
  intros E T D. unfold serve. rewrite E. unfold h_fn, st_lift.
  unfold mbind, st_bind, mret, st_ret, res_bind. rewrite T. cbv beta iota. by rewrite D.
Qed.
End stubs.

(** * Theorems *)
Section theorems.
Context `{HeapJunk}.

(** Marshalling round trip of a request: whatever arguments a call
    marshalls, in a packet with whatever header, the server reads the same
    header back, then the same arguments, and ends exactly at the end of the
    packet ([okdone]). *)
Theorem request_roundtrip {A} (ca : codec A) `{!CodecOk ca} (h : req_header) (a : A) :
  valid ca a → req_valid h → 24 + Z.of_nat (length (enc ca a)) < 2 ^ 31 →
  let p := wire_pdu (pack_req_header h (call_req ca a)) in
  ∃ u u', unpack_req_header (unmarshall_of p (Z.of_nat (length p))) = (h, u) ∧
          u_take ca (fresh ca) u = Ret (a, u') ∧ okdone u' = true.
Proof.
  intros Ha Hh Hl p. destruct (req_packet ca h a Ha Hh Hl) as (_ & E & W & R).
  destruct (take_all ca a _ Ha W R) as (u' & T & D). eauto.
Qed.

(** A whole call: the packet built by [rpcc::call], run through the
    handler that [rpcs::reg] made for the same types, gives the caller exactly
    the status and the result that the method computed from the arguments, and
    runs the method on the arguments that were sent. *)
Theorem rpc_exchange {S A R} (ca : codec A) (cr : codec R) `{!CodecOk ca, !CodecOk cr}
    (meth : A → R → ST S (Z * R)) (h : req_header) (a : A) (s s' : S) (b : Z) (r : R) :
  valid ca a → req_valid h → 24 + Z.of_nat (length (enc ca a)) < 2 ^ 31 →
  meth a (fresh cr) s = Ret ((b, r), s') →
  valid cr r → 0 ≤ b < 2 ^ 31 → 24 + Z.of_nat (length (enc cr r)) < 2 ^ 31 →
  ∃ pdu, serve (h_fn ca cr meth) (wire_pdu (pack_req_header h (call_req ca a))) s
           = Ret (pdu, s') ∧
         receive cr pdu = Ret (b, r).
Proof. intros. by apply (exchange_run ca ca cr meth h a a s s' b r). Qed.

(** C25.  Memory safety of reading a string: with a length field [n], the read
    leaves the buffer exactly when [_ind + n] does not fit in 32 bits; the test
    of [unmarshall::rawbytes] is made on the wrapped sum, so such a length gets
    past it.  In all other cases the read either fails cleanly or stays inside
    the packet. *)
Theorem rawbytes_out_of_bounds_iff (ss : list Z) (n : Z) (u : unmarshall) :
  0 ≤ u_ind u ≤ u_sz u → u_sz u = Z.of_nat (length (u_buf u)) → u_sz u < 2 ^ 31 →
  0 ≤ n < 2 ^ 32 →
  (u_rawbytes ss n u = Undef ↔ 2 ^ 32 ≤ u_ind u + n).
Proof.
  intros Hi Hs Hb Hn. unfold u_rawbytes. rewrite (uwrap_small 32 (u_sz u)) by lia.
  destruct (decide (u_ind u + n < 2 ^ 32)).
  - rewrite (uwrap_small 32 (u_ind u + n)) by lia.
    destruct (Z.ltb_spec (u_sz u) (u_ind u + n)); [split; [done|lia]|].
    destruct (Z.ltb_spec (Z.of_nat (length (u_buf u))) (u_ind u + n)); [lia|].
    split; [done|lia].
  - assert (u32 (u_ind u + n) = u_ind u + n - 2 ^ 32) as ->.
    { unfold uwrap. replace (u_ind u + n) with (u_ind u + n - 2 ^ 32 + 1 * 2 ^ 32) at 1 by lia.
      rewrite Z_mod_plus_full. apply Z.mod_small. lia. }
    destruct (Z.ltb_spec (u_sz u) (u_ind u + n - 2 ^ 32)); [lia|].
    destruct (Z.ltb_spec (Z.of_nat (length (u_buf u))) (u_ind u + n)); [|lia].
    split; [lia|done].
Qed.
End theorems.

(** ** Witnesses *)
#[local] Instance zero_junk : HeapJunk := λ _, 0.

(** The put request of the extent protocol: an extent id and a string. *)
Definition ex_args : Z * list Z := (4294967297, [104; 105; 0; 255]).
Definition ex_header : req_header := ReqHeader 7 24577 4000000000 12 6.

Lemma request_roundtrip_witness :
  let p := wire_pdu (pack_req_header ex_header (call_req (c_pair c_ull c_string) ex_args)) in
  ∃ u u', unpack_req_header (unmarshall_of p (Z.of_nat (length p))) = (ex_header, u) ∧
          u_take (c_pair c_ull c_string) (0, []) u = Ret (ex_args, u') ∧ okdone u' = true.
Proof.
  apply (request_roundtrip (c_pair c_ull c_string) ex_header ex_args);
    vm_compute; repeat split; discriminate.
Defined.

Lemma rpc_exchange_witness :
  ∃ pdu, serve (h_fn (c_pair c_ull c_string) c_int (λ a r, λ s : Z, Ret ((0, 5), s + fst a)))
           (wire_pdu (pack_req_header ex_header (call_req (c_pair c_ull c_string) ex_args))) 3
           = Ret (pdu, 4294967300) ∧
         receive c_int pdu = Ret (0, 5).
Proof.
  apply (rpc_exchange (c_pair c_ull c_string) c_int
    (λ a r, λ s : Z, Ret ((0, 5), s + fst a)) ex_header ex_args 3 4294967300 0 5);
    vm_compute; repeat split; discriminate.
Defined.

(** A 28-byte packet whose string claims 2^32 - 28 bytes. *)
Lemma rawbytes_out_of_bounds_iff_witness :
  u_rawbytes [] 4294967268 (Unmarshall (replicate 28 0) 28 28 true) = Undef.
Proof.
  apply (rawbytes_out_of_bounds_iff [] 4294967268 (Unmarshall (replicate 28 0) 28 28 true));
    vm_compute; repeat split; discriminate.
Defined.
