(* ===== verification/RpcTest.v ===== *)
(** rpc/rpctest.cc: its service, the marshalling test and the checks its clients
    make on single calls, over the stubs of RpcStub.v.

    A call is the exchange of one request and its reply; the failure test, with
    timeouts and restarted servers, is in RpcSession.v, and lost packets are
    the subject of RpcServer.v and RpcSystem.v. *)
From S2P Require Import Prelude Marshall RpcStub.
Local Open Scope Z_scope.

(** ** class srv

    Signed overflow and a negative length are undefined. *)
Definition handle_22 : list Z * list Z → list Z → ST unit (Z * list Z) := λ '(a, b) _, mret (0, a ++ b).

Definition add_int (a n : Z) : ST unit (Z * Z) := if a + n <? 2 ^ 31 then mret (0, a + n) else st_undef.

Definition handle_fast (a _ : Z) : ST unit (Z * Z) := add_int a 1.
Definition handle_slow (a _ : Z) : ST unit (Z * Z) := add_int a 2.

Definition handle_bigrep (len : Z) (_ : list Z) : ST unit (Z * list Z) :=
  if len <? 0 then st_undef else mret (0, replicate (Z.to_nat len) 120).

Section rpctest.
Context `{HeapJunk}.

(** ** testmarshall *)
Definition testmarshall_of (rh : req_header) (i l : Z) (s : list Z) : res unit :=
  let m := pack_req_header rh marshall_new in
  VERIFY (m_ind m =? RPC_HEADER_SZ);;
  let m := m_string s (m_ull l (m_int i m)) in
  let b := m_bytes m in
  let sz := m_ind m in
  VERIFY (sz =? s32 (RPC_HEADER_SZ + 4 + 8 + Z.of_nat (length s) + 4));;
  let '(rh1, un) := unpack_req_header (unmarshall_of b sz) in
  VERIFY (bool_decide ((rq_xid rh1, rq_proc rh1, rq_clt_nonce rh1, rq_srv_nonce rh1, rq_xid_rep rh1)
                       = (rq_xid rh, rq_proc rh, rq_clt_nonce rh, rq_srv_nonce rh, rq_xid_rep rh)));;
  '(i1, un) ← u_int 0 un;
  '(l1, un) ← u_ull 0 un;
  '(s1, un) ← u_string [] un;
  VERIFY (okdone un);;
  VERIFY ((i1 =? i) && (l1 =? l) && bool_decide (s1 = s)).

(** "hallo....", in bytes *)
Definition hallo : list Z := [104; 97; 108; 108; 111; 46; 46; 46; 46].

Definition testmarshall : res unit := testmarshall_of (ReqHeader 1 2 3 4 5) 12345 1223344455 hallo.

(** ** Calls of the clients *)
Definition exchange {A R} (ca : codec A) (cr : codec R) (meth : A → R → ST unit (Z * R)) (h : req_header) (a : A) : res (Z * R) :=
  '(pdu, _) ← serve (h_fn ca cr meth) (wire_pdu (pack_req_header h (call_req ca a))) tt;
  receive cr pdu.

Definition call_22 : req_header → list Z * list Z → res (Z * list Z) := exchange (c_pair c_string c_string) c_string handle_22.
Definition call_23 : req_header → Z → res (Z * Z) := exchange c_int c_int handle_fast.
Definition call_24 : req_header → Z → res (Z * Z) := exchange c_int c_int handle_slow.
Definition call_25 : req_header → Z → res (Z * list Z) := exchange c_int c_string handle_bigrep.

(** The bodies of the two loops of client1. *)
Definition client1_big (h : req_header) (arg : Z) : res unit :=
  '(ret, rep) ← call_25 h arg;
  VERIFY (ret =? 0);; VERIFY (s32 (Z.of_nat (length rep)) =? arg).

Definition client1_add (h : req_header) (which : bool) (arg : Z) : res unit :=
  '(ret, rep) ← (if which then call_23 h arg else call_24 h arg);
  VERIFY (ret =? 0);; VERIFY (rep =? (if which then arg + 1 else arg + 2)).

(** The body of the loop of client3. *)
Definition client3_call (h : req_header) (i : Z) : res unit :=
  '(ret, rep) ← call_24 h i;
  VERIFY ((ret =? timeout_failure) || (rep =? i + 2)).

(** "hello", " goodbye" *)
Definition hello : list Z := [104; 101; 108; 108; 111].
Definition goodbye : list Z := [32; 103; 111; 111; 100; 98; 121; 101].

(** simple_tests up to the call of a server that does not exist; [h] gives the
    headers of its calls. *)
Definition simple_tests (h : nat → req_header) : res unit :=
  '(intret, rep) ← call_22 (h 0%nat) (hello, goodbye);
  VERIFY (intret =? 0);; VERIFY (bool_decide (rep = hello ++ goodbye));;
  '(intret, rep) ← call_25 (h 1%nat) 70000;
  VERIFY (intret =? 0);; VERIFY (Z.of_nat (length rep) =? 70000);;
  '(intret, xx) ← call_23 (h 2%nat) 77;
  VERIFY ((intret =? 0) && (xx =? 78));;
  '(_, rep) ← call_22 (h 3%nat) (replicate (Z.to_nat 1000) 120, [120]);
  VERIFY (Z.of_nat (length rep) =? 1001);;
  '(_, rep) ← call_22 (h 4%nat) (replicate (Z.to_nat 1000000) 120, [122]);
  VERIFY (Z.of_nat (length rep) =? 1000001).
End rpctest.

(** ** What the calls return *)
Section calls.
Context `{HeapJunk}.

Lemma exchange_ret {A R} (ca : codec A) (cr : codec R) `{!CodecOk ca, !CodecOk cr} meth h a r :
  valid ca a → req_valid h → 24 + Z.of_nat (length (enc ca a)) < 2 ^ 31 → meth a (fresh cr) tt = Ret ((0, r), tt) →
  valid cr r → 24 + Z.of_nat (length (enc cr r)) < 2 ^ 31 → exchange ca cr meth h a = Ret (0, r).
Proof.
  intros Ha Hh Hl Em Hr Hl'. unfold exchange.
  destruct (exchange_run ca ca cr meth h a a tt tt 0 r Ha eq_refl Ha Hh Hl Em Hr) as (pdu & -> & E); [lia|done|done].
Qed.

Lemma valid_string s : Z.of_nat (length s) < 2 ^ 31 → valid c_string s.
Proof. done. Qed.

Lemma valid_int x : - 2 ^ 31 ≤ x < 2 ^ 31 → valid c_int x.
Proof. done. Qed.

Lemma length_enc_string s : length (enc c_string s) = (4 + length s)%nat.
Proof. done. Qed.

Lemma call_22_ret h a b :
  req_valid h → Z.of_nat (length a) + Z.of_nat (length b) < 2 ^ 30 → call_22 h (a, b) = Ret (0, a ++ b).
Proof.
  intros Hh Hl. unfold call_22.
  assert (length (enc (c_pair c_string c_string) (a, b)) = length (enc c_string a) + length (enc c_string b))%nat as E by apply length_app.
  rewrite !length_enc_string in E.
  apply (exchange_ret (c_pair c_string c_string) c_string); [|exact Hh|lia|reflexivity| |].
  - split; apply valid_string; lia.
  - apply valid_string. rewrite length_app. lia.
  - rewrite length_enc_string, length_app. lia.
Qed.

Lemma add_call_ret meth n h a :
  (∀ r, meth a r = add_int a n) → req_valid h → - 2 ^ 31 ≤ a → 0 ≤ n → a + n < 2 ^ 31 → exchange c_int c_int meth h a = Ret (0, a + n).
Proof.
  intros Em Hh Ha Hn Hs. apply (exchange_ret c_int c_int); [apply valid_int; lia|exact Hh|done| |apply valid_int; lia|done].
  rewrite Em. unfold add_int. by rewrite (proj2 (Z.ltb_lt _ _)) by lia.
Qed.

Lemma call_23_ret h a : req_valid h → - 2 ^ 31 ≤ a < 2 ^ 31 - 1 → call_23 h a = Ret (0, a + 1).
Proof. intros. apply (add_call_ret handle_fast 1); [done|done|lia..]. Qed.

Lemma call_24_ret h a : req_valid h → - 2 ^ 31 ≤ a < 2 ^ 31 - 2 → call_24 h a = Ret (0, a + 2).
Proof. intros. apply (add_call_ret handle_slow 2); [done|done|lia..]. Qed.

Lemma call_25_ret h len : req_valid h → 0 ≤ len < 2 ^ 30 → call_25 h len = Ret (0, replicate (Z.to_nat len) 120).
Proof.
  intros Hh Hl. pose proof (length_replicate (Z.to_nat len) 120) as E. set (r := replicate (Z.to_nat len) 120) in *.
  apply (exchange_ret c_int c_string); [apply valid_int; lia|exact Hh|done| |apply valid_string; rewrite E; lia|rewrite length_enc_string, E; lia].
  unfold handle_bigrep. fold r. by rewrite (proj2 (Z.ltb_ge _ _)) by lia.
Qed.

(** Long strings of one character. *)
Lemma big_reply h n : req_valid h → 0 ≤ n < 2 ^ 29 →
  call_25 h n = Ret (0, replicate (Z.to_nat n) 120) ∧ Z.of_nat (length (replicate (Z.to_nat n) 120)) = n.
Proof. intros Hh Hn. split; [apply call_25_ret; [done|lia]|]. rewrite length_replicate. lia. Qed.

Lemma big_request h n c : req_valid h → 0 ≤ n < 2 ^ 29 →
  call_22 h (replicate (Z.to_nat n) 120, [c]) = Ret (0, replicate (Z.to_nat n) 120 ++ [c]) ∧
  Z.of_nat (length (replicate (Z.to_nat n) 120 ++ [c])) = n + 1.
Proof.
  intros Hh Hn. pose proof (length_replicate (Z.to_nat n) 120) as E. set (r := replicate (Z.to_nat n) 120) in *. clearbody r.
  split; [apply call_22_ret; [done|]; rewrite E; simpl; lia|]. rewrite length_app, E. simpl. lia.
Qed.

(** A check that holds. *)
Lemma verify_true {A} (b : bool) (k : unit → res A) : b = true → (VERIFY b ≫= k) = k tt.
Proof. by intros ->. Qed.

Lemma res_step {A B} (p : res A) (k : A → res B) a : p = Ret a → (p ≫= k) = k a.
Proof. by intros ->. Qed.

End calls.

(** ** testmarshall *)
Section marshalling.
Context `{HeapJunk}.

Definition test_codec := c_pair c_int (c_pair c_ull c_string).

Lemma read_three {D} u i l s u' (k : Z → Z → list Z → unmarshall → res D) :
  u_take test_codec (fresh test_codec) u = Ret ((i, (l, s)), u') →
  ('(i1, u) ← u_int 0 u; '(l1, u) ← u_ull 0 u; '(s1, u) ← u_string [] u; k i1 l1 s1 u) = k i l s u'.
Proof.
  unfold test_codec, c_pair, c_int, c_ull, c_string. cbn [u_take fresh]. unfold mbind, res_bind.
  destruct (u_int 0 u) as [[i1 u1]| | | |]; try done. destruct (u_ull 0 u1) as [[l1 u2]| | | |]; try done.
  destruct (u_string [] u2) as [[s1 u3]| | | |]; try done. by intros [= -> -> -> ->].
Qed.

(** A header packed first, then the values. *)
Lemma header_first rh i l s :
  - 2 ^ 31 ≤ i < 2 ^ 31 → 0 ≤ l < 2 ^ 64 → Z.of_nat (length s) < 2 ^ 30 →
  let m := m_string s (m_ull l (m_int i (pack_req_header rh marshall_new))) in
  m_ind (pack_req_header rh marshall_new) = RPC_HEADER_SZ ∧
  m_ind m = 40 + Z.of_nat (length s) ∧ length (m_bytes m) = Z.to_nat (m_ind m) ∧
  ∃ sz, length sz = 4%nat ∧ m_bytes m = sz ++ req_header_bytes rh ++ enc test_codec (i, (l, s)).
Proof.
  intros Hi Hl Hs m. destruct marshall_new_inv as [Hm0 E0].
  destruct (pack_req_header_bytes rh _ Hm0) as (Hm1 & Ei & E1); [done|]. rewrite E0 in E1.
  assert (valid test_codec (i, (l, s))) as Hv by (split; [done|]; split; [done|]; apply valid_string; lia).
  destruct (put_ok (i, (l, s)) Hv _ Hm1) as [Hm2 E2]. fold test_codec in E2.
  change (m_put test_codec (i, (l, s)) (pack_req_header rh marshall_new)) with m in Hm2, E2.
  pose proof (length_m_bytes m Hm2) as Lm. pose proof (length_m_bytes _ Hm1) as L1. rewrite Ei in L1.
  assert (length (enc test_codec (i, (l, s))) = 16 + length s)%nat as Le by done.
  split; [done|]. split; [|split; [done|]].
  - pose proof (f_equal length E2) as L. rewrite Lm, length_app, L1, Le in L. destruct Hm2 as (_ & [? _] & _).
    change (m_ind marshall_new) with 24 in L. lia.
  - rewrite E2, E1. set (j := take 24 (malloc 1024)) in *.
    assert (length j = 24%nat) as Lj by (unfold j; rewrite length_take, length_malloc; lia). clearbody j.
    assert (length (req_header_bytes rh) = 20%nat) as Lr by done.
    exists (take 4 j). split; [rewrite length_take; lia|]. unfold splice. rewrite Lr, (drop_ge j) by lia. by rewrite app_nil_r, <- app_assoc.
Qed.

(** testmarshall finds what it packed, for every header and all values. *)
Theorem testmarshall_passes (rh : req_header) (i l : Z) (s : list Z) :
  req_valid rh → - 2 ^ 31 ≤ i < 2 ^ 31 → 0 ≤ l < 2 ^ 64 → Z.of_nat (length s) < 2 ^ 30 →
  testmarshall_of rh i l s = Ret tt.
Proof.
  intros Hh Hi Hl Hs. destruct (header_first rh i l s Hi Hl Hs) as (Ei & Em & Lm & sz & Lsz & Eb).
  unfold testmarshall_of. rewrite Ei. rewrite verify_true by apply Z.eqb_refl. cbv zeta.
  set (m := m_string s _) in *. rewrite Em. change RPC_HEADER_SZ with 24.
  rewrite verify_true by (rewrite swrap_small by lia; apply Z.eqb_eq; lia).
  assert (valid test_codec (i, (l, s))) as Hv by (split; [done|]; split; [done|]; apply valid_string; lia).
  destruct (packet_reader sz (req_header_bytes rh) [] (enc test_codec (i, (l, s))) Lsz eq_refl) as (W4 & R4 & W & R).
  { cbn [app]. rewrite <- Eb, Lm, Em. lia. }
  cbn [app] in W4, R4, W, R. rewrite <- Eb, Lm, Z2Nat.id, Em in W4, R4, W, R by lia.
  rewrite (unpack_req_header_spec _ rh _ W4 R4 Hh). rewrite verify_true by (by apply bool_decide_eq_true).
  destruct (take_all test_codec (i, (l, s)) _ Hv W R) as (u' & T & D).
  rewrite (read_three _ i l s u' _ T). rewrite verify_true by done.
  by rewrite !Z.eqb_refl, bool_decide_true.
Qed.

(** The checks of rpctest on its calls hold: the four handlers answer what the
    clients expect, for all arguments the tests may draw. *)
Theorem rpctest_calls_pass (h : req_header) (hs : nat → req_header) (arg : Z) (which : bool) :
  req_valid h → (∀ k, req_valid (hs k)) → 0 ≤ arg < 2000 →
  client1_big h arg = Ret tt ∧ client1_add h which arg = Ret tt ∧ client3_call h arg = Ret tt ∧ simple_tests hs = Ret tt.
Proof.
  intros Hh Hhs Ha. split_and!.
  - unfold client1_big. rewrite (res_step _ _ _ (call_25_ret h arg Hh ltac:(lia))). cbv beta iota.
    rewrite verify_true by done. rewrite length_replicate, Z2Nat.id, swrap_small, Z.eqb_refl by lia. done.
  - unfold client1_add. destruct which.
    + rewrite (res_step _ _ _ (call_23_ret h arg Hh ltac:(lia))). cbv beta iota.
      rewrite verify_true by done. by rewrite Z.eqb_refl.
    + rewrite (res_step _ _ _ (call_24_ret h arg Hh ltac:(lia))). cbv beta iota.
      rewrite verify_true by done. by rewrite Z.eqb_refl.
  - unfold client3_call. rewrite (res_step _ _ _ (call_24_ret h arg Hh ltac:(lia))).
    cbv beta iota. by rewrite Z.eqb_refl, orb_true_r.
  - unfold simple_tests. 
    rewrite (res_step _ _ _ (call_22_ret _ hello goodbye (Hhs 0%nat) ltac:(simpl; lia))). cbv beta iota.
    rewrite verify_true by done. rewrite verify_true by (by apply bool_decide_eq_true).
    destruct (big_reply (hs 1%nat) 70000 (Hhs _)) as [E1 L1]; [lia|]. rewrite (res_step _ _ _ E1). cbv beta iota.
    rewrite verify_true by done. rewrite L1. rewrite verify_true by done.
    rewrite (res_step _ _ _ (call_23_ret _ 77 (Hhs 2%nat) ltac:(lia))). cbv beta iota. rewrite verify_true by done.
    destruct (big_request (hs 3%nat) 1000 120 (Hhs _)) as [E3 L3]; [lia|]. rewrite (res_step _ _ _ E3). cbv beta iota.
    rewrite L3. rewrite verify_true by done.
    destruct (big_request (hs 4%nat) 1000000 122 (Hhs _)) as [E4 L4]; [lia|]. rewrite (res_step _ _ _ E4). cbv beta iota.
    rewrite L4. done.
Qed.
End marshalling.

(** ** The values of the test *)
#[local] Instance test_junk : HeapJunk := λ _, 170.

Lemma testmarshall_passes_witness : testmarshall = Ret tt.
Proof.
  apply (testmarshall_passes (ReqHeader 1 2 3 4 5) 12345 1223344455 hallo); [repeat split; simpl; lia|lia|lia|simpl; lia].
Defined.

Lemma rpctest_calls_pass_witness :
  client1_big (ReqHeader 7 25 9 4 5) 1999 = Ret tt.
Proof.
  destruct (rpctest_calls_pass (ReqHeader 7 25 9 4 5) (λ k, ReqHeader (Z.of_nat (k `mod` 8)) 22 9 4 0) 1999 true) as [E _]; [| |lia|exact E].
  - repeat split; simpl; lia.
  - intros k. pose proof (Nat.mod_upper_bound k 8). repeat split; cbn [rq_xid rq_proc rq_clt_nonce rq_srv_nonce rq_xid_rep]; lia.
Defined.
