(* ===== verification/Connection.v ===== *)
(** Connections, class connection of rpc/connection.h and rpc/connection.cc: how
    packets become a stream of bytes and a stream becomes packets again, whatever
    pieces the kernel reads and writes, and how the threads that send on one
    connection take turns.

    Each operation is cut where it gives up the mutex m_: to wait for its turn, to
    wait for the rest of its packet, and to remove the descriptor. *)
From S2P Require Import Prelude Marshall.
Local Open Scope Z_scope.

Definition MAX_PDU : Z := 10 * 2 ^ 20.

(** struct charbuf *)
Record charbuf := CharBuf { cb_buf : option (list Z); cb_sz : Z; cb_solong : Z }.
Definition charbuf_new : charbuf := CharBuf None 0 0.

(** The state of a connection; [c_wcb]: the poll manager has a write callback. *)
Record conn := Conn {
  c_dead : bool; c_wpdu : charbuf; c_rpdu : charbuf; c_waiters : Z; c_wcb : bool }.
Definition conn_new : conn := Conn false charbuf_new charbuf_new 0 false.

Definition set_wpdu (w : charbuf) (c : conn) : conn := Conn (c_dead c) w (c_rpdu c) (c_waiters c) (c_wcb c).
Definition set_dead (d : bool) (c : conn) : conn := Conn d (c_wpdu c) (c_rpdu c) (c_waiters c) (c_wcb c).
Definition set_waiters (n : Z) (c : conn) : conn := Conn (c_dead c) (c_wpdu c) (c_rpdu c) n (c_wcb c).
Definition set_wcb (b : bool) (c : conn) : conn := Conn (c_dead c) (c_wpdu c) (c_rpdu c) (c_waiters c) b.

(** What a read or a write of the descriptor does: how many bytes it transfers at
    most, whether it fails, whether errno is EAGAIN after it. *)
Record rio := Rio { r_max : nat; r_fail : bool; r_eagain : bool }.

(** read(fd_, _, len): the result, the bytes, what is left of the stream. *)
Definition read_fd (r : rio) (len : Z) (inp : list Z) : Z * list Z * list Z :=
  if r_fail r then (-1, [], inp)
  else
    let n := Z.to_nat (Z.of_nat (r_max r) `min` (len `min` Z.of_nat (length inp))) in
    (Z.of_nat n, take n inp, drop n inp).

(** ntohl of four bytes in memory, as an int. *)
Definition ntohl (bs : list Z) : Z :=
  match bs with
  | [a; b; c; d] => s32 (Z.lor (Z.lor (Z.lor (a ≪ 24) (b ≪ 16)) (c ≪ 8)) d)
  | _ => 0
  end.

Section ops.
Context `{HeapJunk}.

(** readpdu, the size of the next packet; [None] is the return of false.  malloc
    fails on sizes above PTRDIFF_MAX. *)
Definition readpdu_size (r : rio) (p : charbuf) (inp : list Z) : res (option charbuf * list Z) :=
  if negb (cb_sz p =? 0) then Ret (Some p, inp)
  else
    let '(n, bs, inp) := read_fd r 4 inp in
    if n =? 0 then Ret (None, inp)
    else if n <? 0 then if r_eagain r then VerifyFailed else Ret (None, inp)
    else if negb (n =? 4) then Ret (None, inp)
    else
      let sz := ntohl bs in
      if MAX_PDU <? sz then Ret (None, inp)
      else match cb_buf p with
           | Some _ => VerifyFailed
           | None =>
               let m := u64 (sz + 4) in
               if 2 ^ 63 <=? m then VerifyFailed
               else if m <? 4 then Undef
               else Ret (Some (CharBuf (Some (splice 0 bs (malloc m))) sz 4), inp)
           end.

Definition readpdu (r1 r2 : rio) (p : charbuf) (inp : list Z) : res (bool * charbuf * list Z) :=
  '(o, inp) ← readpdu_size r1 p inp;
  match o with
  | None => Ret (false, p, inp)
  | Some p =>
      let '(n, bs, inp) := read_fd r2 (u64 (cb_sz p - cb_solong p)) inp in
      if n <=? 0 then
        if r_eagain r2 then Ret (true, p, inp) else Ret (false, charbuf_new, inp)
      else
        match cb_buf p with
        | None => Undef
        | Some b =>
            if Z.of_nat (length b) <? cb_solong p + n then Undef
            else Ret (true, CharBuf (Some (splice (Z.to_nat (cb_solong p)) bs b)) (cb_sz p)
                              (cb_solong p + n), inp)
        end
  end.

(** read_cb: the packets handed to the channel manager, which takes or refuses
    them ([acc]); a refused one is offered again. *)
Definition read_cb (acc : bool) (r1 r2 : rio) (c : conn) (inp : list Z)
    : res (list (list Z) * conn * list Z) :=
  if c_dead c then Ret ([], c, inp)
  else
    '(succ, p, inp) ← (if bool_decide (cb_buf (c_rpdu c) = None) || (cb_solong (c_rpdu c) <? cb_sz (c_rpdu c))
                       then readpdu r1 r2 (c_rpdu c) inp else Ret (true, c_rpdu c, inp));
    let with_p p := Conn (negb succ) (c_wpdu c) p (c_waiters c) (if succ : bool then c_wcb c else false) in
    match cb_buf p with
    | Some b =>
        if (cb_sz p =? cb_solong p) && acc
        then Ret ([take (Z.to_nat (cb_sz p)) b], with_p charbuf_new, inp)
        else Ret ([], with_p p, inp)
    | None => Ret ([], with_p p, inp)
    end.

(** A sequence of read callbacks. *)
Fixpoint read_cbs (steps : list (bool * rio * rio)) (c : conn) (inp : list Z)
    : res (list (list Z) * conn * list Z) :=
  match steps with
  | [] => Ret ([], c, inp)
  | (acc, r1, r2) :: steps =>
      '(ds, c, inp) ← read_cb acc r1 r2 c inp;
      '(ds', c, inp) ← read_cbs steps c inp;
      Ret (ds ++ ds', c, inp)
  end.
End ops.

(** writepdu: the bytes written. *)
Definition writepdu (w : rio) (p : charbuf) : res (bool * list Z * charbuf) :=
  if cb_solong p <? 0 then VerifyFailed
  else if cb_solong p =? cb_sz p then Ret (true, [], p)
  else
    match cb_buf p with
    | None => Undef
    | Some b =>
        if (cb_solong p =? 0) && (length b <? 4)%nat then Undef
        else
          let b := if cb_solong p =? 0 then splice 0 (be4 (cb_sz p)) b else b in
          if r_fail w then
            if r_eagain w then Ret (true, [], CharBuf (Some b) (cb_sz p) (cb_solong p))
            else Ret (false, [], CharBuf (Some b) 0 (-1))
          else
            let n := Z.of_nat (r_max w) `min` u64 (cb_sz p - cb_solong p) in
            if Z.of_nat (length b) <? cb_solong p + n then Undef
            else Ret (true, slice (Z.to_nat (cb_solong p)) (Z.to_nat n) b,
                      CharBuf (Some b) (cb_sz p) (cb_solong p + n))
    end.

(** Where a call of send is after it gave up the mutex. *)
Inductive sres := Returned (ret : bool) | Queued | Sending | Failing.

(** The end of send. *)
Definition send_end (c : conn) : bool * conn :=
  (negb (c_dead c) && (cb_solong (c_wpdu c) =? cb_sz (c_wpdu c)), set_wpdu charbuf_new c).

(** send up to its first wait; [waited]: woken from send_wait_. *)
Definition send_enter (waited : bool) (w : rio) (b : list Z) (sz : Z) (c : conn)
    : res (sres * list Z * conn) :=
  let n := if waited then c_waiters c else c_waiters c + 1 in
  if c_dead c then Ret (Returned false, [], set_waiters (n - 1) c)
  else if bool_decide (cb_buf (c_wpdu c) ≠ None) then Ret (Queued, [], set_waiters n c)
  else
    '(ok, out, p) ← writepdu w (CharBuf (Some b) sz 0);
    let c := set_wpdu p (set_waiters (n - 1) c) in
    if negb ok then Ret (Failing, out, set_dead true c)
    else if cb_solong p =? cb_sz p
    then let '(ret, c) := send_end c in Ret (Returned ret, out, c)
    else Ret (Sending, out, set_wcb true c).

(** send woken from send_complete_: [None] when it goes on waiting. *)
Definition send_resume (c : conn) : option (bool * conn) :=
  if negb (c_dead c) && (0 <=? cb_solong (c_wpdu c)) && (cb_solong (c_wpdu c) <? cb_sz (c_wpdu c))
  then None else Some (send_end c).

(** send after block_remove_fd. *)
Definition send_failed (c : conn) : bool * conn := send_end (set_wcb false c).

Definition write_cb (w : rio) (c : conn) : res (list Z * conn) :=
  if c_dead c then VerifyFailed
  else if cb_sz (c_wpdu c) =? 0 then Ret ([], set_wcb false c)
  else
    '(ok, out, p) ← writepdu w (c_wpdu c);
    if negb ok then Ret (out, set_dead true (set_wcb false (set_wpdu p c)))
    else if cb_solong p <? 0 then VerifyFailed else Ret (out, set_wpdu p c).

(** * Reading *)

(** A packet as it is on the wire. *)
Definition frame_ok (p : list Z) : Prop :=
  4 < Z.of_nat (length p) ≤ MAX_PDU ∧ take 4 p = be4 (Z.of_nat (length p)).

Lemma ntohl_be4 x : ntohl (be4 x) = s32 x.
Proof. unfold ntohl, be4. rewrite be4_combine. apply swrap_uwrap. lia. Qed.

(** Between two callbacks: the packets that are not yet handed over, the partial
    packet and the rest of the stream. *)
Inductive reading : list (list Z) → charbuf → list Z → Prop :=
  | rd_idle pdus : reading pdus charbuf_new (concat pdus)
  | rd_part p ps b k :
      (4 ≤ k ≤ length p)%nat → length b = (length p + 4)%nat → take k b = take k p →
      reading (p :: ps) (CharBuf (Some b) (Z.of_nat (length p)) (Z.of_nat k)) (drop k p ++ concat ps).

Section reader.
Context `{HeapJunk}.

(** The second read of readpdu, inside a packet. *)
Lemma readpdu_part r1 r2 p ps b k :
  frame_ok p → (4 ≤ k < length p)%nat → length b = (length p + 4)%nat → take k b = take k p →
  ∃ ok q inp, readpdu r1 r2 (CharBuf (Some b) (Z.of_nat (length p)) (Z.of_nat k)) (drop k p ++ concat ps)
    = Ret (ok, q, inp) ∧ if ok then reading (p :: ps) q inp else cb_buf q = None.
Proof.
  intros [[Hl HM] _] Hk Hb Et. unfold MAX_PDU in HM. unfold readpdu, readpdu_size. simpl.
  destruct (Z.eqb_spec (Z.of_nat (length p)) 0) as [E0|_]; [lia|]. simpl.
  rewrite (uwrap_small 64) by lia. unfold read_fd. destruct (r_fail r2).
  { simpl. destruct (r_eagain r2); eexists _, _, _; (split; [reflexivity|]); [|done]. constructor; lia || done. }
  set (n := Z.to_nat _). destruct (Z.leb_spec (Z.of_nat n) 0).
  { assert (n = 0%nat) as -> by lia. rewrite drop_0.
    destruct (r_eagain r2); eexists _, _, _; (split; [reflexivity|]); [|done]. constructor; lia || done. }
  assert (k + n ≤ length p)%nat as Hn by lia.
  destruct (Z.ltb_spec (Z.of_nat (length b)) (Z.of_nat k + Z.of_nat n)); [lia|].
  eexists _, _, _. split; [reflexivity|]. rewrite take_app_le, drop_app_le, drop_drop by (rewrite length_drop; lia).
  rewrite <- Nat2Z.inj_add, Nat2Z.id. apply rd_part; [lia| |].
  - rewrite length_splice; [lia|]. rewrite length_take, length_drop. lia.
  - change (take n (drop k p)) with (slice k n p).
    assert (length (slice k n p) = n) as Ls by (rewrite length_slice; lia).
    rewrite <- Ls at 1. rewrite take_splice by lia. rewrite Et. unfold slice.
    rewrite take_take_drop. done.
Qed.

(** The size field, when all of it arrives. *)
Lemma readpdu_size_be4 r sz inp :
  r_fail r = false → (4 ≤ r_max r)%nat → - 2 ^ 31 ≤ sz < 2 ^ 31 →
  readpdu_size r charbuf_new (be4 sz ++ inp) =
  if MAX_PDU <? sz then Ret (None, inp)
  else if 2 ^ 63 <=? u64 (sz + 4) then VerifyFailed
  else if u64 (sz + 4) <? 4 then Undef
  else Ret (Some (CharBuf (Some (splice 0 (be4 sz) (malloc (u64 (sz + 4))))) sz 4), inp).
Proof.
  intros Hf Hm Hsz. unfold readpdu_size, read_fd. rewrite Hf. cbn [cb_sz charbuf_new].
  change (negb (0 =? 0)) with false. cbv iota.
  replace (Z.to_nat _) with 4%nat by (rewrite length_app; change (length (be4 sz)) with 4%nat; lia).
  change (take 4 (be4 sz ++ inp)) with (be4 sz). change (drop 4 (be4 sz ++ inp)) with inp.
  by rewrite ntohl_be4, (swrap_small 32) by lia.
Qed.

Lemma uwrap_neg z : - 2 ^ 64 ≤ z < 0 → u64 z = 2 ^ 64 + z.
Proof. intros Hz. unfold uwrap. rewrite <- (Z.mod_small (2 ^ 64 + z) (2 ^ 64)) by lia.
  rewrite <- (Z_mod_plus_full z 1 (2 ^ 64)). f_equal. lia. Qed.

(** The size of the next packet, at the start of one. *)
Lemma readpdu_size_frame r p ps :
  frame_ok p →
  match readpdu_size r charbuf_new (p ++ concat ps) with
  | Ret (None, _) => True
  | Ret (Some q, inp) =>
      ∃ b, q = CharBuf (Some b) (Z.of_nat (length p)) 4 ∧ length b = (length p + 4)%nat ∧
        take 4 b = take 4 p ∧ inp = drop 4 p ++ concat ps
  | VerifyFailed => r_fail r = true ∧ r_eagain r = true
  | _ => False
  end.
Proof.
  intros [[Hl HM] Hp]. unfold MAX_PDU in HM. unfold readpdu_size, charbuf_new. simpl. unfold read_fd.
  destruct (r_fail r); [simpl; by destruct (r_eagain r)|].
  set (n := Z.to_nat _). destruct (Z.eqb_spec (Z.of_nat n) 0); [done|].
  destruct (Z.ltb_spec (Z.of_nat n) 0); [lia|]. destruct (Z.eqb_spec (Z.of_nat n) 4) as [E4|]; [|done].
  assert (n = 4%nat) as -> by lia. cbn [negb]. rewrite take_app_le, drop_app_le by lia. rewrite Hp, ntohl_be4.
  rewrite (swrap_small 32) by lia. unfold MAX_PDU. destruct (Z.ltb_spec (10 * 2 ^ 20) (Z.of_nat (length p))); [lia|].
  rewrite (uwrap_small 64) by lia.
  destruct (Z.leb_spec (2 ^ 63) (Z.of_nat (length p) + 4)); [lia|].
  destruct (Z.ltb_spec (Z.of_nat (length p) + 4) 4); [lia|].
  eexists. split; [reflexivity|]. split_and!; [| |done].
  - rewrite length_splice; rewrite length_malloc; [lia|]. simpl. lia.
  - apply (take_splice 0 (be4 (Z.of_nat (length p)))). lia.
Qed.

Lemma readpdu_frames r1 r2 pdus p inp :
  Forall frame_ok pdus → reading pdus p inp → cb_buf p = None ∨ cb_solong p < cb_sz p →
  match readpdu r1 r2 p inp with
  | Ret (ok, q, inp') => if ok : bool then reading pdus q inp' else cb_buf q = None
  | VerifyFailed => r_fail r1 = true ∧ r_eagain r1 = true
  | _ => False
  end.
Proof.
  intros Hf Hr Hs. destruct Hr as [pdus|p ps b k Hk Hb Et].
  - destruct pdus as [|p ps].
    { unfold readpdu, readpdu_size, read_fd. simpl. destruct (r_fail r1); simpl; [by destruct (r_eagain r1)|].
      by rewrite !Z.min_r by lia. }
    apply Forall_cons in Hf as [Hp _]. simpl concat. pose proof (readpdu_size_frame r1 p ps Hp) as Hz.
    assert (∀ q inp, readpdu_size r1 charbuf_new (p ++ concat ps) = Ret (Some q, inp) →
      readpdu r1 r2 charbuf_new (p ++ concat ps) = readpdu r1 r2 q inp) as Hq.
    { intros q inp E. rewrite E in Hz. destruct Hz as (b & -> & _ & _ & ->). unfold readpdu. rewrite E.
      unfold readpdu_size. simpl. destruct Hp as [[? ?] _]. by destruct (Z.eqb_spec (Z.of_nat (length p)) 0); [lia|]. }
    destruct (readpdu_size r1 charbuf_new (p ++ concat ps)) as [[[q|] inp]| | | |] eqn:E; try done.
    + rewrite (Hq _ _ eq_refl). destruct Hz as (b & -> & Hb & Ht & ->). change 4 with (Z.of_nat 4).
      destruct (readpdu_part r1 r2 p ps b 4) as (ok & q & inp & -> & ?); try done.
      destruct Hp as [[? ?] _]. lia.
    + unfold readpdu. by rewrite E.
    + unfold readpdu. by rewrite E.
  - apply Forall_cons in Hf as [Hp _]. simpl in Hs. destruct Hs as [|Hs]; [done|].
    destruct (readpdu_part r1 r2 p ps b k) as (ok & q & inp & -> & ?); try done. lia.
Qed.

(** One callback hands over the next packet or nothing. *)
Lemma read_cb_frames acc r1 r2 c pdus inp :
  Forall frame_ok pdus → c_dead c = false → reading pdus (c_rpdu c) inp →
  match read_cb acc r1 r2 c inp with
  | Ret (ds, c', inp') =>
      ∃ rest, pdus = ds ++ rest ∧ (c_dead c' = false → reading rest (c_rpdu c') inp')
  | VerifyFailed => r_fail r1 = true ∧ r_eagain r1 = true
  | _ => False
  end.
Proof.
  intros Hf Hd Hr. unfold read_cb. rewrite Hd.
  set (r := if _ || _ then _ else _).
  assert (match r with
          | Ret (ok, q, inp') => if ok : bool then reading pdus q inp' else cb_buf q = None
          | VerifyFailed => r_fail r1 = true ∧ r_eagain r1 = true
          | _ => False
          end) as Hq.
  { unfold r. destruct (bool_decide_reflect (cb_buf (c_rpdu c) = None)); simpl; [apply readpdu_frames; auto|].
    destruct (Z.ltb_spec (cb_solong (c_rpdu c)) (cb_sz (c_rpdu c))); [apply readpdu_frames; auto|exact Hr]. }
  destruct r as [[[ok q] inp']| | | |]; try done. unfold mbind, res_bind.
  destruct ok; simpl; [|rewrite Hq; by exists pdus]. destruct Hq as [pdus|p ps b k Hk Hb Et]; simpl;
    [exists pdus; split; [done|]; intros _; constructor|].
  destruct (Z.eqb_spec (Z.of_nat (length p)) (Z.of_nat k)) as [E|E]; simpl.
  - destruct acc; simpl.
    + exists ps. assert (k = length p) as -> by lia. rewrite drop_all, Nat2Z.id, Et, take_ge by lia.
      split; [done|]. intros _. constructor.
    + exists (p :: ps). split; [done|]. intros _. by constructor.
  - exists (p :: ps). split; [done|]. intros _. by constructor.
Qed.
End reader.

(** * Writing *)

(** The packet that send puts on the wire. *)
Definition frame (b : list Z) (sz : Z) : list Z := take (Z.to_nat sz) (splice 0 (be4 sz) b).

(** A packet that the other side accepts. *)
Definition sendable (b : list Z) (sz : Z) : Prop := 4 < sz ≤ MAX_PDU ∧ sz ≤ Z.of_nat (length b).

(** While a packet is written: the buffer, the first bytes of which may be set
    already, and how much of it is on the wire. *)
Inductive writing (b : list Z) (sz : Z) : charbuf → list Z → Prop :=
  | wr_start : writing b sz (CharBuf (Some b) sz 0) []
  | wr_part k : (0 ≤ k ≤ Z.to_nat sz)%nat →
      writing b sz (CharBuf (Some (splice 0 (be4 sz) b)) sz (Z.of_nat k)) (take k (frame b sz)).

Lemma splice_be4_idemp sz b : splice 0 (be4 sz) (splice 0 (be4 sz) b) = splice 0 (be4 sz) b.
Proof. unfold splice. rewrite !take_0, !app_nil_l. f_equal. Qed.

Lemma writepdu_at w b sz k :
  sendable b sz → (k ≤ Z.to_nat sz)%nat →
  ∃ ok out q, writepdu w (CharBuf (Some (splice 0 (be4 sz) b)) sz (Z.of_nat k)) = Ret (ok, out, q) ∧
    if ok then writing b sz q (take k (frame b sz) ++ out) else out = [] ∧ cb_buf q ≠ None.
Proof.
  intros [Hs Hl] Hk. unfold MAX_PDU in Hs. unfold writepdu. cbn [cb_solong cb_sz cb_buf].
  assert (length (splice 0 (be4 sz) b) = length b) as Lb.
  { rewrite length_splice; [done|]. change (length (be4 sz)) with 4%nat. lia. }
  set (B := splice 0 (be4 sz) b) in *.
  destruct (Z.ltb_spec (Z.of_nat k) 0); [lia|]. destruct (Z.eqb_spec (Z.of_nat k) sz) as [E|E].
  { eexists _, _, _. split; [reflexivity|]. rewrite app_nil_r. constructor. lia. }
  assert ((Z.of_nat k =? 0) && (length B <? 4)%nat = false) as ->.
  { destruct (Nat.ltb_spec (length B) 4); [lia|]. apply andb_false_r. }
  assert ((if Z.of_nat k =? 0 then splice 0 (be4 sz) B else B) = B) as ->.
  { unfold B. rewrite splice_be4_idemp. by destruct (Z.of_nat k =? 0). }
  destruct (r_fail w).
  { destruct (r_eagain w); eexists _, _, _; (split; [reflexivity|]); [|done]. rewrite app_nil_r. constructor. lia. }
  rewrite (uwrap_small 64) by lia. set (n := Z.of_nat (r_max w) `min` (sz - Z.of_nat k)).
  destruct (Z.ltb_spec (Z.of_nat (length B)) (Z.of_nat k + n)); [lia|].
  eexists _, _, _. split; [reflexivity|]. rewrite Nat2Z.id.
  replace (Z.of_nat k + n) with (Z.of_nat (k + Z.to_nat n)) by lia.
  assert (take k (frame b sz) ++ slice k (Z.to_nat n) B = take (k + Z.to_nat n) (frame b sz)) as ->.
  { unfold frame, slice. fold B. rewrite !take_take, !Nat.min_l by lia. apply take_take_drop. }
  constructor. lia.
Qed.

Lemma writepdu_part w b sz p part :
  sendable b sz → writing b sz p part →
  ∃ ok out q, writepdu w p = Ret (ok, out, q) ∧
    if ok then writing b sz q (part ++ out) else out = [] ∧ cb_buf q ≠ None.
Proof.
  intros Hs [|k Hk]; [|by apply writepdu_at; [|lia]].
  destruct (writepdu_at w b sz 0 Hs) as (ok & out & q & E & Hq); [lia|]. exists ok, out, q.
  split; [|done]. rewrite <- E. destruct Hs as [Hs Hl]. unfold writepdu. cbn [cb_solong cb_sz cb_buf].
  change (Z.of_nat 0) with 0. change (0 <? 0) with false. change (0 =? 0) with true. cbv iota.
  destruct (Z.eqb_spec 0 sz); [lia|]. rewrite splice_be4_idemp, length_splice; [done|].
  change (length (be4 sz)) with 4%nat. lia.
Qed.

Lemma length_frame b sz : sendable b sz → Z.of_nat (length (frame b sz)) = sz.
Proof.
  intros [Hs Hl]. unfold frame. rewrite length_take, length_splice by (change (length (be4 sz)) with 4%nat; lia). lia.
Qed.

Lemma frame_is_ok b sz : sendable b sz → frame_ok (frame b sz).
Proof.
  intros Hs. split; rewrite length_frame by done; [apply Hs|]. destruct Hs as [Hs Hl]. unfold frame.
  rewrite take_take, Nat.min_l by lia. apply (take_splice 0 (be4 sz)). lia.
Qed.

(** ** The threads that send on one connection *)
Inductive stask :=
  | SNew (b : list Z) (sz : Z)   (* before send *)
  | SWait (b : list Z) (sz : Z)  (* in send_wait_ *)
  | SSend (b : list Z) (sz : Z)  (* in send_complete_ *)
  | SFail (b : list Z) (sz : Z). (* removing the descriptor *)

(** [cs_out]: the bytes on the wire; [cs_done]: the packets whose send returned
    true; [cs_failed]: those whose send returned false. *)
Record csys := CSys {
  cs_conn : conn; cs_out : list Z; cs_tasks : list stask; cs_done : list (list Z); cs_failed : list (list Z) }.
Definition csys_new : csys := CSys conn_new [] [] [] [].

Definition after_send (r : sres) (b : list Z) (sz : Z) : list stask :=
  match r with
  | Returned _ => []
  | Queued => [SWait b sz]
  | Sending => [SSend b sz]
  | Failing => [SFail b sz]
  end.

Definition sent_ok (ret : bool) (b : list Z) (sz : Z) : list (list Z) := if ret then [frame b sz] else [].
Definition sent_failed (ret : bool) (b : list Z) (sz : Z) : list (list Z) := if ret then [] else [frame b sz].

Inductive sstep : csys → csys → Prop :=
  | SS_new b sz x : sendable b sz →
      sstep x (CSys (cs_conn x) (cs_out x) (SNew b sz :: cs_tasks x) (cs_done x) (cs_failed x))
  | SS_enter (waited : bool) w b sz r out c t1 t2 x :
      cs_tasks x = t1 ++ (if waited then SWait b sz else SNew b sz) :: t2 →
      send_enter waited w b sz (cs_conn x) = Ret (r, out, c) →
      sstep x (CSys c (cs_out x ++ out) (t1 ++ after_send r b sz ++ t2)
                 (cs_done x ++ sent_ok (if r is Returned ret then ret else false) b sz)
                 (cs_failed x ++ sent_failed (if r is Returned ret then ret else true) b sz))
  | SS_resume b sz ret c t1 t2 x :
      cs_tasks x = t1 ++ SSend b sz :: t2 → send_resume (cs_conn x) = Some (ret, c) →
      sstep x (CSys c (cs_out x) (t1 ++ t2) (cs_done x ++ sent_ok ret b sz) (cs_failed x ++ sent_failed ret b sz))
  | SS_failed b sz ret c t1 t2 x :
      cs_tasks x = t1 ++ SFail b sz :: t2 → send_failed (cs_conn x) = (ret, c) →
      sstep x (CSys c (cs_out x) (t1 ++ t2) (cs_done x ++ sent_ok ret b sz) (cs_failed x ++ sent_failed ret b sz))
  | SS_write w out c x :
      c_wcb (cs_conn x) = true → write_cb w (cs_conn x) = Ret (out, c) →
      sstep x (CSys c (cs_out x ++ out) (cs_tasks x) (cs_done x) (cs_failed x))
  | SS_die x :
      sstep x (CSys (set_dead true (set_wcb false (cs_conn x))) (cs_out x) (cs_tasks x) (cs_done x) (cs_failed x)).

Definition active (t : stask) : bool := match t with SSend _ _ | SFail _ _ => true | _ => false end.
Definition actives (ts : list stask) : list stask := filter (λ t, active t = true) ts.

Definition task_ok (t : stask) : Prop :=
  match t with SNew b sz | SWait b sz | SSend b sz | SFail b sz => sendable b sz end.

(** What is on the wire after the packets that were sent: nothing, or the start of
    the packet of the one active sender, or, on a dead connection, the start of a
    packet of [F], whose send failed. *)
Inductive wire_tail (F : list (list Z)) (c : conn) : list stask → list Z → Prop :=
  | wt_none part :
      c_wpdu c = charbuf_new → (part = [] ∨ c_dead c = true ∧ ∃ f, f ∈ F ∧ part `prefix_of` f) →
      wire_tail F c [] part
  | wt_send b sz part :
      writing b sz (c_wpdu c) part → wire_tail F c [SSend b sz] part
  | wt_dead t part b sz :
      c_dead c = true → cb_buf (c_wpdu c) ≠ None → part `prefix_of` frame b sz →
      t = SSend b sz ∨ t = SFail b sz → wire_tail F c [t] part.

Record SInv (x : csys) : Prop := {
  si_ok : Forall task_ok (cs_tasks x);
  si_done : Forall frame_ok (cs_done x);
  si_failed : Forall frame_ok (cs_failed x);
  si_out : ∃ part, cs_out x = concat (cs_done x) ++ part ∧
             wire_tail (cs_failed x) (cs_conn x) (actives (cs_tasks x)) part }.

Lemma actives_mid t1 t t2 :
  actives (t1 ++ t :: t2) = actives t1 ++ (if active t then [t] else []) ++ actives t2.
Proof. unfold actives. rewrite filter_app, filter_cons. by destruct (active t). Qed.

Lemma actives_app t1 t2 : actives (t1 ++ t2) = actives t1 ++ actives t2.
Proof. apply filter_app. Qed.

Lemma writing_prefix b sz p part : sendable b sz → writing b sz p part → part `prefix_of` frame b sz.
Proof. intros Hs [|k Hk]; [apply prefix_nil|]. exists (drop k (frame b sz)). by rewrite take_drop. Qed.

Lemma writing_buf b sz p part : writing b sz p part → cb_buf p ≠ None ∧ cb_sz p = sz.
Proof. by intros [|k Hk]. Qed.

(** A packet is complete on the wire when solong reaches sz. *)
Lemma writing_full b sz p part :
  sendable b sz → writing b sz p part → cb_solong p = cb_sz p → part = frame b sz.
Proof.
  intros Hs [|k Hk]; simpl; intros E; [destruct Hs as [[? ?] _]; lia|].
  rewrite take_ge; [done|]. pose proof (length_frame b sz Hs). lia.
Qed.

Lemma sent_ok_frames ret b sz : sendable b sz → Forall frame_ok (sent_ok ret b sz).
Proof. intros. destruct ret; repeat constructor; by apply frame_is_ok. Qed.

#[local] Arguments send_end : simpl never.

Lemma sent_failed_frames ret b sz : sendable b sz → Forall frame_ok (sent_failed ret b sz).
Proof. intros. destruct ret; repeat constructor; by apply frame_is_ok. Qed.

Lemma wire_tail_ext F c F' c' ts part :
  F ⊆ F' → c_wpdu c' = c_wpdu c → c_dead c' = c_dead c → wire_tail F c ts part → wire_tail F' c' ts part.
Proof.
  intros HF Ew Ed [part' H1 H2|b sz part' H1|t part' b sz H1 H2 H3 H4];
    [constructor 1|constructor 2|econstructor 3]; rewrite ?Ew, ?Ed; eauto.
  destruct H2 as [?|(? & f & Hf & ?)]; [by left|right]. split; [done|]. exists f. split; [by apply HF|done].
Qed.

Lemma wire_tail_die F c c' ts part :
  c_wpdu c' = c_wpdu c → c_dead c' = true → Forall task_ok ts → wire_tail F c ts part → wire_tail F c' ts part.
Proof.
  intros Ew Ed Hok Hw. revert Hok.
  destruct Hw as [part' H1 H2|b sz part' H1|t part' b sz H1 H2 H3 H4]; intros Hok.
  - apply wt_none; [congruence|]. destruct H2 as [->|[_ ?]]; auto.
  - apply Forall_inv in Hok. apply (wt_dead _ _ _ _ b sz); [done| | |by left].
    + rewrite Ew. by eapply writing_buf.
    + by eapply writing_prefix.
  - apply (wt_dead _ _ _ _ b sz); try done. by rewrite Ew.
Qed.

(** The connection when no packet is being written. *)
Lemma wire_tail_free F c ts part :
  cb_buf (c_wpdu c) = None → c_dead c = false → wire_tail F c ts part → ts = [] ∧ part = [].
Proof.
  intros Hb Hd [part' H1 H2|b sz part' H1|t part' b sz H1 H2 H3 H4].
  - destruct H2 as [|[? _]]; [done|congruence].
  - by apply writing_buf in H1 as [? _].
  - done.
Qed.

(** The active sender leaves: its packet is on the wire exactly when it returns
    true. *)
Lemma wire_tail_end F c t part b sz :
  sendable b sz → t = SSend b sz ∨ t = SFail b sz → wire_tail F c [t] part →
  ((send_end c).1 = true → part = frame b sz) ∧
  (c_dead c = true → wire_tail (F ++ [frame b sz]) (send_end c).2 [] part).
Proof.
  intros Hs Ht Hw. inversion Hw as [|b' sz' part' H1|t' part' b' sz' H1 H2 H3 H4]; subst.
  - destruct Ht as [[= -> ->]|[=]]. split.
    + unfold send_end. simpl. intros [_ E%Z.eqb_eq]%andb_true_iff. by eapply writing_full.
    + intros Hd. apply wt_none; [done|]. right. split; [exact Hd|]. exists (frame b sz). split; [set_solver|]. by eapply writing_prefix.
  - assert (frame b' sz' = frame b sz) as Ef by (destruct Ht as [-> | ->], H4 as [[=]|[=]]; by subst).
    rewrite Ef in H3. split; [unfold send_end; by rewrite H1|]. intros _. apply wt_none; [done|]. right.
    split; [exact H1|]. exists (frame b sz). split; [set_solver|done].
Qed.

Lemma actives_single F c t1 t t2 part :
  active t = true → wire_tail F c (actives (t1 ++ t :: t2)) part →
  actives t1 = [] ∧ actives t2 = [] ∧ wire_tail F c [t] part.
Proof.
  rewrite actives_mid. intros ->. intros Hw.
  assert (length (actives t1 ++ [t] ++ actives t2) ≤ 1)%nat as Hl
    by (revert Hw; generalize (actives t1 ++ [t] ++ actives t2); intros l []; simpl; lia).
  rewrite !length_app in Hl. simpl in Hl.
  destruct (actives t1), (actives t2); simpl in *; (done || lia).
Qed.

(** A sender that was writing leaves. *)
Lemma SInv_leave x c t b sz t1 t2 :
  SInv x → cs_tasks x = t1 ++ t :: t2 → t = SSend b sz ∨ t = SFail b sz →
  c_wpdu c = c_wpdu (cs_conn x) → c_dead c = c_dead (cs_conn x) →
  ((send_end c).1 = false → c_dead c = true) →
  SInv (CSys (send_end c).2 (cs_out x) (t1 ++ t2) (cs_done x ++ sent_ok (send_end c).1 b sz)
          (cs_failed x ++ sent_failed (send_end c).1 b sz)).
Proof.
  intros [Hok Hdone Hfail (part & Eout & Hw)] Et Ht Ew Ed Hret. rewrite Et in *.
  apply Forall_app in Hok as [Hok1 [Hb Hok2]%Forall_cons].
  assert (sendable b sz) as Hs by by destruct Ht as [-> | ->].
  apply actives_single in Hw as (E1 & E2 & Hw); [|by destruct Ht as [-> | ->]].
  apply (wire_tail_ext _ _ (cs_failed x) c) in Hw; [|done..].
  destruct (wire_tail_end _ c t part b sz Hs Ht Hw) as [Htrue Hdead].
  split; cbn [cs_tasks cs_done cs_failed cs_out cs_conn].
  - by apply Forall_app.
  - apply Forall_app. split; [done|]. by apply sent_ok_frames.
  - apply Forall_app. split; [done|]. by apply sent_failed_frames.
  - rewrite actives_app, E1, E2. unfold sent_ok, sent_failed. destruct (send_end c).1 eqn:Er.
    + exists []. rewrite concat_app. cbn [concat]. rewrite !app_nil_r, Eout, Htrue by done.
      split; [done|]. apply wt_none; [done|by left].
    + exists part. rewrite app_nil_r. split; [done|]. by apply Hdead, Hret.
Qed.

(** A new sender takes the connection. *)
Lemma SInv_enter x waited w b sz r out c t1 t2 :
  SInv x → cs_tasks x = t1 ++ (if waited : bool then SWait b sz else SNew b sz) :: t2 →
  send_enter waited w b sz (cs_conn x) = Ret (r, out, c) →
  SInv (CSys c (cs_out x ++ out) (t1 ++ after_send r b sz ++ t2)
          (cs_done x ++ sent_ok (if r is Returned ret then ret else false) b sz)
          (cs_failed x ++ sent_failed (if r is Returned ret then ret else true) b sz)).
Proof.
  intros [Hok Hdone Hfail (part & Eout & Hw)] Et E. rewrite Et in *.
  apply Forall_app in Hok as [Hok1 [Hb Hok2]%Forall_cons].
  assert (sendable b sz) as Hs by by destruct waited.
  rewrite actives_mid in Hw. replace (if active _ then _ else _) with (@nil stask) in Hw by by destruct waited.
  rewrite app_nil_l, <- actives_app in Hw. unfold send_enter in E. set (c0 := cs_conn x) in *.
  set (n := if waited then _ else _) in E.
  assert (∀ r, Forall task_ok (t1 ++ after_send r b sz ++ t2)) as Hok.
  { intros r'. rewrite !Forall_app. split; [done|]. split; [|done]. destruct r'; simpl; [by apply Forall_nil|by apply Forall_singleton..]. }
  destruct (c_dead c0) eqn:Hd.
  { injection E as <- <- <-. split; simpl; [by apply Forall_app|by rewrite app_nil_r| |].
    { apply Forall_app. split; [done|by apply (sent_failed_frames false)]. }
    exists part. rewrite !app_nil_r. split; [done|]. by apply (wire_tail_ext (cs_failed x) c0); [set_solver|..]. }
  destruct (bool_decide_reflect (cb_buf (c_wpdu c0) ≠ None)) as [Hbuf|Hbuf].
  { injection E as <- <- <-. split; simpl; [apply (Hok Queued)|by rewrite app_nil_r..|].
    exists part. rewrite !app_nil_r. split; [done|]. rewrite actives_mid, app_nil_l, <- actives_app.
    by apply (wire_tail_ext (cs_failed x) c0). }
  apply dec_stable in Hbuf. destruct (wire_tail_free _ _ _ _ Hbuf Hd Hw) as [Ea ->]. rewrite app_nil_r in Eout.
  rewrite actives_app in Ea. apply app_nil in Ea as [E1 E2].
  destruct (writepdu_part w b sz _ [] Hs (wr_start b sz)) as (ok & o & q & Eq & Hq).
  rewrite Eq in E. unfold mbind, res_bind in E.
  set (c1 := set_wpdu q (set_waiters (n - 1) c0)) in *.
  assert (∀ ts, actives (t1 ++ ts ++ t2) = actives ts) as Eact.
  { intros ts. by rewrite !actives_app, E1, E2, app_nil_r. }
  destruct ok; cbn [negb] in E; [destruct (Z.eqb_spec (cb_solong q) (cb_sz q)) as [Ez|Ez]|].
  - assert ((send_end c1).1 = true) as Er.
    { unfold send_end, c1. simpl. by rewrite Hd, Ez, Z.eqb_refl. }
    destruct (send_end c1) as [ret c2] eqn:Ec. simpl in Er. subst ret. injection E as <- <- <-.
    split; simpl; [by apply Forall_app|apply Forall_app; split; [done|by apply (sent_ok_frames true)]|by rewrite app_nil_r|].
    exists []. rewrite concat_app. simpl. rewrite !app_nil_r, Eout. split.
    + f_equal. by eapply writing_full.
    + change (t1 ++ t2) with (t1 ++ [] ++ t2). rewrite Eact. apply wt_none; [|by left]. unfold send_end in Ec. by injection Ec as _ <-.
  - injection E as <- <- <-. split; simpl; [by apply (Hok Sending)|by rewrite app_nil_r..|].
    exists o. rewrite app_nil_r, Eout. split; [done|].
    change (SSend b sz :: t2) with ([SSend b sz] ++ t2). rewrite Eact. by constructor 2.
  - destruct Hq as [-> Hq]. injection E as <- <- <-. split; simpl; [by apply (Hok Failing)|by rewrite app_nil_r..|].
    exists []. rewrite !app_nil_r, Eout. split; [done|].
    change (SFail b sz :: t2) with ([SFail b sz] ++ t2). rewrite Eact.
    apply (wt_dead _ _ _ _ b sz); [done|done|apply prefix_nil|by right].
Qed.

Lemma actives_ok ts : Forall task_ok ts → Forall task_ok (actives ts).
Proof. rewrite !Forall_forall. intros Hok t [_ Ht]%list_elem_of_filter. auto. Qed.

Lemma wire_tail_write F c ts part w ok out q :
  wire_tail F c ts part → c_dead c = false → Forall task_ok ts → cb_sz (c_wpdu c) ≠ 0 →
  writepdu w (c_wpdu c) = Ret (ok, out, q) →
  if ok then wire_tail F (set_wpdu q c) ts (part ++ out)
  else out = [] ∧ wire_tail F (set_dead true (set_wcb false (set_wpdu q c))) ts part.
Proof.
  intros Hw Hd Hok Hz E. revert Hok. destruct Hw as [part H1 H2|b sz part H1|t part b sz H1 H2 H3 H4]; intros Hok.
  - by rewrite H1 in Hz.
  - apply Forall_inv in Hok. simpl in Hok.
    destruct (writepdu_part w b sz _ part Hok H1) as (ok' & out' & q' & E' & Hq). rewrite E in E'.
    injection E' as <- <- <-. destruct ok.
    + by constructor 2.
    + destruct Hq as [-> Hq]. split; [done|]. apply (wt_dead _ _ _ _ b sz); [done|done| |by left].
      by eapply writing_prefix.
  - congruence.
Qed.

Lemma SInv_write x w out c :
  SInv x → write_cb w (cs_conn x) = Ret (out, c) → SInv (CSys c (cs_out x ++ out) (cs_tasks x) (cs_done x) (cs_failed x)).
Proof.
  intros [Hok Hdone Hfail (part & Eout & Hw)] E. unfold write_cb in E. set (c0 := cs_conn x) in *.
  destruct (c_dead c0) eqn:Hd; [done|].
  destruct (Z.eqb_spec (cb_sz (c_wpdu c0)) 0) as [Ez|Ez].
  { injection E as <- <-. split; simpl; [done..|]. exists part. rewrite app_nil_r. split; [done|].
    by apply (wire_tail_ext (cs_failed x) c0). }
  destruct (writepdu w (c_wpdu c0)) as [[[ok o] q]| | | |] eqn:Eq; try done. simpl in E.
  pose proof (wire_tail_write _ _ _ _ _ _ _ _ Hw Hd (actives_ok _ Hok) Ez Eq) as Hq.
  destruct ok; simpl in E.
  - destruct (cb_solong q <? 0); [done|]. injection E as <- <-. split; simpl; [done..|].
    exists (part ++ o). by rewrite Eout, app_assoc.
  - injection E as <- <-. destruct Hq as [-> Hq]. split; simpl; [done..|]. exists part. by rewrite app_nil_r.
Qed.

(** A sender that is woken with its packet on the wire, or on a dead connection. *)
Lemma resume_returns x b sz t1 t2 :
  SInv x → cs_tasks x = t1 ++ SSend b sz :: t2 → is_Some (send_resume (cs_conn x)) →
  (send_end (cs_conn x)).1 = false → c_dead (cs_conn x) = true.
Proof.
  intros [Hok _ _ (part & _ & Hw)] Et [r E] Er. destruct (c_dead (cs_conn x)) eqn:Hd; [done|]. exfalso.
  unfold send_resume in E. unfold send_end in Er. rewrite Hd in E, Er. cbn [negb andb fst] in E, Er.
  rewrite Et in Hw, Hok. apply actives_single in Hw as (_ & _ & Hw); [|done].
  apply Forall_app in Hok as [_ [[[H4 _] _] _]%Forall_cons].
  inversion Hw as [|b' sz' part' H1|t' part' b' sz' H1]; subst; [|congruence].
  apply Z.eqb_neq in Er.
  destruct (Z.leb_spec 0 (cb_solong (c_wpdu (cs_conn x)))), (Z.ltb_spec (cb_solong (c_wpdu (cs_conn x))) (cb_sz (c_wpdu (cs_conn x))));
    cbn [andb] in E; try done; destruct H1; simpl in *; lia.
Qed.

Lemma SInv_step x y : SInv x → sstep x y → SInv y.
Proof.
  intros HI Hs. destruct Hs as [b sz x Hb|waited w b sz r out c t1 t2 x Et E|b sz ret c t1 t2 x Et E|
    b sz ret c t1 t2 x Et E|w out c x _ E|x].
  - destruct HI as [Hok Hdone Hfail (part & Eout & Hw)]. split; simpl; [by constructor|done..|]. by exists part.
  - by eapply SInv_enter.
  - pose proof (SInv_leave x (cs_conn x) (SSend b sz) b sz t1 t2 HI Et (or_introl eq_refl) eq_refl eq_refl
      (resume_returns x b sz t1 t2 HI Et ltac:(by rewrite E))) as L.
    assert (send_end (cs_conn x) = (ret, c)) as E'
      by (unfold send_resume in E; destruct (negb _ && _ && _); congruence).
    by rewrite E' in L.
  - assert (c_dead (cs_conn x) = true) as Hd.
    { destruct HI as [_ _ _ (part & _ & Hw)]. rewrite Et in Hw. apply actives_single in Hw as (_ & _ & Hw); [|done].
      by inversion Hw. }
    pose proof (SInv_leave x (set_wcb false (cs_conn x)) (SFail b sz) b sz t1 t2 HI Et (or_intror eq_refl) eq_refl
      eq_refl (λ _, Hd)) as L.
    unfold send_failed in E. by rewrite E in L.
  - by eapply SInv_write.
  - destruct HI as [Hok Hdone Hfail (part & Eout & Hw)]. split; simpl; [done..|]. exists part. split; [done|].
    by apply (wire_tail_die (cs_failed x) (cs_conn x)); [| |apply actives_ok|].
Qed.

Lemma SInv_reachable x : rtc sstep csys_new x → SInv x.
Proof.
  apply (rtc_ind_r SInv csys_new); [|intros y z _ Hyz Hy; by eapply SInv_step].
  split; [constructor..|]. exists []. split; [done|]. apply wt_none; [done|by left].
Qed.

(** * Theorems *)
Section theorems.
Context `{HeapJunk}.

Lemma read_cbs_dead steps c inp : c_dead c = true → read_cbs steps c inp = Ret ([], c, inp).
Proof.
  intros Hd. induction steps as [|[[acc r1] r2] steps IH]; simpl; [done|]. unfold read_cb. rewrite Hd. simpl.
  by rewrite IH.
Qed.

Lemma read_cbs_frames steps c pdus inp :
  Forall frame_ok pdus → c_dead c = false → reading pdus (c_rpdu c) inp →
  match read_cbs steps c inp with
  | Ret (ds, c', inp') => ∃ rest, pdus = ds ++ rest ∧ (c_dead c' = false → reading rest (c_rpdu c') inp')
  | VerifyFailed => Exists (λ s, r_fail s.1.2 = true ∧ r_eagain s.1.2 = true) steps
  | _ => False
  end.
Proof.
  revert c pdus inp. induction steps as [|[[acc r1] r2] steps IH]; intros c pdus inp Hf Hd Hr; simpl.
  { by exists pdus. }
  pose proof (read_cb_frames acc r1 r2 c pdus inp Hf Hd Hr) as Hc.
  destruct (read_cb acc r1 r2 c inp) as [[[ds c1] inp1]| | | |]; simpl; try done; [|by left].
  destruct Hc as (rest & -> & Hc). apply Forall_app in Hf as [_ Hf]. destruct (c_dead c1) eqn:Hd1.
  - rewrite read_cbs_dead by done. simpl. exists rest. rewrite app_nil_r. split; [done|]. congruence.
  - specialize (IH c1 rest inp1 Hf Hd1 (Hc eq_refl)).
    destruct (read_cbs steps c1 inp1) as [[[ds' c2] inp2]| | | |]; simpl; try done; [|by right].
    destruct IH as (rest' & -> & IH). exists rest'. by rewrite app_assoc.
Qed.

(** C9.  Packets arrive in order, whole and once: whatever threads sent on a
    connection that is alive and idle, and in whatever pieces the other side reads
    the stream, the packets it hands over are the packets whose send returned
    true, in this order, from the first on; once it has read everything they are
    all of them.  No read leaves its buffer. *)
Theorem transport_in_order (x : csys) (steps : list (bool * rio * rio)) :
  rtc sstep csys_new x → c_dead (cs_conn x) = false → actives (cs_tasks x) = [] →
  match read_cbs steps conn_new (cs_out x) with
  | Ret (ds, c, inp) =>
      ∃ rest, cs_done x = ds ++ rest ∧
        (c_dead c = false → inp = [] → cb_buf (c_rpdu c) = None → rest = [])
  | VerifyFailed => Exists (λ s, r_fail s.1.2 = true ∧ r_eagain s.1.2 = true) steps
  | _ => False
  end.
Proof.
  intros [Hok Hdone _ (part & Eout & Hw)]%SInv_reachable Hd Ha. rewrite Ha in Hw.
  assert (part = []) as ->.
  { inversion Hw as [part' H1 [->|[? _]]| |]; [done|congruence]. }
  rewrite app_nil_r in Eout. rewrite Eout.
  pose proof (read_cbs_frames steps conn_new (cs_done x) _ Hdone eq_refl (rd_idle _)) as Hr.
  destruct (read_cbs steps conn_new (concat (cs_done x))) as [[[ds c] inp]| | | |]; try done.
  destruct Hr as (rest & E & Hr). exists rest. split; [done|]. intros Hdc -> Hb. specialize (Hr Hdc).
  rewrite E in Hdone. apply Forall_app in Hdone as [_ Hrest].
  inversion Hr as [pdus E1 E2 E3|p ps b k ? ? ? E1 E2 E3]; subst.
  - destruct rest as [|p rest]; [done|]. apply Forall_inv in Hrest as [[? ?] _]. by destruct p.
  - rewrite <- E2 in Hb. done.
Qed.

(** C10.  Packets of different threads are never mixed: the bytes on the wire are
    the packets whose send returned true, one after the other, then at most the
    start of one more packet.  That packet is the one of the thread that is
    writing, or, on a dead connection, one whose send returned false; at most one
    thread is writing. *)
Theorem frames_not_interleaved (x : csys) :
  rtc sstep csys_new x →
  (length (actives (cs_tasks x)) ≤ 1)%nat ∧
  ∃ part, cs_out x = concat (cs_done x) ++ part ∧
    (part = [] ∨
     (∃ b sz, sendable b sz ∧ (SSend b sz ∈ cs_tasks x ∨ SFail b sz ∈ cs_tasks x) ∧ part `prefix_of` frame b sz) ∨
     c_dead (cs_conn x) = true ∧ ∃ f, f ∈ cs_failed x ∧ frame_ok f ∧ part `prefix_of` f).
Proof.
  intros [Hok Hdone Hfail (part & Eout & Hw)]%SInv_reachable.
  assert (∀ t, t ∈ actives (cs_tasks x) → t ∈ cs_tasks x ∧ task_ok t) as Hin.
  { intros t [_ Ht]%list_elem_of_filter. split; [done|]. by eapply Forall_forall in Hok. }
  revert Hin Hw. generalize (actives (cs_tasks x)). intros ts Hin Hw. split; [destruct Hw; simpl; lia|].
  exists part. split; [done|]. revert Hin.
  destruct Hw as [? ? [|(? & f & Hf & ?)]|b sz ? H1|t ? b sz H1 _ H3 H4]; intros Hin; [by left| | |].
  - right. right. split; [done|]. exists f. split_and!; [done| |done]. by eapply Forall_forall in Hf.
  - right. left. destruct (Hin (SSend b sz)) as [Ht Hs]; [set_solver|]. exists b, sz.
    split_and!; [done|by left|by eapply writing_prefix].
  - right. left. destruct (Hin t) as [Ht Hs]; [set_solver|]. exists b, sz.
    destruct H4 as [-> | ->]; split_and!; auto.
Qed.

(** C26.  Memory safety of the packet reader: a size field of at least four never
    lets a read leave its buffer; a negative one down to -4 does at once, by
    copying the field into a buffer that is too small, and one below four does as
    soon as more bytes arrive than the field says. *)
Theorem readpdu_out_of_bounds_iff (r1 r2 : rio) (sz : Z) (inp : list Z) :
  - 2 ^ 31 ≤ sz < 2 ^ 31 → r_fail r1 = false → (4 ≤ r_max r1)%nat → Z.of_nat (length inp) < 2 ^ 63 →
  readpdu r1 r2 charbuf_new (be4 sz ++ inp) = Undef ↔
  - 4 ≤ sz < 0 ∨
  0 ≤ sz < 4 ∧ r_fail r2 = false ∧ sz < Z.of_nat (r_max r2) `min` Z.of_nat (length inp).
Proof.
  intros Hsz Hf1 Hm Hinp. unfold readpdu. rewrite readpdu_size_be4 by done. unfold MAX_PDU.
  destruct (Z.ltb_spec (10 * 2 ^ 20) sz); [simpl; split; [done|lia]|].
  destruct (decide (sz < -4)) as [H5|H5].
  { rewrite uwrap_neg by lia. destruct (Z.leb_spec (2 ^ 63) (2 ^ 64 + (sz + 4))); [|lia]. simpl. split; [done|lia]. }
  rewrite (uwrap_small 64) by lia. destruct (Z.leb_spec (2 ^ 63) (sz + 4)); [lia|].
  destruct (Z.ltb_spec (sz + 4) 4); [simpl; split; [lia|done]|]. unfold mbind, res_bind. cbn [cb_sz cb_solong cb_buf].
  assert (length (splice 0 (be4 sz) (malloc (sz + 4))) = Z.to_nat (sz + 4)) as Lb.
  { rewrite length_splice; rewrite length_malloc; [done|]. change (length (be4 sz)) with 4%nat. lia. }
  unfold read_fd. destruct (r_fail r2); [simpl; destruct (r_eagain r2); split; (done || lia)|].
  set (n := Z.to_nat _). destruct (Z.leb_spec (Z.of_nat n) 0); [destruct (r_eagain r2)|rewrite Lb].
  all: assert (0 ≤ sz < 4 → Z.of_nat n = Z.of_nat (r_max r2) `min` Z.of_nat (length inp)) as Hn
    by (intros; unfold n; rewrite (uwrap_neg (sz - 4)) by lia; lia).
  all: assert (4 ≤ sz → Z.of_nat n ≤ sz - 4) as Hn' by (intros; unfold n; rewrite (uwrap_small 64) by lia; lia).
  - split; [done|]. intros [?|(? & _ & ?)]; lia.
  - split; [done|]. intros [?|(? & _ & ?)]; lia.
  - destruct (Z.ltb_spec (Z.of_nat (Z.to_nat (sz + 4))) (4 + Z.of_nat n)).
    + split; [|done]. intros _. right. split_and!; [lia..|done|]. destruct (decide (sz < 4)); lia.
    + split; [done|]. intros [?|(? & _ & ?)]; lia.
Qed.
End theorems.

(** ** A concrete run: a packet written in two pieces, read in two pieces *)
#[local] Instance conn_junk : HeapJunk := λ _, 0.

Definition ex_conn (p : charbuf) (wcb : bool) : conn := Conn false p charbuf_new 0 wcb.

Definition ex_packet : list Z := [0; 0; 0; 0; 1; 2].

Definition ex_senders : csys := CSys (ex_conn charbuf_new true) [0; 0; 0; 6; 1; 2] [] [[0; 0; 0; 6; 1; 2]] [].

Lemma ex_senders_reachable : rtc sstep csys_new ex_senders.
Proof.
  eapply rtc_l; [apply (SS_new ex_packet 6); split; vm_compute; intuition discriminate|].
  eapply rtc_l.
  { apply (SS_enter false (Rio 3 false false) ex_packet 6 Sending [0; 0; 0]
      (ex_conn (CharBuf (Some [0; 0; 0; 6; 1; 2]) 6 3) true) [] []); reflexivity. }
  eapply rtc_l.
  { apply (SS_write (Rio 9 false false) [6; 1; 2] (ex_conn (CharBuf (Some [0; 0; 0; 6; 1; 2]) 6 6) true)); reflexivity. }
  eapply rtc_l.
  { apply (SS_resume ex_packet 6 true (ex_conn charbuf_new true) [] []); reflexivity. }
  apply rtc_refl.
Qed.

Lemma transport_in_order_witness :
  ∃ c, read_cbs [(true, Rio 4 false false, Rio 1 false false); (true, Rio 0 false false, Rio 9 false false)]
         conn_new (cs_out ex_senders) = Ret ([[0; 0; 0; 6; 1; 2]], c, []) ∧
    ∃ rest, cs_done ex_senders = [[0; 0; 0; 6; 1; 2]] ++ rest ∧
      (c_dead c = false → ([] : list Z) = [] → cb_buf (c_rpdu c) = None → rest = []).
Proof.
  eexists. split; [vm_compute; reflexivity|].
  exact (transport_in_order ex_senders
    [(true, Rio 4 false false, Rio 1 false false); (true, Rio 0 false false, Rio 9 false false)]
    ex_senders_reachable eq_refl eq_refl).
Defined.

(** The second packet is on its way: three of its bytes are on the wire. *)
Definition ex_second : csys :=
  CSys (ex_conn (CharBuf (Some [0; 0; 0; 6; 1; 2]) 6 3) true) ([0; 0; 0; 6; 1; 2] ++ [0; 0; 0])
    [SSend ex_packet 6] [[0; 0; 0; 6; 1; 2]] [].

Lemma ex_second_reachable : rtc sstep csys_new ex_second.
Proof.
  etrans; [exact ex_senders_reachable|].
  eapply rtc_l; [apply (SS_new ex_packet 6); split; vm_compute; intuition discriminate|].
  apply rtc_once, (SS_enter false (Rio 3 false false) ex_packet 6 Sending [0; 0; 0]
    (ex_conn (CharBuf (Some [0; 0; 0; 6; 1; 2]) 6 3) true) [] []); reflexivity.
Qed.

Lemma frames_not_interleaved_witness :
  ∃ part, [0; 0; 0; 6; 1; 2; 0; 0; 0] = concat [[0; 0; 0; 6; 1; 2]] ++ part ∧
    (part = [] ∨
     (∃ b sz, sendable b sz ∧ (SSend b sz ∈ [SSend ex_packet 6] ∨ SFail b sz ∈ [SSend ex_packet 6]) ∧
        part `prefix_of` frame b sz) ∨
     false = true ∧ ∃ f, f ∈ [] ∧ frame_ok f ∧ part `prefix_of` f).
Proof. exact (proj2 (frames_not_interleaved ex_second ex_second_reachable)). Defined.

Lemma readpdu_out_of_bounds_iff_witness :
  readpdu (Rio 4 false false) (Rio 9 false false) charbuf_new (be4 0 ++ [7]) = Undef.
Proof.
  apply (readpdu_out_of_bounds_iff (Rio 4 false false) (Rio 9 false false) 0 [7]);
    [lia|reflexivity|simpl; lia|simpl; lia|]. right. simpl. split; [lia|]. split; [reflexivity|lia].
Defined.

(** A write callback can run on a dead connection, where it fails its assertion:
    a callback that an earlier packet left registered waits for the mutex while
    the next send fails and gives the mutex up to remove the descriptor. *)
Lemma write_callback_on_dead :
  ∃ x w, rtc sstep csys_new x ∧ c_wcb (cs_conn x) = true ∧ write_cb w (cs_conn x) = VerifyFailed.
Proof.
  exists (CSys (Conn true (CharBuf (Some [0; 0; 0; 6; 1; 2]) 0 (-1)) charbuf_new 0 true)
            ([0; 0; 0; 6; 1; 2] ++ []) [SFail ex_packet 6] ([[0; 0; 0; 6; 1; 2]] ++ []) []), (Rio 0 false false).
  split; [|done]. etrans; [exact ex_senders_reachable|].
  eapply rtc_l; [apply (SS_new ex_packet 6); split; vm_compute; intuition discriminate|].
  apply rtc_once, (SS_enter false (Rio 0 true false) ex_packet 6 Failing [] _ [] []); reflexivity.
Qed.
