(* ===== verification/Fifo.v ===== *)
(** The blocking queue of rpc/fifo.h.

    enq and deq hold the mutex [m_] except while they wait on a condition
    variable, so that one round of their loops is one atomic step.  [fstep]
    interleaves the rounds of any number of threads.  pthread_cond_signal wakes
    at least one waiting thread if there is one, possibly more, and a waiting
    thread may wake up on its own, as POSIX allows. *)
From S2P Require Import Prelude.
Local Open Scope Z_scope.

Section fifo.
Context {T : Type}.

(** ** The queue and one round of its operations *)
Record fifo := Fifo { q_ : list T; max_ : Z }.

Definition fifo_new (limit : Z) : fifo := Fifo [] (u32 limit).

(** The number of elements, converted to bool. *)
Definition fifo_size (f : fifo) : bool := negb (Z.of_nat (length (q_ f)) =? 0).

Inductive enq_out := Enqueued | EnqWait | EnqFull.

Definition enq_round (e : T) (blocking : bool) (f : fifo) : enq_out * fifo :=
  if (max_ f =? 0) || (Z.of_nat (length (q_ f)) <? max_ f)
  then (Enqueued, Fifo (q_ f ++ [e]) (max_ f))
  else if blocking then (EnqWait, f) else (EnqFull, f).

(** The element, whether [has_space_c_] is signalled, and the rest; or waiting. *)
Definition deq_round (f : fifo) : option (T * bool * fifo) :=
  match q_ f with
  | [] => None
  | e :: q =>
      Some (e, negb (max_ f =? 0) && (Z.of_nat (length q) <? max_ f), Fifo q (max_ f))
  end.

(** ** Threads *)
Inductive fthread :=
  | FOut                             (* not in the queue *)
  | FEnq (e : T) (blocking : bool)   (* in enq, about to run a round *)
  | FEnqWait (e : T)                 (* in enq, waiting on has_space_c_ *)
  | FDeq                             (* in deq, about to run a round *)
  | FDeqWait.                        (* in deq, waiting on non_empty_c_ *)

Inductive cv := non_empty_c_ | has_space_c_.

Definition waits_on (c : cv) (t : fthread) : bool :=
  match c, t with non_empty_c_, FDeqWait | has_space_c_, FEnqWait _ => true | _, _ => false end.

(** Awake in deq, awake in enq. *)
Definition ready_on (c : cv) (t : fthread) : bool :=
  match c, t with non_empty_c_, FDeq | has_space_c_, FEnq _ _ => true | _, _ => false end.

Definition wake (t : fthread) : fthread :=
  match t with FDeqWait => FDeq | FEnqWait e => FEnq e true | _ => t end.

Definition pthread_cond_signal (c : cv) (ths ths' : list fthread) : Prop :=
  Forall2 (λ t t', t' = t ∨ (waits_on c t = true ∧ t' = wake t)) ths ths' ∧
  (existsb (waits_on c) ths = true → ths' ≠ ths).

(** [s_in]: the elements enq accepted; [s_out]: those deq returned. *)
Record fsys := FSys { s_f : fifo; s_th : list fthread; s_in : list T; s_out : list T }.

Definition fsys_init (limit : Z) (n : nat) : fsys := FSys (fifo_new limit) (replicate n FOut) [] [].

Inductive flabel :=
  | Tau
  | Spurious
  | CallEnq (i : nat) (e : T) (blocking : bool)
  | RetEnq (i : nat) (e : T) (r : bool)
  | CallDeq (i : nat)
  | RetDeq (i : nat) (e : T).

Inductive fstep (x : fsys) : flabel → fsys → Prop :=
  | FCallEnq i e b :
      s_th x !! i = Some FOut →
      fstep x (CallEnq i e b) (FSys (s_f x) (<[i := FEnq e b]> (s_th x)) (s_in x) (s_out x))
  | FEnqueued i e b f ths :
      s_th x !! i = Some (FEnq e b) → enq_round e b (s_f x) = (Enqueued, f) →
      pthread_cond_signal non_empty_c_ (<[i := FOut]> (s_th x)) ths →
      fstep x (RetEnq i e true) (FSys f ths (s_in x ++ [e]) (s_out x))
  | FRefused i e b f :
      s_th x !! i = Some (FEnq e b) → enq_round e b (s_f x) = (EnqFull, f) →
      fstep x (RetEnq i e false) (FSys f (<[i := FOut]> (s_th x)) (s_in x) (s_out x))
  | FEnqBlocks i e b f :
      s_th x !! i = Some (FEnq e b) → enq_round e b (s_f x) = (EnqWait, f) →
      fstep x Tau (FSys f (<[i := FEnqWait e]> (s_th x)) (s_in x) (s_out x))
  | FCallDeq i :
      s_th x !! i = Some FOut →
      fstep x (CallDeq i) (FSys (s_f x) (<[i := FDeq]> (s_th x)) (s_in x) (s_out x))
  | FDequeued i e (sig : bool) f ths :
      s_th x !! i = Some FDeq → deq_round (s_f x) = Some (e, sig, f) →
      (if sig then pthread_cond_signal has_space_c_ (<[i := FOut]> (s_th x)) ths
       else ths = <[i := FOut]> (s_th x)) →
      fstep x (RetDeq i e) (FSys f ths (s_in x) (s_out x ++ [e]))
  | FDeqBlocks i :
      s_th x !! i = Some FDeq → deq_round (s_f x) = None →
      fstep x Tau (FSys (s_f x) (<[i := FDeqWait]> (s_th x)) (s_in x) (s_out x))
  | FSpurious c i t :
      s_th x !! i = Some t → waits_on c t = true →
      fstep x Spurious (FSys (s_f x) (<[i := wake t]> (s_th x)) (s_in x) (s_out x)).

(** ** Counting threads *)
(** A signal moves waiting threads to the ready ones, and at least one if there
    is one. *)
Lemma signal_num c ths ths' :
  pthread_cond_signal c ths ths' →
  (num (waits_on c) ths' + num (ready_on c) ths' = num (waits_on c) ths + num (ready_on c) ths)%nat ∧
  (num (waits_on c) ths' ≤ num (waits_on c) ths)%nat ∧
  ((0 < num (waits_on c) ths)%nat → (num (waits_on c) ths' < num (waits_on c) ths)%nat).
Proof.
  intros [Hf Hs].
  assert (num (waits_on c) ths' + num (ready_on c) ths' = num (waits_on c) ths + num (ready_on c) ths ∧
    num (waits_on c) ths' ≤ num (waits_on c) ths ∧
    (num (waits_on c) ths' = num (waits_on c) ths → ths' = ths))%nat as (H1 & H2 & H3).
  { clear Hs. unfold num. induction Hf as [|t t' ths ths' Ht Hf IH]; [done|].
    destruct IH as (H1 & H2 & H3). simpl. destruct Ht as [->|[Hw ->]].
    - repeat split; [lia..|]. intros. rewrite H3; [done|lia].
    - destruct c, t; try done; simpl in *; repeat split; try lia. }
  repeat split; [done|done|]. intros Hp. destruct (num_pos_inv _ _ Hp) as (i & t & Hi & Ht).
  assert (ths' ≠ ths) as Hne.
  { apply Hs. apply existsb_exists. exists t. split; [|done]. apply list_elem_of_In. by eapply list_elem_of_lookup_2. }
  destruct (decide (num (waits_on c) ths' = num (waits_on c) ths)) as [E|E]; [|lia]. by specialize (H3 E).
Qed.

(** A signal on one condition variable does not touch the threads of the other. *)
Lemma signal_other c c' ths ths' :
  pthread_cond_signal c ths ths' → c ≠ c' →
  num (waits_on c') ths' = num (waits_on c') ths ∧ num (ready_on c') ths' = num (ready_on c') ths.
Proof.
  intros [Hf _] Hc. unfold num. induction Hf as [|t t' ths ths' Ht Hf [IH1 IH2]]; [done|]. simpl.
  destruct Ht as [->|[Hw ->]]; [lia|]. destruct c, c', t; try done; simpl; lia.
Qed.

(** There is always something a signal can do. *)
Lemma signal_total c ths : ∃ ths', pthread_cond_signal c ths ths'.
Proof.
  exists ((λ t, if waits_on c t then wake t else t) <$> ths). split.
  - apply Forall2_fmap_r, Forall_Forall2_diag, Forall_true. intros t. unfold compose.
    destruct (waits_on c t) eqn:E; [by right|by left].
  - intros (t & Ht & Hw)%existsb_exists E. apply list_elem_of_In in Ht.
    apply list_elem_of_lookup in Ht as [i Hi].
    pose proof (f_equal (.!! i) E) as Ei. rewrite list_lookup_fmap, Hi in Ei. simpl in Ei.
    rewrite Hw in Ei. injection Ei as Ei. destruct c, t; discriminate.
Qed.

Lemma signal_none c ths : existsb (waits_on c) ths = false → pthread_cond_signal c ths ths.
Proof.
  intros E. split; [|by rewrite E]. apply Forall_Forall2_diag, Forall_true. by left.
Qed.

(** ** The invariant *)
Record FInv (x : fsys) : Prop := {
  fi_order : s_in x = s_out x ++ q_ (s_f x);
  fi_max : 0 ≤ max_ (s_f x);
  fi_bound : max_ (s_f x) ≠ 0 → Z.of_nat (length (q_ (s_f x))) ≤ max_ (s_f x);
  fi_deq : (0 < num (waits_on non_empty_c_) (s_th x))%nat →
    (length (q_ (s_f x)) ≤ num (ready_on non_empty_c_) (s_th x))%nat;
  fi_enq : (0 < num (waits_on has_space_c_) (s_th x))%nat →
    max_ (s_f x) ≠ 0 ∧
    max_ (s_f x) ≤ Z.of_nat (length (q_ (s_f x)) + num (ready_on has_space_c_) (s_th x)) }.

Lemma FInv_init limit n : FInv (fsys_init limit n).
Proof.
  pose proof (uwrap_range 32 limit ltac:(lia)).
  split; simpl; rewrite ?num_replicate; simpl; try lia; done.
Qed.

(** The four counters after one thread changed. *)
Lemma nums_insert ths i t t' :
  ths !! i = Some t →
  ∀ c, (num (waits_on c) (<[i := t']> ths) + Nat.b2n (waits_on c t) = num (waits_on c) ths + Nat.b2n (waits_on c t') ∧
    num (ready_on c) (<[i := t']> ths) + Nat.b2n (ready_on c t) = num (ready_on c) ths + Nat.b2n (ready_on c t'))%nat.
Proof. intros Hi c. split; by apply num_insert. Qed.

Lemma enq_round_spec e b f o f' :
  enq_round e b f = (o, f') →
  match o with
  | Enqueued => (max_ f = 0 ∨ Z.of_nat (length (q_ f)) < max_ f) ∧ f' = Fifo (q_ f ++ [e]) (max_ f)
  | EnqWait => b = true ∧ max_ f ≠ 0 ∧ max_ f ≤ Z.of_nat (length (q_ f)) ∧ f' = f
  | EnqFull => b = false ∧ max_ f ≠ 0 ∧ max_ f ≤ Z.of_nat (length (q_ f)) ∧ f' = f
  end.
Proof.
  unfold enq_round. destruct (Z.eqb_spec (max_ f) 0) as [E|E]; [intros; simplify_eq/=; tauto|].
  destruct (Z.ltb_spec (Z.of_nat (length (q_ f))) (max_ f)) as [L|L]; simpl; [intros; simplify_eq/=; tauto|].
  destruct b; intros; simplify_eq/=; tauto.
Qed.

Lemma deq_round_spec f e sig f' :
  deq_round f = Some (e, sig, f') →
  q_ f = e :: q_ f' ∧ max_ f' = max_ f ∧
  (sig = true ↔ max_ f ≠ 0 ∧ Z.of_nat (length (q_ f')) < max_ f).
Proof.
  unfold deq_round. destruct (q_ f) as [|e' q]; [done|]. intros [= -> <- <-]. split; [done|].
  split; [done|]. simpl. rewrite andb_true_iff, negb_true_iff, Z.eqb_neq, Z.ltb_lt. done.
Qed.

(** The counters after thread [i] changed, as hypotheses. *)
Ltac counters Hi t' :=
  pose proof (nums_insert _ _ _ t' Hi non_empty_c_) as [? ?];
  pose proof (nums_insert _ _ _ t' Hi has_space_c_) as [? ?]; simpl in *.

Lemma FInv_step x l x' : FInv x → fstep x l x' → FInv x'.
Proof.
  intros [Ho Hm Hb Hd He] Hstep.
  destruct Hstep as [i e b Hi|i e b f ths Hi Hr Hs|i e b f Hi Hr|i e b f Hi Hr|i Hi
    |i e sig f ths Hi Hr Hs|i Hi Hr|c i t Hi Hw].
  - counters Hi (FEnq e b). split; simpl; try done; lia.
  - apply enq_round_spec in Hr as [Hroom ->]. counters Hi (@FOut).
    pose proof (signal_num _ _ _ Hs) as (? & ? & ?).
    destruct (signal_other _ has_space_c_ _ _ Hs ltac:(done)).
    split; simpl; rewrite ?length_app; simpl; try lia. by rewrite Ho, app_assoc.
  - apply enq_round_spec in Hr as (-> & ? & ? & ->). counters Hi (@FOut). split; simpl; try done; lia.
  - apply enq_round_spec in Hr as (-> & ? & ? & ->). counters Hi (FEnqWait e). split; simpl; try done; lia.
  - counters Hi (@FDeq). split; simpl; try done; lia.
  - apply deq_round_spec in Hr as (Hq & Hx & Hsig). counters Hi (@FOut). rewrite Hq in *.
    destruct sig.
    + pose proof (signal_num _ _ _ Hs) as (? & ? & ?).
      destruct (signal_other _ non_empty_c_ _ _ Hs ltac:(done)).
      split; simpl in *; try lia. by rewrite Ho, <- app_assoc.
    + subst ths. assert (max_ (s_f x) = 0 ∨ max_ (s_f x) ≤ Z.of_nat (length (q_ f))) as Hf.
      { destruct (decide (max_ (s_f x) = 0)); [by left|right]. destruct (decide (max_ (s_f x) ≤ Z.of_nat (length (q_ f)))); [done|].
        destruct Hsig as [_ Hsig]. discriminate Hsig. split; [done|lia]. }
      split; simpl in *; try lia. by rewrite Ho, <- app_assoc.
  - unfold deq_round in Hr. destruct (q_ (s_f x)) eqn:Hq; [|done]. counters Hi (@FDeqWait).
    split; simpl; rewrite ?Hq; simpl; try done; lia.
  - counters Hi (wake t). destruct c, t; try done; split; simpl in *; try done; lia.
Qed.

(** ** Progress *)
Lemma ready_deq_returns x j :
  s_th x !! j = Some FDeq → q_ (s_f x) ≠ [] → ∃ e y, fstep x (RetDeq j e) y.
Proof.
  intros Hj Hq. destruct (deq_round (s_f x)) as [[[e sig] f]|] eqn:Hd.
  - exists e. destruct sig.
    + destruct (signal_total has_space_c_ (<[j := FOut]> (s_th x))) as [ths Hs].
      eexists. by apply (FDequeued x j e true f ths).
    + eexists. by apply (FDequeued x j e false f (<[j := FOut]> (s_th x))).
  - unfold deq_round in Hd. by destruct (q_ (s_f x)).
Qed.

Lemma ready_enq_returns x j e b :
  s_th x !! j = Some (FEnq e b) → max_ (s_f x) = 0 ∨ Z.of_nat (length (q_ (s_f x))) < max_ (s_f x) →
  ∃ y, fstep x (RetEnq j e true) y.
Proof.
  intros Hj Hroom. destruct (signal_total non_empty_c_ (<[j := FOut]> (s_th x))) as [ths Hs].
  eexists. eapply FEnqueued; [exact Hj| |exact Hs]. unfold enq_round.
  destruct (Z.eqb_spec (max_ (s_f x)) 0); [done|].
  destruct (Z.ltb_spec (Z.of_nat (length (q_ (s_f x)))) (max_ (s_f x))); [done|lia].
Qed.

(** An awake thread can always run its round: it returns, or waits. *)
Lemma ready_deq_steps x j :
  s_th x !! j = Some FDeq → (∃ e y, fstep x (RetDeq j e) y) ∨ ∃ y, fstep x Tau y.
Proof.
  intros Hj. destruct (decide (q_ (s_f x) = [])) as [E|E]; [right|left; by apply ready_deq_returns].
  eexists. apply (FDeqBlocks x j Hj). unfold deq_round. by rewrite E.
Qed.

Lemma ready_enq_steps x j e b :
  s_th x !! j = Some (FEnq e b) → (∃ r y, fstep x (RetEnq j e r) y) ∨ ∃ y, fstep x Tau y.
Proof.
  intros Hj. destruct (enq_round e b (s_f x)) as [[] f] eqn:E.
  - left. exists true. apply (ready_enq_returns x j e b Hj). by apply enq_round_spec in E as [? _].
  - right. eexists. by apply (FEnqBlocks x j e b f).
  - left. exists false. eexists. by apply (FRefused x j e b f).
Qed.

(** ** Runs *)
Inductive fruns (x : fsys) : list flabel → fsys → Prop :=
  | fruns_nil : fruns x [] x
  | fruns_snoc ls y l z : fruns x ls y → fstep y l z → fruns x (ls ++ [l]) z.

Definition enqueued (l : flabel) : list T := match l with RetEnq _ e true => [e] | _ => [] end.
Definition dequeued (l : flabel) : list T := match l with RetDeq _ e => [e] | _ => [] end.

Lemma FInv_runs x ls y : FInv x → fruns x ls y → FInv y.
Proof. induction 2; eauto using FInv_step. Qed.

Lemma fstep_trace x l y :
  fstep x l y → s_in y = s_in x ++ enqueued l ∧ s_out y = s_out x ++ dequeued l ∧ max_ (s_f y) = max_ (s_f x).
Proof.
  destruct 1; simpl; rewrite ?app_nil_r; try done.
  1-3: match goal with H : enq_round _ _ _ = _ |- _ => apply enq_round_spec in H end; naive_solver.
  match goal with H : deq_round _ = _ |- _ => apply deq_round_spec in H end. naive_solver.
Qed.

Lemma fruns_trace x ls y :
  fruns x ls y →
  s_in y = s_in x ++ (ls ≫= enqueued) ∧ s_out y = s_out x ++ (ls ≫= dequeued) ∧ max_ (s_f y) = max_ (s_f x).
Proof.
  induction 1 as [|ls y l z _ (IH1 & IH2 & IH3) (H1 & H2 & H3)%fstep_trace].
  - simpl. by rewrite !app_nil_r.
  - rewrite !bind_app. simpl. rewrite !app_nil_r, H1, H2, H3, IH1, IH2, IH3, !app_assoc. done.
Qed.
End fifo.
Arguments fifo : clear implicits.
Arguments fthread : clear implicits.
Arguments fsys : clear implicits.
Arguments flabel : clear implicits.

(** * Theorems *)

(** C38.  The queue is first in first out and bounded, for every interleaving of
    any number of threads: what deq returned followed by what the queue holds is
    what enq accepted, in this order; the queue never holds more than its limit
    unless the limit is 0; an element is refused only when the queue is full
    and the call does not block. *)
Theorem queue_in_order {T} (limit : Z) (n : nat) (ls : list (flabel T)) (x : fsys T) :
  fruns (fsys_init limit n) ls x →
  ls ≫= enqueued = (ls ≫= dequeued) ++ q_ (s_f x) ∧
  (u32 limit ≠ 0 → Z.of_nat (length (q_ (s_f x))) ≤ u32 limit) ∧
  ∀ i e y, fstep x (RetEnq i e false) y →
    s_th x !! i = Some (FEnq e false) ∧ Z.of_nat (length (q_ (s_f x))) = u32 limit ∧ s_f y = s_f x.
Proof.
  intros Hr. pose proof (FInv_runs _ _ _ (FInv_init limit n) Hr) as [Ho _ Hb _ _].
  destruct (fruns_trace _ _ _ Hr) as (Hi & Hu & Hm). simpl in *. rewrite Hm in Hb.
  split; [congruence|]. split; [done|]. intros i e y Hs. inversion Hs as [| |? ? b ? Hi' Hr'| | | | |]; subst.
  apply enq_round_spec in Hr' as (-> & ? & ? & ->). rewrite Hm in *. split; [done|]. split; [|done]. lia.
Qed.

(** C39.  No wakeup is lost: when threads wait in deq, the queue holds no more
    elements than there are threads awake in deq, and when threads wait in enq,
    it has no more room than there are threads awake in enq; so whenever a
    waiting thread could go on, an awake one exists whose next step completes
    its call. *)
Theorem no_lost_wakeup {T} (limit : Z) (n : nat) (ls : list (flabel T)) (x : fsys T) (i : nat) :
  fruns (fsys_init limit n) ls x →
  (s_th x !! i = Some FDeqWait → q_ (s_f x) ≠ [] → ∃ j e y, fstep x (RetDeq j e) y) ∧
  (∀ e, s_th x !! i = Some (FEnqWait e) → Z.of_nat (length (q_ (s_f x))) < u32 limit →
     ∃ j e' y, fstep x (RetEnq j e' true) y).
Proof.
  intros Hr. pose proof (FInv_runs _ _ _ (FInv_init limit n) Hr) as [_ _ _ Hd He].
  destruct (fruns_trace _ _ _ Hr) as (_ & _ & Hm). simpl in Hm. split.
  - intros Hi Hq. specialize (Hd (num_pos _ _ _ _ Hi eq_refl)).
    destruct (num_pos_inv (ready_on non_empty_c_) (s_th x)) as (j & t & Hj & Ht);
      [destruct (q_ (s_f x)); [done|simpl in Hd; lia]|].
    destruct t; try done. exists j. apply (ready_deq_returns x j Hj Hq).
  - intros e Hi Hroom. destruct (He (num_pos _ _ _ _ Hi eq_refl)) as [_ Hx].
    destruct (num_pos_inv (ready_on has_space_c_) (s_th x)) as (j & t & Hj & Ht); [lia|].
    destruct t as [|e' b| | |]; try done. exists j, e'. apply (ready_enq_returns x j e' b Hj). lia.
Qed.

(** ** Concrete runs *)
(** Two threads: the second waits in deq until the first has put an element. *)
Definition ex_fifo_waiting : fsys Z := FSys (Fifo [] 1) [FOut; FDeqWait] [] [].
Definition ex_fifo_woken : fsys Z := FSys (Fifo [5] 1) [FOut; FDeq] [5] [].

Lemma ex_fifo_waiting_run : fruns (fsys_init 1 2) [CallDeq 1; Tau] ex_fifo_waiting.
Proof.
  apply (fruns_snoc _ [CallDeq 1] (FSys (Fifo [] 1) [FOut; FDeq] [] [])).
  - apply (fruns_snoc _ [] (fsys_init 1 2)); [constructor|]. by apply (FCallDeq (fsys_init 1 2) 1).
  - by apply (FDeqBlocks (FSys (Fifo [] 1) [FOut; FDeq] [] []) 1).
Defined.

Lemma ex_fifo_woken_run :
  fruns (fsys_init 1 2) [CallDeq 1; Tau; CallEnq 0 5 false; RetEnq 0 5 true] ex_fifo_woken.
Proof.
  apply (fruns_snoc _ [CallDeq 1; Tau; CallEnq 0 5 false] (FSys (Fifo [] 1) [FEnq 5 false; FDeqWait] [] [])).
  - apply (fruns_snoc _ [CallDeq 1; Tau] ex_fifo_waiting); [apply ex_fifo_waiting_run|].
    by apply (FCallEnq ex_fifo_waiting 0).
  - apply (FEnqueued (FSys (Fifo [] 1) [FEnq 5 false; FDeqWait] [] []) 0 5 false); [done|done|].
    split; [|done]. constructor; [by left|]. constructor; [by right|constructor].
Defined.

Lemma queue_in_order_witness :
  [5] = [] ++ q_ (s_f ex_fifo_woken) ∧ Z.of_nat (length (q_ (s_f ex_fifo_woken))) ≤ 1.
Proof.
  destruct (queue_in_order 1 2 _ ex_fifo_woken ex_fifo_woken_run) as (H1 & H2 & _).
  split; [exact H1|]. apply H2. by_vm.
Defined.

(** After the element has arrived and before thread 1 has run, a third thread
    may come to wait: the element then still belongs to an awake thread. *)
Definition ex_fifo_two : fsys Z := FSys (Fifo [5] 1) [FOut; FDeq; FDeqWait] [5] [].

Lemma ex_fifo_two_run :
  fruns (fsys_init 1 3) [CallDeq 1; CallDeq 2; Tau; CallEnq 0 5 true; Tau; RetEnq 0 5 true] ex_fifo_two.
Proof.
  pose (x1 := FSys (Fifo [] 1) [FOut; FDeq; FOut] [] [] : fsys Z).
  pose (x2 := FSys (Fifo [] 1) [FOut; FDeq; FDeq] [] [] : fsys Z).
  pose (x3 := FSys (Fifo [] 1) [FOut; FDeq; FDeqWait] [] [] : fsys Z).
  pose (x4 := FSys (Fifo [] 1) [FEnq 5 true; FDeq; FDeqWait] [] [] : fsys Z).
  pose (x5 := FSys (Fifo [] 1) [FEnq 5 true; FDeqWait; FDeqWait] [] [] : fsys Z).
  apply (fruns_snoc _ [CallDeq 1; CallDeq 2; Tau; CallEnq 0 5 true; Tau] x5).
  - apply (fruns_snoc _ [CallDeq 1; CallDeq 2; Tau; CallEnq 0 5 true] x4); [|by apply (FDeqBlocks x4 1)].
    apply (fruns_snoc _ [CallDeq 1; CallDeq 2; Tau] x3); [|by apply (FCallEnq x3 0)].
    apply (fruns_snoc _ [CallDeq 1; CallDeq 2] x2); [|by apply (FDeqBlocks x2 2)].
    apply (fruns_snoc _ [CallDeq 1] x1); [|by apply (FCallDeq x1 2)].
    apply (fruns_snoc _ [] (fsys_init 1 3)); [constructor|by apply (FCallDeq (fsys_init 1 3) 1)].
  - apply (FEnqueued x5 0 5 true); [done|done|]. split; [|done].
    constructor; [by left|]. constructor; [by right|]. constructor; [by left|constructor].
Defined.

Lemma no_lost_wakeup_witness : ∃ j e y, fstep ex_fifo_two (RetDeq j e) y.
Proof.
  refine (proj1 (no_lost_wakeup 1 3 _ ex_fifo_two 2 ex_fifo_two_run) _ _); [reflexivity|discriminate].
Defined.
