(* ===== verification/ThrPool.v ===== *)
(** The thread pool of rpc/thr_pool.cc over the queue of Fifo: worker threads,
    threads that add jobs, and the destructor.

    Thread 0 is the one that will destroy the pool, threads 1 to [nthreads_] are
    the workers, the others add jobs.  As the comment of the destructor demands,
    it starts when no thread is adding a job and none adds a job afterwards;
    jobs end, and do not add jobs themselves. *)
From S2P Require Import Prelude Fifo.
Local Open Scope Z_scope.

(** ** Jobs: a function pointer and its argument *)
Record job_t := Job { j_f : Z; j_a : Z }.

#[export] Instance job_t_eq_dec : EqDecision job_t.
Proof. solve_decision. Defined.

(** The poison pill of the destructor: only [f] is set, the argument is whatever
    the memory held. *)
Definition pill (a : Z) : job_t := Job 0 a.
Definition is_pill (j : job_t) : bool := j_f j =? 0.

(** takeJob's result: j->f != NULL. *)
Definition takeJob_result (j : job_t) : bool := negb (j_f j =? 0).

(** ** Where a thread is *)
Inductive pc :=
  | PWork                (* do_worker, before takeJob *)
  | PTaking              (* in takeJob *)
  | PRunning (j : job_t) (* in (j.f)(j.a) *)
  | PExited              (* pthread_exit *)
  | PFree                (* outside the pool *)
  | PAdding (j : job_t)  (* in addJob *)
  | PPill (k : nat)      (* in the destructor, k pills put *)
  | PPilling (k : nat)   (* in enq of the k-th pill *)
  | PJoin (k : nat)      (* k workers joined *)
  | PGone.               (* the destructor returned *)

#[export] Instance pc_eq_dec : EqDecision pc.
Proof. solve_decision. Defined.

Record ThrPool := Pool {
  nthreads_ : Z; blockadd_ : bool; jobq_ : fsys job_t; pcs : list pc; done_ : list job_t }.

(** The constructor: [m] is the number of threads that will add jobs.  100*sz is
    an int. *)
Definition ThrPool_new (sz : Z) (blocking : bool) (m : nat) : res ThrPool :=
  if (2 ^ 31 <=? 100 * sz) || (100 * sz <? - 2 ^ 31) then Undef
  else Ret (Pool sz blocking (fsys_init (100 * sz) (1 + Z.to_nat sz + m))
              (PFree :: replicate (Z.to_nat sz) PWork ++ replicate m PFree) []).

Definition move (p : ThrPool) (q : fsys job_t) (i : nat) (c : pc) : ThrPool :=
  Pool (nthreads_ p) (blockadd_ p) q (<[i := c]> (pcs p)) (done_ p).

(** do_worker after takeJob returned. *)
Definition after_take (j : job_t) : pc := if takeJob_result j then PRunning j else PExited.

(** The job that addJob puts in the queue. *)
Definition addJob_job (f a : Z) : job_t := Job f a.

Definition outside (c : pc) : bool := match c with PFree => true | _ => false end.
Definition is_worker (c : pc) : bool :=
  match c with PWork | PTaking | PRunning _ | PExited => true | _ => false end.

Inductive plabel := Prog | Spur.

Inductive pstep (p : ThrPool) : plabel → ThrPool → Prop :=
  | PTakeCall i q :
      pcs p !! i = Some PWork → fstep (jobq_ p) (CallDeq i) q → pstep p Prog (move p q i PTaking)
  | PTakeRet i j q :
      pcs p !! i = Some PTaking → fstep (jobq_ p) (RetDeq i j) q →
      pstep p Prog (move p q i (after_take j))
  | PRun i j :
      pcs p !! i = Some (PRunning j) →
      pstep p Prog (Pool (nthreads_ p) (blockadd_ p) (jobq_ p) (<[i := PWork]> (pcs p)) (done_ p ++ [j]))
  | PAddCall i f a q :
      pcs p !! i = Some PFree → (0 < i)%nat → pcs p !! 0%nat = Some PFree → f ≠ 0 →
      fstep (jobq_ p) (CallEnq i (addJob_job f a) (blockadd_ p)) q →
      pstep p Prog (move p q i (PAdding (addJob_job f a)))
  | PAddRet i j r q :
      pcs p !! i = Some (PAdding j) → fstep (jobq_ p) (RetEnq i j r) q →
      pstep p Prog (move p q i PFree)
  | PDestroy :
      pcs p !! 0%nat = Some PFree → (∀ i c, pcs p !! i = Some c → is_worker c || outside c = true) →
      pstep p Prog (move p (jobq_ p) 0 (PPill 0))
  | PPillCall k a q :
      pcs p !! 0%nat = Some (PPill k) → Z.of_nat k < nthreads_ p →
      fstep (jobq_ p) (CallEnq 0 (pill a) true) q → pstep p Prog (move p q 0 (PPilling k))
  | PPillRet k j r q :
      pcs p !! 0%nat = Some (PPilling k) → fstep (jobq_ p) (RetEnq 0 j r) q →
      pstep p Prog (move p q 0 (PPill (S k)))
  | PPillsDone k :
      pcs p !! 0%nat = Some (PPill k) → nthreads_ p ≤ Z.of_nat k →
      pstep p Prog (move p (jobq_ p) 0 (PJoin 0))
  | PJoinOne k :
      pcs p !! 0%nat = Some (PJoin k) → Z.of_nat k < nthreads_ p → pcs p !! S k = Some PExited →
      pstep p Prog (move p (jobq_ p) 0 (PJoin (S k)))
  | PJoined k :
      pcs p !! 0%nat = Some (PJoin k) → nthreads_ p ≤ Z.of_nat k →
      pstep p Prog (move p (jobq_ p) 0 PGone)
  | PTau q : fstep (jobq_ p) Tau q → pstep p Prog (Pool (nthreads_ p) (blockadd_ p) q (pcs p) (done_ p))
  | PSpur q : fstep (jobq_ p) Spurious q → pstep p Spur (Pool (nthreads_ p) (blockadd_ p) q (pcs p) (done_ p)).

Definition pany (p p' : ThrPool) : Prop := ∃ l, pstep p l p'.

(** ** Each thread is in the queue where its program counter says *)
Definition pc_ok (c : pc) (t : fthread job_t) : Prop :=
  match c with
  | PTaking => t = FDeq ∨ t = FDeqWait
  | PAdding j => is_pill j = false ∧ ((∃ b, t = FEnq j b) ∨ t = FEnqWait j)
  | PPilling _ => ∃ a, t = FEnq (pill a) true ∨ t = FEnqWait (pill a)
  | _ => t = FOut
  end.

(** The pills put so far. *)
Definition pills (p : ThrPool) : nat :=
  match pcs p !! 0%nat with
  | Some (PPill k) | Some (PPilling k) => k
  | Some (PJoin _) | Some PGone => Z.to_nat (nthreads_ p)
  | _ => 0
  end.

Definition running (c : pc) : list job_t := match c with PRunning j => [j] | _ => [] end.
Definition exited (c : pc) : bool := match c with PExited => true | _ => false end.
Definition destroying (c : pc) : bool :=
  match c with PPill _ | PPilling _ | PJoin _ | PGone => true | _ => false end.
Definition adding (c : pc) : bool := match c with PAdding _ => true | _ => false end.

(** What thread [i] can be doing in a pool of [n] workers. *)
Definition role_ok (n : nat) (i : nat) (c : pc) : Prop :=
  if decide (i = 0%nat) then destroying c || outside c = true
  else if decide (i ≤ n)%nat then is_worker c = true
  else outside c || adding c = true.

Definition owner_ok (n : nat) (cs : list pc) (c : pc) : Prop :=
  match c with
  | PPill k => (k ≤ n)%nat
  | PPilling k => (k < n)%nat
  | PJoin k => (k ≤ n)%nat ∧ ∀ i, (1 ≤ i ≤ k)%nat → cs !! i = Some PExited
  | PGone => ∀ i, (1 ≤ i ≤ n)%nat → cs !! i = Some PExited
  | _ => True
  end.

Record PInv (p : ThrPool) : Prop := {
  pi_f : FInv (jobq_ p);
  pi_max : max_ (s_f (jobq_ p)) = u32 (100 * nthreads_ p);
  pi_range : - 2 ^ 31 ≤ 100 * nthreads_ p < 2 ^ 31;
  pi_ok : Forall2 pc_ok (pcs p) (s_th (jobq_ p));
  pi_len : (Z.to_nat (nthreads_ p) < length (pcs p))%nat;
  pi_role : ∀ i c, pcs p !! i = Some c → role_ok (Z.to_nat (nthreads_ p)) i c;
  pi_quiet : ∀ c, pcs p !! 0%nat = Some c → destroying c = true → ∀ i j, pcs p !! i = Some (PAdding j) → False;
  pi_owner : ∀ c, pcs p !! 0%nat = Some c → owner_ok (Z.to_nat (nthreads_ p)) (pcs p) c;
  pi_in : ∃ js ps, s_in (jobq_ p) = js ++ ps ∧ Forall (λ j, is_pill j = false) js ∧
    Forall (λ j, is_pill j = true) ps ∧ length ps = pills p;
  pi_exit : num exited (pcs p) = num is_pill (s_out (jobq_ p));
  pi_done : List.filter takeJob_result (s_out (jobq_ p)) ≡ₚ done_ p ++ (pcs p ≫= running) }.

(** ** Preservation *)
Lemma pc_ok_wake c t v : pc_ok c t → waits_on v t = true → pc_ok c (wake t).
Proof. destruct c, v, t; simpl; intros; try done; naive_solver. Qed.

Lemma pc_ok_signal v cs ths ths' :
  Forall2 pc_ok cs ths → pthread_cond_signal v ths ths' → Forall2 pc_ok cs ths'.
Proof.
  intros H [Hs _]. revert ths' Hs. induction H as [|c t cs ths Hc _ IH]; intros ths' Hs;
    inversion Hs as [|? t' ? ? Ht]; subst; constructor; [|by apply IH].
  destruct Ht as [->|[Hw ->]]; [done|]. by eapply pc_ok_wake.
Qed.

(** What a step of the queue means for the program counters. *)
Lemma pc_ok_step q l q' cs :
  fstep q l q' → Forall2 pc_ok cs (s_th q) →
  match l with
  | Tau | Spurious => Forall2 pc_ok cs (s_th q')
  | CallDeq i => ∀ c, pc_ok c FDeq → Forall2 pc_ok (<[i := c]> cs) (s_th q')
  | CallEnq i e b => ∀ c, pc_ok c (FEnq e b) → Forall2 pc_ok (<[i := c]> cs) (s_th q')
  | RetDeq i _ | RetEnq i _ _ => ∀ c, pc_ok c FOut → Forall2 pc_ok (<[i := c]> cs) (s_th q')
  end.
Proof.
  intros Hs Ho. assert (∀ i t t', s_th q !! i = Some t → (∀ c, pc_ok c t → pc_ok c t') →
    Forall2 pc_ok cs (<[i := t']> (s_th q))) as Hkeep.
  { intros i t t' Hi Ht. destruct (Forall2_lookup_r _ _ _ _ _ Ho Hi) as (c & Hc & Hct).
    rewrite <- (list_insert_id cs i c) by done. apply Forall2_insert; auto. }
  destruct Hs as [i e b Hi|i e b f ths Hi Hr Hs|i e b f Hi Hr|i e b f Hi Hr|i Hi
    |i e sig f ths Hi Hr Hs|i Hi Hr|v i t Hi Hw]; simpl; intros.
  - by apply Forall2_insert.
  - eapply pc_ok_signal; [|exact Hs]. by apply Forall2_insert.
  - by apply Forall2_insert.
  - apply (Hkeep i (FEnq e b)); [done|]. intros []; simpl; naive_solver.
  - by apply Forall2_insert.
  - destruct sig; [eapply pc_ok_signal; [|exact Hs]|subst]; by apply Forall2_insert.
  - apply (Hkeep i FDeq); [done|]. intros []; simpl; naive_solver.
  - apply (Hkeep i t); [done|]. intros. by eapply pc_ok_wake.
Qed.

(** A queue that took [ins] in and gave [outs] out. *)
Record qmove (q q' : fsys job_t) (ins outs : list job_t) : Prop := {
  qm_inv : FInv q'; qm_max : max_ (s_f q') = max_ (s_f q);
  qm_in : s_in q' = s_in q ++ ins; qm_out : s_out q' = s_out q ++ outs }.

Lemma qmove_refl q : FInv q → qmove q q [] [].
Proof. intros. split; rewrite ?app_nil_r; done. Qed.

Lemma qmove_step q l q' : FInv q → fstep q l q' → qmove q q' (enqueued l) (dequeued l).
Proof.
  intros Hq Hs. pose proof (FInv_step _ _ _ Hq Hs). by destruct (fstep_trace _ _ _ Hs) as (? & ? & ?).
Qed.

Lemma running_insert cs i c c' :
  cs !! i = Some c → (<[i := c']> cs ≫= running) ++ running c ≡ₚ (cs ≫= running) ++ running c'.
Proof.
  revert i. induction cs as [|u cs IH]; intros [|i] Hi; simplify_eq/=.
  - rewrite (Permutation_app_comm (running c')), (Permutation_app_comm (running c)), <- !app_assoc.
    by rewrite (Permutation_app_comm (running c) (running c')).
  - by rewrite <- !app_assoc, (IH i Hi).
Qed.

Lemma owner_ok_other n cs i c0 c' c :
  cs !! i = Some c0 → exited c0 = false → owner_ok n cs c → owner_ok n (<[i := c']> cs) c.
Proof.
  intros Hi He. assert (∀ k, cs !! k = Some PExited → <[i := c']> cs !! k = Some PExited) as Hk.
  { intros k Hk. rewrite list_lookup_insert_ne; [done|]. intros ->. rewrite Hi in Hk. by simplify_eq. }
  destruct c; simpl; try done; naive_solver.
Qed.

(** A worker or a thread that adds jobs makes a step. *)
Lemma PInv_other p q i c0 c ins outs d :
  PInv p → pcs p !! i = Some c0 → i ≠ 0%nat → qmove (jobq_ p) q ins outs →
  Forall2 pc_ok (<[i := c]> (pcs p)) (s_th q) →
  exited c0 = false → role_ok (Z.to_nat (nthreads_ p)) i c →
  (ins ≠ [] ∨ adding c = true → pcs p !! 0%nat = Some PFree) → Forall (λ j, is_pill j = false) ins →
  num is_pill outs = Nat.b2n (exited c) →
  List.filter takeJob_result outs ++ running c0 ≡ₚ d ++ running c →
  PInv (Pool (nthreads_ p) (blockadd_ p) q (<[i := c]> (pcs p)) (done_ p ++ d)).
Proof.
  intros [Hf Hm Hr Ho Hl Hrole Hquiet Hown Hin Hex Hdone] Hi H0 [Hq Hm' Hin' Hout'] Hok He Hc Hfree Hins Hx Hd.
  assert (Hz : <[i := c]> (pcs p) !! 0%nat = pcs p !! 0%nat) by (by rewrite list_lookup_insert_ne).
  split; simpl; rewrite ?Hm', ?length_insert; try done.
  - intros k ck. destruct (decide (i = k)) as [->|Hne].
    + apply lookup_lt_Some in Hi. rewrite list_lookup_insert_eq by done. by intros [= <-].
    + rewrite list_lookup_insert_ne by done. apply Hrole.
  - rewrite Hz. intros c1 Hc1 Hd1 k j. destruct (decide (i = k)) as [->|Hne].
    + apply lookup_lt_Some in Hi. rewrite list_lookup_insert_eq by done. intros [= ->].
      rewrite Hfree in Hc1 by (by right). by simplify_eq.
    + rewrite list_lookup_insert_ne by done. by apply (Hquiet c1).
  - rewrite Hz. intros c1 Hc1. by apply (owner_ok_other _ _ _ c0), Hown.
  - destruct Hin as (js & ps & Es & Hjs & Hps & Hlen). unfold pills in *. simpl. rewrite Hz, Hin', Es.
    destruct (decide (ins = [])) as [->|Hne].
    + exists js, ps. by rewrite app_nil_r.
    + rewrite Hfree in * by (by left). destruct ps; [|done]. exists (js ++ ins), [].
      rewrite !app_nil_r, Forall_app. done.
  - rewrite Hout', num_app, <- Hex, Hx. pose proof (num_insert exited _ _ _ c Hi). rewrite He in *. simpl in *. lia.
  - rewrite Hout', List.filter_app, Hdone. apply (Permutation_app_inv_r (running c0)).
    rewrite <- !app_assoc, (running_insert _ _ _ _ Hi), Hd.
    rewrite (app_assoc _ d), (Permutation_app_comm (pcs p ≫= running) d), <- !app_assoc. done.
Qed.

(** The destructor makes a step. *)
Lemma PInv_owner p q c0 c ins :
  PInv p → pcs p !! 0%nat = Some c0 → qmove (jobq_ p) q ins [] →
  Forall2 pc_ok (<[0%nat := c]> (pcs p)) (s_th q) →
  destroying c = true → (destroying c0 = false → ∀ i j, pcs p !! i = Some (PAdding j) → False) →
  owner_ok (Z.to_nat (nthreads_ p)) (<[0%nat := c]> (pcs p)) c →
  Forall (λ j, is_pill j = true) ins → (length ins + pills p)%nat = pills (move p q 0 c) →
  PInv (move p q 0 c).
Proof.
  intros [Hf Hm Hr Ho Hl Hrole Hquiet Hown Hin Hex Hdone] Hi [Hq Hm' Hin' Hout'] Hok Hd Hno Hc Hins Hp.
  pose proof (lookup_lt_Some _ _ _ Hi) as Hlt. pose proof (Hrole _ _ Hi) as H0.
  unfold role_ok in H0. rewrite decide_True in H0 by done.
  assert (exited c0 = false ∧ running c0 = [] ∧ exited c = false ∧ running c = []) as (E1 & E2 & E3 & E4)
    by (destruct c0, c; try done).
  split; simpl; rewrite ?Hm', ?length_insert; try done.
  - intros k ck. destruct (decide (k = 0%nat)) as [->|Hne].
    + rewrite list_lookup_insert_eq by done. intros [= <-]. unfold role_ok.
      rewrite decide_True by done. by rewrite Hd.
    + rewrite list_lookup_insert_ne by done. apply Hrole.
  - intros c1 _ _ k j. destruct (decide (k = 0%nat)) as [->|Hne].
    + rewrite list_lookup_insert_eq by done. intros [= ->]. done.
    + rewrite list_lookup_insert_ne by done. destruct (destroying c0) eqn:Hd0; [by apply (Hquiet c0)|by apply Hno].
  - intros c1. rewrite list_lookup_insert_eq by done. by intros [= <-].
  - destruct Hin as (js & ps & Es & Hjs & Hps & Hlen). exists js, (ps ++ ins).
    rewrite Hin', Es, app_assoc, Forall_app, length_app. repeat split; try done. rewrite <- Hp. lia.
  - rewrite Hout', app_nil_r, <- Hex. pose proof (num_insert exited _ _ _ c Hi). rewrite E1, E3 in *. simpl in *. lia.
  - pose proof (running_insert _ _ _ c Hi) as E. rewrite E2, E4, !app_nil_r in E.
    by rewrite Hout', app_nil_r, Hdone, E.
Qed.

Lemma PInv_init sz b m p : ThrPool_new sz b m = Ret p → PInv p.
Proof.
  unfold ThrPool_new. destruct (Z.leb_spec (2 ^ 31) (100 * sz)) as [?|H1]; [done|].
  destruct (Z.ltb_spec (100 * sz) (- 2 ^ 31)) as [?|H2]; [done|]. intros [= <-].
  assert (∀ i c, (PFree :: replicate (Z.to_nat sz) PWork ++ replicate m PFree) !! i = Some c →
    c = PFree ∧ (i = 0 ∨ Z.to_nat sz < i)%nat ∨ c = PWork ∧ (1 ≤ i ≤ Z.to_nat sz)%nat) as Hc.
  { intros [|i] c; simpl; [intros [= <-]; auto|]. intros [H|[Hi H]]%lookup_app_Some;
      apply lookup_replicate in H as [-> H]; [right|left]; (split; [done|]);
      rewrite ?length_replicate in *; lia. }
  split; cbn [pcs nthreads_ jobq_ done_ s_f s_th s_in s_out fsys_init]; try done.
  - apply (FInv_init (100 * sz)).
  - apply Forall2_cons_2; [done|]. rewrite replicate_add. apply Forall2_app; apply Forall2_replicate; done.
  - simpl. rewrite length_app, !length_replicate. lia.
  - intros i c Hi. unfold role_ok. destruct (Hc i c Hi) as [[-> Hr]|[-> Hr]];
      repeat case_decide; try done; lia.
  - by intros c [= <-].
  - by intros c [= <-].
  - by exists [], [].
  - apply num_zero, Forall_lookup. intros i c Hi. by destruct (Hc i c Hi) as [[-> _]|[-> _]].
  - enough ((PFree :: replicate (Z.to_nat sz) PWork ++ replicate m PFree) ≫= running = []) as -> by done.
    apply elem_of_nil_inv. intros j (c & Hj & Hi)%list_elem_of_bind.
    apply list_elem_of_lookup in Hi as [i Hi]. destruct (Hc i c Hi) as [[-> _]|[-> _]]; by apply elem_of_nil in Hj.
Qed.

(** Thread [i] of the pool, from what it is doing. *)
Lemma role_worker n i c : role_ok n i c → is_worker c = true → i ≠ 0%nat ∧ ∀ c', is_worker c' = true → role_ok n i c'.
Proof.
  unfold role_ok. repeat case_decide; destruct c; try done; intros; (split; [lia|by intros]).
Qed.

Lemma role_client n i c :
  role_ok n i c → adding c = true ∨ outside c = true ∧ i ≠ 0%nat →
  i ≠ 0%nat ∧ ∀ c', outside c' || adding c' = true → role_ok n i c'.
Proof.
  unfold role_ok. repeat case_decide; destruct c; simpl; try naive_solver.
Qed.

Lemma pc_ok_alone p i c0 c :
  Forall2 pc_ok (pcs p) (s_th (jobq_ p)) → pcs p !! i = Some c0 → (∀ t, pc_ok c0 t → pc_ok c t) →
  Forall2 pc_ok (<[i := c]> (pcs p)) (s_th (jobq_ p)).
Proof.
  intros Ho Hi Hc. destruct (Forall2_lookup_l _ _ _ _ _ Ho Hi) as (t & Ht & Htt).
  rewrite <- (list_insert_id (s_th (jobq_ p)) i t) by done. apply Forall2_insert; auto.
Qed.

(** Steps of the three kinds of threads. *)
Lemma PInv_worker p q i c0 c outs d :
  PInv p → pcs p !! i = Some c0 → is_worker c0 = true → exited c0 = false → is_worker c = true →
  qmove (jobq_ p) q [] outs → Forall2 pc_ok (<[i := c]> (pcs p)) (s_th q) →
  num is_pill outs = Nat.b2n (exited c) → List.filter takeJob_result outs ++ running c0 ≡ₚ d ++ running c →
  PInv (Pool (nthreads_ p) (blockadd_ p) q (<[i := c]> (pcs p)) (done_ p ++ d)).
Proof.
  intros HI Hi Hw He Hc Hq Hok Hn Hd. destruct (role_worker _ _ _ (pi_role _ HI _ _ Hi) Hw) as [Hi0 Hr].
  eapply PInv_other; eauto. intros [?|Ha]; [done|by destruct c].
Qed.

Lemma PInv_client p q i c0 c ins :
  PInv p → pcs p !! i = Some c0 → adding c0 = true ∨ outside c0 = true ∧ i ≠ 0%nat →
  outside c || adding c = true → qmove (jobq_ p) q ins [] → Forall2 pc_ok (<[i := c]> (pcs p)) (s_th q) →
  pcs p !! 0%nat = Some PFree → Forall (λ j, is_pill j = false) ins → PInv (move p q i c).
Proof.
  intros HI Hi Ha Hc Hq Hok Hfree Hins. destruct (role_client _ _ _ (pi_role _ HI _ _ Hi) Ha) as [Hi0 Hr].
  unfold move. rewrite <- (app_nil_r (done_ p)).
  assert (exited c0 = false ∧ running c0 = [] ∧ exited c = false ∧ running c = []) as (E1 & E2 & E3 & E4)
    by (destruct c0, c; naive_solver).
  eapply PInv_other; eauto; by rewrite ?E2, ?E3, ?E4.
Qed.

(** While a thread adds a job, the destructor has not started. *)
Lemma adding_free p i j : PInv p → pcs p !! i = Some (PAdding j) → pcs p !! 0%nat = Some PFree.
Proof.
  intros HI Hi. pose proof (pi_len _ HI). destruct (pcs p !! 0%nat) as [c|] eqn:E0; [|apply lookup_ge_None in E0; lia].
  pose proof (pi_role _ HI _ _ E0) as Hr. unfold role_ok in Hr. rewrite decide_True in Hr by done.
  destruct (destroying c) eqn:Hd; [by destruct (pi_quiet _ HI c E0 Hd i j)|]. by destruct c.
Qed.

Lemma pills_owner p q c c0 :
  pcs p !! 0%nat = Some c0 →
  pills (move p q 0 c) = match c with
    | PPill k | PPilling k => k | PJoin _ | PGone => Z.to_nat (nthreads_ p) | _ => 0%nat end.
Proof. intros H0. unfold pills. simpl. by destruct (pcs p). Qed.

Lemma PInv_owner_alone p c0 c :
  PInv p → pcs p !! 0%nat = Some c0 → destroying c = true → (∀ t, pc_ok c0 t → pc_ok c t) →
  (destroying c0 = false → ∀ i j, pcs p !! i = Some (PAdding j) → False) →
  owner_ok (Z.to_nat (nthreads_ p)) (<[0%nat := c]> (pcs p)) c → pills p = pills (move p (jobq_ p) 0 c) →
  PInv (move p (jobq_ p) 0 c).
Proof.
  intros HI H0 Hd Hc Hno Hown Hp. eapply PInv_owner; eauto using qmove_refl, pc_ok_alone, pi_f, pi_ok.
Qed.

Lemma PInv_queue p l q :
  PInv p → fstep (jobq_ p) l q → l = Tau ∨ l = Spurious →
  PInv (Pool (nthreads_ p) (blockadd_ p) q (pcs p) (done_ p)).
Proof.
  intros [Hf Hm Hr Ho Hl Hrole Hquiet Hown Hin Hex Hdone] Hq Ht.
  pose proof (qmove_step _ _ _ Hf Hq) as [Hf' Hm' Hin' Hout'].
  assert (enqueued l = [] ∧ dequeued l = []) as [E1 E2] by naive_solver.
  rewrite E1, E2, app_nil_r in *.
  split; simpl; rewrite ?Hm', ?Hin', ?Hout'; try done.
  pose proof (pc_ok_step _ _ _ _ Hq Ho). naive_solver.
Qed.

Lemma PInv_step p l p' : PInv p → pstep p l p' → PInv p'.
Proof.
  intros HI Hs. pose proof HI as [Hf _ _ Ho _ Hrole Hquiet Hown _ _ _].
  destruct Hs as [i q Hi Hq|i j q Hi Hq|i j Hi|i f a q Hi Hi0 H0 Hfa Hq|i j r q Hi Hq|H0 Hall
    |k a q H0 Hk Hq|k j r q H0 Hq|k H0 Hk|k H0 Hk Hx|k H0 Hk|q Hq|q Hq].
  - unfold move. rewrite <- (app_nil_r (done_ p)). apply (PInv_worker p q i PWork PTaking [] []); try done; [exact (qmove_step _ _ _ Hf Hq)|].
    apply (pc_ok_step _ _ _ _ Hq Ho). by left.
  - unfold move. rewrite <- (app_nil_r (done_ p)). apply (PInv_worker p q i PTaking (after_take j) [j] []); try done;
      [|exact (qmove_step _ _ _ Hf Hq)|apply (pc_ok_step _ _ _ _ Hq Ho)| |];
      unfold after_take, takeJob_result, num; simpl; unfold is_pill; by destruct (j_f j =? 0).
  - apply (PInv_worker p (jobq_ p) i (PRunning j) PWork [] [j]); try done; [by apply qmove_refl|].
    by eapply pc_ok_alone.
  - apply (PInv_client p q i PFree _ []); try done; [right; split; [done|lia]|exact (qmove_step _ _ _ Hf Hq)|].
    apply (pc_ok_step _ _ _ _ Hq Ho). split; [unfold is_pill; simpl; by apply Z.eqb_neq|]. left. by eexists.
  - destruct (Forall2_lookup_l _ _ _ _ _ Ho Hi) as (t & Ht & Htt).
    apply (PInv_client p q i (PAdding j) PFree (if r then [j] else [])); try done; [by left|exact (qmove_step _ _ _ Hf Hq)| |by eapply adding_free|].
    + by apply (pc_ok_step _ _ _ _ Hq Ho).
    + destruct r; repeat constructor. apply Htt.
  - eapply PInv_owner_alone; try exact H0; try done; [|simpl; lia|].
    + intros _ i j Hi. by specialize (Hall _ _ Hi).
    + erewrite pills_owner by done. unfold pills. by rewrite H0.
  - apply (PInv_owner p q (PPill k) (PPilling k) []); try done; [exact (qmove_step _ _ _ Hf Hq)| |simpl; lia|].
    + apply (pc_ok_step _ _ _ _ Hq Ho). exists a. by left.
    + erewrite pills_owner by done. unfold pills. by rewrite H0.
  - destruct (Forall2_lookup_l _ _ _ _ _ Ho H0) as (t & Ht & (a & Htt)).
    assert (r = true ∧ is_pill j = true) as [-> Hj].
    { inversion Hq as [|? ? b ? ? Hi' Hr'|? ? b ? Hi' Hr'| | | | |]; subst; rewrite Ht in Hi';
        destruct Htt as [->| ->]; simplify_eq; try done.
      by apply enq_round_spec in Hr' as (? & _). }
    apply (PInv_owner p q (PPilling k) (PPill (S k)) [j]); try done; [exact (qmove_step _ _ _ Hf Hq)| | |by repeat constructor|].
    + by apply (pc_ok_step _ _ _ _ Hq Ho).
    + specialize (Hown _ H0). simpl in *. lia.
    + erewrite pills_owner by done. unfold pills. by rewrite H0.
  - specialize (Hown _ H0). simpl in Hown. eapply PInv_owner_alone; try exact H0; try done.
    + simpl. split; [lia|intros; lia].
    + erewrite pills_owner by done. unfold pills. rewrite H0. lia.
  - specialize (Hown _ H0). simpl in Hown. eapply PInv_owner_alone; try exact H0; try done.
    + simpl. split; [lia|]. intros i Hi. rewrite list_lookup_insert_ne by lia.
      destruct (decide (i = S k)) as [->|]; [done|]. apply Hown. lia.
    + erewrite pills_owner by done. unfold pills. by rewrite H0.
  - specialize (Hown _ H0). simpl in Hown. eapply PInv_owner_alone; try exact H0; try done.
    + simpl. intros i Hi. rewrite list_lookup_insert_ne by lia. apply Hown. lia.
    + erewrite pills_owner by done. unfold pills. by rewrite H0.
  - by apply (PInv_queue p Tau); [..|left].
  - by apply (PInv_queue p Spurious); [..|right].
Qed.

Lemma PInv_reachable p p' : PInv p → rtc pany p p' → PInv p'.
Proof. intros H. induction 1 as [|x y z [l Hs] _ IH]; eauto using PInv_step. Qed.

(** ** How many workers are gone *)
Lemma num_exited p :
  PInv p → num exited (pcs p) = num exited (slice 1 (Z.to_nat (nthreads_ p)) (pcs p)) ∧
    length (slice 1 (Z.to_nat (nthreads_ p)) (pcs p)) = Z.to_nat (nthreads_ p).
Proof.
  intros HI. pose proof (pi_len _ HI) as Hl. pose proof (pi_role _ HI) as Hr.
  set (n := Z.to_nat (nthreads_ p)) in *. split; [|rewrite length_slice; lia].
  rewrite <- (take_drop 1 (pcs p)) at 1. rewrite <- (take_drop n (drop 1 (pcs p))), !num_app.
  rewrite (num_zero exited (take 1 _)), (num_zero exited (drop n _)); [unfold slice; lia|..];
    apply Forall_lookup; intros i c.
  - rewrite !lookup_drop. intros Hi%Hr. unfold role_ok in Hi. do 2 (rewrite decide_False in Hi by lia). by destruct c.
  - intros Hi. apply lookup_take_Some in Hi as [Hi Hi0]. apply Hr in Hi. unfold role_ok in Hi.
    rewrite decide_True in Hi by lia. by destruct c.
Qed.

Lemma worker_left p i c :
  PInv p → (1 ≤ i ≤ Z.to_nat (nthreads_ p))%nat → pcs p !! i = Some c → exited c = false →
  (num exited (pcs p) < Z.to_nat (nthreads_ p))%nat.
Proof.
  intros HI Hn Hi He. destruct (num_exited p HI) as [-> Hl]. rewrite <- Hl at 2.
  apply (num_lt_length _ _ (i - 1) c); [|done]. unfold slice. rewrite lookup_take, decide_True by lia.
  rewrite lookup_drop, <- Hi. f_equal. lia.
Qed.

Lemma some_worker_left p :
  PInv p → (num exited (pcs p) < Z.to_nat (nthreads_ p))%nat →
  ∃ i c, (1 ≤ i)%nat ∧ pcs p !! i = Some c ∧ is_worker c = true ∧ exited c = false.
Proof.
  intros HI Hlt. destruct (num_exited p HI) as [E Hl]. rewrite E in Hlt.
  pose proof (num_neg exited (slice 1 (Z.to_nat (nthreads_ p)) (pcs p))) as Hn.
  destruct (num_pos_inv (negb ∘ exited) (slice 1 (Z.to_nat (nthreads_ p)) (pcs p))) as (i & c & Hi & Hc); [lia|].
  unfold slice in Hi. apply lookup_take_Some in Hi as [Hi Hn']. rewrite lookup_drop in Hi.
  exists (1 + i)%nat, c. pose proof (pi_role _ HI _ _ Hi) as Hr. unfold role_ok in Hr.
  rewrite decide_False, decide_True in Hr by lia. simpl in Hc. repeat split; [lia|done|done|by apply negb_true_iff].
Qed.

Lemma pills_in p : PInv p → num is_pill (s_in (jobq_ p)) = pills p.
Proof.
  intros HI. destruct (pi_in _ HI) as (js & ps & -> & Hj & Hp & <-).
  by rewrite num_app, (num_zero is_pill js), num_all.
Qed.

Lemma pills_queued p :
  PInv p → (num exited (pcs p) + num is_pill (q_ (s_f (jobq_ p))))%nat = pills p.
Proof. intros HI. by rewrite (pi_exit _ HI), <- num_app, <- (fi_order _ (pi_f _ HI)), pills_in. Qed.

(** When the destructor has joined all workers, the queue is empty. *)
Lemma gone_drained p :
  PInv p → 0 < nthreads_ p → pcs p !! 0%nat = Some PGone →
  q_ (s_f (jobq_ p)) = [] ∧ pcs p ≫= running = [].
Proof.
  intros HI Hn H0. pose proof (pills_queued p HI) as Hq.
  assert (pills p = Z.to_nat (nthreads_ p)) as Hp by (unfold pills; by rewrite H0).
  pose proof (pi_owner _ HI _ H0) as Hall. simpl in Hall.
  destruct (decide (num exited (pcs p) < Z.to_nat (nthreads_ p))%nat) as [Hlt|Hge].
  { destruct (some_worker_left p HI Hlt) as (i & c & Hi1 & Hi & Hw & He).
    pose proof (pi_role _ HI _ _ Hi) as Hr. unfold role_ok in Hr. rewrite decide_False in Hr by lia.
    case_decide; [|by destruct c]. rewrite Hall in Hi by lia. by simplify_eq. }
  split.
  - destruct (pi_in _ HI) as (js & ps & Es & Hj & Hps & Hlen). rewrite (fi_order _ (pi_f _ HI)) in Es.
    destruct (q_ (s_f (jobq_ p))) as [|j q _] using rev_ind; [done|]. exfalso.
    destruct ps as [|x ps _] using rev_ind; [simpl in Hlen; lia|].
    rewrite !app_assoc in Es. apply app_inj_tail in Es as [_ <-].
    apply Forall_app in Hps as [_ Hx]. apply (proj1 (Forall_singleton _ _)) in Hx. cbv beta in Hx.
    rewrite num_app, num_singleton, Hx in Hq. simpl in Hq. lia.
  - apply elem_of_nil_inv. intros j (c & Hj & Hi)%list_elem_of_bind. destruct c; try by apply elem_of_nil in Hj.
    apply list_elem_of_lookup in Hi as [i Hi]. pose proof (pi_role _ HI _ _ Hi) as Hr. unfold role_ok in Hr.
    repeat case_decide; try done. rewrite Hall in Hi by lia. done.
Qed.

(** ** The destructor ends *)
Definition weight (n : nat) (c : pc) : nat :=
  match c with
  | PWork => 1
  | PRunning _ => 2
  | PPill k => 5 * (n - k) + n + 3
  | PPilling k => 5 * (n - k) + n + 2
  | PJoin k => n - k + 1
  | _ => 0
  end.

Definition ready (t : fthread job_t) : bool := ready_on non_empty_c_ t || ready_on has_space_c_ t.

Definition work (p : ThrPool) : nat :=
  3 * length (q_ (s_f (jobq_ p))) + sum_list_with (weight (Z.to_nat (nthreads_ p))) (pcs p).

(** Waiting makes one thread less ready and leaves the work; everything else
    makes the work less. *)
Definition measure (p : ThrPool) : nat :=
  work p * S (length (s_th (jobq_ p))) + num ready (s_th (jobq_ p)).

Lemma fstep_length {T} (q q' : fsys T) l : fstep q l q' → length (s_th q') = length (s_th q).
Proof.
  destruct 1 as [| ? ? ? ? ? ? ? [Hs _]| | | |? ? [] ? ? ? ? Hs| |]; simpl; subst; rewrite ?length_insert; try done.
  - apply Forall2_length in Hs. by rewrite <- Hs, length_insert.
  - destruct Hs as [Hs _]. apply Forall2_length in Hs. by rewrite <- Hs, length_insert.
Qed.

Lemma fstep_size {T} (q q' : fsys T) l :
  fstep q l q' →
  (length (q_ (s_f q')) + length (dequeued l) = length (q_ (s_f q)) + length (enqueued l))%nat.
Proof.
  destruct 1; simpl; try done; try lia.
  1-3: match goal with H : enq_round _ _ _ = _ |- _ => apply enq_round_spec in H end;
    destruct_and!; subst; simpl; rewrite ?length_app; simpl; lia.
  match goal with H : deq_round _ = _ |- _ => apply deq_round_spec in H as (-> & _) end. simpl. lia.
Qed.

Lemma fstep_tau_ready (q q' : fsys job_t) :
  fstep q Tau q' → s_f q' = s_f q ∧ (num ready (s_th q') < num ready (s_th q))%nat.
Proof.
  inversion 1 as [| | |i e b f Hi Hr| | |i Hi Hr|]; subst; simpl.
  - apply enq_round_spec in Hr as (_ & _ & _ & ->). split; [done|].
    pose proof (num_insert ready _ _ _ (FEnqWait e) Hi). simpl in *. lia.
  - split; [done|]. pose proof (num_insert ready _ _ _ FDeqWait Hi). simpl in *. lia.
Qed.

Lemma measure_work p p' :
  length (s_th (jobq_ p')) = length (s_th (jobq_ p)) → (work p' < work p)%nat → (measure p' < measure p)%nat.
Proof.
  unfold measure. intros El Hw. pose proof (num_length ready (s_th (jobq_ p'))). rewrite El in *. nia.
Qed.

Lemma work_move p q i c0 c :
  pcs p !! i = Some c0 →
  (work (move p q i c) + 3 * length (q_ (s_f (jobq_ p))) + weight (Z.to_nat (nthreads_ p)) c0 =
   work p + 3 * length (q_ (s_f q)) + weight (Z.to_nat (nthreads_ p)) c)%nat.
Proof.
  intros Hi. unfold work. simpl. pose proof (sum_insert (weight (Z.to_nat (nthreads_ p))) _ _ _ c Hi). lia.
Qed.

Lemma measure_step p p' c :
  PInv p → pcs p !! 0%nat = Some c → destroying c = true → pstep p Prog p' → (measure p' < measure p)%nat.
Proof.
  intros HI H0 Hd Hs. pose proof (pi_owner _ HI _ H0) as Hown.
  inversion Hs as [i q Hi Hq|i j q Hi Hq|i j Hi|i f a q Hi Hi0 H0' Hfa Hq|i j r q Hi Hq|H0' Hall
    |k a q H0' Hk Hq|k j r q H0' Hq|k H0' Hk|k H0' Hk Hx|k H0' Hk|q Hq|]; subst.
  - apply measure_work; [by eapply fstep_length|]. pose proof (work_move p q i PWork PTaking Hi).
    pose proof (fstep_size _ _ _ Hq). simpl in *. lia.
  - apply measure_work; [by eapply fstep_length|]. pose proof (work_move p q i PTaking (after_take j) Hi) as E.
    pose proof (fstep_size _ _ _ Hq). unfold after_take in *. destruct (takeJob_result j); simpl in *; lia.
  - apply measure_work; [done|]. pose proof (work_move p (jobq_ p) i _ PWork Hi). unfold work in *. simpl in *. lia.
  - rewrite H0' in H0. by simplify_eq.
  - destruct (pi_quiet _ HI _ H0 Hd i j Hi).
  - rewrite H0' in H0. by simplify_eq.
  - rewrite H0' in H0. simplify_eq. apply measure_work; [by eapply fstep_length|].
    pose proof (work_move p q 0 _ (PPilling k) H0'). pose proof (fstep_size _ _ _ Hq). simpl in *. lia.
  - rewrite H0' in H0. simplify_eq. apply measure_work; [by eapply fstep_length|].
    pose proof (work_move p q 0 _ (PPill (S k)) H0'). pose proof (fstep_size _ _ _ Hq). destruct r; simpl in *; lia.
  - rewrite H0' in H0. simplify_eq. apply measure_work; [done|].
    pose proof (work_move p (jobq_ p) 0 _ (PJoin 0) H0'). simpl in *. lia.
  - rewrite H0' in H0. simplify_eq. apply measure_work; [done|].
    pose proof (work_move p (jobq_ p) 0 _ (PJoin (S k)) H0'). simpl in *. lia.
  - rewrite H0' in H0. simplify_eq. apply measure_work; [done|].
    pose proof (work_move p (jobq_ p) 0 _ PGone H0'). simpl in *. lia.
  - destruct (fstep_tau_ready _ _ Hq) as [E Hlt]. unfold measure, work. simpl.
    rewrite E, (fstep_length _ _ _ Hq). lia.
Qed.

(** ** The destructor does not get stuck *)
Definition can_step (p : ThrPool) : Prop := ∃ p', pstep p Prog p'.

Lemma pc_of_thread p i t :
  PInv p → s_th (jobq_ p) !! i = Some t → ∃ c, pcs p !! i = Some c ∧ pc_ok c t.
Proof. intros HI Hi. exact (Forall2_lookup_r _ _ _ _ _ (pi_ok _ HI) Hi). Qed.

Lemma thread_of_pc p i c :
  PInv p → pcs p !! i = Some c → ∃ t, s_th (jobq_ p) !! i = Some t ∧ pc_ok c t.
Proof. intros HI Hi. exact (Forall2_lookup_l _ _ _ _ _ (pi_ok _ HI) Hi). Qed.

Lemma ready_taker_steps p i : PInv p → s_th (jobq_ p) !! i = Some FDeq → can_step p.
Proof.
  intros HI Hi. destruct (pc_of_thread p i FDeq HI Hi) as (c & Hc & Ht).
  assert (c = PTaking) as -> by (destruct c; simpl in Ht; naive_solver).
  destruct (ready_deq_steps _ _ Hi) as [(e & y & Hy)|(y & Hy)]; eexists; [by eapply PTakeRet|by eapply PTau].
Qed.

(** A worker that is left can go on, or the queue is empty. *)
Lemma worker_steps p i c :
  PInv p → pcs p !! i = Some c → is_worker c = true → exited c = false →
  can_step p ∨ s_th (jobq_ p) !! i = Some FDeqWait ∧ q_ (s_f (jobq_ p)) = [].
Proof.
  intros HI Hi Hw He. destruct (thread_of_pc p i c HI Hi) as (t & Ht & Hok). destruct c; try done; simpl in Hok.
  - subst t. left. eexists. eapply PTakeCall; [done|]. by apply FCallDeq.
  - destruct Hok as [->| ->]; [left; by eapply ready_taker_steps|].
    destruct (q_ (s_f (jobq_ p))) eqn:Hq; [by right|left].
    pose proof (fi_deq _ (pi_f _ HI) (num_pos _ _ _ _ Ht eq_refl)) as Hn. rewrite Hq in Hn. simpl in Hn.
    destruct (num_pos_inv (ready_on non_empty_c_) (s_th (jobq_ p))) as (k & t & Hk & Htk); [lia|].
    destruct t; try done. by eapply ready_taker_steps.
  - left. eexists. by eapply PRun.
Qed.

(** A pill waits only for workers. *)
Lemma pill_steps p k a :
  PInv p → pcs p !! 0%nat = Some (PPilling k) → s_th (jobq_ p) !! 0%nat = Some (FEnqWait (pill a)) → can_step p.
Proof.
  intros HI H0 Ht. pose proof (pi_owner _ HI _ H0) as Hk. simpl in Hk.
  pose proof (pills_queued p HI) as Hp. unfold pills in Hp. rewrite H0 in Hp.
  destruct (some_worker_left p HI) as (i & c & Hi1 & Hi & Hw & He); [lia|].
  destruct (worker_steps p i c HI Hi Hw He) as [?|[Hti Hq]]; [done|]. exfalso.
  destruct (fi_enq _ (pi_f _ HI) (num_pos _ _ _ _ Ht eq_refl)) as [Hm Hn]. rewrite Hq in Hn. simpl in Hn.
  pose proof (fi_max _ (pi_f _ HI)).
  destruct (num_pos_inv (ready_on has_space_c_) (s_th (jobq_ p))) as (j & t & Hj & Htj); [lia|].
  destruct t as [|e b| | |]; try done. destruct (pc_of_thread p j _ HI Hj) as (cj & Hcj & Hok).
  pose proof (pi_role _ HI _ _ Hcj) as Hr. unfold role_ok in Hr.
  destruct cj; simpl in Hok; try naive_solver.
  - by destruct (pi_quiet _ HI _ H0 eq_refl j j0).
  - repeat case_decide; try done. naive_solver.
Qed.

Lemma destroying_steps p c :
  PInv p → pcs p !! 0%nat = Some c → destroying c = true → c ≠ PGone → can_step p.
Proof.
  intros HI H0 Hd Hg. destruct (thread_of_pc p 0 c HI H0) as (t & Ht & Hok).
  pose proof (pi_owner _ HI _ H0) as Hown. destruct c as [| | | | | |k|k|k|]; try done; simpl in *.
  - subst t. destruct (decide (Z.of_nat k < nthreads_ p)).
    + eexists. eapply (PPillCall p k 0); [done..|]. by apply FCallEnq.
    + eexists. apply (PPillsDone p k); [done|lia].
  - destruct Hok as (a & [->| ->]); [|by eapply pill_steps].
    destruct (ready_enq_steps _ _ _ _ Ht) as [(r & y & Hy)|(y & Hy)]; eexists;
      [by eapply PPillRet|by eapply PTau].
  - destruct (decide (Z.of_nat k < nthreads_ p)) as [Hk|Hk]; [|eexists; apply (PJoined p k); [done|lia]].
    pose proof (pi_len _ HI). destruct (lookup_lt_is_Some_2 (pcs p) (S k)) as [c Hc]; [lia|].
    pose proof (pi_role _ HI _ _ Hc) as Hr. unfold role_ok in Hr. rewrite decide_False, decide_True in Hr by lia.
    destruct (exited c) eqn:He; [destruct c; try done; eexists; by apply (PJoinOne p k)|].
    destruct (worker_steps p (S k) c HI Hc Hr He) as [?|[Hti Hq]]; [done|]. exfalso.
    pose proof (worker_left p (S k) c HI ltac:(lia) Hc He). pose proof (pills_queued p HI) as Hp.
    unfold pills in Hp. rewrite H0, Hq in Hp. unfold num in Hp at 2. simpl in Hp. lia.
Qed.

Lemma destroying_kept p p' c :
  pcs p !! 0%nat = Some c → destroying c = true → PInv p → pstep p Prog p' →
  ∃ c', pcs p' !! 0%nat = Some c' ∧ destroying c' = true.
Proof.
  intros H0 Hd HI Hs. assert (∀ i c0 c1, pcs p !! i = Some c0 → is_worker c0 = true →
    ∃ c', <[i := c1]> (pcs p) !! 0%nat = Some c' ∧ destroying c' = true) as Hw.
  { intros i c0 c1 Hi Hw. destruct (role_worker _ _ _ (pi_role _ HI _ _ Hi) Hw) as [? _].
    exists c. by rewrite list_lookup_insert_ne. }
  assert (∀ c1, destroying c1 = true → ∃ c', <[0%nat := c1]> (pcs p) !! 0%nat = Some c' ∧ destroying c' = true) as Ho.
  { intros c1 Hc1. exists c1. by rewrite list_lookup_insert_eq by (by eapply lookup_lt_Some). }
  inversion Hs; subst; simpl; eauto.
  - rewrite H0 in *. by simplify_eq.
  - match goal with H : pcs p !! _ = Some (PAdding _) |- _ => destruct (pi_quiet _ HI _ H0 Hd _ _ H) end.
Qed.

(** A step that is not a spurious wakeup. *)
Definition prog (p p' : ThrPool) : Prop := pstep p Prog p'.

Definition being_destroyed (p : ThrPool) : Prop := ∃ c, pcs p !! 0%nat = Some c ∧ destroying c = true.

Lemma prog_steps n p p' :
  PInv p → being_destroyed p → nsteps prog n p p' →
  (n + measure p' ≤ measure p)%nat ∧ PInv p' ∧ being_destroyed p'.
Proof.
  intros HI Hd Hs. induction Hs as [p|n p p1 p2 H1 _ IH]; [auto with lia|]. destruct Hd as (c & H0 & Hd).
  pose proof (measure_step p p1 c HI H0 Hd H1). destruct IH as (? & ? & ?); [by eapply PInv_step| |auto with lia].
  by eapply destroying_kept.
Qed.

Lemma nthreads_kept p p' : rtc pany p p' → nthreads_ p' = nthreads_ p.
Proof. induction 1 as [|x y z [l Hs] _ IH]; [done|]. rewrite IH. by destruct Hs. Qed.

(** * Theorems *)

(** C29.  A pool loses no job and runs none twice: when the destructor has
    returned, the jobs that were run are exactly those that addJob accepted, and
    the queue is empty. *)
Theorem pool_drains (sz : Z) (blocking : bool) (m : nat) (p0 p : ThrPool) :
  ThrPool_new sz blocking m = Ret p0 → 0 < sz → rtc pany p0 p → pcs p !! 0%nat = Some PGone →
  List.filter takeJob_result (s_in (jobq_ p)) ≡ₚ done_ p ∧ q_ (s_f (jobq_ p)) = [].
Proof.
  intros H0 Hsz Hr Hg. pose proof (PInv_reachable _ _ (PInv_init _ _ _ _ H0) Hr) as HI.
  assert (nthreads_ p = sz) as En.
  { rewrite (nthreads_kept _ _ Hr). unfold ThrPool_new in H0. case_match; [done|]. by injection H0 as <-. }
  destruct (gone_drained p HI ltac:(lia) Hg) as [Eq Er]. split; [|done].
  by rewrite (fi_order _ (pi_f _ HI)), Eq, app_nil_r, (pi_done _ HI), Er, app_nil_r.
Qed.

(** C36.  The destructor returns: once it has started, the pool can make only a
    bounded number of steps other than spurious wakeups, and it stops only when
    the destructor has returned; no schedule of wakeups leaves a worker or the
    destructor waiting for ever. *)
Theorem destructor_returns (sz : Z) (blocking : bool) (m : nat) (p0 p : ThrPool) :
  ThrPool_new sz blocking m = Ret p0 → rtc pany p0 p → being_destroyed p →
  (∃ N : nat, ∀ n p', nsteps prog n p p' → (n ≤ N)%nat) ∧
  (∀ p', rtc prog p p' → (∀ p'', ¬ prog p' p'') → pcs p' !! 0%nat = Some PGone).
Proof.
  intros H0 Hr Hd. pose proof (PInv_reachable _ _ (PInv_init _ _ _ _ H0) Hr) as HI. split.
  - exists (measure p). intros n p' Hn. destruct (prog_steps n p p' HI Hd Hn) as (? & _). lia.
  - intros p' [n Hn]%rtc_nsteps Hstop. destruct (prog_steps n p p' HI Hd Hn) as (_ & HI' & c & Hc & Hdc).
    destruct (decide (c = PGone)) as [->|Hne]; [done|].
    by destruct (destroying_steps p' c HI' Hc Hdc Hne) as [p'' ?%Hstop].
Qed.

(** ** A pool with one worker runs one job and is destroyed *)
Definition ex_pool : ThrPool :=
  match ThrPool_new 1 false 1 with Ret p => p | _ => Pool 0 false (fsys_init 0 0) [] [] end.

Definition ex_job : job_t := Job 7 8.

(** The pool when the destructor has put its pill, and at its end. *)
Definition ex_pool_closing : ThrPool :=
  Pool 1 false (FSys (Fifo [ex_job; pill 0] 100) [FOut; FOut; FOut] [ex_job; pill 0] [])
    [PPill 1; PWork; PFree] [].
Definition ex_pool_gone : ThrPool :=
  Pool 1 false (FSys (Fifo [] 100) [FOut; FOut; FOut] [ex_job; pill 0] [ex_job; pill 0])
    [PGone; PExited; PFree] [ex_job].

Tactic Notation "pgo" open_constr(c) := eapply rtc_l; [exists Prog; eapply c; try reflexivity|].

Lemma ex_pool_closing_run : rtc pany ex_pool ex_pool_closing.
Proof.
  pgo (PAddCall _ 2 7 8); [lia|done|by apply FCallEnq|].
  pgo (PAddRet _ 2 ex_job true); [by apply (FEnqueued _ 2 ex_job false); [..|apply signal_none]|].
  pgo PDestroy; [intros [|[|[|i]]] c Hc; by simplify_eq/=|].
  pgo (PPillCall _ 0 0); [by apply FCallEnq|].
  pgo (PPillRet _ 0 (pill 0) true); [by apply (FEnqueued _ 0 (pill 0) true); [..|apply signal_none]|].
  apply rtc_refl.
Defined.

Lemma ex_pool_gone_run : rtc pany ex_pool_closing ex_pool_gone.
Proof.
  pgo (PTakeCall _ 1); [by apply FCallDeq|].
  pgo (PTakeRet _ 1 ex_job); [by apply (FDequeued _ 1 ex_job true); [..|apply signal_none]|].
  pgo (PRun _ 1 ex_job).
  pgo (PTakeCall _ 1); [by apply FCallDeq|].
  pgo (PTakeRet _ 1 (pill 0)); [by apply (FDequeued _ 1 (pill 0) true); [..|apply signal_none]|].
  pgo (PPillsDone _ 1).
  pgo (PJoinOne _ 0).
  pgo (PJoined _ 1).
  apply rtc_refl.
Defined.

Lemma pool_drains_witness : [ex_job] ≡ₚ done_ ex_pool_gone.
Proof.
  refine (proj1 (pool_drains 1 false 1 ex_pool ex_pool_gone _ _ _ _)); [reflexivity|lia| |reflexivity].
  etrans; [exact ex_pool_closing_run|exact ex_pool_gone_run].
Defined.

Lemma destructor_returns_witness :
  ∃ N : nat, ∀ n p', nsteps prog n ex_pool_closing p' → (n ≤ N)%nat.
Proof.
  refine (proj1 (destructor_returns 1 false 1 ex_pool ex_pool_closing _ ex_pool_closing_run _));
    [reflexivity|by exists (PPill 1)].
Defined.
