(* ===== verification/PollMgr.v ===== *)
(** The poll manager (rpc/pollmgr.cc): the two implementations of class aio_mgr,
    over select and over epoll, and class PollMgr, which keeps one callback
    object per descriptor and runs them in a thread of its own.

    The pipe that wakes the thread up is taken not to be full; select reports a
    part of the descriptors it was given. *)
From S2P Require Import Prelude.
Local Open Scope Z_scope.

Definition MAX_POLL_FDS : Z := 128.

Inductive poll_flag := CB_NONE | CB_RDONLY | CB_WRONLY | CB_RDWR | CB_MASK.

#[export] Instance poll_flag_eq_dec : EqDecision poll_flag.
Proof. solve_decision. Defined.

Definition flag_val (f : poll_flag) : Z :=
  match f with CB_NONE => 0 | CB_RDONLY => 1 | CB_WRONLY => 16 | CB_RDWR => 17 | CB_MASK => Z.lnot 17 end.

(** ** class aio_mgr *)
Class AioMgr (A : Type) := {
  watch_fd : Z → poll_flag → ST A unit;
  unwatch_fd : Z → poll_flag → ST A bool;
  is_watched : Z → poll_flag → ST A bool }.

(** ** class SelectAIO

    An fd_set has room for the descriptors below FD_SETSIZE.  [pipe_n] is the
    number of bytes in the pipe. *)
Definition FD_SETSIZE : Z := 1024.

Record SelectAIO := Select {
  rfds_ : gset Z; wfds_ : gset Z; highfds_ : Z; pipefd0 : Z; pipe_n : nat }.

Definition SelectAIO_new (pipe0 : Z) : SelectAIO := Select {[pipe0]} ∅ pipe0 pipe0 0.

Definition fd_ok (fd : Z) : bool := (0 <=? fd) && (fd <? FD_SETSIZE).

Definition with_fds (r w : gset Z) (s : SelectAIO) : SelectAIO :=
  Select r w (highfds_ s) (pipefd0 s) (pipe_n s).
Definition with_high (h : Z) (s : SelectAIO) : SelectAIO :=
  Select (rfds_ s) (wfds_ s) h (pipefd0 s) (pipe_n s).
Definition with_pipe (n : nat) (s : SelectAIO) : SelectAIO :=
  Select (rfds_ s) (wfds_ s) (highfds_ s) (pipefd0 s) n.

Definition select_watch_fd (fd : Z) (flag : poll_flag) : ST SelectAIO unit := λ s,
  let s := if highfds_ s <=? fd then with_high fd s else s in
  if negb (fd_ok fd) then Undef
  else
    let s := match flag with
             | CB_RDONLY => with_fds ({[fd]} ∪ rfds_ s) (wfds_ s) s
             | CB_WRONLY => with_fds (rfds_ s) ({[fd]} ∪ wfds_ s) s
             | _ => with_fds ({[fd]} ∪ rfds_ s) ({[fd]} ∪ wfds_ s) s
             end in
    Ret (tt, with_pipe (S (pipe_n s)) s).

Definition fd_isset (fd : Z) (fds : gset Z) : bool := bool_decide (fd ∈ fds).

Definition select_is_watched (fd : Z) (flag : poll_flag) : ST SelectAIO bool := λ s,
  if negb (fd_ok fd) then Undef
  else Ret (match flag with
            | CB_RDONLY => fd_isset fd (rfds_ s)
            | CB_WRONLY => fd_isset fd (wfds_ s)
            | _ => fd_isset fd (rfds_ s) && fd_isset fd (wfds_ s)
            end, s).

(** for (i = 0; i <= highfds_; i++): the last descriptor in one of the sets. *)
Fixpoint newh_loop (n : nat) (i : Z) (r w : gset Z) (newh : Z) : Z :=
  match n with
  | O => newh
  | S n => newh_loop n (i + 1) r w (if fd_isset i r then i else if fd_isset i w then i else newh)
  end.

Definition select_unwatch_fd (fd : Z) (flag : poll_flag) : ST SelectAIO bool := λ s,
  VERIFY (match flag with CB_RDONLY | CB_WRONLY | CB_RDWR => true | _ => false end);;
  if negb (fd_ok fd) then Undef
  else
    let s := match flag with
             | CB_RDONLY => with_fds (rfds_ s ∖ {[fd]}) (wfds_ s) s
             | CB_WRONLY => with_fds (rfds_ s) (wfds_ s ∖ {[fd]}) s
             | _ => with_fds (rfds_ s ∖ {[fd]}) (wfds_ s ∖ {[fd]}) s
             end in
    let out := negb (fd_isset fd (rfds_ s)) && negb (fd_isset fd (wfds_ s)) in
    let s := if out && (fd =? highfds_ s)
             then with_high (newh_loop (Z.to_nat (highfds_ s + 1)) 0 (rfds_ s) (wfds_ s) (pipefd0 s)) s
             else s in
    let s := match flag with CB_RDWR => with_pipe (S (pipe_n s)) s | _ => s end in
    Ret (out, s).

#[export] Instance select_aio : AioMgr SelectAIO := {
  watch_fd := select_watch_fd; unwatch_fd := select_unwatch_fd; is_watched := select_is_watched }.

(** wait_ready after select returned [tr] and [tw] for the descriptors up to
    [high]: the loop over the descriptors, with the read of one byte from the
    pipe. *)
Fixpoint ready_loop (n : nat) (fd : Z) (tr tw : gset Z) (readable writable : list Z)
    : ST SelectAIO (list Z * list Z) := λ s,
  match n with
  | O => Ret ((readable, writable), s)
  | S n =>
      if (fd =? pipefd0 s) && fd_isset fd tr then
        match pipe_n s with
        | O => VerifyFailed
        | S k => ready_loop n (fd + 1) tr tw readable writable (with_pipe k s)
        end
      else
        let writable := if fd_isset fd tw then writable ++ [fd] else writable in
        let readable := if fd_isset fd tr then readable ++ [fd] else readable in
        ready_loop n (fd + 1) tr tw readable writable s
  end.

Definition wait_ready_end (high : Z) (tr tw : gset Z) : ST SelectAIO (list Z * list Z) :=
  ready_loop (Z.to_nat (high + 1)) 0 tr tw [] [].

(** ** class EPollAIO

    [interest] is the kernel's set of descriptors with their events. *)
Definition EPOLLIN : Z := 1.
Definition EPOLLOUT : Z := 4.
Definition EPOLLET : Z := 2 ^ 31.

Inductive epoll_op := EPOLL_CTL_ADD | EPOLL_CTL_MOD | EPOLL_CTL_DEL.

Record EPollAIO := EPoll { fdstatus_ : list Z; interest : gmap Z Z }.

Definition EPollAIO_new : EPollAIO := EPoll (replicate (Z.to_nat MAX_POLL_FDS) 0) ∅.

(** epoll_ctl: 0, or -1 for a descriptor that is there already, or is not. *)
Definition epoll_ctl (op : epoll_op) (fd events : Z) (k : gmap Z Z) : Z * gmap Z Z :=
  match op, k !! fd with
  | EPOLL_CTL_ADD, None => (0, <[fd := events]> k)
  | EPOLL_CTL_MOD, Some _ => (0, <[fd := events]> k)
  | EPOLL_CTL_DEL, Some _ => (0, delete fd k)
  | _, _ => (-1, k)
  end.

Definition status_at (fd : Z) (s : EPollAIO) : res Z :=
  if fd <? 0 then Undef
  else match fdstatus_ s !! Z.to_nat fd with Some v => Ret v | None => Undef end.

Definition ev_events (st : Z) : Z :=
  let e := EPOLLET in
  let e := if Z.land st (flag_val CB_RDONLY) =? 0 then e else Z.lor e EPOLLIN in
  if Z.land st (flag_val CB_WRONLY) =? 0 then e else Z.lor e EPOLLOUT.

Definition epoll_watch_fd (fd : Z) (flag : poll_flag) : ST EPollAIO unit := λ s,
  VERIFY (fd <? MAX_POLL_FDS);;
  st ← status_at fd s;
  let op := if st =? 0 then EPOLL_CTL_ADD else EPOLL_CTL_MOD in
  let st := Z.lor st (flag_val flag) in
  let ev := ev_events st in
  (match flag with CB_RDWR => VERIFY (ev =? Z.lor (Z.lor EPOLLET EPOLLIN) EPOLLOUT) | _ => Ret tt end);;
  let '(ret, k) := epoll_ctl op fd ev (interest s) in
  VERIFY (ret =? 0);;
  Ret (tt, EPoll (<[Z.to_nat fd := st]> (fdstatus_ s)) k).

Definition epoll_unwatch_fd (fd : Z) (flag : poll_flag) : ST EPollAIO bool := λ s,
  VERIFY (fd <? MAX_POLL_FDS);;
  st ← status_at fd s;
  let st := Z.land st (Z.lnot (flag_val flag)) in
  let del := st =? 0 in
  (match flag with CB_RDWR => VERIFY del | _ => Ret tt end);;
  let '(ret, k) := epoll_ctl (if del then EPOLL_CTL_DEL else EPOLL_CTL_MOD) fd (ev_events st) (interest s) in
  VERIFY (ret =? 0);;
  Ret (del, EPoll (<[Z.to_nat fd := st]> (fdstatus_ s)) k).

Definition epoll_is_watched (fd : Z) (flag : poll_flag) : ST EPollAIO bool := λ s,
  VERIFY (fd <? MAX_POLL_FDS);;
  st ← status_at fd s;
  Ret (Z.land st (flag_val CB_MASK) =? flag_val flag, s).

(** wait_ready over what epoll_wait reported. *)
Fixpoint epoll_ready (evs : list (Z * Z)) (readable writable : list Z) : list Z * list Z :=
  match evs with
  | [] => (readable, writable)
  | (fd, e) :: evs =>
      let readable := if Z.land e EPOLLIN =? 0 then readable else readable ++ [fd] in
      let writable := if Z.land e EPOLLOUT =? 0 then writable else writable ++ [fd] in
      epoll_ready evs readable writable
  end.

#[export] Instance epoll_aio : AioMgr EPollAIO := {
  watch_fd := epoll_watch_fd; unwatch_fd := epoll_unwatch_fd; is_watched := epoll_is_watched }.

(** ** class PollMgr, over any aio_mgr *)
Section pollmgr.
Context {A : Type} `{AioMgr A}.

(** [callbacks_]: the callback object of each descriptor, NULL as None. *)
Record PollMgr := Poll { callbacks_ : list (option Z); aio_ : A; pending_change_ : bool }.

Definition PollMgr_new (a : A) : PollMgr := Poll (replicate (Z.to_nat MAX_POLL_FDS) None) a false.

Definition aio {B} (p : ST A B) : ST PollMgr B := λ s,
  '(b, a) ← p (aio_ s); Ret (b, Poll (callbacks_ s) a (pending_change_ s)).

Definition get_cb (fd : Z) : ST PollMgr (option Z) := λ s,
  if fd <? 0 then Undef
  else match callbacks_ s !! Z.to_nat fd with Some c => Ret (c, s) | None => Undef end.

Definition set_cb (fd : Z) (c : option Z) : ST PollMgr unit := λ s,
  if (fd <? 0) || (MAX_POLL_FDS <=? fd) then Undef
  else Ret (tt, Poll (<[Z.to_nat fd := c]> (callbacks_ s)) (aio_ s) (pending_change_ s)).

Definition set_pending (b : bool) : ST PollMgr unit :=
  st_mod (λ s, Poll (callbacks_ s) (aio_ s) b).

Definition add_callback (fd : Z) (flag : poll_flag) (ch : Z) : ST PollMgr unit :=
  st_lift (VERIFY (fd <? MAX_POLL_FDS));;
  aio (watch_fd fd flag);;
  c ← get_cb fd;
  st_lift (VERIFY (match c with None => true | Some c => c =? ch end));;
  set_cb fd (Some ch).

Definition del_callback (fd : Z) (flag : poll_flag) : ST PollMgr unit :=
  b ← aio (unwatch_fd fd flag);
  if b : bool then set_cb fd None else mret tt.

Definition has_callback (fd : Z) (flag : poll_flag) (ch : Z) : ST PollMgr bool :=
  c ← get_cb fd;
  if match c with None => true | Some c => negb (c =? ch) end then mret false
  else aio (is_watched fd flag).

(** block_remove_fd up to pthread_cond_wait, and after it. *)
Definition block_remove_begin (fd : Z) : ST PollMgr unit :=
  aio (unwatch_fd fd CB_RDWR);; set_pending true.

Definition block_remove_end (fd : Z) : ST PollMgr unit := set_cb fd None.
End pollmgr.
Arguments PollMgr : clear implicits.

(** ** Sequences of calls to an aio_mgr *)
Inductive aop := AWatch (fd : Z) (flag : poll_flag) | AUnwatch (fd : Z) (flag : poll_flag).

Definition aop_fd (o : aop) : Z := match o with AWatch fd _ | AUnwatch fd _ => fd end.
Definition aop_flag (o : aop) : poll_flag := match o with AWatch _ f | AUnwatch _ f => f end.

Section calls.
Context {A : Type} `{AioMgr A}.

Definition exec_aop (o : aop) : ST A (option bool) :=
  match o with
  | AWatch fd flag => watch_fd fd flag;; mret None
  | AUnwatch fd flag => b ← unwatch_fd fd flag; mret (Some b)
  end.

Fixpoint exec_aops (os : list aop) : ST A (list (option bool)) :=
  match os with
  | [] => mret []
  | o :: os => b ← exec_aop o; bs ← exec_aops os; mret (b :: bs)
  end.
End calls.

(** The calls that PollMgr makes: a read or write flag, a descriptor in range
    that is not the pipe. *)
Definition aop_ok (pipe0 : Z) (o : aop) : Prop :=
  0 ≤ aop_fd o < MAX_POLL_FDS ∧ aop_fd o ≠ pipe0 ∧
  (aop_flag o = CB_RDONLY ∨ aop_flag o = CB_WRONLY ∨ aop_flag o = CB_RDWR).

(** ** The descriptors select is asked about *)
Definition watched (s : SelectAIO) : gset Z := rfds_ s ∪ wfds_ s.

(** [highfds_] is the largest descriptor watched, and the pipe is watched. *)
Record SelectOk (s : SelectAIO) : Prop := {
  so_pipe : pipefd0 s ∈ rfds_ s;
  so_range : ∀ fd, fd ∈ watched s → 0 ≤ fd ≤ highfds_ s;
  so_high : highfds_ s ∈ watched s }.

Lemma newh_loop_spec n i r w newh :
  let h := newh_loop n i r w newh in
  (h = newh ∧ ∀ x, i ≤ x < i + Z.of_nat n → x ∉ r ∪ w) ∨
  (i ≤ h < i + Z.of_nat n ∧ h ∈ r ∪ w ∧ ∀ x, h < x < i + Z.of_nat n → x ∉ r ∪ w).
Proof.
  revert i newh. induction n as [|n IH]; intros i newh; cbn [newh_loop]; [left; split; [done|lia]|].
  set (m := if fd_isset i r then i else if fd_isset i w then i else newh).
  assert (i ∈ r ∪ w ∧ m = i ∨ i ∉ r ∪ w ∧ m = newh) as Hm.
  { subst m. unfold fd_isset. repeat case_bool_decide; set_solver. }
  specialize (IH (i + 1) m). cbv zeta in IH |- *. set (h := newh_loop n (i + 1) r w m) in *.
  destruct IH as [[Eh Hn]|(Hr & Hh & Hn)].
  - destruct Hm as [[Hi Em]|[Hi Em]].
    + right. rewrite Eh, Em. split; [lia|]. split; [done|]. intros. apply Hn. lia.
    + left. rewrite Eh, Em. split; [done|]. intros x Hx. destruct (decide (x = i)) as [->|]; [done|apply Hn; lia].
  - right. split; [lia|]. split; [done|]. intros. apply Hn. lia.
Qed.

Lemma SelectOk_new p : 0 ≤ p → SelectOk (SelectAIO_new p).
Proof. split; unfold watched; simpl; set_solver by lia. Qed.

(** The sets after a call, whatever the flag. *)
Lemma watch_run s fd flag s' :
  watch_fd fd flag s = Ret (tt, s') →
  0 ≤ fd ∧ watched s' = {[fd]} ∪ watched s ∧ rfds_ s ⊆ rfds_ s' ∧ pipefd0 s' = pipefd0 s ∧
  highfds_ s' = highfds_ s `max` fd ∧ pipe_n s' = S (pipe_n s).
Proof.
  intros E. simpl in E. unfold select_watch_fd in E.
  destruct (fd_ok fd) eqn:Hok; [|done]. unfold fd_ok in Hok. apply andb_true_iff in Hok as [Hok _]. zbool.
  injection E as <-. unfold watched. split; [done|].
  destruct (Z.leb_spec (highfds_ s) fd), flag; simpl; repeat split; try lia; set_solver.
Qed.

Lemma watch_ok s fd flag s' :
  SelectOk s → watch_fd fd flag s = Ret (tt, s') → SelectOk s'.
Proof.
  intros [Hp Hr Hh] (H0 & Ew & Er & Ep & Eh & _)%watch_run. split.
  - rewrite Ep. by apply Er.
  - intros x. rewrite Ew, Eh, elem_of_union, elem_of_singleton. intros [->|Hx%Hr]; lia.
  - rewrite Ew, Eh, elem_of_union, elem_of_singleton. destruct (Z.max_spec (highfds_ s) fd) as [[_ ->]|[_ ->]]; auto.
Qed.

Lemma unwatch_run s fd flag b s' :
  unwatch_fd fd flag s = Ret (b, s') →
  (b = true ↔ fd ∉ watched s') ∧ watched s ∖ {[fd]} ⊆ watched s' ∧ watched s' ⊆ watched s ∧
  rfds_ s ∖ {[fd]} ⊆ rfds_ s' ∧ pipefd0 s' = pipefd0 s ∧
  (flag = CB_RDWR → fd ∉ watched s' ∧ pipe_n s' = S (pipe_n s)) ∧ (pipe_n s ≤ pipe_n s')%nat ∧
  highfds_ s' = if b && (fd =? highfds_ s)
                then newh_loop (Z.to_nat (highfds_ s + 1)) 0 (rfds_ s') (wfds_ s') (pipefd0 s) else highfds_ s.
Proof.
  intros E. simpl in E. unfold select_unwatch_fd in E. destruct (VERIFY _) eqn:Ev; [|done..]. cbn [mbind res_bind] in E.
  destruct (fd_ok fd); [|done]. cbn [negb] in E. cbv zeta in E.
  set (s1 := match flag with CB_RDONLY => _ | CB_WRONLY => _ | _ => _ end) in E.
  assert (watched s ∖ {[fd]} ⊆ watched s1 ∧ watched s1 ⊆ watched s ∧ rfds_ s ∖ {[fd]} ⊆ rfds_ s1 ∧
    pipefd0 s1 = pipefd0 s ∧ highfds_ s1 = highfds_ s ∧ pipe_n s1 = pipe_n s ∧
    (flag = CB_RDWR → fd ∉ watched s1)) as (H1 & H2 & H3 & H4 & H5 & H6 & H7).
  { subst s1. unfold watched. destruct flag; simpl; repeat split; try done; set_solver. }
  clearbody s1. set (out := negb _ && negb _) in E.
  assert (out = true ↔ fd ∉ watched s1) as Ho.
  { subst out. unfold fd_isset, watched. rewrite andb_true_iff, !negb_true_iff, !bool_decide_eq_false. set_solver. }
  injection E as <- <-. rewrite H5, H4. unfold watched in *.
  destruct (out && (fd =? highfds_ s)), flag; simpl; rewrite ?H4, ?H5, ?H6; repeat split; try done; try tauto; lia.
Qed.

Lemma unwatch_ok s fd flag b s' :
  SelectOk s → fd ≠ pipefd0 s → unwatch_fd fd flag s = Ret (b, s') → SelectOk s'.
Proof.
  intros [Hp Hr Hh] Hne (Hb & H1 & H2 & H3 & E & _ & _ & Eh)%unwatch_run. split.
  - rewrite E. apply H3, elem_of_difference. by rewrite elem_of_singleton.
  - intros x Hx. pose proof (Hr x (H2 x Hx)). rewrite Eh. destruct b; simpl; [|done].
    destruct (Z.eqb_spec fd (highfds_ s)) as [Ef|Ef]; [|done].
    destruct (newh_loop_spec (Z.to_nat (highfds_ s + 1)) 0 (rfds_ s') (wfds_ s') (pipefd0 s))
      as [[-> Hn]|(Hr' & Hi & Hn)].
    + destruct (Hn x); [lia|done].
    + set (h := newh_loop _ _ _ _ _) in *. destruct (decide (x ≤ h)); [lia|]. destruct (Hn x); [lia|done].
  - rewrite Eh. destruct b; simpl.
    + destruct (Z.eqb_spec fd (highfds_ s)) as [Ef|Ef]; [|apply H1, elem_of_difference; by rewrite elem_of_singleton].
      destruct (newh_loop_spec (Z.to_nat (highfds_ s + 1)) 0 (rfds_ s') (wfds_ s') (pipefd0 s))
        as [[-> Hn]|(Hr' & Hi & Hn)]; [|done].
      apply elem_of_union_l, H3, elem_of_difference. by rewrite elem_of_singleton.
    + assert (fd ∈ watched s') by (destruct (decide (fd ∈ watched s')) as [|Hn]; [done|by apply Hb in Hn]).
      destruct (decide (highfds_ s = fd)) as [->|Hf]; [done|]. apply H1, elem_of_difference. by rewrite elem_of_singleton.
Qed.

(** ** What wait_ready reports *)
Section ready.
Context (p : Z) (tr tw : gset Z).

Definition pipe_read (x : Z) : bool := (x =? p) && fd_isset x tr.
Definition reported_r (x : Z) : bool := fd_isset x tr && negb (pipe_read x).
Definition reported_w (x : Z) : bool := fd_isset x tw && negb (pipe_read x).

Lemma ready_loop_spec n fd ra wa s :
  pipefd0 s = p → (num pipe_read (seqZ fd (Z.of_nat n)) ≤ pipe_n s)%nat →
  ready_loop n fd tr tw ra wa s =
  Ret ((ra ++ List.filter reported_r (seqZ fd (Z.of_nat n)),
        wa ++ List.filter reported_w (seqZ fd (Z.of_nat n))),
       with_pipe (pipe_n s - num pipe_read (seqZ fd (Z.of_nat n))) s).
Proof.
  revert fd ra wa s. induction n as [|n IH]; intros fd ra wa s Ep Hp.
  - change (seqZ fd (Z.of_nat 0)) with ([] : list Z). simpl. rewrite !app_nil_r, Nat.sub_0_r. by destruct s.
  - cbn [ready_loop]. rewrite seqZ_cons, <- Nat2Z.inj_pred, Nat.pred_succ in * by lia.
    change (fd :: ?l) with ([fd] ++ l) in *. rewrite num_app, num_singleton in *.
    rewrite !List.filter_app. unfold Z.succ in *. simpl. unfold reported_r, reported_w.
    rewrite Ep. change ((fd =? p) && fd_isset fd tr) with (pipe_read fd).
    destruct (pipe_read fd); cbn [Nat.b2n andb negb] in *.
    + destruct (pipe_n s) as [|k] eqn:Ek; [lia|]. rewrite IH by (cbn [pipefd0 pipe_n with_pipe]; done || lia). simpl.
      rewrite !andb_false_r. done.
    + rewrite IH by (lia || done). rewrite !andb_true_r.
      destruct (fd_isset fd tr), (fd_isset fd tw); rewrite <- ?app_assoc; done.
Qed.

Lemma num_pipe_read n fd : (num pipe_read (seqZ fd (Z.of_nat n)) ≤ 1)%nat ∧
  (p ∉ tr → num pipe_read (seqZ fd (Z.of_nat n)) = 0%nat).
Proof.
  assert (∀ l, NoDup l → (num pipe_read l ≤ 1)%nat ∧ (p ∉ tr ∨ p ∉ l → num pipe_read l = 0%nat)) as H.
  { induction 1 as [|x l Hx Hl [IH1 IH2]]; [by split; [unfold num; simpl; lia|]|].
    change (x :: l) with ([x] ++ l). rewrite num_app, num_singleton. unfold pipe_read at 1 3, fd_isset.
    destruct (Z.eqb_spec x p) as [->|E]; simpl.
    - rewrite (IH2 (or_intror Hx)). case_bool_decide; simpl; split; try lia. set_solver.
    - split; [lia|]. intros [?|?]; apply IH2; [by left|right; set_solver]. }
  destruct (H (seqZ fd (Z.of_nat n)) (NoDup_seqZ _ _)) as [H1 H2]. auto.
Qed.
End ready.

(** ** Runs of calls *)
Lemma exec_aop_ok s o b s' :
  SelectOk s → aop_fd o ≠ pipefd0 s → exec_aop o s = Ret (b, s') → SelectOk s' ∧ pipefd0 s' = pipefd0 s.
Proof.
  intros Hs Hne. destruct o as [fd flag|fd flag]; unfold exec_aop; intros (x & s1 & E1 & E2)%bind_ret;
    injection E2 as <- <-.
  - destruct x. split; [by eapply watch_ok|]. by apply watch_run in E1 as (_ & _ & _ & -> & _).
  - split; [by eapply unwatch_ok|]. by apply unwatch_run in E1 as (_ & _ & _ & _ & -> & _).
Qed.

Lemma exec_aops_ok s os bs s' :
  SelectOk s → Forall (λ o, aop_fd o ≠ pipefd0 s) os → exec_aops os s = Ret (bs, s') →
  SelectOk s' ∧ pipefd0 s' = pipefd0 s.
Proof.
  revert s bs. induction os as [|o os IH]; intros s bs Hs Hos; cbn [exec_aops].
  - by intros [= _ <-].
  - apply Forall_cons in Hos as [Ho Hos]. intros (b & s1 & E1 & E2)%bind_ret.
    apply bind_ret in E2 as (bs' & s2 & E2 & E3). injection E3 as _ <-.
    destruct (exec_aop_ok s o b s1 Hs Ho E1) as [Hs1 Ep]. rewrite <- Ep in *. by eapply IH.
Qed.

(** The same descriptors are watched: the bits of [fdstatus_], the kernel's
    interest and the two fd_sets agree on every descriptor but the pipe. *)
Definition status_of (s : SelectAIO) (fd : Z) : Z :=
  (if fd_isset fd (rfds_ s) then 1 else 0) + (if fd_isset fd (wfds_ s) then 16 else 0).

Record same_watched (s : SelectAIO) (e : EPollAIO) : Prop := {
  sw_len : length (fdstatus_ e) = Z.to_nat MAX_POLL_FDS;
  sw_status : ∀ fd, 0 ≤ fd < MAX_POLL_FDS → fd ≠ pipefd0 s → fdstatus_ e !! Z.to_nat fd = Some (status_of s fd);
  sw_interest : ∀ fd, 0 ≤ fd < MAX_POLL_FDS → fd ≠ pipefd0 s →
    interest e !! fd = if status_of s fd =? 0 then None else Some (ev_events (status_of s fd)) }.

Lemma same_watched_new p : same_watched (SelectAIO_new p) EPollAIO_new.
Proof.
  assert (∀ fd, fd ≠ p → status_of (SelectAIO_new p) fd = 0) as Hz.
  { intros fd Hne. unfold status_of, fd_isset. simpl. by rewrite !bool_decide_eq_false_2 by set_solver. }
  split; cbn [fdstatus_ interest EPollAIO_new]; [by rewrite length_replicate|..]; intros fd Hfd Hne;
    rewrite Hz by done; [|done]. apply lookup_replicate. split; [done|lia].
Qed.

Lemma same_watched_set s e s' fd st k :
  same_watched s e → 0 ≤ fd < MAX_POLL_FDS → pipefd0 s' = pipefd0 s →
  (∀ x, x ≠ fd → status_of s' x = status_of s x) → status_of s' fd = st →
  (∀ x, x ≠ fd → k !! x = interest e !! x) → k !! fd = (if st =? 0 then None else Some (ev_events st)) →
  same_watched s' (EPoll (<[Z.to_nat fd := st]> (fdstatus_ e)) k).
Proof.
  intros [Hl Hs Hi] Hfd Ep Ho Est Hk Hkf. split; simpl; [by rewrite length_insert|..]; intros x Hx Hne;
    destruct (decide (x = fd)) as [->|Hxf].
  - rewrite list_lookup_insert_eq by lia. by rewrite Est.
  - rewrite list_lookup_insert_ne by lia. rewrite Ho by done. apply Hs; [done|congruence].
  - by rewrite Est.
  - rewrite Hk, Ho by done. apply Hi; [done|congruence].
Qed.

(** Unwatching a descriptor that is not watched: select does nothing, epoll_ctl
    fails. *)
Definition useful (s : SelectAIO) (o : aop) : bool :=
  match o with AWatch _ _ => true | AUnwatch fd _ => negb (status_of s fd =? 0) end.

Lemma status_other s s' x :
  (x ∈ rfds_ s' ↔ x ∈ rfds_ s) → (x ∈ wfds_ s' ↔ x ∈ wfds_ s) → status_of s' x = status_of s x.
Proof. intros Hr Hw. unfold status_of, fd_isset. by rewrite (bool_decide_ext _ _ Hr), (bool_decide_ext _ _ Hw). Qed.

Definition rw_flag (f : poll_flag) : Prop := f = CB_RDONLY ∨ f = CB_WRONLY ∨ f = CB_RDWR.

Lemma status_cases s fd : status_of s fd ∈ [0; 1; 16; 17].
Proof. unfold status_of. destruct (fd_isset fd (rfds_ s)), (fd_isset fd (wfds_ s)); by_vm. Qed.

(** Evaluates membership of [fd] in sets built from [fd]. *)
Ltac fd_sets :=
  repeat match goal with
  | |- context [bool_decide (?x ∈ ?a)] =>
      first [ rewrite (bool_decide_eq_true_2 (x ∈ a)) by set_solver
            | rewrite (bool_decide_eq_false_2 (x ∈ a)) by set_solver
            | destruct (bool_decide_reflect (x ∈ a)) ]
  end.

Lemma select_watch_status s fd flag :
  0 ≤ fd < MAX_POLL_FDS → rw_flag flag → ∃ s', watch_fd fd flag s = Ret (tt, s') ∧
    pipefd0 s' = pipefd0 s ∧ (∀ x, x ≠ fd → status_of s' x = status_of s x) ∧
    status_of s' fd = Z.lor (status_of s fd) (flag_val flag).
Proof.
  unfold MAX_POLL_FDS. intros Hfd Hf. cbn [watch_fd select_aio]. unfold select_watch_fd.
  assert (fd_ok fd = true) as -> by (unfold fd_ok, FD_SETSIZE; apply andb_true_iff; split; lia).
  eexists. split; [reflexivity|].
  destruct Hf as [->|[->| ->]], (highfds_ s <=? fd); simpl; (split; [done|]); (split;
    [intros x Hx; apply status_other; simpl; set_solver|]); unfold status_of, fd_isset; simpl;
    destruct (bool_decide_reflect (fd ∈ rfds_ s)), (bool_decide_reflect (fd ∈ wfds_ s)); fd_sets; done.
Qed.

Lemma select_unwatch_status s fd flag :
  0 ≤ fd < MAX_POLL_FDS → rw_flag flag →
  ∃ s', unwatch_fd fd flag s = Ret (status_of s' fd =? 0, s') ∧
    pipefd0 s' = pipefd0 s ∧ (∀ x, x ≠ fd → status_of s' x = status_of s x) ∧
    status_of s' fd = Z.land (status_of s fd) (Z.lnot (flag_val flag)).
Proof.
  unfold MAX_POLL_FDS. intros Hfd Hf. cbn [unwatch_fd select_aio]. unfold select_unwatch_fd.
  assert (fd_ok fd = true) as -> by (unfold fd_ok, FD_SETSIZE; apply andb_true_iff; split; lia).
  assert (VERIFY (match flag with CB_RDONLY | CB_WRONLY | CB_RDWR => true | _ => false end) = Ret tt) as ->
    by (destruct Hf as [->|[->| ->]]; done).
  cbn [mbind res_bind negb]. cbv zeta.
  set (s1 := match flag with CB_RDONLY => _ | CB_WRONLY => _ | _ => _ end).
  assert (pipefd0 s1 = pipefd0 s ∧ (∀ x, x ≠ fd → status_of s1 x = status_of s x) ∧
    status_of s1 fd = Z.land (status_of s fd) (Z.lnot (flag_val flag))) as (H1 & H2 & H3).
  { subst s1. destruct Hf as [->|[->| ->]]; simpl; (split; [done|]); (split;
      [intros x Hx; apply status_other; simpl; set_solver|]); unfold status_of, fd_isset; simpl;
      destruct (bool_decide_reflect (fd ∈ rfds_ s)), (bool_decide_reflect (fd ∈ wfds_ s)); fd_sets; done. }
  assert (negb (fd_isset fd (rfds_ s1)) && negb (fd_isset fd (wfds_ s1)) = (status_of s1 fd =? 0)) as ->.
  { unfold status_of. by destruct (fd_isset fd (rfds_ s1)), (fd_isset fd (wfds_ s1)). }
  clearbody s1. eexists. split; [|split; [|split]].
  - f_equal. apply pair_equal_spec. split; [|reflexivity].
    by destruct ((status_of s1 fd =? 0) && (fd =? highfds_ s1)), flag.
  - by destruct ((status_of s1 fd =? 0) && (fd =? highfds_ s1)), flag.
  - intros x Hx. rewrite <- H2 by done. by destruct ((status_of s1 fd =? 0) && (fd =? highfds_ s1)), flag.
  - rewrite <- H3. by destruct ((status_of s1 fd =? 0) && (fd =? highfds_ s1)), flag.
Qed.

Lemma status_at_same s e fd :
  same_watched s e → 0 ≤ fd < MAX_POLL_FDS → fd ≠ pipefd0 s → status_at fd e = Ret (status_of s fd).
Proof.
  intros Hs Hfd Hne. unfold status_at. rewrite (sw_status _ _ Hs) by done.
  destruct (Z.ltb_spec fd 0); [lia|done].
Qed.

Lemma epoll_watch_same s e fd flag s' :
  same_watched s e → 0 ≤ fd < MAX_POLL_FDS → fd ≠ pipefd0 s → rw_flag flag → pipefd0 s' = pipefd0 s →
  (∀ x, x ≠ fd → status_of s' x = status_of s x) →
  status_of s' fd = Z.lor (status_of s fd) (flag_val flag) →
  ∃ e', watch_fd fd flag e = Ret (tt, e') ∧ same_watched s' e'.
Proof.
  intros Hs Hfd Hne Hf Ep Ho Est. cbn [watch_fd epoll_aio]. unfold epoll_watch_fd.
  destruct (Z.ltb_spec fd MAX_POLL_FDS); [|lia]. rewrite (status_at_same s) by done. cbn [VERIFY mbind res_bind].
  cbv zeta. rewrite <- Est.
  assert (status_of s' fd ≠ 0 ∧ (flag = CB_RDWR → status_of s' fd = 17)) as [Hz H17].
  { pose proof (status_cases s fd) as Hc. rewrite Est. set_unfold in Hc.
    destruct Hf as [->|[->| ->]]; destruct_or! Hc; rewrite ?Hc; try done. }
  assert ((match flag with
    | CB_RDWR => VERIFY (ev_events (status_of s' fd) =? Z.lor (Z.lor EPOLLET EPOLLIN) EPOLLOUT)
    | _ => Ret tt end) = Ret tt) as -> by (destruct flag; try done; by rewrite H17).
  cbn [mbind res_bind]. unfold epoll_ctl. rewrite (sw_interest _ _ Hs) by done.
  assert (same_watched s' (EPoll (<[Z.to_nat fd := status_of s' fd]> (fdstatus_ e))
    (<[fd := ev_events (status_of s' fd)]> (interest e)))) as Hfin.
  { apply (same_watched_set s); try done; [intros x Hx; by rewrite lookup_insert_ne|].
    rewrite lookup_insert_eq. by destruct (Z.eqb_spec (status_of s' fd) 0). }
  destruct (status_of s fd =? 0); eexists; (split; [reflexivity|exact Hfin]).
Qed.

Lemma epoll_unwatch_same s e fd flag s' :
  same_watched s e → 0 ≤ fd < MAX_POLL_FDS → fd ≠ pipefd0 s → rw_flag flag → pipefd0 s' = pipefd0 s →
  (∀ x, x ≠ fd → status_of s' x = status_of s x) →
  status_of s' fd = Z.land (status_of s fd) (Z.lnot (flag_val flag)) →
  if status_of s fd =? 0 then unwatch_fd fd flag e = VerifyFailed
  else ∃ e', unwatch_fd fd flag e = Ret (status_of s' fd =? 0, e') ∧ same_watched s' e'.
Proof.
  intros Hs Hfd Hne Hf Ep Ho Est. cbn [unwatch_fd epoll_aio]. unfold epoll_unwatch_fd.
  destruct (Z.ltb_spec fd MAX_POLL_FDS); [|lia]. rewrite (status_at_same s) by done. cbn [VERIFY mbind res_bind].
  cbv zeta. rewrite <- Est.
  assert ((status_of s fd = 0 → status_of s' fd = 0) ∧ (flag = CB_RDWR → status_of s' fd = 0)) as [Hz H0].
  { pose proof (status_cases s fd) as Hc. rewrite Est. set_unfold in Hc.
    destruct Hf as [->|[->| ->]]; destruct_or! Hc; rewrite ?Hc; done. }
  assert ((match flag with CB_RDWR => VERIFY (status_of s' fd =? 0) | _ => Ret tt end) = Ret tt) as ->
    by (destruct flag; try done; by rewrite H0).
  cbn [mbind res_bind]. unfold epoll_ctl. rewrite (sw_interest _ _ Hs) by done.
  destruct (Z.eqb_spec (status_of s fd) 0) as [E|E]; [by rewrite (Hz E)|].
  assert (same_watched s' (EPoll (<[Z.to_nat fd := status_of s' fd]> (fdstatus_ e))
    (if status_of s' fd =? 0 then delete fd (interest e)
     else <[fd := ev_events (status_of s' fd)]> (interest e)))) as Hfin.
  { apply (same_watched_set s); try done.
    - intros x Hx. destruct (status_of s' fd =? 0); [by rewrite lookup_delete_ne|by rewrite lookup_insert_ne].
    - destruct (status_of s' fd =? 0); [by rewrite lookup_delete_eq|by rewrite lookup_insert_eq]. }
  destruct (status_of s' fd =? 0); eexists; (split; [reflexivity|exact Hfin]).
Qed.

(** One call on both: the same answer and the same descriptors, unless a
    descriptor is given up that nobody watches. *)
Lemma exec_aop_same s e o :
  same_watched s e → aop_ok (pipefd0 s) o →
  ∃ b s', exec_aop o s = Ret (b, s') ∧ pipefd0 s' = pipefd0 s ∧
    if useful s o then ∃ e', exec_aop o e = Ret (b, e') ∧ same_watched s' e'
    else exec_aop o e = VerifyFailed.
Proof.
  intros Hs (Hfd & Hne & Hf). destruct o as [fd flag|fd flag]; cbn [aop_fd aop_flag exec_aop useful] in *.
  - destruct (select_watch_status s fd flag Hfd Hf) as (s' & Es & Ep & Ho & Est).
    destruct (epoll_watch_same s e fd flag s') as (e' & Ee & Hs'); try done.
    exists None, s'. run Es. split; [done|]. split; [done|]. exists e'. by run Ee.
  - destruct (select_unwatch_status s fd flag Hfd Hf) as (s' & Es & Ep & Ho & Est).
    pose proof (epoll_unwatch_same s e fd flag s' Hs Hfd Hne Hf Ep Ho Est) as Hu.
    exists (Some (status_of s' fd =? 0)), s'. run Es. split; [done|]. split; [done|].
    destruct (status_of s fd =? 0); cbn [negb].
    + unfold mbind, st_bind. by rewrite Hu.
    + destruct Hu as (e' & Ee & Hs'). exists e'. by run Ee.
Qed.

(** All calls of a run over select give up only descriptors that are watched. *)
Fixpoint all_useful (os : list aop) (s : SelectAIO) : bool :=
  match os with
  | [] => true
  | o :: os => useful s o && match exec_aop o s with Ret (_, s') => all_useful os s' | _ => false end
  end.

Lemma exec_aops_select s os :
  Forall (aop_ok (pipefd0 s)) os → ∃ bs s', exec_aops os s = Ret (bs, s').
Proof.
  revert s. induction os as [|o os IH]; intros s Hos; [by eexists _, _|].
  apply Forall_cons in Hos as [(Hfd & Hne & Hf) Hos]. cbn [exec_aops].
  assert (∃ b s1, exec_aop o s = Ret (b, s1) ∧ pipefd0 s1 = pipefd0 s) as (b & s1 & E1 & Ep).
  { destruct o as [fd flag|fd flag]; cbn [exec_aop aop_fd aop_flag] in *.
    - destruct (select_watch_status s fd flag Hfd Hf) as (s' & Es & Ep & _). eexists _, _. by run Es.
    - destruct (select_unwatch_status s fd flag Hfd Hf) as (s' & Es & Ep & _). eexists _, _. by run Es. }
  rewrite <- Ep in Hos. destruct (IH s1 Hos) as (bs & s2 & E2). eexists _, _. run E1. by run E2.
Qed.

Lemma exec_aops_same s e os :
  same_watched s e → Forall (aop_ok (pipefd0 s)) os →
  ∃ bs s', exec_aops os s = Ret (bs, s') ∧
    if all_useful os s then ∃ e', exec_aops os e = Ret (bs, e') ∧ same_watched s' e'
    else exec_aops os e = VerifyFailed.
Proof.
  intros Hs Hos. revert s e Hs Hos. induction os as [|o os IH]; intros s e Hs Hos; [exists [], s; split; [done|]; by exists e|].
  apply Forall_cons in Hos as [Ho Hos]. destruct (exec_aop_same s e o Hs Ho) as (b & s1 & E1 & Ep & He).
  cbn [exec_aops all_useful]. rewrite E1. run E1. destruct (useful s o); simpl in *.
  - destruct He as (e1 & Ee & Hs1). rewrite <- Ep in Hos. destruct (IH s1 e1 Hs1 Hos) as (bs & s2 & E2 & H2).
    exists (b :: bs), s2. run E2. split; [done|]. destruct (all_useful os s1).
    + destruct H2 as (e2 & E3 & Hs2). exists e2. run Ee. by run E3.
    + run Ee. unfold mbind, st_bind. by rewrite H2.
  - rewrite <- Ep in Hos. destruct (exec_aops_select s1 os Hos) as (bs & s2 & E2).
    exists (b :: bs), s2. run E2. split; [done|]. unfold mbind, st_bind. by rewrite He.
Qed.

(** * Theorems *)

(** C35.  highfds_ is kept right: after any calls of watch_fd and unwatch_fd it
    is the largest descriptor that is watched, so that select looks at every
    watched descriptor, and what wait_ready then returns is exactly what select
    reported, each descriptor once, without the pipe. *)
Theorem select_reports_all (pipe0 : Z) (os : list aop) (bs : list (option bool)) (s s' : SelectAIO) (tr tw : gset Z) :
  0 ≤ pipe0 → Forall (λ o, aop_fd o ≠ pipe0) os → exec_aops os (SelectAIO_new pipe0) = Ret (bs, s) →
  pipefd0 s' = pipe0 → tr ⊆ rfds_ s → tw ⊆ wfds_ s → (pipe0 ∈ tr → (0 < pipe_n s')%nat) →
  SelectOk s ∧
  ∃ readable writable n, wait_ready_end (highfds_ s) tr tw s' = Ret ((readable, writable), with_pipe n s') ∧
    NoDup readable ∧ NoDup writable ∧
    (∀ fd, fd ∈ readable ↔ fd ∈ tr ∧ fd ≠ pipe0) ∧ (∀ fd, fd ≠ pipe0 → fd ∈ writable ↔ fd ∈ tw) ∧
    (pipe0 ∉ tr → n = pipe_n s').
Proof.
  intros H0 Hos Hrun Ep Htr Htw Hpipe.
  assert (SelectOk s ∧ pipefd0 s = pipe0) as [Hok Eps].
  { apply (exec_aops_ok (SelectAIO_new pipe0) os bs s (SelectOk_new pipe0 H0) Hos Hrun). }
  split; [done|]. pose proof (so_range _ Hok) as Hr. unfold watched in Hr.
  assert (∀ fd, fd ∈ rfds_ s ∪ wfds_ s → fd ∈ seqZ 0 (Z.of_nat (Z.to_nat (highfds_ s + 1)))) as Hin.
  { intros fd Hfd%Hr. apply elem_of_seqZ. lia. }
  destruct (num_pipe_read pipe0 tr (Z.to_nat (highfds_ s + 1)) 0) as [Hn1 Hn0].
  eexists _, _, _. split.
  - apply (ready_loop_spec pipe0); [done|]. destruct (decide (pipe0 ∈ tr)) as [Hp|Hp]; [specialize (Hpipe Hp); lia|].
    rewrite Hn0 by done. lia.
  - cbn [app]. do 2 (split; [apply NoDup_ListNoDup, List.NoDup_filter, NoDup_ListNoDup, NoDup_seqZ|]).
    assert (∀ f (fd : Z) l, fd ∈ List.filter f l ↔ fd ∈ l ∧ f fd = true) as Hf.
    { intros f fd l. by rewrite !list_elem_of_In, filter_In. }
    split; [|split].
    + intros fd. rewrite Hf. unfold reported_r, pipe_read, fd_isset.
      rewrite andb_true_iff, negb_true_iff, andb_false_iff, Z.eqb_neq, bool_decide_eq_true, bool_decide_eq_false.
      split; [naive_solver|]. intros [Ht Hne]. split; [apply Hin; set_solver|]. tauto.
    + intros fd Hne. rewrite Hf. unfold reported_w, pipe_read, fd_isset.
      rewrite andb_true_iff, negb_true_iff, andb_false_iff, Z.eqb_neq, bool_decide_eq_true, bool_decide_eq_false.
      split; [naive_solver|]. intros Ht. split; [apply Hin; set_solver|]. tauto.
    + intros Hp. rewrite Hn0 by done. lia.
Qed.

(** C34.  The two implementations of aio_mgr are equivalent: from the start, any
    calls give the same answers and leave the same descriptors watched over
    select and over epoll, up to the first call that gives up a descriptor that
    is not watched, which select accepts and at which the version over epoll
    fails its assertion on epoll_ctl. *)
Theorem select_epoll_equivalent (pipe0 : Z) (os : list aop) :
  Forall (aop_ok pipe0) os →
  ∃ bs s, exec_aops os (SelectAIO_new pipe0) = Ret (bs, s) ∧
    if all_useful os (SelectAIO_new pipe0)
    then ∃ e, exec_aops os EPollAIO_new = Ret (bs, e) ∧ same_watched s e
    else exec_aops os EPollAIO_new = VerifyFailed.
Proof. intros Hos. apply exec_aops_same; [apply same_watched_new|done]. Qed.

(** The version over epoll never says that a descriptor is watched, not even
    right after watch_fd: the mask of is_watched keeps the bits that no flag
    has. *)
Theorem epoll_is_watched_never (fd : Z) (flag : poll_flag) (s : SelectAIO) (e : EPollAIO) :
  same_watched s e → 0 ≤ fd < MAX_POLL_FDS → fd ≠ pipefd0 s → rw_flag flag →
  is_watched fd flag e = Ret (false, e).
Proof.
  intros Hs Hfd Hne Hf. cbn [is_watched epoll_aio]. unfold epoll_is_watched.
  destruct (Z.ltb_spec fd MAX_POLL_FDS); [|lia]. rewrite (status_at_same s) by done. cbn [VERIFY mbind res_bind].
  pose proof (status_cases s fd) as Hc. set_unfold in Hc.
  destruct Hf as [->|[->| ->]]; destruct_or! Hc; by rewrite Hc.
Qed.

(** ** Concrete runs *)
Definition ex_aops : list aop :=
  [AWatch 7 CB_RDONLY; AWatch 9 CB_RDWR; AUnwatch 9 CB_WRONLY; AUnwatch 9 CB_RDONLY].

Lemma ex_aops_ok : Forall (aop_ok 3) ex_aops.
Proof. repeat constructor; unfold aop_fd, MAX_POLL_FDS; simpl; auto; lia. Qed.

Definition ex_select : SelectAIO :=
  match exec_aops ex_aops (SelectAIO_new 3) with Ret (_, s) => s | _ => SelectAIO_new 3 end.

Lemma select_reports_all_witness :
  ∃ readable writable n, wait_ready_end 7 {[3; 7]} ∅ ex_select = Ret ((readable, writable), with_pipe n ex_select) ∧
    ∀ fd, fd ∈ readable ↔ fd ∈ ({[3; 7]} : gset Z) ∧ fd ≠ 3.
Proof.
  destruct (select_reports_all 3 ex_aops [None; None; Some false; Some true] ex_select ex_select {[3; 7]} ∅)
    as (_ & r & w & n & E & _ & _ & Hr & _).
  - lia.
  - repeat constructor; simpl; lia.
  - by_vm.
  - by_vm.
  - by_vm.
  - by_vm.
  - intros _. by_vm.
  - exists r, w, n. split; [exact E|exact Hr].
Defined.

Lemma select_epoll_equivalent_witness :
  ∃ bs s, exec_aops ex_aops (SelectAIO_new 3) = Ret (bs, s) ∧
    ∃ e, exec_aops ex_aops EPollAIO_new = Ret (bs, e) ∧ same_watched s e.
Proof. exact (select_epoll_equivalent 3 ex_aops ex_aops_ok). Defined.
