(* ===== verification/PollLoop.v ===== *)
(** The thread of the poll manager (PollMgr::wait_loop in rpc/pollmgr.cc) beside
    threads that add, delete and remove callbacks.

    wait_loop takes the mutex only at the top of its loop; the rest runs beside
    the other threads.  pthread_cond_wait may return without a signal.  The test
    of callbacks_[fd] and the call that follows it are one step.  No thread adds a
    callback for a descriptor that another thread is removing, and none touches
    the read end of the pipe. *)
From S2P Require Import Prelude PollMgr.
Local Open Scope Z_scope.

(** Where the loop is; an event is a descriptor with true for readable. *)
Inductive lpc :=
  | LTop                                        (* before it takes the mutex *)
  | LReady                                      (* before wait_ready reads the sets *)
  | LPoll (r w : gset Z) (high : Z)             (* in select *)
  | LDisp (evs : list (bool * Z))               (* events left to deliver *)
  | LRun (rd : bool) (fd ch : Z) (evs : list (bool * Z)). (* in a callback *)

(** [waiting]: in block_remove_fd, waiting on changedone_c_; [woken]: woken up, with
    true if by the broadcast; [removed]: block_remove_fd returned and no callback
    was added since; [early]: the last such return followed a wakeup without a
    signal. *)
Record psys := PSys {
  pm : PollMgr SelectAIO; loop : lpc; waiting : list Z; woken : list (Z * bool); removed : gset Z; early : gset Z }.

Definition psys_init (pipe0 : Z) : psys := PSys (PollMgr_new (SelectAIO_new pipe0)) LTop [] [] ∅ ∅.

(** The top of the loop: whether changedone_c_ is broadcast, and the state. *)
Definition loop_top (s : PollMgr SelectAIO) : bool * PollMgr SelectAIO :=
  (pending_change_ s, Poll (callbacks_ s) (aio_ s) false).

Definition with_aio (a : SelectAIO) (s : PollMgr SelectAIO) : PollMgr SelectAIO :=
  Poll (callbacks_ s) a (pending_change_ s).

Definition events (ra wa : list Z) : list (bool * Z) := ((true,.) <$> ra) ++ ((false,.) <$> wa).

(** Steps of the loop thread. *)
Inductive loop_step (x : psys) : psys → Prop :=
  | STop b s :
      loop x = LTop → loop_top (pm x) = (b, s) →
      loop_step x (PSys s LReady (if b then [] else waiting x)
                     (if b then ((., true) <$> waiting x) ++ woken x else woken x) (removed x) (early x))
  | SSnap :
      loop x = LReady →
      loop_step x (PSys (pm x) (LPoll (rfds_ (aio_ (pm x))) (wfds_ (aio_ (pm x))) (highfds_ (aio_ (pm x))))
                     (waiting x) (woken x) (removed x) (early x))
  | SSelect r w high tr tw ra wa a :
      loop x = LPoll r w high → tr ⊆ r → tw ⊆ w →
      wait_ready_end high tr tw (aio_ (pm x)) = Ret ((ra, wa), a) →
      loop_step x (PSys (with_aio a (pm x)) (LDisp (events ra wa)) (waiting x) (woken x) (removed x) (early x))
  | SIntr r w high :
      loop x = LPoll r w high → loop_step x (PSys (pm x) LTop (waiting x) (woken x) (removed x) (early x))
  | SCall rd fd ch evs s :
      loop x = LDisp ((rd, fd) :: evs) → get_cb fd (pm x) = Ret (Some ch, s) →
      loop_step x (PSys (pm x) (LRun rd fd ch evs) (waiting x) (woken x) (removed x) (early x))
  | SSkip rd fd evs s :
      loop x = LDisp ((rd, fd) :: evs) → get_cb fd (pm x) = Ret (None, s) →
      loop_step x (PSys (pm x) (LDisp evs) (waiting x) (woken x) (removed x) (early x))
  | SReturn rd fd ch evs :
      loop x = LRun rd fd ch evs → loop_step x (PSys (pm x) (LDisp evs) (waiting x) (woken x) (removed x) (early x))
  | SDone : loop x = LDisp [] → loop_step x (PSys (pm x) LTop (waiting x) (woken x) (removed x) (early x)).

Inductive pollstep (x : psys) : psys → Prop :=
  | SLoop x' : loop_step x x' → pollstep x x'
  | SAdd fd flag ch s :
      add_callback fd flag ch (pm x) = Ret (tt, s) → fd ≠ pipefd0 (aio_ (pm x)) →
      fd ∉ waiting x → fd ∉ (woken x).*1 →
      pollstep x (PSys s (loop x) (waiting x) (woken x) (removed x ∖ {[fd]}) (early x ∖ {[fd]}))
  | SDel fd flag s :
      del_callback fd flag (pm x) = Ret (tt, s) → fd ≠ pipefd0 (aio_ (pm x)) →
      pollstep x (PSys s (loop x) (waiting x) (woken x) (removed x) (early x))
  | SRemove fd s :
      block_remove_begin fd (pm x) = Ret (tt, s) → fd ≠ pipefd0 (aio_ (pm x)) →
      pollstep x (PSys s (loop x) (fd :: waiting x) (woken x) (removed x) (early x))
  | SRemoved fd signalled s w1 w2 :
      woken x = w1 ++ (fd, signalled) :: w2 → block_remove_end fd (pm x) = Ret (tt, s) →
      pollstep x (PSys s (loop x) (waiting x) (w1 ++ w2) ({[fd]} ∪ removed x)
                    (if signalled : bool then early x ∖ {[fd]} else {[fd]} ∪ early x))
  | SSpurious fd w1 w2 :
      waiting x = w1 ++ fd :: w2 →
      pollstep x (PSys (pm x) (loop x) (w1 ++ w2) ((fd, false) :: woken x) (removed x) (early x)).

(** ** Descriptors the loop still has in hand *)
Definition in_hand (l : lpc) : list Z :=
  match l with
  | LPoll r w _ => elements (r ∪ w)
  | LDisp evs => evs.*2
  | LRun _ fd _ evs => fd :: evs.*2
  | _ => []
  end.

Definition events_left (l : lpc) : list Z :=
  match l with LDisp evs => evs.*2 | LRun _ fd _ evs => fd :: evs.*2 | _ => [] end.

(** In the turn of the loop that follows the broadcast. *)
Definition before_select (l : lpc) : bool := match l with LReady | LPoll _ _ _ => true | _ => false end.

Record PollInv (x : psys) : Prop := {
  po_select : SelectOk (aio_ (pm x));
  po_pipe : pipefd0 (aio_ (pm x)) ∉ wfds_ (aio_ (pm x));
  po_range : ∀ fd, fd ∈ watched (aio_ (pm x)) → fd = pipefd0 (aio_ (pm x)) ∨ 0 ≤ fd < MAX_POLL_FDS;
  po_table : length (callbacks_ (pm x)) = Z.to_nat MAX_POLL_FDS;
  po_wait : ∀ fd, fd ∈ waiting x → fd ∉ watched (aio_ (pm x));
  po_pending : waiting x ≠ [] → pending_change_ (pm x) = true;
  po_byte : waiting x ≠ [] → before_select (loop x) = true → (0 < pipe_n (aio_ (pm x)))%nat;
  po_poll : ∀ r w high, loop x = LPoll r w high →
    pipefd0 (aio_ (pm x)) ∈ r ∧ pipefd0 (aio_ (pm x)) ∉ w ∧ 0 ≤ pipefd0 (aio_ (pm x)) ≤ high;
  po_hand : ∀ fd, fd ∈ in_hand (loop x) → fd = pipefd0 (aio_ (pm x)) ∨ 0 ≤ fd < MAX_POLL_FDS;
  po_events : pipefd0 (aio_ (pm x)) ∉ events_left (loop x);
  po_gone : ∀ fd, fd ∈ (woken x).*1 ∨ fd ∈ removed x → fd ∉ watched (aio_ (pm x));
  po_over : ∀ fd, (fd, true) ∈ woken x ∨ fd ∈ removed x ∧ fd ∉ early x → fd ∉ in_hand (loop x);
  po_null : ∀ fd, fd ∈ removed x → 0 ≤ fd ∧ callbacks_ (pm x) !! Z.to_nat fd = Some None }.

(** ** What the operations do *)
Lemma ready_loop_back n fd tr tw ra wa s ra' wa' s' :
  ready_loop n fd tr tw ra wa s = Ret ((ra', wa'), s') →
  (∀ x, x ∈ ra' → x ∈ ra ∨ x ∈ tr ∧ x ≠ pipefd0 s) ∧ (∀ x, x ∈ wa' → x ∈ wa ∨ x ∈ tw) ∧
  ∃ k, (k ≤ pipe_n s)%nat ∧ s' = with_pipe k s.
Proof.
  revert fd ra wa s. induction n as [|n IH]; intros fd ra wa s; cbn [ready_loop].
  - intros [= -> -> ->]. split; [auto|]. split; [auto|]. exists (pipe_n s'). split; [done|]. by destruct s'.
  - destruct (Z.eqb_spec fd (pipefd0 s)) as [E|E]; cbn [andb]; [destruct (fd_isset fd tr) eqn:Et|].
    + destruct (pipe_n s) as [|k] eqn:Ek; [done|]. intros (H1 & H2 & j & Hj & ->)%IH. simpl in *.
      split; [done|]. split; [done|]. exists j. split; [lia|done].
    + intros (H1 & H2 & H3)%IH. split; [done|]. split; [|done]. intros x Hx%H2. unfold fd_isset in Hx.
      case_bool_decide; [|done]. rewrite elem_of_app, list_elem_of_singleton in Hx. naive_solver.
    + intros (H1 & H2 & H3)%IH. unfold fd_isset in *. split; [|split; [|done]]; intros x Hx.
      * apply H1 in Hx. case_bool_decide; [|done]. rewrite elem_of_app, list_elem_of_singleton in Hx. naive_solver.
      * apply H2 in Hx. case_bool_decide; [|done]. rewrite elem_of_app, list_elem_of_singleton in Hx. naive_solver.
Qed.

Lemma set_cb_run (s s' : PollMgr SelectAIO) fd c :
  set_cb fd c s = Ret (tt, s') →
  0 ≤ fd < MAX_POLL_FDS ∧ s' = Poll (<[Z.to_nat fd := c]> (callbacks_ s)) (aio_ s) (pending_change_ s).
Proof.
  unfold set_cb. destruct (Z.ltb_spec fd 0), (Z.leb_spec MAX_POLL_FDS fd); try done. intros [= <-]. auto.
Qed.

Lemma add_callback_run (s s' : PollMgr SelectAIO) fd flag ch :
  add_callback fd flag ch s = Ret (tt, s') →
  0 ≤ fd < MAX_POLL_FDS ∧ ∃ a, watch_fd fd flag (aio_ s) = Ret (tt, a) ∧
    s' = Poll (<[Z.to_nat fd := Some ch]> (callbacks_ s)) a (pending_change_ s).
Proof.
  unfold add_callback. intros (? & s0 & E0 & (u & s1 & E1 & (c & s2 & E2 & (? & s3 & E3 & E4)%bind_ret)%bind_ret)%bind_ret)%bind_ret.
  unfold st_lift, VERIFY in E0, E3. destruct (fd <? MAX_POLL_FDS); [|done]. injection E0 as _ <-.
  unfold aio in E1. destruct (watch_fd fd flag (aio_ s)) as [[b a]| | | |] eqn:Ew; try done. injection E1 as _ <-.
  unfold get_cb in E2. destruct (fd <? 0); [done|]. destruct (callbacks_ _ !! _); [|done]. injection E2 as -> <-.
  destruct (match c with Some _ => _ | None => _ end); [|done]. injection E3 as _ <-.
  apply set_cb_run in E4 as [? ->]. split; [done|]. destruct b. by exists a.
Qed.

Lemma list_lookup_insert_None {A} (l : list (option A)) i j :
  l !! i = Some None → <[j := None]> l !! i = Some None.
Proof.
  intros Hi. destruct (decide (i = j)) as [->|Hne]; [|by rewrite list_lookup_insert_ne].
  apply list_lookup_insert_eq. by eapply lookup_lt_Some.
Qed.

Lemma del_callback_run (s s' : PollMgr SelectAIO) fd flag :
  del_callback fd flag s = Ret (tt, s') →
  ∃ b a, unwatch_fd fd flag (aio_ s) = Ret (b, a) ∧ aio_ s' = a ∧ pending_change_ s' = pending_change_ s ∧
    length (callbacks_ s') = length (callbacks_ s) ∧
    ∀ i, callbacks_ s !! i = Some None → callbacks_ s' !! i = Some None.
Proof.
  unfold del_callback. intros (b & s1 & E1 & E2)%bind_ret. unfold aio in E1.
  destruct (unwatch_fd fd flag (aio_ s)) as [[b' a]| | | |]; try done. injection E1 as -> <-.
  exists b, a. split; [done|]. destruct b.
  - apply set_cb_run in E2 as [_ ->]. simpl. rewrite length_insert. split_and!; try done.
    intros i Hi. apply list_lookup_insert_None; done.
  - by injection E2 as <-.
Qed.

Lemma block_remove_run (s s' : PollMgr SelectAIO) fd :
  block_remove_begin fd s = Ret (tt, s') →
  ∃ b a, unwatch_fd fd CB_RDWR (aio_ s) = Ret (b, a) ∧ s' = Poll (callbacks_ s) a true.
Proof.
  unfold block_remove_begin. intros (b & s1 & E1 & E2)%bind_ret. unfold aio in E1.
  destruct (unwatch_fd fd CB_RDWR (aio_ s)) as [[b' a]| | | |]; try done. injection E1 as -> <-.
  exists b, a. split; [done|]. by injection E2 as <-.
Qed.

Lemma watch_wfds s fd flag s' : watch_fd fd flag s = Ret (tt, s') → wfds_ s' ⊆ {[fd]} ∪ wfds_ s.
Proof.
  cbn [watch_fd select_aio]. unfold select_watch_fd. destruct (fd_ok fd); [|done]. intros [= <-].
  destruct (highfds_ s <=? fd), flag; simpl; set_solver.
Qed.

Lemma unwatch_wfds s fd flag b s' : unwatch_fd fd flag s = Ret (b, s') → wfds_ s' ⊆ wfds_ s.
Proof.
  cbn [unwatch_fd select_aio]. unfold select_unwatch_fd. destruct (VERIFY _); [|done..]. cbn [mbind res_bind].
  destruct (fd_ok fd); [|done]. cbn [negb]. cbv zeta.
  set (s1 := match flag with CB_RDONLY => _ | CB_WRONLY => _ | _ => _ end).
  assert (wfds_ s1 ⊆ wfds_ s) as H1 by (subst s1; destruct flag; simpl; set_solver).
  clearbody s1. intros [= _ <-]. destruct (_ && _ && _), flag; done.
Qed.

(** ** Preservation *)
Lemma PollInv_init p : 0 ≤ p → PollInv (psys_init p).
Proof.
  intros Hp. split; cbn [psys_init PollMgr_new pm aio_ loop waiting woken removed callbacks_ in_hand events_left];
    try done; try set_solver.
  - by apply SelectOk_new.
  - unfold watched. simpl. set_solver.
Qed.

(** The sets shrink to a part of what they were, and one descriptor may go. *)
Lemma PollInv_unwatch x fd flag b a s ws :
  PollInv x → fd ≠ pipefd0 (aio_ (pm x)) → unwatch_fd fd flag (aio_ (pm x)) = Ret (b, a) →
  aio_ s = a → length (callbacks_ s) = length (callbacks_ (pm x)) →
  (∀ i, callbacks_ (pm x) !! i = Some None → callbacks_ s !! i = Some None) →
  (∀ fd', fd' ∈ ws → fd' ∈ waiting x ∨ fd' ∉ watched a) → (ws ≠ [] → pending_change_ s = true) →
  (ws ≠ [] → waiting x ≠ [] ∨ flag = CB_RDWR) →
  PollInv (PSys s (loop x) ws (woken x) (removed x) (early x)).
Proof.
  intros [H1 H2 H3 H4 H5 H6 H7 H8 H9 H10 H11 H12 H13] Hne Hu Ea Hl Hcb Hw Hp Hb.
  pose proof (unwatch_ok _ _ _ _ _ H1 Hne Hu) as Hok. pose proof (unwatch_wfds _ _ _ _ _ Hu) as Hwf.
  destruct (unwatch_run _ _ _ _ _ Hu) as (_ & _ & Hsub & _ & Ep & Hrw & Hpn & _).
  split; cbn [pm loop waiting woken removed early]; rewrite ?Ea, ?Ep, ?Hl; try done.
  - by intros ?%Hwf.
  - intros f Hf. by apply H3, Hsub.
  - intros f [Hf|Hf]%Hw; [|done]. intros Hx%Hsub. by apply H5 in Hf.
  - intros Hne' Hbs. destruct (Hb Hne') as [Hw'|Hf]; [specialize (H7 Hw' Hbs); lia|]. destruct (Hrw Hf). lia.
  - intros f Hf. specialize (H11 f Hf). by intros ?%Hsub.
  - intros f Hf. destruct (H13 f Hf) as [Hf1 Hf2]. auto.
Qed.

Lemma PollInv_add x fd flag ch s :
  PollInv x → fd ≠ pipefd0 (aio_ (pm x)) → add_callback fd flag ch (pm x) = Ret (tt, s) →
  fd ∉ waiting x → fd ∉ (woken x).*1 →
  PollInv (PSys s (loop x) (waiting x) (woken x) (removed x ∖ {[fd]}) (early x ∖ {[fd]})).
Proof.
  intros [H1 H2 H3 H4 H5 H6 H7 H8 H9 H10 H11 H12 H13] Hne (Hr & a & Hw & ->)%add_callback_run Hn1 Hn2.
  pose proof (watch_ok _ _ _ _ H1 Hw) as Hok. pose proof (watch_wfds _ _ _ _ Hw) as Hwf.
  destruct (watch_run _ _ _ _ Hw) as (_ & Ew & _ & Ep & _ & Epn).
  split; cbn [pm loop waiting woken removed early aio_ callbacks_ pending_change_]; rewrite ?Ep, ?length_insert; try done.
  - intros Hx%Hwf. set_solver.
  - intros f. rewrite Ew, elem_of_union, elem_of_singleton. intros [->|Hf]; [by right|by apply H3].
  - intros f Hf. rewrite Ew, elem_of_union, elem_of_singleton. intros [->|Hx]; [done|]. by apply H5 in Hf.
  - intros Hw' Hb. specialize (H7 Hw' Hb). lia.
  - intros f Hf. assert (f ∉ watched (aio_ (pm x))) as Hf1 by (apply H11; set_solver).
    rewrite Ew, elem_of_union, elem_of_singleton. intros [->|Hx]; [set_solver|done].
  - intros f Hf. apply H12. destruct Hf as [?|[Hf1 Hf2]]; [by left|right]. set_solver.
  - intros f [Hf Hne']%elem_of_difference. destruct (H13 f Hf) as [Hf0 Hf1]. split; [done|].
    rewrite list_lookup_insert_ne; [done|]. apply not_elem_of_singleton in Hne'. lia.
Qed.

Lemma elem_of_events fd ra wa : fd ∈ (events ra wa).*2 ↔ fd ∈ ra ∨ fd ∈ wa.
Proof.
  unfold events. rewrite fmap_app, <- !list_fmap_compose, elem_of_app.
  unfold compose. simpl. by rewrite !list_fmap_id.
Qed.

(** Nothing is a member of the empty list. *)
Ltac nothing := try apply not_elem_of_nil; try (by intros ? ?%elem_of_nil).

Lemma PollInv_loop x x' : PollInv x → loop_step x x' → PollInv x'.
Proof.
  intros [H1 H2 H3 H4 H5 H6 H7 H8 H9 H10 H11 H12 H13] Hs.
  destruct Hs as [b s Hl Ht|Hl|r w high tr tw ra wa a Hl Hr Hw Hd|r w high Hl|rd fd ch evs s Hl Hg
    |rd fd evs s Hl Hg|rd fd ch evs Hl|Hl]; rewrite Hl in *; cbn [in_hand events_left before_select] in *.
  - injection Ht as <- <-.
    split; cbn [pm loop waiting woken removed early aio_ callbacks_ in_hand before_select pending_change_ events_left];
      try done; nothing.
    + destruct (pending_change_ (pm x)); [by intros f ?%elem_of_nil|done].
    + destruct (pending_change_ (pm x)); [done|]. intros Hne. by specialize (H6 Hne).
    + destruct (pending_change_ (pm x)); [done|]. intros Hne. by specialize (H6 Hne).
    + intros f Hf. destruct (pending_change_ (pm x)); [|by apply H11].
      rewrite fmap_app, elem_of_app, <- list_fmap_compose in Hf. unfold compose in Hf. simpl in Hf.
      rewrite list_fmap_id in Hf. destruct Hf as [[Hf|Hf]|Hf]; [by apply H5|apply H11; auto..].
    + intros f _. nothing.
  - split; cbn [pm loop waiting woken removed early in_hand before_select events_left]; try done.
    + intros r w high [= <- <- <-]. destruct H1 as [Hp Hrg _].
      split; [done|]. split; [done|]. apply Hrg. by apply elem_of_union_l.
    + intros f Hf%elem_of_elements. by apply H3.
    + intros f Hf. rewrite elem_of_elements. apply H11. destruct Hf as [Hf|[Hf _]]; [left|by right].
      apply list_elem_of_fmap. by exists (f, true).
  - destruct (H8 r w high eq_refl) as (Hp1 & Hp2 & Hp3).
    apply ready_loop_back in Hd as (Hra & Hwa & k & Hk & ->).
    assert (∀ f, f ∈ (events ra wa).*2 → f ∈ r ∪ w ∧ f ≠ pipefd0 (aio_ (pm x))) as He.
    { intros f [Hf|Hf]%elem_of_events.
      - apply Hra in Hf. destruct Hf as [Hf|[Hf ?]]; [by apply elem_of_nil in Hf|].
        split; [by apply elem_of_union_l, Hr|done].
      - apply Hwa in Hf. destruct Hf as [Hf|Hf]; [by apply elem_of_nil in Hf|].
        split; [by apply elem_of_union_r, Hw|]. intros Ef. rewrite Ef in Hf. by apply Hp2, Hw. }
    split; cbn [pm loop waiting woken removed early in_hand before_select with_aio aio_ callbacks_ pending_change_ events_left];
      try done.
    + by destruct H1.
    + intros f [Hf _]%He. apply H9. by apply elem_of_elements.
    + by intros [_ ?]%He.
    + intros f Hf [Hz _]%He. by apply (H12 f Hf), elem_of_elements.
  - split; cbn [pm loop waiting woken removed early in_hand before_select events_left]; try done; nothing.
    intros f _. nothing.
  - split; cbn [pm loop waiting woken removed early in_hand before_select events_left]; done.
  - split; cbn [pm loop waiting woken removed early in_hand before_select events_left]; try done.
    + intros f Hf. apply H9. by right.
    + intros Hf. apply H10. by right.
    + intros f Hf Hz. apply (H12 f Hf). by right.
  - split; cbn [pm loop waiting woken removed early in_hand before_select events_left]; try done.
    + intros f Hf. apply H9. by right.
    + intros Hf. apply H10. by right.
    + intros f Hf Hz. apply (H12 f Hf). by right.
  - split; cbn [pm loop waiting woken removed early in_hand before_select events_left]; done.
Qed.

Lemma PollInv_step x x' : PollInv x → pollstep x x' → PollInv x'.
Proof.
  intros HI Hs. destruct Hs as [x' Hs|fd flag ch s Ha Hne Hn1 Hn2|fd flag s Hd Hne|fd s Hr Hne|fd b s w1 w2 Hw He|fd w1 w2 Hw].
  - by eapply PollInv_loop.
  - by eapply PollInv_add.
  - apply del_callback_run in Hd as (b & a & Hu & Ea & Ep & El & Hcb).
    eapply PollInv_unwatch; try done; [by left|rewrite Ep; by apply po_pending|by left].
  - apply block_remove_run in Hr as (b & a & Hu & ->).
    destruct (unwatch_run _ _ _ _ _ Hu) as (_ & _ & _ & _ & _ & Hrw & _). destruct (Hrw eq_refl) as [Hf _].
    eapply PollInv_unwatch; try done; [|by right].
    intros f. rewrite elem_of_cons. intros [->|?]; auto.
  - apply set_cb_run in He as [Hfd ->]. destruct HI as [H1 H2 H3 H4 H5 H6 H7 H8 H9 H10 H11 H12 H13].
    rewrite Hw in *.
    split; cbn [pm loop waiting woken removed early aio_ callbacks_ pending_change_]; rewrite ?length_insert; try done.
    + intros f Hf. apply H11. rewrite fmap_app, fmap_cons, elem_of_app, elem_of_cons. rewrite fmap_app in Hf. set_solver.
    + intros f Hf. apply H12. destruct (decide (f = fd)) as [->|Hne]; [|destruct b; set_solver].
      destruct Hf as [Hf|[_ Hf]]; [left; set_solver|]. destruct b; [left; set_solver|set_solver].
    + intros f Hf. destruct (decide (f = fd)) as [->|Hne].
      * split; [lia|]. apply list_lookup_insert_eq. rewrite H4. lia.
      * destruct (H13 f) as [Hf0 Hf1]; [set_solver|]. split; [done|]. by apply list_lookup_insert_None.
  - destruct HI as [H1 H2 H3 H4 H5 H6 H7 H8 H9 H10 H11 H12 H13]. rewrite Hw in *.
    assert (w1 ++ w2 ≠ [] → w1 ++ fd :: w2 ≠ []) as Hne by by destruct w1.
    split; cbn [pm loop waiting woken removed early]; auto; try done.
    + intros f Hf. apply H5. set_solver.
    + intros f Hf. destruct (decide (f = fd)) as [->|Hn]; [apply H5; set_solver|apply H11; set_solver].
    + intros f Hf. apply H12. set_solver.
Qed.

Lemma PollInv_reachable p x : 0 ≤ p → rtc pollstep (psys_init p) x → PollInv x.
Proof.
  intros Hp Hr. pose proof (PollInv_init p Hp) as HI. remember (psys_init p) as x0. clear Heqx0.
  induction Hr; eauto using PollInv_step.
Qed.

Lemma pipe_kept x x' : rtc pollstep x x' → pipefd0 (aio_ (pm x')) = pipefd0 (aio_ (pm x)).
Proof.
  induction 1 as [|x y z Hs _ IH]; [done|]. rewrite IH. clear IH z.
  destruct Hs as [y Hs|fd flag ch s Ha _ _ _|fd flag s Hd _|fd s Hr _|fd sg s w1 w2 Hw He|]; cbn [pm]; [| | | | |done].
  - destruct Hs as [? ? ? Ht| |? ? ? ? ? ? ? a ? ? ? Hd| | | | |]; cbn [pm]; try done.
    + by injection Ht as _ <-.
    + by apply ready_loop_back in Hd as (_ & _ & k & _ & ->).
  - apply add_callback_run in Ha as (_ & a & Hw & ->). cbn [aio_]. by apply watch_run in Hw as (_ & _ & _ & -> & _).
  - apply del_callback_run in Hd as (b' & a & Hu & Ea & _). rewrite Ea. by apply unwatch_run in Hu as (_ & _ & _ & _ & -> & _).
  - apply block_remove_run in Hr as (b' & a & Hu & ->). cbn [aio_]. by apply unwatch_run in Hu as (_ & _ & _ & _ & -> & _).
  - by apply set_cb_run in He as [_ ->].
Qed.

(** ** The loop comes back to its top *)
Definition quiet (x x' : psys) : Prop :=
  waiting x' = waiting x ∧ pending_change_ (pm x') = pending_change_ (pm x).

Definition at_top_from (x : psys) : Prop := ∃ x', rtc loop_step x x' ∧ loop x' = LTop ∧ quiet x x'.

Lemma at_top_step x x1 : loop_step x x1 → quiet x x1 → at_top_from x1 → at_top_from x.
Proof.
  intros Hs [Q1 Q2] (x' & Hr & Ht & Q3 & Q4). exists x'. split; [by eapply rtc_l|]. split; [done|].
  split; congruence.
Qed.

Lemma get_cb_total x fd :
  PollInv x → 0 ≤ fd < MAX_POLL_FDS → ∃ c, get_cb fd (pm x) = Ret (c, pm x).
Proof.
  intros HI Hfd. unfold get_cb. destruct (Z.ltb_spec fd 0); [lia|].
  destruct (lookup_lt_is_Some_2 (callbacks_ (pm x)) (Z.to_nat fd)) as [c ->]; [|eauto].
  rewrite (po_table _ HI). lia.
Qed.

Lemma disp_to_top x evs : PollInv x → loop x = LDisp evs → at_top_from x.
Proof.
  revert x. induction evs as [|[rd fd] evs IH]; intros x HI Hl.
  - eexists. split; [apply rtc_once; by apply SDone|done].
  - destruct (po_hand _ HI fd) as [->|Hfd]; [rewrite Hl; by left|exfalso; apply (po_events _ HI); rewrite Hl; by left|].
    destruct (get_cb_total x fd HI Hfd) as [[ch|] Hg].
    + pose proof (SCall x rd fd ch evs _ Hl Hg) as H1. set (x1 := PSys _ _ _ _ _ _) in H1.
      pose proof (SReturn x1 rd fd ch evs eq_refl) as H2. set (x2 := PSys _ _ _ _ _ _) in H2.
      apply (at_top_step x x1 H1); [done|]. apply (at_top_step x1 x2 H2); [done|].
      apply (IH x2); [|done]. eapply PollInv_loop; [|exact H2]. by eapply PollInv_loop.
    + pose proof (SSkip x rd fd evs _ Hl Hg) as H1. set (x1 := PSys _ _ _ _ _ _) in H1.
      apply (at_top_step x x1 H1); [done|]. apply (IH x1); [|done]. by eapply PollInv_loop.
Qed.

Lemma poll_to_top x r w high :
  PollInv x → waiting x ≠ [] → loop x = LPoll r w high → at_top_from x.
Proof.
  intros HI Hw Hl. destruct (po_poll _ HI r w high Hl) as (Hp & _ & _).
  pose proof (po_byte _ HI Hw ltac:(by rewrite Hl)) as Hb.
  pose proof (ready_loop_spec (pipefd0 (aio_ (pm x))) {[pipefd0 (aio_ (pm x))]} ∅ (Z.to_nat (high + 1)) 0 [] []
    (aio_ (pm x)) eq_refl) as Hd.
  destruct (num_pipe_read (pipefd0 (aio_ (pm x))) {[pipefd0 (aio_ (pm x))]} (Z.to_nat (high + 1)) 0) as [Hn _].
  specialize (Hd ltac:(lia)).
  pose proof (SSelect x r w high {[pipefd0 (aio_ (pm x))]} ∅ _ _ _ Hl ltac:(set_solver) ltac:(set_solver) Hd) as H1.
  eapply (at_top_step x); [exact H1|done|]. eapply disp_to_top; [|done]. by eapply PollInv_loop.
Qed.

Lemma to_top x : PollInv x → waiting x ≠ [] → at_top_from x.
Proof.
  intros HI Hw. destruct (loop x) as [| |r w high|evs|rd fd ch evs] eqn:Hl.
  - exists x. split; [done|]. split; [done|done].
  - pose proof (SSnap x Hl) as H1. eapply (at_top_step x); [exact H1|done|].
    eapply poll_to_top; [|done|done]. by eapply PollInv_loop.
  - by eapply poll_to_top.
  - by eapply disp_to_top.
  - pose proof (SReturn x rd fd ch evs Hl) as H1. eapply (at_top_step x); [exact H1|done|].
    eapply disp_to_top; [|done]. by eapply PollInv_loop.
Qed.

(** * Theorems *)


(** C37.  block_remove_fd returns: while a thread waits in it, the loop is never
    stuck in select, since the pipe has a byte for it, and once the callbacks
    that are running have returned, the loop wakes the thread. *)
Theorem removal_wakes (pipe0 : Z) (x : psys) (fd : Z) :
  0 ≤ pipe0 → rtc pollstep (psys_init pipe0) x → fd ∈ waiting x →
  (∀ r w high, loop x = LPoll r w high → (0 < pipe_n (aio_ (pm x)))%nat ∧ pipe0 ∈ r ∧ 0 ≤ pipe0 ≤ high) ∧
  ∃ x', rtc loop_step x x' ∧ (fd, true) ∈ woken x'.
Proof.
  intros Hp Hr Hfd. pose proof (PollInv_reachable _ _ Hp Hr) as HI. pose proof (pipe_kept _ _ Hr) as Ep. simpl in Ep.
  assert (waiting x ≠ []) as Hne by (intros E; rewrite E in Hfd; by apply elem_of_nil in Hfd). split.
  - intros r w high Hl. destruct (po_poll _ HI r w high Hl) as (H1 & _ & H2). rewrite Ep in *.
    split; [|done]. apply (po_byte _ HI Hne). by rewrite Hl.
  - destruct (to_top x HI Hne) as (x1 & Hr1 & Ht & Q1 & Q2). rewrite (po_pending _ HI Hne) in Q2.
    eexists. split; [eapply rtc_r; [exact Hr1|]; by eapply STop|].
    unfold loop_top. simpl. rewrite Q2. simpl. rewrite Q1. apply elem_of_app. left. by apply (list_elem_of_fmap_2 (., true)).
Qed.

(** ** Runs *)
(** The result of a call on a concrete state. *)
Definition after {S A} (s : S) (p : ST S A) : S := match p s with Ret (_, s') => s' | _ => s end.

(** A callback for descriptor 5 is running. *)
Definition ex_added : PollMgr SelectAIO := after (pm (psys_init 3)) (add_callback 5 CB_RDONLY 77).
Definition ex_running : psys :=
  PSys (with_aio (after (aio_ ex_added) (wait_ready_end 5 {[5]} ∅)) ex_added) (LRun true 5 77 []) [] [] ∅ ∅.

Tactic Notation "go" open_constr(c) := eapply rtc_l; [eapply SLoop, c|].

Lemma ex_running_run : rtc pollstep (psys_init 3) ex_running.
Proof.
  eapply rtc_l; [apply (SAdd _ 5 CB_RDONLY 77 ex_added); [by_vm|simpl; lia|apply not_elem_of_nil..]|].
  go (STop _ false ex_added); [done|by_vm|].
  go (SSnap _); [done|].
  go (SSelect _ _ _ _ {[5]} ∅ [5] [] (after (aio_ ex_added) (wait_ready_end 5 {[5]} ∅))); [done|by_vm..|].
  go (SCall _ true 5 77 [] (with_aio (after (aio_ ex_added) (wait_ready_end 5 {[5]} ∅)) ex_added)); [done|by_vm|].
  apply rtc_refl.
Defined.

(** block_remove_fd(5) at this moment, up to its wait. *)
Definition ex_waiting : psys :=
  PSys (after (pm ex_running) (block_remove_begin 5)) (LRun true 5 77 []) [5] [] ∅ ∅.

Lemma ex_waiting_run : rtc pollstep (psys_init 3) ex_waiting.
Proof.
  eapply rtc_r; [apply ex_running_run|].
  apply (SRemove ex_running 5 (pm ex_waiting)); by_vm.
Defined.

(** The same after the callback returned, the loop came round and the thread was
    woken up and returned. *)
Definition ex_top : PollMgr SelectAIO := snd (loop_top (pm ex_waiting)).
Definition ex_removed : psys := PSys (after ex_top (block_remove_end 5)) LReady [] [] {[5]} ∅.

Lemma ex_removed_run : rtc pollstep (psys_init 3) ex_removed.
Proof.
  etrans; [apply ex_waiting_run|].
  go (SReturn _ true 5 77 []); [done|].
  go (SDone _); [done|].
  go (STop _ true ex_top); [done|by_vm|].
  eapply rtc_l; [apply (SRemoved _ 5 true (pm ex_removed) [] []); [done|by_vm]|].
  apply rtc_refl.
Defined.


Lemma removal_wakes_witness : ∃ x', rtc loop_step ex_waiting x' ∧ (5, true) ∈ woken x'.
Proof.
  refine (proj2 (removal_wakes 3 ex_waiting 5 _ ex_waiting_run _)); [lia|by left].
Defined.

(** The case of a wakeup that nobody signalled does occur: block_remove_fd does not
    test in a loop whether the change was taken note of, and returns while a
    callback of the descriptor is running. *)
Theorem spurious_wakeup_unsafe :
  ∃ x rd ch evs, rtc pollstep (psys_init 3) x ∧ loop x = LRun rd 5 ch evs ∧ 5 ∈ removed x.
Proof.
  exists (PSys (after (pm ex_waiting) (block_remove_end 5)) (LRun true 5 77 []) [] [] {[5]} {[5]}), true, 77, [].
  split; [|split; [done|by_vm]]. etrans; [apply ex_waiting_run|].
  eapply rtc_l; [apply (SSpurious _ 5 [] []); done|].
  eapply rtc_l; [apply (SRemoved _ 5 false (after (pm ex_waiting) (block_remove_end 5)) [] []); [done|by_vm]|].
  apply rtc_refl.
Qed.
