(* ===== verification/Handle.v ===== *)
(** The cache of RPC clients (handle.h, handle.cc).

    hinfo structures are heap locations, handed out to handle objects and counted
    by [refcnt]; a location that was deleted is no longer in [heap], and using it
    is undefined.  safebind gives up no lock while it binds, but other threads
    may run the functions of handle_mgr meanwhile, so it is cut in two.  Whether
    a bind succeeds is up to the network.

    A handle object may also be assigned to: class handle defines no assignment,
    so the pointer is copied and no count changes.  lock_server_cache.cc does this
    with the temporary of [h = handle(dst)]. *)
From S2P Require Import Prelude.
Local Open Scope Z_scope.

(** Clients (rpcc objects) are numbered as well; 0 is NULL for none. *)
Record hinfo := Hinfo { h_cl : option Z; h_refcnt : Z; h_del : bool; h_m : string }.

Record handle_mgr := Mgr {
  hmap : gmap string Z; heap : gmap Z hinfo; fresh : Z; clients : gset Z }.

Definition handle_mgr_new : handle_mgr := Mgr ∅ ∅ 1 ∅.

Abbreviation H := (ST handle_mgr).

Definition deref (h : Z) : H hinfo := λ s,
  match heap s !! h with Some i => Ret (i, s) | None => Undef end.

Definition store (h : Z) (i : hinfo) : H unit := λ s,
  match heap s !! h with
  | Some _ => Ret (tt, Mgr (hmap s) (<[h := i]> (heap s)) (fresh s) (clients s))
  | None => Undef
  end.

(** new hinfo with its fields set, entered under its name. *)
Definition new_hinfo (m : string) : H Z := λ s,
  Ret (fresh s, Mgr (<[m := fresh s]> (hmap s)) (<[fresh s := Hinfo None 1 false m]> (heap s))
                  (fresh s + 1) (clients s)).

Definition new_client : H Z := λ s,
  Ret (fresh s, Mgr (hmap s) (heap s) (fresh s + 1) ({[fresh s]} ∪ clients s)).

(** delete cl *)
Definition delete_client (c : Z) : H unit := λ s,
  if decide (c ∈ clients s) then Ret (tt, Mgr (hmap s) (heap s) (fresh s) (clients s ∖ {[c]}))
  else Undef.

(** cl->cancel(): a use of the client, which must still exist. *)
Definition cancel_client (c : Z) : H unit := λ s,
  if decide (c ∈ clients s) then Ret (tt, s) else Undef.

(** hmap.erase(m); delete h *)
Definition erase_hinfo (m : string) (h : Z) : H unit := λ s,
  Ret (tt, Mgr (delete m (hmap s)) (delete h (heap s)) (fresh s) (clients s)).

Definition find (m : string) : H (option Z) := λ s, Ret (hmap s !! m, s).

Definition get_handle (m : string) : H (option Z) :=
  r ← find m;
  match r with
  | None => h ← new_hinfo m; mret (Some h)
  | Some h =>
      i ← deref h;
      if h_del i then mret None
      else store h (Hinfo (h_cl i) (h_refcnt i + 1) (h_del i) (h_m i));; mret (Some h)
  end.

Definition delete_handle_wo (m : string) : H unit :=
  r ← find m;
  match r with
  | None => mret tt
  | Some h =>
      i ← deref h;
      if h_refcnt i =? 0 then
        (match h_cl i with Some c => cancel_client c;; delete_client c | None => mret tt end);;
        erase_hinfo m h
      else store h (Hinfo (h_cl i) (h_refcnt i) true (h_m i))
  end.

Definition done_handle (h : Z) : H unit :=
  i ← deref h;
  let i := Hinfo (h_cl i) (h_refcnt i - 1) (h_del i) (h_m i) in
  store h i;;
  if (h_refcnt i =? 0) && h_del i then delete_handle_wo (h_m i) else mret tt.

Definition delete_handle (m : string) : H unit := delete_handle_wo m.

(** safebind up to the call of bind: the answer, or a new client to bind. *)
Inductive bind_start := Answer (r : option Z) | Binding (c : Z).

Definition safebind_begin (h : option Z) : H bind_start :=
  match h with
  | None => mret (Answer None)
  | Some h =>
      i ← deref h;
      if h_del i then mret (Answer None)
      else match h_cl i with
           | Some c => mret (Answer (Some c))
           | None => c ← new_client; mret (Binding c)
           end
  end.

(** The rest of safebind, once bind has succeeded or not. *)
Definition safebind_end (h c : Z) (bound : bool) : H (option Z) :=
  i ← deref h;
  if bound then store h (Hinfo (Some c) (h_refcnt i) (h_del i) (h_m i));; mret (Some c)
  else
    delete_client c;;
    store h (Hinfo (h_cl i) (h_refcnt i) true (h_m i));;
    mret (h_cl i).

(** ** The whole program's use of it

    [handles]: the handle objects alive, each with its hinfo; [binds]: the calls
    of safebind in bind, with the hinfo (whose mutex they hold) and the client. *)
Record husers := Users { mgr : handle_mgr; handles : list (option Z); binds : list (Z * Z) }.

Definition husers_init : husers := Users handle_mgr_new [] [].

Section steps.
(** Whether handle objects are assigned to, and whether binds may fail and names
    may be deleted. *)
Context (copies fails : bool).

Inductive hstep (x : husers) : husers → Prop :=
  | HNew m h s : get_handle m (mgr x) = Ret (h, s) → hstep x (Users s (h :: handles x) (binds x))
  | HDone h s h1 h2 :
      handles x = h1 ++ Some h :: h2 → (∀ c, (h, c) ∈ binds x → Some h ∈ h1 ++ h2) →
      done_handle h (mgr x) = Ret (tt, s) → hstep x (Users s (h1 ++ h2) (binds x))
  | HDoneNull h1 h2 : handles x = h1 ++ None :: h2 → hstep x (Users (mgr x) (h1 ++ h2) (binds x))
  | HCopy h h' h1 h2 :
      copies = true → handles x = h1 ++ h :: h2 → h' ∈ h1 ++ h2 →
      (∀ l c, h = Some l → (l, c) ∈ binds x → h ∈ h1 ++ h2) →
      hstep x (Users (mgr x) (h1 ++ h' :: h2) (binds x))
  | HDelete m s :
      fails = true → delete_handle m (mgr x) = Ret (tt, s) → hstep x (Users s (handles x) (binds x))
  | HBindBegin h r s :
      h ∈ handles x → (∀ l c, h = Some l → (l, c) ∉ binds x) → safebind_begin h (mgr x) = Ret (r, s) →
      hstep x (Users s (handles x)
                 (match r, h with Binding c, Some l => (l, c) :: binds x | _, _ => binds x end))
  | HBindEnd h c b r s b1 b2 :
      binds x = b1 ++ (h, c) :: b2 → (b = false → fails = true) → safebind_end h c b (mgr x) = Ret (r, s) →
      hstep x (Users s (handles x) (b1 ++ b2)).
End steps.

(** ** The invariant *)
Definition refs (l : Z) (hs : list (option Z)) : nat := num (λ h, bool_decide (h = Some l)) hs.

Record HInv (x : husers) : Prop := {
  hi_map : ∀ m l, hmap (mgr x) !! m = Some l → ∃ i, heap (mgr x) !! l = Some i ∧ h_m i = m;
  hi_heap : ∀ l i, heap (mgr x) !! l = Some i → hmap (mgr x) !! h_m i = Some l;
  hi_cnt : ∀ l i, heap (mgr x) !! l = Some i → h_refcnt i = Z.of_nat (refs l (handles x));
  hi_live : ∀ l, Some l ∈ handles x → is_Some (heap (mgr x) !! l);
  hi_zero : ∀ l i, heap (mgr x) !! l = Some i → h_del i = true → h_refcnt i ≠ 0;
  hi_cl : ∀ l i c, heap (mgr x) !! l = Some i → h_cl i = Some c → c ∈ clients (mgr x);
  hi_own : ∀ l i l' i' c, heap (mgr x) !! l = Some i → heap (mgr x) !! l' = Some i' →
    h_cl i = Some c → h_cl i' = Some c → l = l';
  hi_bind : ∀ l c, (l, c) ∈ binds x → Some l ∈ handles x ∧ c ∈ clients (mgr x) ∧
    (∀ i, heap (mgr x) !! l = Some i → h_cl i = None) ∧
    (∀ l' i, heap (mgr x) !! l' = Some i → h_cl i ≠ Some c);
  hi_bind_l : NoDup (binds x).*1;
  hi_bind_c : NoDup (binds x).*2;
  hi_fresh : (∀ l i, heap (mgr x) !! l = Some i → l < fresh (mgr x)) ∧ ∀ c, c ∈ clients (mgr x) → c < fresh (mgr x) }.

Lemma refs_pos l hs : Some l ∈ hs ↔ (0 < refs l hs)%nat.
Proof.
  unfold refs. split.
  - intros [i Hi]%list_elem_of_lookup. eapply num_pos; [exact Hi|]. by apply bool_decide_eq_true.
  - intros (i & t & Hi & Ht)%num_pos_inv. apply bool_decide_eq_true in Ht. subst t. by eapply list_elem_of_lookup_2.
Qed.

Lemma refs_cons l h hs : refs l (h :: hs) = (Nat.b2n (bool_decide (h = Some l)) + refs l hs)%nat.
Proof. done. Qed.

Lemma refs_middle l h h1 h2 : refs l (h1 ++ h :: h2) = (Nat.b2n (bool_decide (h = Some l)) + refs l (h1 ++ h2))%nat.
Proof. unfold refs. rewrite !num_app. change (h :: h2) with ([h] ++ h2). rewrite num_app, num_singleton. lia. Qed.

Lemma HInv_init : HInv husers_init.
Proof. split; simpl; try set_solver; try apply NoDup_nil_2; try done. Qed.

Lemma deref_run h i s : heap s !! h = Some i → deref h s = Ret (i, s).
Proof. unfold deref. by intros ->. Qed.

Lemma store_run h i j s :
  heap s !! h = Some i → store h j s = Ret (tt, Mgr (hmap s) (<[h := j]> (heap s)) (fresh s) (clients s)).
Proof. unfold store. by intros ->. Qed.

(** Changing the flag, the count or the client of one hinfo. *)
Definition put_hinfo (h : Z) (i : hinfo) (s : handle_mgr) : handle_mgr :=
  Mgr (hmap s) (<[h := i]> (heap s)) (fresh s) (clients s).

(** get_handle: what it does for a name that is there, is there no more, or is
    new. *)
Lemma get_handle_run x m :
  HInv x →
  get_handle m (mgr x) = match hmap (mgr x) !! m with
    | None => Ret (Some (fresh (mgr x)),
        Mgr (<[m := fresh (mgr x)]> (hmap (mgr x)))
          (<[fresh (mgr x) := Hinfo None 1 false m]> (heap (mgr x))) (fresh (mgr x) + 1) (clients (mgr x)))
    | Some h => match heap (mgr x) !! h with
        | Some i => if h_del i then Ret (None, mgr x)
            else Ret (Some h, put_hinfo h (Hinfo (h_cl i) (h_refcnt i + 1) (h_del i) (h_m i)) (mgr x))
        | None => Undef
        end
    end.
Proof.
  intros HI. unfold get_handle, find. unfold mbind at 1, st_bind at 1.
  destruct (hmap (mgr x) !! m) as [h|] eqn:Em; [|done].
  destruct (hi_map _ HI _ _ Em) as (i & Hi & _). rewrite Hi. run (deref_run _ _ _ Hi).
  destruct (h_del i); [done|]. by run (store_run _ _ _ _ Hi).
Qed.

(** delete_handle_wo on an entry that is there. *)
Lemma delete_run s m h i :
  hmap s !! m = Some h → heap s !! h = Some i → (∀ c, h_cl i = Some c → c ∈ clients s) →
  delete_handle_wo m s = Ret (tt,
    if h_refcnt i =? 0 then
      Mgr (delete m (hmap s)) (delete h (heap s)) (fresh s)
        (match h_cl i with Some c => clients s ∖ {[c]} | None => clients s end)
    else put_hinfo h (Hinfo (h_cl i) (h_refcnt i) true (h_m i)) s).
Proof.
  intros Hm Hi Hc. unfold delete_handle_wo, find. unfold mbind at 1, st_bind at 1. rewrite Hm.
  run (deref_run _ _ _ Hi). destruct (h_refcnt i =? 0).
  - destruct (h_cl i) as [c|]; [|done]. unfold cancel_client, delete_client. unfold mbind, st_bind.
    rewrite decide_True by (by apply Hc). rewrite decide_True by (by apply Hc). done.
  - by rewrite (store_run _ _ _ _ Hi).
Qed.

(** Changing one hinfo without touching its name and its client. *)
Lemma HInv_put x l i n d hs :
  HInv x → heap (mgr x) !! l = Some i → n = Z.of_nat (refs l hs) → (d = true → n ≠ 0) →
  (∀ l', l' ≠ l → refs l' hs = refs l' (handles x)) →
  (∀ c, (l, c) ∈ binds x → Some l ∈ hs) →
  HInv (Users (put_hinfo l (Hinfo (h_cl i) n d (h_m i)) (mgr x)) hs (binds x)).
Proof.
  intros [H1 H2 H3 H4 H5 H6 H7 H8 H9 H10 H11] Hi Hn Hd Hr Hb.
  assert (∀ l' i', <[l := Hinfo (h_cl i) n d (h_m i)]> (heap (mgr x)) !! l' = Some i' →
    ∃ i0, heap (mgr x) !! l' = Some i0 ∧ h_cl i' = h_cl i0 ∧ h_m i' = h_m i0 ∧
      ((l' = l ∧ h_refcnt i' = n ∧ h_del i' = d) ∨ (l' ≠ l ∧ i' = i0))) as Hl.
  { intros l' i' [[<- <-]|[Hne Hi']]%lookup_insert_Some; [exists i|exists i']; split; try done; naive_solver. }
  split; unfold put_hinfo; cbn [mgr hmap heap fresh clients handles binds]; try done.
  - intros m l' Hm. destruct (H1 _ _ Hm) as (i' & Hi' & Em). destruct (decide (l' = l)) as [->|Hne].
    + eexists. rewrite lookup_insert_eq. split; [done|]. simpl. congruence.
    + exists i'. by rewrite lookup_insert_ne.
  - intros l' i' (i0 & Hi0 & _ & -> & _)%Hl. by apply H2.
  - intros l' i' (i0 & Hi0 & _ & _ & [(-> & -> & _)|(Hne & ->)])%Hl; [done|]. rewrite (Hr l') by done. by apply H3.
  - intros l' Hl'. destruct (decide (l' = l)) as [->|Hne]; [by rewrite lookup_insert_eq|].
    rewrite lookup_insert_ne by done. apply H4. apply refs_pos. rewrite <- (Hr l') by done. by apply refs_pos.
  - intros l' i' (i0 & Hi0 & _ & _ & [(-> & -> & ->)|(Hne & ->)])%Hl; [done|]. by apply H5 with l'.
  - intros l' i' c (i0 & Hi0 & -> & _)%Hl. by apply H6 with l'.
  - intros l1 i1 l2 i2 c (i1' & Hi1 & -> & _)%Hl (i2' & Hi2 & -> & _)%Hl. by eapply H7.
  - intros l' c Hc. destruct (H8 l' c Hc) as (Ha & Hb' & Hd' & He). split; [|split; [done|split]].
    + destruct (decide (l' = l)) as [->|Hne]; [by apply (Hb c)|]. apply refs_pos. rewrite (Hr l') by done. by apply refs_pos.
    + intros i' (i0 & Hi0 & -> & _)%Hl. by apply Hd'.
    + intros l2 i' (i0 & Hi0 & -> & _)%Hl. by eapply He.
  - destruct H11 as [Ha Hc]. split; [|done]. intros l' i' (i0 & Hi0 & _)%Hl. by eapply Ha.
Qed.

Lemma HInv_handles x hs :
  HInv x → (∀ l, refs l hs = refs l (handles x)) → HInv (Users (mgr x) hs (binds x)).
Proof.
  intros [H1 H2 H3 H4 H5 H6 H7 H8 H9 H10 H11] Hr.
  assert (∀ l, Some l ∈ hs ↔ Some l ∈ handles x) as Hm by (intros l; by rewrite !refs_pos, Hr).
  split; cbn [mgr handles binds]; try done.
  - intros l i Hi. rewrite Hr. by apply H3.
  - intros l Hl%Hm. by apply H4.
  - intros l c Hc. rewrite Hm. by apply H8.
Qed.

(** Deleting an hinfo that no handle object has. *)
Lemma HInv_erase x l i hs :
  HInv x → heap (mgr x) !! l = Some i → refs l hs = 0%nat →
  (∀ l', l' ≠ l → refs l' hs = refs l' (handles x)) → (∀ c, (l, c) ∉ binds x) →
  HInv (Users (Mgr (delete (h_m i) (hmap (mgr x))) (delete l (heap (mgr x))) (fresh (mgr x))
    (match h_cl i with Some c => clients (mgr x) ∖ {[c]} | None => clients (mgr x) end)) hs (binds x)).
Proof.
  intros [H1 H2 H3 H4 H5 H6 H7 H8 H9 H10 H11] Hi Hz Hr Hnb. set (cs := match h_cl i with Some c => _ | None => _ end).
  assert (cs ⊆ clients (mgr x)) as Hcs by (subst cs; destruct (h_cl i); set_solver).
  assert (∀ c, c ∈ clients (mgr x) → h_cl i ≠ Some c → c ∈ cs) as Hcs2.
  { subst cs. intros c Hc Hne. destruct (h_cl i) as [c'|]; [|done]. apply elem_of_difference.
    rewrite elem_of_singleton. split; [done|]. by intros ->. }
  split; cbn [mgr hmap heap fresh clients handles binds]; try done.
  - intros m l' [Hm Hl']%lookup_delete_Some. destruct (H1 _ _ Hl') as (i' & Hi' & Em).
    exists i'. split; [|done]. rewrite lookup_delete_ne; [done|]. intros ->. apply Hm. congruence.
  - intros l' i' [Hne Hi']%lookup_delete_Some. rewrite lookup_delete_ne; [by apply H2|]. intros Em.
    apply Hne. pose proof (H2 _ _ Hi) as Ha. pose proof (H2 _ _ Hi') as Hb. rewrite Em in Ha. congruence.
  - intros l' i' [Hne Hi']%lookup_delete_Some. rewrite Hr by done. by apply H3.
  - intros l' Hl'. assert (l' ≠ l) as Hne by (intros ->; apply refs_pos in Hl'; lia).
    rewrite lookup_delete_ne by done. apply H4, refs_pos. rewrite <- Hr by done. by apply refs_pos.
  - intros l' i' [Hne Hi']%lookup_delete_Some. by apply H5 with l'.
  - intros l' i' c [Hne Hi']%lookup_delete_Some Hc. apply Hcs2; [by eapply H6|]. intros Hc'. apply Hne. by eapply H7.
  - intros l1 i1 l2 i2 c [_ Hi1]%lookup_delete_Some [_ Hi2]%lookup_delete_Some. by eapply H7.
  - intros l' c Hc. destruct (H8 l' c Hc) as (Ha & Hb & Hd & He).
    assert (l' ≠ l) as Hne by (intros ->; by apply (Hnb c)). split; [|split; [|split]].
    + apply refs_pos. rewrite Hr by done. by apply refs_pos.
    + apply Hcs2; [done|]. by eapply He.
    + intros i' [_ Hi']%lookup_delete_Some. by apply Hd.
    + intros l2 i' [_ Hi']%lookup_delete_Some. by eapply He.
  - destruct H11 as [Ha Hc]. split; [intros l' i' [_ Hi']%lookup_delete_Some; by eapply Ha|].
    intros c Hx%Hcs. by apply Hc.
Qed.

Lemma HInv_new x m h s :
  HInv x → get_handle m (mgr x) = Ret (h, s) → HInv (Users s (h :: handles x) (binds x)).
Proof.
  intros HI. rewrite get_handle_run by done. destruct (hmap (mgr x) !! m) as [l|] eqn:Em.
  - destruct (hi_map _ HI _ _ Em) as (i & Hi & Emi). rewrite Hi. destruct (h_del i) eqn:Ed; intros [= <- <-].
    + apply HInv_handles; [done|]. intros l'. by rewrite refs_cons.
    + apply HInv_put; try done.
      * rewrite refs_cons, bool_decide_eq_true_2, (hi_cnt _ HI _ _ Hi) by done. simpl. lia.
      * intros l' Hne. rewrite refs_cons, bool_decide_eq_false_2 by congruence. done.
      * intros c _. by left.
  - intros [= <- <-]. destruct HI as [H1 H2 H3 H4 H5 H6 H7 H8 H9 H10 [H11 H12]]. set (f := fresh (mgr x)) in *.
    assert (heap (mgr x) !! f = None) as Hf.
    { destruct (heap (mgr x) !! f) as [i|] eqn:E; [|done]. apply H11 in E. lia. }
    assert (refs f (handles x) = 0%nat) as Hz.
    { destruct (decide (refs f (handles x) = 0%nat)) as [|Hne]; [done|]. destruct (H4 f) as [i Hi]; [apply refs_pos; lia|]. congruence. }
    assert (∀ l i, <[f := Hinfo None 1 false m]> (heap (mgr x)) !! l = Some i →
      (l = f ∧ i = Hinfo None 1 false m) ∨ (l ≠ f ∧ heap (mgr x) !! l = Some i)) as Hl.
    { intros l i [[<- <-]|[? ?]]%lookup_insert_Some; auto. }
    split; cbn [mgr hmap heap fresh clients handles binds]; try done.
    + intros m' l [[<- <-]|[Hne Hm]]%lookup_insert_Some; [eexists; by rewrite lookup_insert_eq|].
      destruct (H1 _ _ Hm) as (i & Hi & Ei). exists i. rewrite lookup_insert_ne; [done|]. intros <-. congruence.
    + intros l i [[-> ->]|[Hne Hi]]%Hl; simpl; [by rewrite lookup_insert_eq|].
      rewrite lookup_insert_ne; [by apply H2|]. intros ->. apply H2 in Hi. congruence.
    + intros l i [[-> ->]|[Hne Hi]]%Hl; rewrite refs_cons.
      * rewrite bool_decide_eq_true_2, Hz by done. done.
      * rewrite bool_decide_eq_false_2 by congruence. by apply H3.
    + intros l. rewrite elem_of_cons. intros [[= ->]|Hin]; [by rewrite lookup_insert_eq|].
      destruct (decide (l = f)) as [->|Hne]; [by rewrite lookup_insert_eq|]. rewrite lookup_insert_ne by done. by apply H4.
    + intros l i [[-> ->]|[Hne Hi]]%Hl; [done|]. by apply H5 with l.
    + intros l i c [[-> ->]|[Hne Hi]]%Hl; [done|]. by apply H6 with l.
    + intros l1 i1 l2 i2 c [[-> ->]|[_ Hi1]]%Hl [[-> ->]|[_ Hi2]]%Hl; try done. by eapply H7.
    + intros l c Hc. destruct (H8 l c Hc) as (Ha & Hb & Hd & He). split; [by right|]. split; [done|]. split.
      * intros i [[-> ->]|[_ Hi]]%Hl; [done|]. by apply Hd.
      * intros l2 i [[-> ->]|[_ Hi]]%Hl; [done|]. by eapply He.
    + split; [|intros c Hc%H12; lia]. intros l i [[-> _]|[_ Hi%H11]]%Hl; lia.
Qed.

Lemma done_handle_run x l h1 h2 :
  HInv x → handles x = h1 ++ Some l :: h2 → (∀ c, (l, c) ∈ binds x → Some l ∈ h1 ++ h2) →
  ∃ s, done_handle l (mgr x) = Ret (tt, s) ∧ HInv (Users s (h1 ++ h2) (binds x)).
Proof.
  intros HI Eh Hb. destruct (hi_live _ HI l) as [i Hi]; [rewrite Eh, elem_of_app, elem_of_cons; auto|].
  pose proof (hi_cnt _ HI _ _ Hi) as Hn. rewrite Eh, refs_middle, bool_decide_eq_true_2 in Hn by done. simpl in Hn.
  assert (∀ l', l' ≠ l → refs l' (h1 ++ h2) = refs l' (handles x)) as Hr.
  { intros l' Hne. rewrite Eh, refs_middle, bool_decide_eq_false_2 by congruence. done. }
  unfold done_handle. run (deref_run _ _ _ Hi). cbv zeta. run (store_run _ _ _ _ Hi).
  cbn [h_refcnt h_del h_m]. destruct ((h_refcnt i - 1 =? 0) && h_del i) eqn:E.
  - apply andb_true_iff in E as [E Ed]. zbool.
    erewrite delete_run; [|exact (hi_heap _ HI _ _ Hi)|simpl; apply lookup_insert_eq|exact (λ c, hi_cl _ HI _ _ c Hi)].
    cbn [h_refcnt h_cl hmap heap fresh clients]. destruct (Z.eqb_spec (h_refcnt i - 1) 0); [|lia].
    eexists. split; [done|]. rewrite delete_insert_eq. apply HInv_erase; try done; [lia|].
    intros c Hc. specialize (Hb c Hc). apply refs_pos in Hb. lia.
  - eexists. split; [done|]. apply HInv_put; try done; [lia|].
    intros Hd. rewrite Hd, andb_true_r in E. zbool. done.
Qed.

Lemma delete_handle_ok x m :
  HInv x → ∃ s, delete_handle m (mgr x) = Ret (tt, s) ∧ HInv (Users s (handles x) (binds x)).
Proof.
  intros HI. unfold delete_handle. destruct (hmap (mgr x) !! m) as [l|] eqn:Em.
  - destruct (hi_map _ HI _ _ Em) as (i & Hi & <-).
    rewrite (delete_run _ _ _ _ Em Hi) by (intros c; by apply (hi_cl _ HI l)). eexists. split; [done|].
    pose proof (hi_cnt _ HI _ _ Hi) as Hn. destruct (Z.eqb_spec (h_refcnt i) 0) as [E|E].
    + apply HInv_erase; try done; [lia|]. intros c Hc.
      destruct (hi_bind _ HI _ _ Hc) as (Hh & _). apply refs_pos in Hh. lia.
    + apply HInv_put; try done. intros c Hc. by destruct (hi_bind _ HI _ _ Hc).
  - unfold delete_handle_wo, find. unfold mbind, st_bind. rewrite Em. eexists. split; [done|]. by destruct x.
Qed.

Lemma safebind_begin_ok x h :
  HInv x → h ∈ handles x → (∀ l c, h = Some l → (l, c) ∉ binds x) →
  ∃ r s, safebind_begin h (mgr x) = Ret (r, s) ∧
    HInv (Users s (handles x) (match r, h with Binding c, Some l => (l, c) :: binds x | _, _ => binds x end)).
Proof.
  intros HI Hh Hnb. destruct h as [l|]; [|eexists _, _; split; [done|by destruct x]].
  destruct (hi_live _ HI l Hh) as [i Hi]. unfold safebind_begin. run (deref_run _ _ _ Hi).
  destruct (h_del i); [eexists _, _; split; [done|by destruct x]|].
  destruct (h_cl i) as [c|] eqn:Ec; [eexists _, _; split; [done|by destruct x]|].
  eexists _, _. split; [done|]. destruct HI as [H1 H2 H3 H4 H5 H6 H7 H8 H9 H10 [H11 H12]]. set (f := fresh (mgr x)) in *.
  assert (f ∉ clients (mgr x)) as Hf by (intros ?%H12; lia).
  split; cbn [mgr hmap heap fresh clients handles binds]; try done.
  - intros l' i' c Hi' Hc. apply elem_of_union_r. by eapply H6.
  - intros l' c [[= -> ->]|Hc]%elem_of_cons.
    + split; [done|]. split; [set_solver|]. split; [naive_solver|]. intros l2 i2 Hi2 Hc. by apply Hf, (H6 _ _ _ Hi2).
    + destruct (H8 l' c Hc) as (Ha & Hb & Hd). split; [done|]. split; [set_solver|done].
  - simpl. constructor; [|done]. intros ([l' c] & -> & Hin)%list_elem_of_fmap. by apply (Hnb l' c eq_refl).
  - simpl. constructor; [|done]. intros ([l' c] & -> & Hin)%list_elem_of_fmap. apply Hf. by destruct (H8 _ _ Hin) as (_ & ? & _).
  - split; [intros l' i' Hi'%H11; lia|]. intros c. rewrite elem_of_union, elem_of_singleton. intros [->|Hc%H12]; lia.
Qed.

(** A bind that ends is no longer under way. *)
Lemma binds_middle x h c b1 b2 :
  HInv x → binds x = b1 ++ (h, c) :: b2 →
  (h, c) ∈ binds x ∧ (∀ l c', (l, c') ∈ b1 ++ b2 → (l, c') ∈ binds x ∧ l ≠ h ∧ c' ≠ c) ∧
  NoDup (b1 ++ b2).*1 ∧ NoDup (b1 ++ b2).*2.
Proof.
  intros HI E. pose proof (hi_bind_l _ HI) as Hl. pose proof (hi_bind_c _ HI) as Hc. rewrite E in *.
  rewrite !fmap_app, !fmap_cons in *. cbn [fst snd] in *.
  apply NoDup_app in Hl as (L1 & L2 & L3). apply NoDup_cons in L3 as [L3 L4].
  apply NoDup_app in Hc as (C1 & C2 & C3). apply NoDup_cons in C3 as [C3 C4].
  split; [rewrite elem_of_app, elem_of_cons; auto|]. split.
  - intros l c' Hin. rewrite elem_of_app in Hin. split; [rewrite elem_of_app, elem_of_cons; naive_solver|].
    destruct Hin as [Hin|Hin].
    + split; intros ->; [apply (L2 h)|apply (C2 c)]; try (by left); apply list_elem_of_fmap; by eexists (_, _).
    + split; intros ->; [apply L3|apply C3]; apply list_elem_of_fmap; by eexists (_, _).
  - split; apply NoDup_app; (split; [done|]); (split; [|done]); intros y Hy Hy2; [apply (L2 y Hy)|apply (C2 y Hy)]; by right.
Qed.

Lemma safebind_end_ok x h c b b1 b2 :
  HInv x → binds x = b1 ++ (h, c) :: b2 →
  ∃ s, safebind_end h c b (mgr x) = Ret (if b then Some c else None, s) ∧ HInv (Users s (handles x) (b1 ++ b2)).
Proof.
  intros HI E. destruct (binds_middle x h c b1 b2 HI E) as (Hin & Hrest & N1 & N2).
  destruct (hi_bind _ HI _ _ Hin) as (Hh & Hc & Hn & Ho). destruct (hi_live _ HI h Hh) as [i Hi].
  unfold safebind_end. run (deref_run _ _ _ Hi). destruct b.
  - run (store_run _ _ _ _ Hi). eexists. split; [done|].
    destruct HI as [H1 H2 H3 H4 H5 H6 H7 H8 H9 H10 [H11 H12]].
    assert (∀ l j, <[h := Hinfo (Some c) (h_refcnt i) (h_del i) (h_m i)]> (heap (mgr x)) !! l = Some j →
      (l = h ∧ j = Hinfo (Some c) (h_refcnt i) (h_del i) (h_m i)) ∨ (l ≠ h ∧ heap (mgr x) !! l = Some j)) as Hl.
    { intros l j [[<- <-]|[? ?]]%lookup_insert_Some; auto. }
    split; cbn [mgr hmap heap fresh clients handles binds]; try done.
    + intros m l Hm. destruct (H1 _ _ Hm) as (j & Hj & Em). destruct (decide (l = h)) as [->|Hne].
      * eexists. rewrite lookup_insert_eq. split; [done|]. simpl. congruence.
      * exists j. by rewrite lookup_insert_ne.
    + intros l j [[-> ->]|[_ Hj]]%Hl; [by apply (H2 h i)|by apply H2].
    + intros l j [[-> ->]|[_ Hj]]%Hl; [by apply (H3 h i)|by apply H3].
    + intros l Hl'. destruct (decide (l = h)) as [->|Hne]; [by rewrite lookup_insert_eq|].
      rewrite lookup_insert_ne by done. by apply H4.
    + intros l j [[-> ->]|[_ Hj]]%Hl Hd; [by apply (H5 h i)|by apply (H5 l j)].
    + intros l j c' [[-> ->]|[_ Hj]]%Hl Hcl; [by simplify_eq/=|by apply (H6 l j)].
    + intros l1 i1 l2 i2 c' [[-> ->]|[_ Hj1]]%Hl [[-> ->]|[_ Hj2]]%Hl; simpl; try done.
      * intros [= <-] Hc2. by destruct (Ho _ _ Hj2).
      * intros Hc1 [= <-]. by destruct (Ho _ _ Hj1).
      * by apply (H7 l1 i1 l2 i2).
    + intros l c' (Hin' & Hne1 & Hne2)%Hrest. destruct (H8 _ _ Hin') as (Ha & Hb & Hd & He).
      split; [done|]. split; [done|]. split.
      * intros j [[-> _]|[_ Hj]]%Hl; [done|by apply Hd].
      * intros l2 j [[-> ->]|[_ Hj]]%Hl; [simpl; congruence|by eapply He].
    + split; [|done]. intros l j [[-> _]|[_ Hj]]%Hl; eauto.
  - rewrite (Hn i Hi). unfold delete_client. unfold mbind, st_bind. rewrite decide_True by done.
    rewrite (store_run _ i) by done. eexists. split; [done|]. cbn [hmap heap fresh clients].
    pose proof (hi_cnt _ HI _ _ Hi) as Hcnt. pose proof (proj1 (refs_pos _ _) Hh) as Hpos.
    pose proof (HInv_put x h i (h_refcnt i) true (handles x) HI Hi Hcnt ltac:(lia) ltac:(done)
      (λ c' _, Hh)) as [H1 H2 H3 H4 H5 H6 H7 H8 H9 H10 [H11 H12]].
    unfold put_hinfo in *. rewrite (Hn i Hi) in *. cbn [mgr hmap heap fresh clients handles binds] in *.
    split; cbn [mgr hmap heap fresh clients handles binds]; try done.
    + intros l j c' Hj Hc'. apply elem_of_difference. split; [by eapply H6|]. rewrite elem_of_singleton. intros ->.
      apply lookup_insert_Some in Hj as [[<- <-]|[_ Hj]]; [done|]. by eapply Ho.
    + intros l c' (Hin' & Hne1 & Hne2)%Hrest. destruct (H8 _ _ Hin') as (Ha & Hb & Hd). split; [done|].
      split; [|done]. apply elem_of_difference. by rewrite elem_of_singleton.
    + split; [done|]. intros c' [? _]%elem_of_difference. auto.
Qed.

Lemma HInv_step x x' : HInv x → hstep false true x x' → HInv x'.
Proof.
  intros HI Hs. destruct Hs as [m h s E|h s h1 h2 Eh Hb E|h1 h2 Eh|? ? ? ? [=]|m s _ E|h r s Hh Hn E|h c b r s b1 b2 Eb _ E].
  - by eapply HInv_new.
  - destruct (done_handle_run x h h1 h2 HI Eh Hb) as (s' & E' & HI'). rewrite E in E'. by injection E' as ->.
  - apply HInv_handles; [done|]. intros l. by rewrite Eh, refs_middle.
  - destruct (delete_handle_ok x m HI) as (s' & E' & HI'). rewrite E in E'. by injection E' as ->.
  - destruct (safebind_begin_ok x h HI Hh Hn) as (r' & s' & E' & HI'). rewrite E in E'. by injection E' as -> ->.
  - destruct (safebind_end_ok x h c b b1 b2 HI Eb) as (s' & E' & HI'). rewrite E in E'. by injection E' as -> ->.
Qed.

Lemma HInv_reachable x : rtc (hstep false true) husers_init x → HInv x.
Proof.
  intros Hr. pose proof HInv_init as HI. remember husers_init as x0. clear Heqx0.
  induction Hr; eauto using HInv_step.
Qed.

(** ** What a step does to an hinfo *)
Definition keeps (i i' : hinfo) : Prop :=
  (h_del i = true → h_del i' = true) ∧ ∀ c, h_cl i = Some c → h_cl i' = Some c.

Definition kept (l : Z) (i : hinfo) (s : handle_mgr) : Prop :=
  heap s !! l = None ∨ ∃ i', heap s !! l = Some i' ∧ keeps i i'.

Lemma kept_same l i s : heap s !! l = Some i → kept l i s.
Proof. intros Hi. right. by exists i. Qed.

Lemma kept_insert l i s h j m f cs :
  heap s !! l = Some i → (∀ i0, heap s !! h = Some i0 → keeps i0 j) →
  kept l i (Mgr m (<[h := j]> (heap s)) f cs).
Proof.
  intros Hi Hj. right. simpl. destruct (decide (l = h)) as [->|Hne].
  - exists j. rewrite lookup_insert_eq. auto.
  - exists i. by rewrite lookup_insert_ne.
Qed.

Lemma kept_delete l i s h m f cs : heap s !! l = Some i → kept l i (Mgr m (delete h (heap s)) f cs).
Proof.
  intros Hi. destruct (decide (l = h)) as [->|Hne]; [left|right; exists i]; simpl;
    [by rewrite lookup_delete_eq|by rewrite lookup_delete_ne].
Qed.

Lemma kept_put l i s h j i0 m f cs :
  heap s !! l = Some i → heap s !! h = Some i0 → keeps i0 j → kept l i (Mgr m (<[h := j]> (heap s)) f cs).
Proof. intros Hi H0 Hk. apply kept_insert; [done|]. intros i1 H1. by simplify_eq. Qed.

Lemma delete_handle_kept s m l i s' : heap s !! l = Some i → delete_handle_wo m s = Ret (tt, s') → kept l i s'.
Proof.
  intros Hi. unfold delete_handle_wo, find. unfold mbind at 1, st_bind at 1.
  destruct (hmap s !! m) as [h|]; [|intros [= <-]; by apply kept_same].
  unfold deref. unfold mbind at 1, st_bind at 1. destruct (heap s !! h) as [j|] eqn:Hj; [|done].
  destruct (h_refcnt j =? 0).
  - destruct (h_cl j) as [c|]; [|intros [= <-]; by apply kept_delete].
    unfold cancel_client, delete_client. unfold mbind, st_bind. case_decide; [|done]. case_decide; [|done].
    intros [= <-]. by apply (kept_delete _ _ s).
  - rewrite (store_run _ _ _ _ Hj). intros [= <-]. apply (kept_put _ _ _ _ _ j); done.
Qed.

Lemma kept_done x l i h s :
  heap (mgr x) !! l = Some i → done_handle h (mgr x) = Ret (tt, s) → kept l i s.
Proof.
  intros Hi. unfold done_handle. unfold deref. unfold mbind at 1, st_bind at 1.
  destruct (heap (mgr x) !! h) as [j|] eqn:Hj; [|done]. cbv zeta. run (store_run _ _ _ _ Hj).
  case_match; [|intros [= <-]; by apply (kept_put _ _ _ _ _ j)].
  set (s1 := Mgr _ _ _ _). assert (kept l i s1) as [Hn|(i' & Hi' & Hk1 & Hk2)]
    by (by apply (kept_put _ _ _ _ _ j)).
  - exfalso. simpl in Hn. destruct (decide (l = h)) as [->|Hne]; [by rewrite lookup_insert_eq in Hn|].
    rewrite lookup_insert_ne in Hn by done. congruence.
  - intros E. apply (delete_handle_kept s1 _ l i') in E as [?|(i2 & Hi2 & Hk3 & Hk4)]; [by left| |done].
    right. exists i2. split; [done|]. split; eauto.
Qed.

Lemma hinfo_kept x x' l i : HInv x → heap (mgr x) !! l = Some i → hstep false true x x' → kept l i (mgr x').
Proof.
  intros HI Hi Hs. destruct Hs as [m h s E|h s h1 h2 Eh Hb E|h1 h2 Eh|? ? ? ? [=]|m s _ E|h r s Hh Hn E|h c b r s b1 b2 Eb _ E];
    cbn [mgr].
  - rewrite get_handle_run in E by done. destruct (hmap (mgr x) !! m) as [h'|].
    + destruct (heap (mgr x) !! h') as [j|] eqn:Hj; [|done]. destruct (h_del j) eqn:Ed; injection E as <- <-; [by apply kept_same|].
      apply (kept_put _ _ _ _ _ j); [done..|]. split; [congruence|done].
    + injection E as <- <-. apply kept_insert; [done|]. intros i0 H0. apply (proj1 (hi_fresh _ HI)) in H0. lia.
  - by eapply kept_done.
  - by apply kept_same.
  - by eapply delete_handle_kept.
  - apply kept_same. destruct h as [h|]; [|by injection E as <- <-]. unfold safebind_begin in E.
    destruct (hi_live _ HI h Hh) as [j Hj]. rewrite (bind_run _ _ _ _ _ (deref_run _ _ _ Hj)) in E.
    destruct (h_del j); [by injection E as <- <-|]. destruct (h_cl j); by injection E as <- <-.
  - destruct (binds_middle x h c b1 b2 HI Eb) as (Hin & _). destruct (hi_bind _ HI _ _ Hin) as (Hh & Hc & Hn & Ho).
    destruct (hi_live _ HI h Hh) as [j Hj]. unfold safebind_end in E.
    rewrite (bind_run _ _ _ _ _ (deref_run _ _ _ Hj)) in E. pose proof (Hn j Hj) as Hnj.
    destruct b.
    + rewrite (bind_run _ _ _ _ _ (store_run _ _ _ _ Hj)) in E. injection E as <- <-. apply (kept_put _ _ _ _ _ j); [done..|].
      split; [done|]. by rewrite Hnj.
    + unfold delete_client, mbind, st_bind in E. rewrite decide_True in E by done.
      rewrite (store_run _ j) in E by done. injection E as <- <-. by apply (kept_put l i (mgr x) _ _ j).
Qed.

(** ** Handle objects that are assigned to *)

(** Counts no longer mean anything, but nothing is deleted before a bind fails or
    a name is deleted. *)
Record AInv (x : husers) : Prop := {
  ai_map : ∀ m l, hmap (mgr x) !! m = Some l → is_Some (heap (mgr x) !! l);
  ai_live : ∀ h, h ∈ handles x → ∃ l, h = Some l ∧ is_Some (heap (mgr x) !! l);
  ai_del : ∀ l i, heap (mgr x) !! l = Some i → h_del i = false;
  ai_cl : ∀ l i c, heap (mgr x) !! l = Some i → h_cl i = Some c → c ∈ clients (mgr x);
  ai_bind : ∀ l c, (l, c) ∈ binds x → is_Some (heap (mgr x) !! l) ∧ c ∈ clients (mgr x) }.

Lemma AInv_init : AInv husers_init.
Proof. split; simpl; try done; set_solver. Qed.

(** An hinfo is made or changed. *)
Lemma AInv_put x h i mp f hs bs :
  AInv x → h_del i = false → (∀ c, h_cl i = Some c → c ∈ clients (mgr x)) →
  (∀ m l, mp !! m = Some l → l = h ∨ hmap (mgr x) !! m = Some l) →
  (∀ h', h' ∈ hs → h' = Some h ∨ h' ∈ handles x) → (∀ p, p ∈ bs → p ∈ binds x) →
  AInv (Users (Mgr mp (<[h := i]> (heap (mgr x))) f (clients (mgr x))) hs bs).
Proof.
  intros [H1 H2 H3 H4 H5] Hd Hc Hm Hh Hb.
  assert (∀ l, l = h ∨ is_Some (heap (mgr x) !! l) → is_Some (<[h := i]> (heap (mgr x)) !! l)) as Hs.
  { intros l Hl. destruct (decide (l = h)) as [->|Hne]; [by rewrite lookup_insert_eq|].
    rewrite lookup_insert_ne by done. by destruct Hl. }
  split; cbn [mgr hmap heap clients handles binds].
  - intros m l [->|Hl]%Hm; apply Hs; [by left|right; by apply (H1 m)].
  - intros h' [->|Hl]%Hh; [exists h; auto|]. destruct (H2 _ Hl) as (l & -> & ?). eauto.
  - intros l j [[_ <-]|[_ ?]]%lookup_insert_Some; eauto.
  - intros l j c [[_ <-]|[_ ?]]%lookup_insert_Some; eauto.
  - intros l c [? ?]%Hb%H5. auto.
Qed.

Lemma AInv_get_handle x m :
  AInv x → ∃ l s, get_handle m (mgr x) = Ret (Some l, s) ∧ AInv (Users s (Some l :: handles x) (binds x)).
Proof.
  intros HI. unfold get_handle, find. unfold mbind at 1, st_bind at 1.
  destruct (hmap (mgr x) !! m) as [h|] eqn:Em.
  - destruct (ai_map _ HI _ _ Em) as [i Hi]. run (deref_run _ _ _ Hi). rewrite (ai_del _ HI _ _ Hi).
    run (store_run _ _ _ _ Hi). eexists _, _. split; [done|].
    apply AInv_put; try done; [intros c Hc; by apply (ai_cl _ HI h i)|auto|]. intros h'. rewrite elem_of_cons. naive_solver.
  - eexists _, _. split; [done|]. apply AInv_put; try done.
    + intros m' l [[_ <-]|[_ ?]]%lookup_insert_Some; auto.
    + intros h'. rewrite elem_of_cons. naive_solver.
Qed.

Lemma AInv_done x l h1 h2 :
  AInv x → handles x = h1 ++ Some l :: h2 →
  ∃ s, done_handle l (mgr x) = Ret (tt, s) ∧ AInv (Users s (h1 ++ h2) (binds x)).
Proof.
  intros HI Eh. destruct (ai_live _ HI (Some l)) as (l' & [= <-] & i & Hi); [rewrite Eh; set_solver|].
  unfold done_handle. run (deref_run _ _ _ Hi). cbv zeta. run (store_run _ _ _ _ Hi).
  cbn [h_refcnt h_del]. rewrite (ai_del _ HI _ _ Hi), andb_false_r. eexists. split; [done|].
  apply AInv_put; try done; [intros c Hc; by apply (ai_cl _ HI l i)|auto|].
  intros h' Hh'. right. rewrite Eh. set_solver.
Qed.

Lemma AInv_bind_begin x h :
  AInv x → h ∈ handles x → ∃ r s, safebind_begin h (mgr x) = Ret (r, s) ∧
    match r with Answer (Some c) | Binding c => c ∈ clients s | Answer None => False end ∧
    AInv (Users s (handles x) (match r, h with Binding c, Some l => (l, c) :: binds x | _, _ => binds x end)).
Proof.
  intros HI Hh. destruct (ai_live _ HI h Hh) as (l & -> & i & Hi). unfold safebind_begin. run (deref_run _ _ _ Hi).
  rewrite (ai_del _ HI _ _ Hi). destruct (h_cl i) as [c|] eqn:Ec.
  { eexists _, _. split_and!; [done|by apply (ai_cl _ HI l i)|by destruct x]. }
  eexists _, _. split_and!; [done|simpl; set_solver|]. destruct HI as [H1 H2 H3 H4 H5].
  split; cbn [mgr hmap heap clients handles binds]; try done.
  - intros l' i' c Hi' Hc. apply elem_of_union_r. by eapply H4.
  - intros l' c [[= -> ->]|Hc]%elem_of_cons; [split; [done|set_solver]|].
    destruct (H5 l' c Hc). split; [done|set_solver].
Qed.

Lemma AInv_bind_end x h c b1 b2 :
  AInv x → binds x = b1 ++ (h, c) :: b2 →
  ∃ s, safebind_end h c true (mgr x) = Ret (Some c, s) ∧ AInv (Users s (handles x) (b1 ++ b2)).
Proof.
  intros HI Eb. destruct (ai_bind _ HI h c) as [[i Hi] Hc]; [rewrite Eb; set_solver|].
  unfold safebind_end. run (deref_run _ _ _ Hi). run (store_run _ _ _ _ Hi). eexists. split; [done|].
  apply AInv_put; try done; [by apply (ai_del _ HI h i)|intros c' [= <-]; done|auto|auto|].
  intros p Hp. rewrite Eb. set_solver.
Qed.

Lemma AInv_step x x' : AInv x → hstep true false x x' → AInv x'.
Proof.
  intros HI Hs. destruct Hs as [m h s E|h s h1 h2 Eh Hb E|h1 h2 Eh|h h' h1 h2 _ Eh Hin _|m s [=]|h r s Hh Hn E|h c b r s b1 b2 Eb Hf E].
  - destruct (AInv_get_handle x m HI) as (l & s' & E' & HI'). rewrite E in E'. by injection E' as -> ->.
  - destruct (AInv_done x h h1 h2 HI Eh) as (s' & E' & HI'). rewrite E in E'. by injection E' as ->.
  - destruct (ai_live _ HI None) as (l & [=] & _). rewrite Eh. set_solver.
  - destruct HI as [H1 H2 H3 H4 H5]. split; cbn [mgr handles binds]; try done.
    intros h0 Hh0. apply H2. rewrite Eh. set_solver.
  - destruct (AInv_bind_begin x h HI Hh) as (r' & s' & E' & _ & HI'). rewrite E in E'. by injection E' as -> ->.
  - destruct b; [|by specialize (Hf eq_refl)].
    destruct (AInv_bind_end x h c b1 b2 HI Eb) as (s' & E' & HI'). rewrite E in E'. by injection E' as -> ->.
Qed.

Lemma AInv_reachable x : rtc (hstep true false) husers_init x → AInv x.
Proof.
  intros Hr. pose proof AInv_init as HI. remember husers_init as x0. clear Heqx0.
  induction Hr; eauto using AInv_step.
Qed.

(** * Theorems *)

(** Handle objects that are not assigned to: every call returns, and the count of
    an hinfo is the number of handle objects that have it. *)
Lemma kept_handles_safe (x : husers) :
  rtc (hstep false true) husers_init x →
  (∀ m, ∃ h s, get_handle m (mgr x) = Ret (h, s)) ∧
  (∀ m, ∃ s, delete_handle m (mgr x) = Ret (tt, s)) ∧
  (∀ h h1 h2, handles x = h1 ++ Some h :: h2 → (∀ c, (h, c) ∈ binds x → Some h ∈ h1 ++ h2) →
     ∃ s, done_handle h (mgr x) = Ret (tt, s)) ∧
  (∀ h, h ∈ handles x → (∀ l c, h = Some l → (l, c) ∉ binds x) →
     ∃ r s, safebind_begin h (mgr x) = Ret (r, s)) ∧
  (∀ h c b, (h, c) ∈ binds x → ∃ s, safebind_end h c b (mgr x) = Ret (if b then Some c else None, s)) ∧
  (∀ h i, heap (mgr x) !! h = Some i → h_refcnt i = Z.of_nat (refs h (handles x))).
Proof.
  intros HI%HInv_reachable. split; [|split; [|split; [|split; [|split]]]].
  - intros m. rewrite get_handle_run by done. destruct (hmap (mgr x) !! m) as [l|] eqn:Em; [|eauto].
    destruct (hi_map _ HI _ _ Em) as (i & -> & _). destruct (h_del i); eauto.
  - intros m. destruct (delete_handle_ok x m HI) as (s & E & _). eauto.
  - intros h h1 h2 Eh Hb. destruct (done_handle_run x h h1 h2 HI Eh Hb) as (s & E & _). eauto.
  - intros h Hh Hn. destruct (safebind_begin_ok x h HI Hh Hn) as (r & s & E & _). eauto.
  - intros h c b (b1 & b2 & Eb)%list_elem_of_split.
    destruct (safebind_end_ok x h c b b1 b2 HI Eb) as (s & E & _). eauto.
  - apply (hi_cnt _ HI).
Qed.

(** Used as the lock server uses it, with handle objects that are assigned to from
    temporaries, the handle cache is safe only as long as no bind fails and no
    name is deleted: then every call returns, every safebind answers with a client
    that exists, and nothing is ever deleted. *)
Theorem assigned_handles_safe (x : husers) :
  rtc (hstep true false) husers_init x →
  (∀ m, ∃ l s, get_handle m (mgr x) = Ret (Some l, s)) ∧
  (∀ h, h ∈ handles x → ∃ l s, h = Some l ∧ done_handle l (mgr x) = Ret (tt, s)) ∧
  (∀ h, h ∈ handles x → ∃ r s, safebind_begin h (mgr x) = Ret (r, s) ∧
     match r with Answer (Some c) | Binding c => c ∈ clients s | Answer None => False end) ∧
  (∀ h c, (h, c) ∈ binds x → ∃ s, safebind_end h c true (mgr x) = Ret (Some c, s)).
Proof.
  intros HI%AInv_reachable. split_and!.
  - intros m. destruct (AInv_get_handle x m HI) as (l & s & E & _). eauto.
  - intros h Hh. destruct (ai_live _ HI h Hh) as (l & -> & _). apply list_elem_of_split in Hh as (h1 & h2 & Eh).
    destruct (AInv_done x l h1 h2 HI Eh) as (s & E & _). eauto.
  - intros h Hh. destruct (AInv_bind_begin x h HI Hh) as (r & s & E & Hr & _). eauto.
  - intros h c (b1 & b2 & Eb)%list_elem_of_split. destruct (AInv_bind_end x h c b1 b2 HI Eb) as (s & E & _). eauto.
Qed.

Lemma hstep_fails copies x y : hstep copies false x y → hstep copies true x y.
Proof.
  intros H. destruct H; [by eapply HNew|by eapply HDone|by eapply HDoneNull|by eapply HCopy|by eapply HDelete|by eapply HBindBegin|].
  eapply HBindEnd; eauto.
Qed.

(** C33.  The handle cache uses no hinfo and no client after it was deleted, for
    every order in which handle objects are made, bound, assigned to, destroyed and
    names are deleted, unless objects are assigned to, as the lock server does, and
    binds may fail (or names are deleted): every call returns, and when objects are
    not assigned to, the count of an hinfo is the number of objects that have it. *)
Theorem handles_safe (copies fails : bool) (x : husers) :
  rtc (hstep copies fails) husers_init x → copies && fails = false →
  (∀ m, ∃ h s, get_handle m (mgr x) = Ret (h, s)) ∧
  (fails = true → ∀ m, ∃ s, delete_handle m (mgr x) = Ret (tt, s)) ∧
  (∀ h h1 h2, handles x = h1 ++ Some h :: h2 → (∀ c, (h, c) ∈ binds x → Some h ∈ h1 ++ h2) →
     ∃ s, done_handle h (mgr x) = Ret (tt, s)) ∧
  (∀ h, h ∈ handles x → (∀ l c, h = Some l → (l, c) ∉ binds x) →
     ∃ r s, safebind_begin h (mgr x) = Ret (r, s)) ∧
  (∀ h c b, (h, c) ∈ binds x → b = true ∨ fails = true →
     ∃ s, safebind_end h c b (mgr x) = Ret (if b then Some c else None, s)) ∧
  (copies = false → ∀ h i, heap (mgr x) !! h = Some i → h_refcnt i = Z.of_nat (refs h (handles x))).
Proof.
  intros Hr Hcf. destruct copies.
  - destruct fails; [done|]. destruct (assigned_handles_safe x Hr) as (H1 & H2 & H3 & H4). split_and!; [..|done].
    + intros m. destruct (H1 m) as (l & s & E). eauto.
    + done.
    + intros h h1 h2 Eh _. destruct (H2 (Some h)) as (l & s & [= <-] & E); [rewrite Eh, elem_of_app, elem_of_cons; auto|eauto].
    + intros h Hh _. destruct (H3 h Hh) as (r & s & E & _). eauto.
    + intros h c b Hb [->|?]; [by apply H4|done].
  - assert (rtc (hstep false true) husers_init x) as Hr'.
    { destruct fails; [done|]. eapply rtc_subrel; [|exact Hr]. intros y z. apply hstep_fails. }
    destruct (kept_handles_safe x Hr') as (H1 & H2 & H3 & H4 & H5 & H6). by split_and!; auto.
Qed.

(** What safebind answers: the answer of the first bind stays.  Once a bind
    failed, or the name was deleted, every safebind through a handle of this name
    answers NULL and get_handle gives no handle, until the last handle is gone;
    once a bind succeeded, safebind answers this client until the name is
    deleted. *)
Theorem bind_outcome_stays (x x' : husers) (l : Z) (i : hinfo) :
  rtc (hstep false true) husers_init x → heap (mgr x) !! l = Some i → hstep false true x x' →
  (h_del i = true →
     safebind_begin (Some l) (mgr x) = Ret (Answer None, mgr x) ∧ get_handle (h_m i) (mgr x) = Ret (None, mgr x) ∧
     (heap (mgr x') !! l = None ∨ ∃ i', heap (mgr x') !! l = Some i' ∧ h_del i' = true)) ∧
  (∀ c, h_cl i = Some c →
     (h_del i = false → safebind_begin (Some l) (mgr x) = Ret (Answer (Some c), mgr x)) ∧
     (heap (mgr x') !! l = None ∨ ∃ i', heap (mgr x') !! l = Some i' ∧ h_cl i' = Some c)).
Proof.
  intros HI%HInv_reachable Hi Hs. pose proof (hinfo_kept x x' l i HI Hi Hs) as Hk.
  pose proof (hi_heap _ HI _ _ Hi) as Hm. split.
  - intros Hd. unfold safebind_begin. run (deref_run _ _ _ Hi). rewrite get_handle_run, Hm, Hi, Hd by done.
    split; [done|]. split; [done|]. destruct Hk as [?|(i' & Hi' & Hk & _)]; eauto.
  - intros c Hc. split.
    + intros Hd. unfold safebind_begin. run (deref_run _ _ _ Hi). by rewrite Hd, Hc.
    + destruct Hk as [?|(i' & Hi' & _ & Hk)]; eauto.
Qed.

(** ** A handle is made, bound and destroyed *)
Definition ex_users : husers :=
  Users (Mgr {["a" := 1]} {[1 := Hinfo (Some 2) 1 false "a"]} 3 {[2]}) [Some 1] [].

Lemma ex_users_run : rtc (hstep false true) husers_init ex_users.
Proof.
  eapply rtc_l; [apply (HNew _ _ _ "a" (Some 1) (Mgr {["a" := 1]} {[1 := Hinfo None 1 false "a"]} 2 ∅)); by_vm|].
  eapply rtc_l; [apply (HBindBegin _ _ _ (Some 1) (Binding 2) (Mgr {["a" := 1]} {[1 := Hinfo None 1 false "a"]} 3 {[2]}));
    [by left|set_solver|by_vm]|].
  eapply rtc_l; [apply (HBindEnd _ _ _ 1 2 true (Some 2) (mgr ex_users) [] []); [done|done|by_vm]|].
  apply rtc_refl.
Defined.

Lemma bind_outcome_stays_witness :
  safebind_begin (Some 1) (mgr ex_users) = Ret (Answer (Some 2), mgr ex_users).
Proof.
  refine (proj1 (proj2 (bind_outcome_stays ex_users
    (Users (mgr ex_users) [Some 1] []) 1 (Hinfo (Some 2) 1 false "a") ex_users_run _ _) 2 _) _);
    [by_vm| |reflexivity|reflexivity].
  apply (HBindBegin _ _ ex_users (Some 1) (Answer (Some 2)) (mgr ex_users)); [by left|set_solver|by_vm].
Defined.

(** ** The lock server's use of handles

    Thread 1 makes its object with the name "" (hinfo 1), makes a temporary for
    "a" (hinfo 2), assigns and destroys it, and starts to bind; thread 2 makes its
    own object and a temporary for "a" and assigns it. *)
Definition hinfo_a (n : Z) (d : bool) : hinfo := Hinfo None n d "a".
Definition ex_heap (n0 n : Z) (d : bool) : gmap Z hinfo := {[1 := Hinfo None n0 false ""; 2 := hinfo_a n d]}.
Definition ex_names : gmap string Z := {["" := 1; "a" := 2]}.

Definition ex_assigned : husers := Users (Mgr ex_names (ex_heap 2 1 false) 4 {[3]}) [Some 2; Some 2; Some 2] [(2, 3)].

Lemma ex_assigned_run fails : rtc (hstep true fails) husers_init ex_assigned.
Proof.
  eapply rtc_l; [apply (HNew _ _ _ "" (Some 1) (Mgr {["" := 1]} {[1 := Hinfo None 1 false ""]} 2 ∅)); by_vm|].
  eapply rtc_l; [apply (HNew _ _ _ "a" (Some 2) (Mgr ex_names (ex_heap 1 1 false) 3 ∅)); by_vm|].
  eapply rtc_l; [apply (HCopy _ _ _ (Some 1) (Some 2) [Some 2] []); [done|done|by left|by intros ? ? _ ?%elem_of_nil]|].
  eapply rtc_l; [apply (HDone _ _ _ 2 (Mgr ex_names (ex_heap 1 0 false) 3 ∅) [] [Some 2]);
    [done|by intros ? ?%elem_of_nil|by_vm]|].
  eapply rtc_l; [apply (HBindBegin _ _ _ (Some 2) (Binding 3) (Mgr ex_names (ex_heap 1 0 false) 4 {[3]}));
    [by left|by intros ? ? _ ?%elem_of_nil|by_vm]|].
  eapply rtc_l; [apply (HNew _ _ _ "" (Some 1) (Mgr ex_names (ex_heap 2 0 false) 4 {[3]})); by_vm|].
  eapply rtc_l; [apply (HNew _ _ _ "a" (Some 2) (Mgr ex_names (ex_heap 2 1 false) 4 {[3]})); by_vm|].
  eapply rtc_l; [apply (HCopy _ _ _ (Some 1) (Some 2) [Some 2] [Some 2]); [done|done|by left|by intros ? ? [= <-] ?%list_elem_of_singleton]|].
  apply rtc_refl.
Qed.

(** A handle object that was assigned to dangles: the bind of thread 1 fails and
    marks the hinfo deleted; the temporary of thread 2 is destroyed, the count
    reaches 0 although two objects have the hinfo, and it is deleted; thread 2
    then calls safebind on it. *)
Theorem assigned_handle_dangles :
  ∃ x h, rtc (hstep true true) husers_init x ∧ h ∈ handles x ∧ (∀ l c, h = Some l → (l, c) ∉ binds x) ∧
    safebind_begin h (mgr x) = Undef.
Proof.
  exists (Users (Mgr {["" := 1]} {[1 := Hinfo None 2 false ""]} 4 ∅) [Some 2; Some 2] []), (Some 2).
  split_and!; [|by left|by intros ? ? _ ?%elem_of_nil|by_vm]. etrans; [apply ex_assigned_run|].
  eapply rtc_l; [apply (HBindEnd _ _ _ 2 3 false None (Mgr ex_names (ex_heap 2 1 true) 4 ∅) [] []); [done|done|by_vm]|].
  eapply rtc_l; [apply (HDone _ _ _ 2 (Mgr {["" := 1]} {[1 := Hinfo None 2 false ""]} 4 ∅) [] [Some 2; Some 2]);
    [done|by intros ? ?%elem_of_nil|by_vm]|].
  apply rtc_refl.
Qed.

(** One object that is not assigned to, and the lock server's. *)
Lemma handles_safe_witness :
  (∃ s, done_handle 1 (mgr ex_users) = Ret (tt, s)) ∧ ∃ s, safebind_end 2 3 true (mgr ex_assigned) = Ret (Some 3, s).
Proof.
  split.
  - destruct (handles_safe false true ex_users ex_users_run eq_refl) as (_ & _ & H & _).
    apply (H 1 [] []); [reflexivity|]. intros c Hc. by apply elem_of_nil in Hc.
  - destruct (handles_safe true false ex_assigned (ex_assigned_run false) eq_refl) as (_ & _ & _ & _ & H & _).
    apply (H 2 3 true); [by left|by left].
Defined.
