(* ===== verification/RpcServer.v ===== *)
(** The server side of the RPC library, [class rpcs] of rpc/rpc.h and
    rpc/rpc.cc: the reply window that gives at-most-once execution, and
    [rpcs::dispatch], which many pool threads run at the same time.

    [dispatch] is split at the points where it gives up its locks; each piece
    is a function on the server state, and [step] interleaves the pieces of any
    number of dispatch threads with arbitrary arriving requests (the network
    may lose, repeat, delay and forge them).  Reply buffers are heap locations,
    so that [free] and a later use of the same buffer are visible. *)
From S2P Require Import Prelude Marshall RpcStub.
Local Open Scope Z_scope.

Inductive rpcstate_t := NEW | INPROGRESS | DONE | FORGOTTEN.

(** [buf] is a pointer: [None] is NULL. *)
Record reply_t := Reply {
  r_xid : Z; cb_present : bool; r_buf : option Z; r_sz : Z }.
Definition reply_new (xid : Z) : reply_t := Reply xid false None 0.

Record rpcs := Rpcs {
  nonce_ : Z;
  reachable_ : bool;
  procs_ : gset Z;
  counting_ : Z;
  curr_counts_ : Z;
  counts_ : gmap Z Z;
  reply_window_ : gmap Z (list reply_t);
  xid_rep_window_ : gmap Z Z;
  conns_ : gmap Z Z;
  refno_ : gmap Z Z;
  dead_ : gset Z;
  heap_ : gmap Z (list Z);
  brk_ : Z }.

Definition with_window (rw : gmap Z (list reply_t)) (xr : gmap Z Z) (hp : gmap Z (list Z))
    (s : rpcs) : rpcs :=
  Rpcs (nonce_ s) (reachable_ s) (procs_ s) (counting_ s) (curr_counts_ s) (counts_ s)
    rw xr (conns_ s) (refno_ s) (dead_ s) hp (brk_ s).

Definition with_conns (cs : gmap Z Z) (rs : gmap Z Z) (s : rpcs) : rpcs :=
  Rpcs (nonce_ s) (reachable_ s) (procs_ s) (counting_ s) (curr_counts_ s) (counts_ s)
    (reply_window_ s) (xid_rep_window_ s) cs rs (dead_ s) (heap_ s) (brk_ s).

Definition with_counts (cur : Z) (cts : gmap Z Z) (s : rpcs) : rpcs :=
  Rpcs (nonce_ s) (reachable_ s) (procs_ s) (counting_ s) cur cts
    (reply_window_ s) (xid_rep_window_ s) (conns_ s) (refno_ s) (dead_ s) (heap_ s) (brk_ s).

(** rpcs::reg1 *)
Definition reg1 (proc : Z) (s : rpcs) : res rpcs :=
  if decide (proc ∈ procs_ s) then VerifyFailed
  else Ret (Rpcs (nonce_ s) (reachable_ s) ({[proc]} ∪ procs_ s) (counting_ s)
              (curr_counts_ s) (counts_ s) (reply_window_ s) (xid_rep_window_ s) (conns_ s)
              (refno_ s) (dead_ s) (heap_ s) (brk_ s)).

(** rpcs::rpcbind *)
Definition rpcbind (s : rpcs) (a : Z) : Z * Z := (0, nonce_ s).

(** free(buf): freeing NULL does nothing. *)
Definition free (b : option Z) (hp : gmap Z (list Z)) : gmap Z (list Z) :=
  match b with Some l => delete l hp | None => hp end.

(** The loop of checkduplicate_and_update over the client's replies: what is
    left of the list, the buffers it freed, and the entry it stopped at. *)
Fixpoint scan_replies (xid_rep xid : Z) (replys : list reply_t)
    : list reply_t * list (option Z) * option reply_t :=
  match replys with
  | [] => ([], [], None)
  | r :: rs =>
      if r_xid r <=? xid_rep then
        let '(kept, freed, o) := scan_replies xid_rep xid rs in
        (kept, r_buf r :: freed, o)
      else if r_xid r =? xid then (r :: rs, [], Some r)
      else let '(kept, freed, o) := scan_replies xid_rep xid rs in
           (r :: kept, freed, o)
  end.

Definition checkduplicate_and_update (clt_nonce xid xid_rep : Z) (s : rpcs)
    : rpcstate_t * (option Z * Z) * rpcs :=
  let replys := mget [] (reply_window_ s) clt_nonce in
  let old := mget 0 (xid_rep_window_ s) clt_nonce in
  let xid_rep := if old <? xid_rep then xid_rep else old in
  let xr := <[clt_nonce := xid_rep]> (xid_rep_window_ s) in
  if xid <=? xid_rep then
    (FORGOTTEN, (None, 0),
     with_window (<[clt_nonce := replys]> (reply_window_ s)) xr (heap_ s) s)
  else
    let '(kept, freed, o) := scan_replies xid_rep xid replys in
    let hp := foldr free (heap_ s) freed in
    match o with
    | Some r =>
        let s := with_window (<[clt_nonce := kept]> (reply_window_ s)) xr hp s in
        if cb_present r then (DONE, (r_buf r, r_sz r), s) else (INPROGRESS, (None, 0), s)
    | None =>
        (NEW, (None, 0),
         with_window (<[clt_nonce := kept ++ [reply_new xid]]> (reply_window_ s)) xr hp s)
    end.

(** rpcs::add_reply: the first entry of this xid, if it is still there. *)
Fixpoint set_reply (xid : Z) (b : option Z) (sz : Z) (replys : list reply_t) : list reply_t :=
  match replys with
  | [] => []
  | r :: rs => if r_xid r =? xid then Reply (r_xid r) true b sz :: rs
               else r :: set_reply xid b sz rs
  end.

Definition add_reply (clt_nonce xid : Z) (b : option Z) (sz : Z) (s : rpcs) : rpcs :=
  with_window (<[clt_nonce := set_reply xid b sz (mget [] (reply_window_ s) clt_nonce)]>
                 (reply_window_ s)) (xid_rep_window_ s) (heap_ s) s.

(** rpcs::free_reply_window *)
Definition free_reply_window (s : rpcs) : rpcs :=
  with_window ∅ (xid_rep_window_ s)
    (foldr free (heap_ s)
       (mjoin ((λ p : Z * list reply_t, r_buf <$> p.2) <$> map_to_list (reply_window_ s)))) s.

(** rpcs::updatestat; the printing has no effect on the state. *)
Definition updatestat (proc : Z) (s : rpcs) : rpcs :=
  let cts := <[proc := mget 0 (counts_ s) proc + 1]> (counts_ s) in
  let cur := curr_counts_ s - 1 in
  with_counts (if cur =? 0 then counting_ s else cur) cts s.

(** connection::incref and decref, and the order of creation times. *)
Definition incref (c : Z) (s : rpcs) : rpcs :=
  with_conns (conns_ s) (<[c := mget 0 (refno_ s) c + 1]> (refno_ s)) s.
Definition decref (c : Z) (s : rpcs) : rpcs :=
  with_conns (conns_ s) (<[c := mget 0 (refno_ s) c - 1]> (refno_ s)) s.

Definition compare (t1 t2 : Z * Z) : Z :=
  if t2.1 <? t1.1 then 1
  else if t1.1 <? t2.1 then -1
  else if t2.2 <? t1.2 then 1
  else if t1.2 <? t2.2 then -1
  else 0.

(** A dispatch thread between two of its atomic sections: before the duplicate
    check, inside the handler, with the reply ready to be recorded, and about
    to send a buffer. *)
Inductive job :=
  | JCheck (c : Z) (h : req_header)
  | JRun (c : Z) (h : req_header)
  | JReply (c : Z) (h : req_header) (b : Z) (sz : Z)
  | JSend (c : Z) (h : req_header) (b : option Z) (sz : Z).

Section dispatch.
(** The creation time of each connection. *)
Context (create_time : Z → Z * Z).

(** rpcs::got_pdu: [succ] is the answer of the thread pool. *)
Definition got_pdu (c : Z) (succ : bool) (s : rpcs) : bool * rpcs :=
  if negb (reachable_ s) then (true, s)
  else let s := incref c s in
       (succ, if negb succ || negb (reachable_ s) then decref c s else s).

(** dispatch up to the duplicate check: [Ret None] is a return without running
    a handler, with the reply that was sent, if any. *)
Definition dispatch_begin (c : Z) (h : req_header) (header_ok : bool) (s : rpcs)
    : res (option job * option Z * rpcs) :=
  if negb header_ok then Ret (None, None, decref c s)
  else if negb (rq_srv_nonce h =? 0) && negb (rq_srv_nonce h =? nonce_ s) then
    Ret (None, Some oldsrv_failure, s)
  else if decide (rq_proc h ∈ procs_ s) then Ret (Some (JCheck c h), None, s)
  else VerifyFailed.

(** Saving the latest good connection to the client. *)
Definition save_conn (c clt : Z) (s : rpcs) : rpcs :=
  match conns_ s !! clt with
  | None => let s := incref c s in with_conns (<[clt := c]> (conns_ s)) (refno_ s) s
  | Some old =>
      if compare (create_time old) (create_time c) <? 0 then
        let s := incref c (decref old s) in
        with_conns (<[clt := c]> (conns_ s)) (refno_ s) s
      else s
  end.

(** The duplicate check and the switch up to the handler.  A failure reply is
    marshalled and sent on the spot. *)
Definition dispatch_check (c : Z) (h : req_header) (s : rpcs)
    : option job * option Z * rpcs :=
  let clt := rq_clt_nonce h in
  let '(stat, (b, sz), s) :=
    if negb (clt =? 0) then
      checkduplicate_and_update clt (u32 (rq_xid h)) (u32 (rq_xid_rep h)) (save_conn c clt s)
    else (NEW, (None, 0), s) in
  match stat with
  | NEW => (Some (JRun c h), None,
            if negb (counting_ s =? 0) then updatestat (rq_proc h) s else s)
  | INPROGRESS => (None, None, decref c s)
  | DONE => (Some (JSend c h b sz), None, s)
  | FORGOTTEN => (None, Some atmostonce_failure, decref c s)
  end.

(** The handler returned [ret], its reply was packed and [take_buf] gave the
    buffer [reply], a fresh one ([serve] of RpcStub.v says which bytes it holds). *)
Definition dispatch_run (c : Z) (h : req_header) (ret : Z) (reply : list Z) (s : rpcs)
    : res (job * rpcs) :=
  if ret =? unmarshal_args_failure then VerifyFailed
  else if ret <? 0 then VerifyFailed
  else
  let b := brk_ s in
  Ret (JReply c h b (Z.of_nat (length reply)),
   Rpcs (nonce_ s) (reachable_ s) (procs_ s) (counting_ s) (curr_counts_ s) (counts_ s)
     (reply_window_ s) (xid_rep_window_ s) (conns_ s) (refno_ s) (dead_ s)
     (<[b := reply]> (heap_ s)) (b + 1)).

(** add_reply, then the choice of the connection to answer on. *)
Definition dispatch_record (c : Z) (h : req_header) (b sz : Z) (s : rpcs) : res (job * rpcs) :=
  let clt := rq_clt_nonce h in
  let s := if 0 <? clt then add_reply clt (u32 (rq_xid h)) (Some b) sz s else s in
  if decide (c ∈ dead_ s) then
    match conns_ s !! clt with
    | None => Undef
    | Some c' => if c =? c' then Ret (JSend c h (Some b) sz, s)
                 else Ret (JSend c' h (Some b) sz, incref c' (decref c s))
    end
  else Ret (JSend c h (Some b) sz, s).

(** c->send(b, sz) and the end of dispatch: reading a freed buffer is undefined. *)
Definition dispatch_send (c : Z) (h : req_header) (b : option Z) (sz : Z) (s : rpcs)
    : res (list Z * rpcs) :=
  match b ≫= (heap_ s !!.) with
  | None => Undef
  | Some bytes =>
      let s := if rq_clt_nonce h =? 0
               then with_window (reply_window_ s) (xid_rep_window_ s) (free b (heap_ s)) s
               else s in
      Ret (bytes, decref c s)
  end.

(** ** The system: interleaved dispatch threads *)
Definition key (h : req_header) : Z * Z := (rq_clt_nonce h, u32 (rq_xid h)).

(** A connection fails (its [dead_] flag is set by the poll thread). *)
Definition conn_dies (c : Z) (s : rpcs) : rpcs :=
  Rpcs (nonce_ s) (reachable_ s) (procs_ s) (counting_ s) (curr_counts_ s) (counts_ s)
    (reply_window_ s) (xid_rep_window_ s) (conns_ s) (refno_ s) ({[c]} ∪ dead_ s)
    (heap_ s) (brk_ s).

(** [execs]: the requests whose handler was started; [hist]: the buffers
    allocated for replies with the request and the bytes; [sent]: the replies
    sent from a buffer; [failed]: the failure replies; [stray]: the replies sent
    from a buffer that had been freed. *)
Record sys := Sys {
  srv : rpcs; jobs : list job;
  execs : list (Z * Z);
  hist : list (Z * ((Z * Z) * list Z));
  sent : list ((Z * Z) * list Z);
  failed : list ((Z * Z) * Z);
  stray : list ((Z * Z) * list Z) }.

Definition opt_list {A} (o : option A) : list A := match o with Some x => [x] | None => [] end.

Inductive step : sys → sys → Prop :=
  | StepRecv c h ok s js ex hi se fa sy o f s' :
      dispatch_begin c h ok s = Ret (o, f, s') →
      step (Sys s js ex hi se fa sy)
           (Sys s' (js ++ opt_list o) ex hi se (((key h,.) <$> opt_list f) ++ fa) sy)
  | StepCheck c h s js1 js2 ex hi se fa sy o f s' :
      dispatch_check c h s = (o, f, s') →
      step (Sys s (js1 ++ JCheck c h :: js2) ex hi se fa sy)
           (Sys s' (js1 ++ opt_list o ++ js2)
              (match o with Some (JRun _ _) => key h :: ex | _ => ex end)
              hi se (((key h,.) <$> opt_list f) ++ fa) sy)
  | StepRun c h ret reply s js1 js2 ex hi se fa sy j s' :
      dispatch_run c h ret reply s = Ret (j, s') →
      step (Sys s (js1 ++ JRun c h :: js2) ex hi se fa sy)
           (Sys s' (js1 ++ j :: js2) ex ((brk_ s, (key h, reply)) :: hi) se fa sy)
  | StepRecord c h b sz s js1 js2 ex hi se fa sy j s' :
      dispatch_record c h b sz s = Ret (j, s') →
      step (Sys s (js1 ++ JReply c h b sz :: js2) ex hi se fa sy)
           (Sys s' (js1 ++ j :: js2) ex hi se fa sy)
  | StepSend c h b sz s js1 js2 ex hi se fa sy bytes s' :
      dispatch_send c h b sz s = Ret (bytes, s') →
      step (Sys s (js1 ++ JSend c h b sz :: js2) ex hi se fa sy)
           (Sys s' (js1 ++ js2) ex hi ((key h, bytes) :: se) fa sy)
  (* The buffer was freed: whatever is at its address by now is sent, perhaps a
     part of another reply. *)
  | StepSendFreed c h b sz s js1 js2 ex hi se fa sy junk :
      dispatch_send c h b sz s = Undef →
      step (Sys s (js1 ++ JSend c h b sz :: js2) ex hi se fa sy)
           (Sys (decref c s) (js1 ++ js2) ex hi se fa ((key h, junk) :: sy))
  | StepDead c s js ex hi se fa sy :
      step (Sys s js ex hi se fa sy) (Sys (conn_dies c s) js ex hi se fa sy).

(** rpcs::rpcs, with the handlers the server registers. *)
Definition rpcs_new (nonce count : Z) (procs : gset Z) : rpcs :=
  Rpcs nonce true procs count count ∅ ∅ ∅ ∅ ∅ ∅ ∅ 1.

Definition init (nonce count : Z) (procs : gset Z) : sys :=
  Sys (rpcs_new nonce count procs) [] [] [] [] [] [].

Definition reachable (nonce count : Z) (procs : gset Z) : sys → Prop :=
  rtc step (init nonce count procs).
End dispatch.

(** * The reply window *)
Lemma scan_replies_spec xr xid l kept freed o :
  scan_replies xr xid l = (kept, freed, o) → xr < xid →
  (∀ r, r ∈ kept → r ∈ l) ∧
  (∀ r, r ∈ l → xr < r_xid r → r ∈ kept) ∧
  (∀ b, b ∈ freed → ∃ r, r ∈ l ∧ r_buf r = b ∧ r_xid r ≤ xr) ∧
  match o with
  | Some r => r ∈ l ∧ r_xid r = xid
  | None => xid ∉ r_xid <$> l
  end.
Proof.
  intros E Hx. revert kept freed o E.
  induction l as [|r l IH]; intros kept freed o E; simpl in E.
  - simplify_eq. split_and!; [done|auto|by intros b ?%elem_of_nil|apply not_elem_of_nil].
  - destruct (Z.leb_spec (r_xid r) xr).
    + destruct (scan_replies xr xid l) as [[k f] o'] eqn:E'. simplify_eq.
      destruct (IH _ _ _ eq_refl) as (H1 & H2 & H4 & H3). split_and!.
      * intros r' Hr. right. auto.
      * intros r' [->|?]%elem_of_cons ?; [lia|auto].
      * intros b [->|Hb]%elem_of_cons; [exists r; split_and!; [by left|done..]|].
        destruct (H4 b Hb) as (r' & ? & ? & ?). exists r'. split_and!; [by right|done..].
      * destruct o as [r'|]; [destruct H3; split; [by right|done]|].
        simpl. rewrite not_elem_of_cons. split; [lia|done].
    + destruct (Z.eqb_spec (r_xid r) xid) as [<-|].
      * simplify_eq. split_and!; [done|done|by intros b ?%elem_of_nil|by left|done].
      * destruct (scan_replies xr xid l) as [[k f] o'] eqn:E'. simplify_eq.
        destruct (IH _ _ _ eq_refl) as (H1 & H2 & H4 & H3). split_and!.
        -- intros r' [->|?]%elem_of_cons; [by left|right; auto].
        -- intros r' [->|?]%elem_of_cons ?; [by left|right; auto].
        -- intros b Hb. destruct (H4 b Hb) as (r' & ? & ? & ?). exists r'. split_and!; [by right|done..].
        -- destruct o as [r'|]; [destruct H3; split; [by right|done]|].
           simpl. rewrite not_elem_of_cons. split; [lia|done].
Qed.

Lemma set_reply_xids xid b sz l : r_xid <$> set_reply xid b sz l = r_xid <$> l.
Proof.
  induction l as [|r l IH]; [done|]. cbn [set_reply].
  destruct (_ =? _); rewrite !fmap_cons; [done|by rewrite IH].
Qed.

Lemma set_reply_elem xid b sz l r :
  r ∈ set_reply xid b sz l → r ∈ l ∨ (r_xid r = xid ∧ r_buf r = b).
Proof.
  induction l as [|r' l IH]; simpl; [auto|].
  destruct (Z.eqb_spec (r_xid r') xid); intros [->|Hr]%elem_of_cons; simpl;
    rewrite ?elem_of_cons; [by right|by left; right|by left; left|].
  destruct (IH Hr); auto.
Qed.

Lemma free_lookup b hp l bytes : free b hp !! l = Some bytes → hp !! l = Some bytes.
Proof. destruct b; simpl; [|done]. intros [_ ?]%lookup_delete_Some. done. Qed.

Lemma frees_lookup bs hp l bytes : foldr free hp bs !! l = Some bytes → hp !! l = Some bytes.
Proof. induction bs as [|b bs IH]; simpl; [done|]. intros ?%free_lookup. auto. Qed.

Lemma frees_lookup_ne bs hp l : Some l ∉ bs → foldr free hp bs !! l = hp !! l.
Proof.
  induction bs as [|b bs IH]; simpl; [done|]. intros [Hne Hl]%not_elem_of_cons.
  destruct b as [l'|]; simpl; [|auto]. rewrite lookup_delete_ne; [auto|congruence].
Qed.

(** The four outcomes of the duplicate check, as a specification. *)
Definition ack (s : rpcs) (clt xid_rep : Z) : Z :=
  Z.max (mget 0 (xid_rep_window_ s) clt) xid_rep.

Definition seen (s : rpcs) (clt xid : Z) : Prop :=
  xid ≤ mget 0 (xid_rep_window_ s) clt ∨ xid ∈ r_xid <$> mget [] (reply_window_ s) clt.

Record check_post (clt xid xid_rep : Z) (s : rpcs) (st : rpcstate_t) (out : option Z * Z)
    (s' : rpcs) : Prop := {
  cp_ack : mget 0 (xid_rep_window_ s') clt = ack s clt xid_rep;
  cp_other : ∀ clt', clt' ≠ clt →
    mget 0 (xid_rep_window_ s') clt' = mget 0 (xid_rep_window_ s) clt' ∧
    mget [] (reply_window_ s') clt' = mget [] (reply_window_ s) clt';
  cp_keep : ∀ x, seen s clt x → seen s' clt x;
  cp_win : ∀ r, r ∈ mget [] (reply_window_ s') clt →
    r ∈ mget [] (reply_window_ s) clt ∨ (st = NEW ∧ r = reply_new xid);
  cp_heap : ∀ l b, heap_ s' !! l = Some b → heap_ s !! l = Some b;
  cp_brk : brk_ s' = brk_ s;
  cp_freed : ∀ l, heap_ s' !! l = heap_ s !! l ∨
    ∃ r, r ∈ mget [] (reply_window_ s) clt ∧ r_buf r = Some l ∧ r_xid r ≤ ack s clt xid_rep;
  cp_st : match st with
    | FORGOTTEN => xid ≤ ack s clt xid_rep
    | NEW => ack s clt xid_rep < xid ∧ ¬ seen s clt xid ∧ seen s' clt xid
    | INPROGRESS => ack s clt xid_rep < xid ∧
        ∃ r, r ∈ mget [] (reply_window_ s) clt ∧ r_xid r = xid ∧ cb_present r = false
    | DONE => ack s clt xid_rep < xid ∧
        ∃ r, r ∈ mget [] (reply_window_ s) clt ∧ r_xid r = xid ∧ cb_present r = true ∧
             out = (r_buf r, r_sz r)
    end }.

Lemma ack_if s clt xid_rep :
  (if mget 0 (xid_rep_window_ s) clt <? xid_rep then xid_rep
   else mget 0 (xid_rep_window_ s) clt) = ack s clt xid_rep.
Proof. unfold ack. destruct (Z.ltb_spec (mget 0 (xid_rep_window_ s) clt) xid_rep); lia. Qed.

Lemma checkduplicate_spec clt xid xid_rep s st out s' :
  checkduplicate_and_update clt xid xid_rep s = (st, out, s') →
  check_post clt xid xid_rep s st out s'.
Proof.
  unfold checkduplicate_and_update. rewrite ack_if.
  assert (mget 0 (xid_rep_window_ s) clt ≤ ack s clt xid_rep) as Hmono by (unfold ack; lia).
  destruct (Z.leb_spec xid (ack s clt xid_rep)) as [Hle|Hgt].
  { intros [= <- <- <-]. split; simpl; try done.
    - apply mget_insert_eq.
    - intros. by rewrite !mget_insert_ne.
    - unfold seen. simpl. rewrite !mget_insert_eq. intros x [?|?]; [left; lia|by right].
    - rewrite mget_insert_eq. auto.
    - auto. }
  destruct (scan_replies _ _ _) as [[kept freed] o] eqn:E.
  destruct (scan_replies_spec _ _ _ _ _ _ E Hgt) as (H1 & H2 & H4 & H3).
  assert (∀ l, foldr free (heap_ s) freed !! l = heap_ s !! l ∨
    ∃ r, r ∈ mget [] (reply_window_ s) clt ∧ r_buf r = Some l ∧ r_xid r ≤ ack s clt xid_rep) as Hfreed.
  { intros l. destruct (decide (Some l ∈ freed)) as [Hl|Hl]; [right; by apply H4|left; by apply frees_lookup_ne]. }
  assert (∀ x (l : list reply_t), seen s clt x → (∀ r, r ∈ kept → r ∈ l) →
    x ≤ ack s clt xid_rep ∨ x ∈ r_xid <$> l) as Hkeep.
  { intros x l [?|Hx] Hl; [left; lia|].
    apply list_elem_of_fmap in Hx as (r & -> & Hr).
    destruct (decide (ack s clt xid_rep < r_xid r)); [|left; lia].
    right. apply list_elem_of_fmap. eauto. }
  destruct o as [r|].
  - destruct H3 as [Hr Hx].
    destruct (cb_present r) eqn:Hcb; intros [= <- <- <-]; split; simpl; try done.
    all: try apply mget_insert_eq.
    all: try (intros; by rewrite !mget_insert_ne).
    all: try (unfold seen; simpl; rewrite !mget_insert_eq; auto; fail).
    all: try (rewrite mget_insert_eq; auto; fail).
    all: try (intros l b; apply frees_lookup).
    all: try exact Hfreed.
    all: split; [done|]; eauto 10.
  - intros [= <- <- <-]. split; simpl.
    + apply mget_insert_eq.
    + intros. by rewrite !mget_insert_ne.
    + unfold seen; simpl; rewrite !mget_insert_eq. intros x Hx. apply (Hkeep x _ Hx).
      intros r Hr. apply elem_of_app. by left.
    + rewrite mget_insert_eq. intros r [?| ->%list_elem_of_singleton]%elem_of_app; auto.
    + intros l b; apply frees_lookup.
    + done.
    + exact Hfreed.
    + split; [done|]. split.
      * intros [?|?]; [lia|done].
      * right. simpl. rewrite mget_insert_eq, fmap_app. apply elem_of_app. right. by left.
Qed.

(** * Invariant of the interleaved system *)
Definition run_key (j : job) : option (Z * Z) :=
  match j with JRun _ h => Some (key h) | _ => None end.

Definition job_ok (hi : list (Z * ((Z * Z) * list Z))) (j : job) : Prop :=
  match j with
  | JReply _ h b _ | JSend _ h (Some b) _ => ∃ bytes, (b, (key h, bytes)) ∈ hi
  | JSend _ _ None _ => False
  | _ => True
  end.

Definition acked (s : rpcs) (k : Z * Z) : Prop := k.2 ≤ mget 0 (xid_rep_window_ s) k.1.

Record Inv (x : sys) : Prop := {
  i_seen : ∀ c i, (c, i) ∈ execs x → c ≠ 0 → seen (srv x) c i;
  i_nodup : NoDup (filter (λ k, k.1 ≠ 0) (execs x));
  i_perm : execs x ≡ₚ omap run_key (jobs x) ++ (hist x).*2.*1;
  i_heap : ∀ l b, heap_ (srv x) !! l = Some b → ∃ k, (l, (k, b)) ∈ hist x;
  i_job : ∀ j, j ∈ jobs x → job_ok (hist x) j;
  i_win : ∀ c r l, r ∈ mget [] (reply_window_ (srv x)) c → r_buf r = Some l →
    ∃ b, (l, ((c, r_xid r), b)) ∈ hist x;
  i_brk : ∀ l e, (l, e) ∈ hist x → l < brk_ (srv x);
  i_locs : NoDup (hist x).*1;
  i_sent : ∀ k b, (k, b) ∈ sent x → ∃ l, (l, (k, b)) ∈ hist x;
  i_done : ∀ c r, r ∈ mget [] (reply_window_ (srv x)) c → cb_present r = true → is_Some (r_buf r);
  i_live : ∀ l k b, (l, (k, b)) ∈ hist x → k.1 ≠ 0 → is_Some (heap_ (srv x) !! l) ∨ acked (srv x) k;
  i_stray : ∀ k b, (k, b) ∈ stray x → k.1 ≠ 0 → acked (srv x) k }.

(** The part of the server state the invariant is about. *)
Definition core (s : rpcs) := (reply_window_ s, xid_rep_window_ s, heap_ s, brk_ s).

Lemma core_save_conn ct c clt s : core (save_conn ct c clt s) = core s.
Proof. unfold save_conn. destruct (conns_ s !! clt); [destruct (_ <? 0)|]; done. Qed.

Lemma core_updatestat (b : bool) p s : core (if b then updatestat p s else s) = core s.
Proof. by destruct b. Qed.

Lemma core_decref c s : core (decref c s) = core s.
Proof. done. Qed.

Lemma core_seen s s' c i : core s = core s' → seen s c i → seen s' c i.
Proof. unfold seen, core. intros [= -> -> _ _]. done. Qed.

Lemma Inv_core s s' js ex hi se fa sy fa' :
  core s' = core s → Inv (Sys s js ex hi se fa sy) → Inv (Sys s' js ex hi se fa' sy).
Proof.
  intros E [H1 H2 H3 H4 H5 H6 H7 H8 H9 H10 H11 H12]. pose proof (core_seen s s') as Hs.
  injection E as E1 E2 E3 E4. split; simpl in *; unfold acked in *; rewrite ?E1, ?E2, ?E3, ?E4; auto.
  intros c i ??. apply Hs; [unfold core; congruence|auto].
Qed.

(** Replacing one job by others: what has to be checked. *)
Lemma Inv_jobs s js js' ex hi se fa sy :
  Inv (Sys s js ex hi se fa sy) → omap run_key js' = omap run_key js →
  (∀ j, j ∈ js' → j ∈ js ∨ job_ok hi j) → Inv (Sys s js' ex hi se fa sy).
Proof.
  intros [H1 H2 H3 H4 H5 H6 H7 H8 H9 H10 H11 H12] E Hj. split; simpl in *; auto.
  - by rewrite E.
  - intros j [?|?]%Hj; auto.
Qed.

Lemma elem_of_swap {A} (x y : A) l1 l2 : x ∈ l1 ++ y :: l2 ↔ x ∈ l1 ++ l2 ∨ x = y.
Proof. rewrite !elem_of_app, elem_of_cons. tauto. Qed.

Section invariant.
Context (create_time : Z → Z * Z).

Lemma Inv_recv c h ok s js ex hi se fa sy o f s' :
  dispatch_begin c h ok s = Ret (o, f, s') → Inv (Sys s js ex hi se fa sy) →
  Inv (Sys s' (js ++ opt_list o) ex hi se (((key h,.) <$> opt_list f) ++ fa) sy).
Proof.
  intros E HI. assert (core s' = core s ∧ (o = None ∨ o = Some (JCheck c h))) as [Ec Ho].
  { revert E. unfold dispatch_begin. repeat case_match; intros [= <- <- <-]; auto. }
  eapply Inv_core; [done|]. eapply (Inv_jobs _ js); [exact HI| |].
  - rewrite omap_app. destruct Ho as [-> | ->]; simpl; by rewrite app_nil_r.
  - intros j [?|Hj]%elem_of_app; [by left|]. right.
    destruct Ho as [-> | ->]; [by apply elem_of_nil in Hj|].
    by apply list_elem_of_singleton in Hj as ->.
Qed.

(** A location belongs to one request. *)
Lemma hist_at {A} (hi : list (Z * A)) l e1 e2 : NoDup hi.*1 → (l, e1) ∈ hi → (l, e2) ∈ hi → e1 = e2.
Proof.
  intros HN H1 H2. destruct (list_elem_of_lookup_1 _ _ H1) as [i1 L1].
  destruct (list_elem_of_lookup_1 _ _ H2) as [i2 L2]. assert (i1 = i2) as <-.
  { apply (NoDup_lookup hi.*1 i1 i2 l HN); rewrite list_lookup_fmap, ?L1, ?L2; done. }
  congruence.
Qed.

(** The effect of the duplicate check on the invariant, before the thread goes on. *)
Lemma Inv_check_win clt xid xr s st out s' js ex hi se fa sy :
  check_post clt xid xr s st out s' → Inv (Sys s js ex hi se fa sy) →
  Inv (Sys s' js ex hi se fa sy).
Proof.
  intros [C1 C2 C3 C4 C5 C6 C8 C7] [H1 H2 H3 H4 H5 H6 H7 H8 H9 H10 H11 H12].
  assert (∀ k, acked s k → acked s' k) as Hack.
  { intros [c i]. unfold acked. simpl. destruct (decide (c = clt)) as [->|Hne]; [|by destruct (C2 c Hne) as [-> _]].
    rewrite C1. unfold ack. lia. }
  split; simpl in *; auto.
  - intros c i Hi Hc. specialize (H1 c i Hi Hc). destruct (decide (c = clt)) as [->|Hne]; auto.
    unfold seen in *. destruct (C2 c Hne) as [-> ->]. done.
  - intros c r l Hr Hb. destruct (decide (c = clt)) as [->|Hne].
    + destruct (C4 r Hr) as [?|[_ ->]]; [eauto|done].
    + rewrite (proj2 (C2 c Hne)) in Hr. eauto.
  - by rewrite C6.
  - intros c r Hr. destruct (decide (c = clt)) as [->|Hne].
    + destruct (C4 r Hr) as [?|[_ ->]]; [eauto|done].
    + rewrite (proj2 (C2 c Hne)) in Hr. eauto.
  - intros l k b Hl Hk. destruct (H11 l k b Hl Hk) as [Hh|Hh]; [|right; auto].
    destruct (C8 l) as [->|(r & Hr & Hb & Hx)]; [by left|]. right.
    destruct (H6 clt r l Hr Hb) as [b' Hb'].
    pose proof (hist_at _ _ _ _ H8 Hl Hb') as [= -> ->]. unfold acked. simpl. by rewrite C1.
  - eauto.
Qed.

(** Starting a handler for a request that was not seen before. *)
Lemma Inv_start c h s js1 js2 ex hi se fa sy :
  Inv (Sys s (js1 ++ JCheck c h :: js2) ex hi se fa sy) →
  (rq_clt_nonce h ≠ 0 → (key h ∉ ex) ∧ seen s (rq_clt_nonce h) (u32 (rq_xid h))) →
  Inv (Sys s (js1 ++ JRun c h :: js2) (key h :: ex) hi se fa sy).
Proof.
  intros [H1 H2 H3 H4 H5 H6 H7 H8 H9 H10 H11 H12] Hk. split; simpl in *; auto.
  - intros c' i [Heq|?]%elem_of_cons Hc; [|auto]. injection Heq as -> ->. by apply Hk.
  - rewrite filter_cons. case_decide as Hc; [|done]. constructor; [|done].
    rewrite list_elem_of_filter. intros [_ ?]. by apply (Hk Hc).
  - rewrite omap_app in *. simpl in *. rewrite H3.
    rewrite <- !app_assoc. simpl. apply Permutation_middle.
  - intros j Hj. apply elem_of_swap in Hj as [?| ->]; [|done].
    apply H5, elem_of_swap. auto.
Qed.

Lemma Inv_drop c h s js1 js2 ex hi se fa sy o :
  Inv (Sys s (js1 ++ JCheck c h :: js2) ex hi se fa sy) →
  (∀ j, j ∈ opt_list o → run_key j = None ∧ job_ok hi j) →
  Inv (Sys s (js1 ++ opt_list o ++ js2) ex hi se fa sy).
Proof.
  intros HI Ho. eapply Inv_jobs; [exact HI| |].
  - rewrite !omap_app. simpl. destruct o as [j|]; [|done]. simpl.
    destruct (Ho j) as [-> _]; [by left|done].
  - intros j. rewrite !elem_of_app, elem_of_cons.
    intros [?|[?|?]]; [by left; left| |by left; right; right].
    right. by apply Ho.
Qed.

Lemma Inv_check c h s js1 js2 ex hi se fa sy o f s' :
  dispatch_check create_time c h s = (o, f, s') →
  Inv (Sys s (js1 ++ JCheck c h :: js2) ex hi se fa sy) →
  Inv (Sys s' (js1 ++ opt_list o ++ js2)
         (match o with Some (JRun _ _) => key h :: ex | _ => ex end)
         hi se (((key h,.) <$> opt_list f) ++ fa) sy).
Proof.
  unfold dispatch_check. intros E HI.
  destruct (Z.eqb_spec (rq_clt_nonce h) 0) as [Hz|Hz]; simpl in E.
  { injection E as <- <- <-. eapply Inv_core; [apply core_updatestat|].
    apply (Inv_start c h s js1 js2 ex hi se fa sy HI). done. }
  set (s0 := save_conn create_time c (rq_clt_nonce h) s) in E.
  assert (Inv (Sys s0 (js1 ++ JCheck c h :: js2) ex hi se fa sy)) as HI0.
  { eapply Inv_core; [apply core_save_conn|done]. }
  destruct (checkduplicate_and_update _ _ _ s0) as [[st [b sz]] s1] eqn:Ec.
  apply checkduplicate_spec in Ec as Hc.
  pose proof (Inv_check_win _ _ _ _ _ _ _ _ _ _ _ _ _ Hc HI0) as HI1.
  pose proof (cp_st _ _ _ _ _ _ _ Hc) as Hst.
  destruct st; injection E as <- <- <-; (eapply Inv_core; [first [apply core_updatestat|apply core_decref|reflexivity]|]).
  - apply (Inv_start c h _ js1 js2 ex hi se fa sy HI1). intros _.
    destruct Hst as (_ & Hn & Hy). split; [|done].
    intros Hin. apply Hn. by apply (i_seen _ HI0).
  - apply (Inv_drop c h _ js1 js2 ex hi se fa sy None HI1). intros j []%elem_of_nil.
  - apply (Inv_drop c h _ js1 js2 ex hi se fa sy (Some (JSend c h b sz)) HI1).
    intros j ->%list_elem_of_singleton. split; [done|]. simpl.
    destruct Hst as (_ & r & Hr & Hx & Hp & [= Hb _]).
    destruct b as [b|]; [|by destruct (i_done _ HI0 _ _ Hr Hp) as [? ?]; congruence].
    destruct (i_win _ HI0 _ _ b Hr) as [bytes ?]; [done|].
    exists bytes. unfold key. by rewrite <- Hx.
  - apply (Inv_drop c h _ js1 js2 ex hi se fa sy None HI1). intros j []%elem_of_nil.
Qed.

Lemma job_ok_mono hi e j : job_ok hi j → job_ok (e :: hi) j.
Proof.
  destruct j as [| |? ? ? ?|? ? [?|] ?]; simpl; try done;
    intros [bytes ?]; exists bytes; by right.
Qed.

Lemma Inv_run c h ret reply s js1 js2 ex hi se fa sy j s' :
  dispatch_run c h ret reply s = Ret (j, s') →
  Inv (Sys s (js1 ++ JRun c h :: js2) ex hi se fa sy) →
  Inv (Sys s' (js1 ++ j :: js2) ex ((brk_ s, (key h, reply)) :: hi) se fa sy).
Proof.
  unfold dispatch_run. do 2 (case_match; [done|]).
  intros [= <- <-] [H1 H2 H3 H4 H5 H6 H7 H8 H9 H10 H11 H12]. split; simpl in *.
  - intros c' i Hi Hc. apply (H1 c' i Hi Hc).
  - done.
  - rewrite omap_app in *. simpl in *. rewrite H3.
    rewrite <- !app_assoc. simpl. apply Permutation_app_head, Permutation_middle.
  - intros l b. rewrite lookup_insert_Some. intros [[<- <-]|[_ Hl]]; [eexists; by left|].
    destruct (H4 _ _ Hl) as [k ?]. exists k. by right.
  - intros j Hj. apply elem_of_swap in Hj as [Hj| ->].
    + apply job_ok_mono, H5, elem_of_swap. by left.
    + simpl. exists reply. by left.
  - intros c' r l Hr Hb. destruct (H6 c' r l Hr Hb) as [b ?]. exists b. by right.
  - intros l e [[= -> ->]|He]%elem_of_cons; [lia|]. specialize (H7 l e He). lia.
  - constructor; [|done]. intros ([l e] & E & Hl)%list_elem_of_fmap. simpl in E. subst.
    apply H7 in Hl. lia.
  - intros k b Hk. destruct (H9 k b Hk) as [l ?]. exists l. by right.
  - done.
  - intros l k b [[= -> -> ->]|Hl]%elem_of_cons Hk; [left; rewrite lookup_insert_eq; eauto|].
    rewrite lookup_insert_ne; [by eauto|]. intros <-. apply H7 in Hl. lia.
  - done.
Qed.

Lemma Inv_add_reply h b sz s js ex hi se fa sy :
  Inv (Sys s js ex hi se fa sy) → (∃ bytes, (b, (key h, bytes)) ∈ hi) →
  Inv (Sys (add_reply (rq_clt_nonce h) (u32 (rq_xid h)) (Some b) sz s) js ex hi se fa sy).
Proof.
  intros [H1 H2 H3 H4 H5 H6 H7 H8 H9 H10 H11 H12] [bytes Hb]. split; simpl in *; auto.
  - intros c i Hi Hc. specialize (H1 c i Hi Hc). unfold seen in *. simpl.
    destruct (decide (c = rq_clt_nonce h)) as [->|].
    + by rewrite mget_insert_eq, set_reply_xids.
    + by rewrite mget_insert_ne.
  - intros c r l. destruct (decide (c = rq_clt_nonce h)) as [->|].
    + rewrite mget_insert_eq. intros [?|[Hx Hl]]%set_reply_elem Hr; [eauto|].
      rewrite Hr in Hl. injection Hl as ->. exists bytes. unfold key in Hb. by rewrite Hx.
    + rewrite mget_insert_ne by done. eauto.
  - intros c r. destruct (decide (c = rq_clt_nonce h)) as [->|].
    + rewrite mget_insert_eq. intros [?|[Hx ->]]%set_reply_elem; eauto.
    + rewrite mget_insert_ne by done. eauto.
Qed.

Lemma Inv_record c h b sz s js1 js2 ex hi se fa sy j s' :
  dispatch_record c h b sz s = Ret (j, s') →
  Inv (Sys s (js1 ++ JReply c h b sz :: js2) ex hi se fa sy) →
  Inv (Sys s' (js1 ++ j :: js2) ex hi se fa sy).
Proof.
  intros E HI. assert (∃ bytes, (b, (key h, bytes)) ∈ hi) as Hb.
  { apply (i_job _ HI (JReply c h b sz)). apply elem_of_swap. by right. }
  unfold dispatch_record in E.
  set (s1 := if 0 <? rq_clt_nonce h then _ else s) in E.
  assert (Inv (Sys s1 (js1 ++ JReply c h b sz :: js2) ex hi se fa sy)) as HI1.
  { unfold s1. destruct (0 <? _); [by apply Inv_add_reply|done]. }
  assert (core s' = core s1 ∧ ∃ c', j = JSend c' h (Some b) sz) as [Ec [c' ->]].
  { revert E. repeat case_match; intros [= <- <-]; eauto. }
  eapply Inv_core; [exact Ec|]. eapply Inv_jobs; [exact HI1| |].
  - by rewrite !omap_app.
  - intros j [?| ->]%elem_of_swap; [left; apply elem_of_swap; by left|]. right. exact Hb.
Qed.

Lemma Inv_send c h b sz s js1 js2 ex hi se fa sy bytes s' :
  dispatch_send c h b sz s = Ret (bytes, s') →
  Inv (Sys s (js1 ++ JSend c h b sz :: js2) ex hi se fa sy) →
  Inv (Sys s' (js1 ++ js2) ex hi ((key h, bytes) :: se) fa sy).
Proof.
  unfold dispatch_send. intros E [H1 H2 H3 H4 H5 H6 H7 H8 H9 H10 H11 H12]; simpl in *.
  destruct b as [b|]; simpl in E; [|done].
  destruct (heap_ s !! b) as [bytes'|] eqn:Eb; [|done]. injection E as -> <-.
  destruct (H5 (JSend c h (Some b) sz)) as [by2 Hby]; [apply elem_of_swap; by right|].
  assert (by2 = bytes) as -> by (destruct (H4 _ _ Eb) as [k Hk]; by pose proof (hist_at _ _ _ _ H8 Hby Hk) as [= _ ->]).
  assert (∀ k, acked (decref c (if rq_clt_nonce h =? 0 then with_window (reply_window_ s) (xid_rep_window_ s)
    (delete b (heap_ s)) s else s)) k ↔ acked s k) as Ha by (intros k; by destruct (rq_clt_nonce h =? 0)).
  split; simpl; auto.
  - intros c' i Hi Hc. specialize (H1 c' i Hi Hc). unfold seen in *.
    by destruct (rq_clt_nonce h =? 0).
  - rewrite H3, !omap_app. done.
  - intros l bs Hl. apply H4. revert Hl. destruct (rq_clt_nonce h =? 0); simpl; [|done].
    apply (free_lookup (Some b)).
  - intros j Hj. apply H5, elem_of_swap. by left.
  - intros c' r l Hr. apply (H6 c' r l). by destruct (rq_clt_nonce h =? 0).
  - by destruct (rq_clt_nonce h =? 0).
  - intros k b' [[= -> ->]|?]%elem_of_cons; eauto.
  - by destruct (rq_clt_nonce h =? 0).
  - intros l k b' Hl Hk. rewrite Ha. destruct (H11 l k b' Hl Hk) as [Hh|Hh]; [left|by right].
    destruct (Z.eqb_spec (rq_clt_nonce h) 0) as [E0|]; [|done]. simpl. rewrite lookup_delete_ne; [done|].
    intros <-. by pose proof (hist_at _ _ _ _ H8 Hl Hby) as [= -> _].
  - intros k b' Hk. rewrite Ha. eauto.
Qed.

(** A freed buffer is one of a request that was acknowledged. *)
Lemma Inv_send_freed c h b sz s js1 js2 ex hi se fa sy junk :
  dispatch_send c h b sz s = Undef →
  Inv (Sys s (js1 ++ JSend c h b sz :: js2) ex hi se fa sy) →
  Inv (Sys (decref c s) (js1 ++ js2) ex hi se fa ((key h, junk) :: sy)).
Proof.
  unfold dispatch_send. intros E [H1 H2 H3 H4 H5 H6 H7 H8 H9 H10 H11 H12]; simpl in *.
  assert (job_ok hi (JSend c h b sz)) as Hj by (apply H5, elem_of_swap; by right).
  split; simpl; auto.
  - rewrite H3, !omap_app. done.
  - intros j Hj'. apply H5, elem_of_swap. by left.
  - intros k b' [[= -> ->]|?]%elem_of_cons; [|eauto]. intros Hk.
    destruct b as [b|]; [|done]. destruct Hj as [bytes Hb]. destruct (H11 _ _ _ Hb Hk) as [[? Eh]|Ha]; [|exact Ha].
    simpl in E. by rewrite Eh in E.
Qed.

Lemma Inv_init nonce count procs : Inv (init nonce count procs).
Proof.
  split; simpl; try (intros; set_solver).
  - constructor.
  - constructor.
Qed.

Lemma Inv_step x y : step create_time x y → Inv x → Inv y.
Proof.
  destruct 1; eauto using Inv_recv, Inv_check, Inv_run, Inv_record, Inv_send, Inv_send_freed.
  by apply Inv_core.
Qed.

Lemma reachable_Inv nonce count procs x : reachable create_time nonce count procs x → Inv x.
Proof.
  intros H. assert (Inv (init nonce count procs)) as HI by apply Inv_init.
  unfold reachable in H. induction H; eauto using Inv_step.
Qed.

Lemma sent_executed x k b : Inv x → (k, b) ∈ sent x → k ∈ execs x.
Proof.
  intros H [l Hl]%(i_sent _ H). rewrite (i_perm _ H). apply elem_of_app. right.
  apply list_elem_of_fmap. exists (k, b). split; [done|]. apply list_elem_of_fmap. by exists (l, (k, b)).
Qed.

Lemma hist_unique x l1 l2 k b1 b2 :
  Inv x → k.1 ≠ 0 → (l1, (k, b1)) ∈ hist x → (l2, (k, b2)) ∈ hist x → b1 = b2.
Proof.
  intros HI Hk H1 H2. pose proof (i_nodup _ HI) as HN.
  rewrite (i_perm _ HI), filter_app in HN. apply NoDup_app in HN as (_ & _ & HN).
  set (hs := filter (λ e : Z * ((Z * Z) * list Z), e.2.1.1 ≠ 0) (hist x)).
  assert (filter (λ k : Z * Z, k.1 ≠ 0) (hist x).*2.*1 = hs.*2.*1) as E.
  { unfold hs. clear. induction (hist x) as [|e l IH]; [done|].
    rewrite !fmap_cons, !filter_cons. repeat case_decide; simpl in *; try done.
    by rewrite IH. }
  rewrite E in HN.
  assert (∀ l b, (l, (k, b)) ∈ hist x → ∃ i, hs !! i = Some (l, (k, b))) as Hl.
  { intros l b Hb. apply list_elem_of_lookup_1. unfold hs. by apply list_elem_of_filter. }
  destruct (Hl _ _ H1) as [i1 L1]. destruct (Hl _ _ H2) as [i2 L2].
  assert (i1 = i2) as <-.
  { apply (NoDup_lookup _ i1 i2 k HN); rewrite !list_lookup_fmap, ?L1, ?L2; done. }
  congruence.
Qed.
End invariant.

(** * Theorems *)

(** The contract stated in the comment above checkduplicate_and_update. *)
Definition classify (acked xid : Z) (replys : list reply_t) : rpcstate_t :=
  if xid <=? acked then FORGOTTEN
  else match snd <$> list_find (λ r, r_xid r = xid) replys with
       | None => NEW
       | Some r => if cb_present r then DONE else INPROGRESS
       end.

(** The loop of the duplicate check: it goes up to the first entry of the request,
    if there is one, and takes out the acknowledged entries it passes. *)
Lemma scan_replies_exact xr xid l :
  xr < xid →
  match list_find (λ r, r_xid r = xid) l with
  | Some (i, r) =>
      scan_replies xr xid l =
        (filter (λ r, xr < r_xid r) (take i l) ++ drop i l,
         r_buf <$> filter (λ r, r_xid r ≤ xr) (take i l), Some r)
  | None =>
      scan_replies xr xid l =
        (filter (λ r, xr < r_xid r) l, r_buf <$> filter (λ r, r_xid r ≤ xr) l, None)
  end.
Proof.
  intros Hx. induction l as [|r l IH]; [done|]. cbn [list_find scan_replies]. case_decide as Hr.
  - destruct (Z.leb_spec (r_xid r) xr); [lia|]. destruct (Z.eqb_spec (r_xid r) xid); [|done]. done.
  - destruct (list_find _ l) as [[i r']|]; cbn [fmap option_fmap option_map prod_map fst snd];
      rewrite IH; cbn [take drop]; rewrite !filter_cons; destruct (Z.leb_spec (r_xid r) xr).
    1,3: rewrite (decide_False (P := xr < r_xid r)), (decide_True (P := r_xid r ≤ xr)) by lia; done.
    all: destruct (Z.eqb_spec (r_xid r) xid); [done|].
    all: rewrite (decide_True (P := xr < r_xid r)), (decide_False (P := r_xid r ≤ xr)) by lia; done.
Qed.


(** C3.  At-most-once execution: however the network repeats, reorders and
    delays requests, and however the dispatch threads interleave, the handler
    of a request of a client that asked for it (nonce not 0) is started at
    most once. *)
Theorem at_most_once (create_time : Z → Z * Z) (nonce count : Z) (procs : gset Z) (x : sys) :
  reachable create_time nonce count procs x →
  NoDup (filter (λ k, k.1 ≠ 0) (execs x)).
Proof. intros H. apply (i_nodup _ (reachable_Inv _ _ _ _ _ H)). Qed.

(** C11.  Replies are replayed faithfully: every reply sent from a live buffer for
    a request of an at-most-once client is the bytes that an execution of its
    handler produced, and all executions that are recorded for the request
    produced these bytes (there is only one).  A reply is sent from a buffer that
    was freed, with bytes that may be anything, only for a request that the client
    has acknowledged, so for one whose answer it no longer waits for. *)
Theorem replies_consistent (create_time : Z → Z * Z) (nonce count : Z) (procs : gset Z)
    (x : sys) (k : Z * Z) (b : list Z) :
  reachable create_time nonce count procs x → k.1 ≠ 0 →
  ((k, b) ∈ sent x →
     k ∈ execs x ∧ (∃ l, (l, (k, b)) ∈ hist x) ∧ ∀ l b', (l, (k, b')) ∈ hist x → b' = b) ∧
  ((k, b) ∈ stray x → k.2 ≤ mget 0 (xid_rep_window_ (srv x)) k.1).
Proof.
  intros H Hk. apply reachable_Inv in H. split; [|intros Hs; exact (i_stray _ H k b Hs Hk)].
  intros Hs. destruct (i_sent _ H _ _ Hs) as [l Hl].
  split_and!; [by eapply sent_executed|by exists l|intros; by eapply hist_unique].
Qed.

(** A request for an earlier incarnation of the server is refused without
    running anything, but the reference that [got_pdu] took on the connection
    is never given back on this path. *)
Theorem oldsrv_leaks_reference (c : Z) (h : req_header) (s : rpcs) :
  reachable_ s = true → rq_srv_nonce h ≠ 0 → rq_srv_nonce h ≠ nonce_ s →
  let s1 := (got_pdu c true s).2 in
  dispatch_begin c h true s1 = Ret (None, Some oldsrv_failure, s1) ∧
  mget 0 (refno_ s1) c = mget 0 (refno_ s) c + 1.
Proof.
  intros Hr H0 Hn. unfold got_pdu. rewrite Hr. simpl. rewrite Hr. simpl. split.
  - unfold dispatch_begin. simpl.
    destruct (Z.eqb_spec (rq_srv_nonce h) 0); [done|].
    by destruct (Z.eqb_spec (rq_srv_nonce h) (nonce_ s)).
  - apply mget_insert_eq.
Qed.

(** ** A concrete run *)
Definition ex_ct (c : Z) : Z * Z := (c, 0).
Definition ex_req (xid rep : Z) : req_header := ReqHeader xid 1 5 0 rep.

(** One request executed and answered, its duplicate answered from the window. *)
Definition ex_end : sys :=
  Sys (Rpcs 77 true {[1]} 0 0 ∅ {[5 := [Reply 1 true (Some 1) 2]]} {[5 := 0]} {[5 := 3]}
         {[3 := -1]} ∅ {[1 := [9; 8]]} 2)
    [] [(5, 1)] [(1, ((5, 1), [9; 8]))] [((5, 1), [9; 8]); ((5, 1), [9; 8])] [] [].

Tactic Notation "run_step" uconstr(c) :=
  eapply rtc_l; [eapply c; vm_compute; reflexivity|]; cbn [opt_list app fmap list_fmap].

Lemma ex_end_reachable : reachable ex_ct 77 0 {[1]} ex_end.
Proof.
  unfold reachable, init.
  run_step (StepRecv ex_ct 3 (ex_req 1 0) true).
  run_step (StepCheck ex_ct 3 (ex_req 1 0) _ [] []).
  run_step (StepRun ex_ct 3 (ex_req 1 0) 0 [9; 8] _ [] []).
  run_step (StepRecord ex_ct 3 (ex_req 1 0) 1 2 _ [] []).
  run_step (StepSend ex_ct 3 (ex_req 1 0) (Some 1) 2 _ [] []).
  run_step (StepRecv ex_ct 3 (ex_req 1 0) true).
  run_step (StepCheck ex_ct 3 (ex_req 1 0) _ [] []).
  run_step (StepSend ex_ct 3 (ex_req 1 0) (Some 1) 2 _ [] []).
  apply rtc_refl.
Qed.

Lemma at_most_once_witness : NoDup (filter (λ k : Z * Z, k.1 ≠ 0) (execs ex_end)).
Proof. apply (at_most_once ex_ct 77 0 {[1]} ex_end). exact ex_end_reachable. Defined.

(** A duplicate whose stored reply is freed before it is sent. *)
Definition ex_freed : sys :=
  Sys (Rpcs 77 true {[1]} 0 0 ∅ {[5 := [reply_new 2]]} {[5 := 1]} {[5 := 3]}
         {[3 := -1]} ∅ ∅ 2)
    [JRun 3 (ex_req 2 1)] [(5, 2); (5, 1)] [(1, ((5, 1), [9; 8]))] [((5, 1), [9; 8])] [] [((5, 1), [0; 7])].

Lemma ex_freed_reachable : reachable ex_ct 77 0 {[1]} ex_freed.
Proof.
  unfold reachable, init.
  run_step (StepRecv ex_ct 3 (ex_req 1 0) true).
  run_step (StepCheck ex_ct 3 (ex_req 1 0) _ [] []).
  run_step (StepRun ex_ct 3 (ex_req 1 0) 0 [9; 8] _ [] []).
  run_step (StepRecord ex_ct 3 (ex_req 1 0) 1 2 _ [] []).
  run_step (StepSend ex_ct 3 (ex_req 1 0) (Some 1) 2 _ [] []).
  run_step (StepRecv ex_ct 3 (ex_req 1 0) true).
  run_step (StepCheck ex_ct 3 (ex_req 1 0) _ [] []).
  run_step (StepRecv ex_ct 3 (ex_req 2 1) true).
  run_step (StepCheck ex_ct 3 (ex_req 2 1) _ [JSend 3 (ex_req 1 0) (Some 1) 2] []).
  eapply rtc_l; [eapply (StepSendFreed ex_ct 3 (ex_req 1 0) (Some 1) 2 _ [] [JRun 3 (ex_req 2 1)] _ _ _ _ _ [0; 7]);
    vm_compute; reflexivity|].
  apply rtc_refl.
Qed.

Lemma replies_consistent_witness :
  (((5, 1), [9; 8]) ∈ sent ex_freed ∧ (5, 1) ∈ execs ex_freed ∧ (∃ l, (l, ((5, 1), [9; 8])) ∈ hist ex_freed)) ∧
  ((5, 1), [0; 7]) ∈ stray ex_freed ∧ 1 ≤ mget 0 (xid_rep_window_ (srv ex_freed)) 5.
Proof.
  assert (((5, 1), [9; 8]) ∈ sent ex_freed) as H1 by apply list_elem_of_here.
  assert (((5, 1), [0; 7]) ∈ stray ex_freed) as H2 by apply list_elem_of_here.
  destruct (replies_consistent ex_ct 77 0 {[1]} ex_freed (5, 1) [9; 8] ex_freed_reachable) as [W1 _]; [discriminate|].
  destruct (replies_consistent ex_ct 77 0 {[1]} ex_freed (5, 1) [0; 7] ex_freed_reachable) as [_ W2]; [discriminate|].
  destruct (W1 H1) as (W3 & W4 & _). exact (conj (conj H1 (conj W3 W4)) (conj H2 (W2 H2))).
Defined.

Lemma oldsrv_leaks_reference_witness :
  mget 0 (refno_ (got_pdu 3 true (rpcs_new 77 0 ∅)).2) 3 = 0 + 1.
Proof.
  apply (oldsrv_leaks_reference 3 (ReqHeader 1 1 5 76 0) (rpcs_new 77 0 ∅));
    [reflexivity|discriminate|discriminate].
Defined.

(** A reply buffer can be freed while another thread still has to send it:
    after a duplicate request found the stored reply, and before it is sent, a
    request that acknowledges the reply makes the server free the buffer; the
    pending send then reads freed memory. *)
Theorem reply_used_after_free :
  ∃ x c h b sz, reachable ex_ct 77 0 {[1]} x ∧ JSend c h b sz ∈ jobs x ∧
    dispatch_send c h b sz (srv x) = Undef.
Proof.
  eexists _, 3, (ex_req 1 0), (Some 1), 2. split_and!.
  - unfold reachable, init.
    run_step (StepRecv ex_ct 3 (ex_req 1 0) true).
    run_step (StepCheck ex_ct 3 (ex_req 1 0) _ [] []).
    run_step (StepRun ex_ct 3 (ex_req 1 0) 0 [9; 8] _ [] []).
    run_step (StepRecord ex_ct 3 (ex_req 1 0) 1 2 _ [] []).
    run_step (StepSend ex_ct 3 (ex_req 1 0) (Some 1) 2 _ [] []).
    run_step (StepRecv ex_ct 3 (ex_req 1 0) true).
    run_step (StepCheck ex_ct 3 (ex_req 1 0) _ [] []).
    run_step (StepRecv ex_ct 3 (ex_req 2 1) true).
    run_step (StepCheck ex_ct 3 (ex_req 2 1) _ [JSend 3 (ex_req 1 0) (Some 1) 2] []).
    apply rtc_refl.
  - left.
  - vm_compute. reflexivity.
Qed.
