(* ===== verification/ConnLife.v ===== *)
(** The life of connection objects (rpc/connection.cc): reference counts, death,
    the buffer a send owns, the callbacks the poll manager makes, deletion; and
    the client's use of them (rpcc::get_refconn, call1 and ~rpcc of rpc/rpc.cc).

    Connections are heap locations; one that was deleted is no longer in the
    heap, and using it is undefined.  The poll manager is modelled by its table
    and by the callback its thread is about to make: that thread reads the table
    without its mutex, so that a descriptor can be removed between the test of
    callbacks_[fd] and the call.  block_remove_fd waits until no such callback is
    left, unless its pthread_cond_wait wakes without a signal, which POSIX allows;
    the connections for which that happens are recorded in [early].  The bytes on
    the wire are the subject of Connection.v, the poll manager that of PollMgr.v
    and PollLoop.v, the server's use of connections that of ConnServer.v. *)
From S2P Require Import Prelude PollMgr.
Local Open Scope Z_scope.

(** ** Objects

    [co_wbuf]: wpdu_.buf is not null; [co_time]: create_time_. *)
Record cobj := CObj { co_refno : Z; co_dead : bool; co_wbuf : bool; co_fd : Z; co_time : Z * Z }.

(** [cbs]: callbacks_ of the poll manager; [polled]: the connection, descriptor and
    kind (true: write_cb) of the callback that its thread is about to make;
    [early]: connections whose removal returned before that callback was made. *)
Record cheap := CHeap {
  objs : gmap Z cobj; next_obj : Z; cbs : gmap Z Z; polled : option (Z * Z * bool); early : list Z }.

Definition cheap_new : cheap := CHeap ∅ 1 ∅ None [].

Abbreviation C := (ST cheap).

Definition with_objs (m : gmap Z cobj) (s : cheap) : cheap := CHeap m (next_obj s) (cbs s) (polled s) (early s).

Definition with_cbs (t : gmap Z Z) (s : cheap) : cheap := CHeap (objs s) (next_obj s) t (polled s) (early s).

Definition c_deref (c : Z) : C cobj := λ s,
  match objs s !! c with Some o => Ret (o, s) | None => Undef end.

Definition c_store (c : Z) (o : cobj) : C unit := λ s, Ret (tt, with_objs (<[c := o]> (objs s)) s).

Definition c_free (c : Z) : C unit := λ s, Ret (tt, with_objs (delete c (objs s)) s).

(** ** The poll manager's table *)

(** PollMgr::add_callback *)
Definition c_add_callback (fd c : Z) : C unit := λ s,
  VERIFY (fd <? MAX_POLL_FDS);;
  VERIFY (match cbs s !! fd with None => true | Some c' => c' =? c end);;
  Ret (tt, with_cbs (<[fd := c]> (cbs s)) s).

(** PollMgr::del_callback with CB_RDWR.  With CB_WRONLY it leaves the table as it
    is: as long as a connection lives its descriptor is watched for reading. *)
Definition c_del_callback (fd : Z) : C unit := λ s, Ret (tt, with_cbs (delete fd (cbs s)) s).

(** The return of PollMgr::block_remove_fd: after the callback that is about to be
    made, or, when pthread_cond_wait wakes without a signal, before it. *)
Definition c_block_remove_fd (spurious : bool) (fd c : Z) : C unit := λ s,
  let busy := match polled s with Some (c', _, _) => c' =? c | None => false end in
  if busy && negb spurious then Blocked
  else Ret (tt, CHeap (objs s) (next_obj s) (delete fd (cbs s)) (polled s) (if busy then c :: early s else early s)).

(** ** Operations of a connection *)

(** connection::connection, on a descriptor and at a time of the system. *)
Definition connection_new (fd : Z) (now : Z * Z) : C Z := λ s,
  let c := next_obj s in
  (c_add_callback fd c;; mret c)
    (CHeap (<[c := CObj 1 false false fd now]> (objs s)) (c + 1) (cbs s) (polled s) (early s)).

Definition c_incref (c : Z) : C unit :=
  o ← c_deref c; c_store c (CObj (co_refno o + 1) (co_dead o) (co_wbuf o) (co_fd o) (co_time o)).

Definition c_isdead (c : Z) : C bool := o ← c_deref c; mret (co_dead o).

Definition c_ref (c : Z) : C Z := o ← c_deref c; mret (co_refno o).

(** ~connection *)
Definition connection_delete (c : Z) : C unit :=
  o ← c_deref c; st_lift (VERIFY (co_dead o));; st_lift (VERIFY (negb (co_wbuf o)));; c_free c.

Definition c_decref (c : Z) : C unit :=
  o ← c_deref c;
  let o := CObj (co_refno o - 1) (co_dead o) (co_wbuf o) (co_fd o) (co_time o) in
  c_store c o;;
  st_lift (VERIFY (0 <=? co_refno o));;
  if (co_refno o =? 0) && co_dead o then connection_delete c else mret tt.

(** closeconn up to block_remove_fd: true when it goes on to that call. *)
Definition c_closeconn (c : Z) : C bool :=
  o ← c_deref c;
  if co_dead o then mret false
  else c_store c (CObj (co_refno o) true (co_wbuf o) (co_fd o) (co_time o));; mret true.

(** The end of closeconn. *)
Definition c_closed (spurious : bool) (c : Z) : C unit := o ← c_deref c; c_block_remove_fd spurious (co_fd o) c.

(** What the first writepdu of a send does, and where it leaves the send: finished,
    waiting for write_cb, or on its way to block_remove_fd. *)
Inductive wres := WFull | WPart | WFail.
Inductive sphase := QNone | QWait | QRemove.

(** send up to there; a thread that finds the buffer in use waits.  A send on a
    dead connection, or one that writes everything, is over at once. *)
Definition c_send (w : wres) (c : Z) : C sphase :=
  o ← c_deref c;
  if co_dead o then mret QNone
  else if co_wbuf o then st_block
  else match w with
       | WFull => mret QNone
       | WPart =>
           c_store c (CObj (co_refno o) false true (co_fd o) (co_time o));;
           c_add_callback (co_fd o) c;; mret QWait
       | WFail => c_store c (CObj (co_refno o) true true (co_fd o) (co_time o));; mret QRemove
       end.

(** The end of send. *)
Definition c_sent (c : Z) : C unit :=
  o ← c_deref c; c_store c (CObj (co_refno o) (co_dead o) false (co_fd o) (co_time o)).

(** The rest of a send whose write failed. *)
Definition c_send_removed (spurious : bool) (c : Z) : C unit :=
  o ← c_deref c; c_block_remove_fd spurious (co_fd o) c;; c_sent c.

(** ** Callbacks *)

(** wait_loop up to the call: it tests callbacks_[fd] only, for a descriptor that
    was ready when the poll manager last looked. *)
Definition c_poll (fd : Z) (wr : bool) (s : cheap) : option cheap :=
  match polled s, cbs s !! fd with
  | None, Some c => Some (CHeap (objs s) (next_obj s) (cbs s) (Some (c, fd, wr)) (early s))
  | _, _ => None
  end.

(** A callback that finds the connection broken. *)
Definition c_break (c fd : Z) (o : cobj) : C unit :=
  c_del_callback fd;; c_store c (CObj (co_refno o) true (co_wbuf o) (co_fd o) (co_time o)).

(** read_cb; gives true when it goes on to handle what it has read. *)
Definition c_read_cb (bad : bool) (c fd : Z) : C bool :=
  o ← c_deref c; st_lift (VERIFY (co_fd o =? fd));;
  if co_dead o then mret false
  else if bad then c_break c fd o;; mret false else mret true.

Definition c_write_cb (bad : bool) (c fd : Z) : C bool :=
  o ← c_deref c; st_lift (VERIFY (negb (co_dead o)));; st_lift (VERIFY (co_fd o =? fd));;
  if negb (co_wbuf o) then mret false
  else if bad then c_break c fd o;; mret false else mret false.

(** The callback that was about to be made; gives the connection that has data. *)
Definition c_callback (bad : bool) : C (option Z) := λ s,
  match polled s with
  | None => Blocked
  | Some (c, fd, wr) =>
      ((if wr : bool then c_write_cb else c_read_cb) bad c fd ≫= λ more : bool, mret (if more then Some c else None))
        (CHeap (objs s) (next_obj s) (cbs s) None (early s))
  end.

(** The system gives a descriptor that is not open. *)
Definition fd_free (fd : Z) (s : cheap) : bool := forallb (λ co : Z * cobj, negb (co_fd co.2 =? fd)) (map_to_list (objs s)).

(** connect_to_dst: [fd] is the socket with the time, or none when connect failed. *)
Definition connect_to_dst (fd : option (Z * (Z * Z))) : C (option Z) := λ s,
  match fd with
  | None => Ret (None, s)
  | Some (fd, now) => if fd_free fd s then (c ← connection_new fd now; mret (Some c)) s else Blocked
  end.

(** ** The client *)

Definition when (o : option Z) (p : Z → C unit) : C unit := match o with Some c => p c | None => mret tt end.

(** rpcc::get_refconn with chan_ and the connection *ch of the caller; gives both. *)
Definition get_refconn (fd : option (Z * (Z * Z))) (chan ch : option Z) : C (option Z * option Z) :=
  dead ← match chan with None => mret true | Some c => c_isdead c end;
  chan ← (if dead : bool then when chan c_decref;; connect_to_dst fd else mret chan);
  match chan with
  | Some c => when ch c_decref;; c_incref c;; mret (Some c, Some c)
  | None => mret (None, ch)
  end.

(** A call1 under way: its variable ch, and where it is in ch->send. *)
Record rcall := RCall { rl_ch : option Z; rl_ph : sphase }.

(** [r_down]: inside closeconn of ~rpcc. *)
Record rsys := RSys { r_heap : cheap; r_chan : option Z; r_calls : list rcall; r_down : bool }.

Definition rsys_new : rsys := RSys cheap_new None [] false.

(** What may happen next: a call starts, obtains a connection (before the
    request is sent or sent again), sends, has sent (the write callbacks wrote the
    rest, or the connection died), returns from block_remove_fd, ends; the poll
    manager's thread tests its table and makes the callback; the client is deleted,
    in two steps when its connection is alive.  [None]: not now. *)
Inductive ract :=
  | RStart
  | RConn (i : nat) (fd : option (Z * (Z * Z)))
  | RSend (i : nat) (w : wres)
  | RSent (i : nat)
  | RRemoved (i : nat) (spurious : bool)
  | REnd (i : nat)
  | RPoll (fd : Z) (wr : bool)
  | RCallback (bad : bool)
  | RDestroy
  | RDown (spurious : bool).

Definition on_heap {A} (p : C A) (x : rsys) (k : A → cheap → rsys) : res (option rsys) :=
  match p (r_heap x) with Blocked => Ret None | r => '(a, s) ← r; Ret (Some (k a s)) end.

Definition set_call (i : nat) (l : rcall) (x : rsys) (s : cheap) : rsys :=
  RSys s (r_chan x) (<[i := l]> (r_calls x)) (r_down x).

Definition r_run (a : ract) (x : rsys) : res (option rsys) :=
  match a with
  | RStart => Ret (if r_down x then None else Some (RSys (r_heap x) (r_chan x) (r_calls x ++ [RCall None QNone]) false))
  | RConn i fd =>
      match r_calls x !! i with
      | Some (RCall ch QNone) =>
          on_heap (get_refconn fd (r_chan x) ch) x
            (λ '(chan, ch) s, RSys s chan (<[i := RCall ch QNone]> (r_calls x)) (r_down x))
      | _ => Ret None
      end
  | RSend i w =>
      match r_calls x !! i with
      | Some (RCall (Some c) QNone) => on_heap (c_send w c) x (λ q, set_call i (RCall (Some c) q) x)
      | _ => Ret None
      end
  | RSent i =>
      match r_calls x !! i with
      | Some (RCall (Some c) QWait) => on_heap (c_sent c) x (λ _, set_call i (RCall (Some c) QNone) x)
      | _ => Ret None
      end
  | RRemoved i spurious =>
      match r_calls x !! i with
      | Some (RCall (Some c) QRemove) =>
          on_heap (c_send_removed spurious c) x (λ _, set_call i (RCall (Some c) QNone) x)
      | _ => Ret None
      end
  | REnd i =>
      match r_calls x !! i with
      | Some (RCall ch QNone) =>
          on_heap (when ch c_decref) x (λ _ s, RSys s (r_chan x) (take i (r_calls x) ++ drop (S i) (r_calls x)) (r_down x))
      | _ => Ret None
      end
  | RPoll fd wr => Ret (s ← c_poll fd wr (r_heap x); Some (RSys s (r_chan x) (r_calls x) (r_down x)))
  | RCallback bad => on_heap (c_callback bad) x (λ _ s, RSys s (r_chan x) (r_calls x) (r_down x))
  | RDestroy =>
      match r_calls x, r_down x with
      | [], false =>
          match r_chan x with
          | None => Ret (Some x)
          | Some c =>
              on_heap (more ← c_closeconn c; (if more : bool then mret tt else c_decref c);; mret more) x
                (λ more s, if more then RSys s (Some c) [] true else RSys s None [] false)
          end
      | _, _ => Ret None
      end
  | RDown spurious =>
      match r_chan x, r_down x with
      | Some c, true => on_heap (c_closed spurious c;; c_decref c) x (λ _ s, RSys s None (r_calls x) false)
      | _, _ => Ret None
      end
  end.

Definition rstep (x y : rsys) : Prop := ∃ a, r_run a x = Ret (Some y).

(** ** Counted references

    [R] lists the references that exist, with their multiplicities. *)

(** The invariant of a heap: the counts are exact, only connections of [A] are
    alive, and only those of [W] have a send under way; the table of callbacks has
    connections that exist, dead ones only while one of the removals [D] is under
    way, and the callback about to be made is in the table unless its removal
    returned early. *)
Record LInv (s : cheap) (R A W D : list Z) : Prop := {
  li_live : ∀ c, c ∈ R → is_Some (objs s !! c);
  li_count : ∀ c o, objs s !! c = Some o → co_refno o = Z.of_nat (count c R) ∧ c ∈ R;
  li_fresh : ∀ c o, objs s !! c = Some o → c < next_obj s;
  li_alive : ∀ c o, objs s !! c = Some o → co_dead o = false → c ∈ A;
  li_sends : ∀ c o, objs s !! c = Some o → co_wbuf o = true → c ∈ W;
  li_fds : ∀ c c' o o', objs s !! c = Some o → objs s !! c' = Some o' → co_fd o = co_fd o' → c = c';
  li_limit : ∀ c o, objs s !! c = Some o → co_fd o < MAX_POLL_FDS;
  li_cbs : ∀ fd c, cbs s !! fd = Some c → ∃ o, objs s !! c = Some o ∧ co_fd o = fd ∧ (co_dead o = true → c ∈ D);
  li_polled : ∀ c fd w, polled s = Some (c, fd, w) →
    c < next_obj s ∧ (∀ o, objs s !! c = Some o → co_fd o = fd) ∧ (cbs s !! fd = Some c ∨ c ∈ early s) }.

(** The past of an object: it was there, on the same descriptor, and does not revive. *)
Definition stems (s s' : cheap) : Prop :=
  next_obj s ≤ next_obj s' ∧
  ∀ c o', objs s' !! c = Some o' → c < next_obj s →
    ∃ o, objs s !! c = Some o ∧ co_fd o' = co_fd o ∧ (co_dead o = true → co_dead o' = true).

Definition dead_at (s : cheap) (c : Z) : Prop := ∃ o, objs s !! c = Some o ∧ co_dead o = true.

#[export] Instance stems_preorder : PreOrder stems.
Proof.
  split; [split; [lia|eauto]|].
  intros s s1 s2 [N1 K1] [N2 K2]. split; [lia|]. intros c o Ho Hlt.
  destruct (K2 c o Ho ltac:(lia)) as (o1 & Ho1 & E1 & E2). destruct (K1 c o1 Ho1 Hlt) as (o0 & Ho0 & E3 & E4).
  exists o0. split_and!; [done|congruence|auto].
Qed.

Lemma LInv_perm s R R' A A' W W' D D' :
  R ≡ₚ R' → A ⊆ A' → W ⊆ W' → D ⊆ D' → LInv s R A W D → LInv s R' A' W' D'.
Proof.
  intros Hp HA HW HD [H1 H2 H3 H4 H5 H6 H7 H8 H9]. split; [| |done|eauto|eauto|done|done| |done].
  - intros c Hc. apply H1. by rewrite Hp.
  - intros c o Ho. destruct (H2 c o Ho). by rewrite <- Hp.
  - intros fd c Hc. destruct (H8 fd c Hc) as (o & ? & ? & ?). exists o. auto.
Qed.

#[export] Instance LInv_proper s : Proper ((≡ₚ) ==> (≡ₚ) ==> (≡ₚ) ==> (≡ₚ) ==> iff) (LInv s).
Proof.
  intros R R' HR A A' HA W W' HW D D' HD. split; apply LInv_perm; try done; intros c; by rewrite ?HA, ?HW, ?HD.
Qed.

Lemma c_deref_run s c o : objs s !! c = Some o → c_deref c s = Ret (o, s).
Proof. intros E. unfold c_deref. by rewrite E. Qed.

(** What the poll manager knows of a connection. *)
Lemma li_registered s R A W D fd c o :
  LInv s R A W D → cbs s !! fd = Some c → objs s !! c = Some o → co_fd o = fd ∧ (co_dead o = true → c ∈ D).
Proof. intros HL Hc Ho. destruct (li_cbs _ _ _ _ _ HL fd c Hc) as (o' & Ho' & ? & ?). by simplify_eq. Qed.

(** An object is replaced and its references change with its count. *)
Lemma LInv_store s R R' A W W' D D' c o o' :
  LInv s R A W D → objs s !! c = Some o → (∀ x, x ≠ c → count x R' = count x R) → c ∈ R' →
  co_refno o' = Z.of_nat (count c R') → (co_dead o = true → co_dead o' = true) → co_fd o' = co_fd o →
  (co_wbuf o' = true → c ∈ W') → (∀ x, x ≠ c → x ∈ W → x ∈ W') →
  (co_dead o' = true → cbs s !! co_fd o = Some c → c ∈ D') → (∀ x, x ≠ c → x ∈ D → x ∈ D') →
  LInv (with_objs (<[c := o']> (objs s)) s) R' A W' D' ∧ stems s (with_objs (<[c := o']> (objs s)) s).
Proof.
  intros [H1 H2 H3 H4 H5 H6 H7 H8 H9] Ho Hcnt Hc Hr Hd Hf Hw HW Hdc HD.
  assert (∀ x, x ≠ c → x ∈ R' ↔ x ∈ R) as Hin by (intros x Hx; by rewrite !count_pos, Hcnt).
  assert (∀ x ox, <[c := o']> (objs s) !! x = Some ox → ∃ o0, objs s !! x = Some o0 ∧ co_fd ox = co_fd o0) as Hold.
  { intros x ox [[<- <-]|[_ Hx]]%lookup_insert_Some; [by exists o|by exists ox]. }
  split; [split|split]; simpl.
  - intros x Hx. destruct (decide (x = c)) as [->|Hne]; [rewrite lookup_insert_eq; by eexists|].
    rewrite lookup_insert_ne by done. by apply H1, Hin.
  - intros x ox [[<- <-]|[Hne Hl]]%lookup_insert_Some; [done|]. rewrite Hcnt, Hin by done. auto.
  - intros x ox (o0 & Hx & _)%Hold. eauto.
  - intros x ox [[<- <-]|[Hne Hl]]%lookup_insert_Some E; [|eauto]. apply (H4 c o Ho). destruct (co_dead o); [by rewrite Hd in E|done].
  - intros x ox [[<- <-]|[Hne Hl]]%lookup_insert_Some; eauto.
  - intros x y ox oy (o1 & Hx & E1)%Hold (o2 & Hy & E2)%Hold E. apply (H6 x y o1 o2); congruence.
  - intros x ox (o0 & Hx & ->)%Hold. eauto.
  - intros fd x Hx. destruct (H8 fd x Hx) as (o0 & Ho0 & Hfd & Hdd). destruct (decide (x = c)) as [->|Hne].
    + rewrite lookup_insert_eq. exists o'. simplify_eq. eauto.
    + rewrite lookup_insert_ne by done. exists o0. eauto.
  - intros x fd w Hp. destruct (H9 x fd w Hp) as (L1 & L2 & L3). split_and!; [done| |done].
    intros ox (o0 & Hx & ->)%Hold. eauto.
  - lia.
  - intros x ox [[<- <-]|[Hne Hl]]%lookup_insert_Some _; eauto.
Qed.

(** The common case: only the count changes. *)
Lemma LInv_recount s R R' A W D c o n :
  LInv s R A W D → objs s !! c = Some o → (∀ x, x ≠ c → count x R' = count x R) → c ∈ R' → n = Z.of_nat (count c R') →
  let s' := with_objs (<[c := CObj n (co_dead o) (co_wbuf o) (co_fd o) (co_time o)]> (objs s)) s in
  LInv s' R' A W D ∧ stems s s'.
Proof.
  intros HL Ho Hcnt Hc Hn. apply (LInv_store s R R' A W W D D c o); try done; simpl.
  - by apply (li_sends _ _ _ _ _ HL).
  - intros Hd Hr. by apply (li_registered s R A W D (co_fd o) c o HL).
Qed.

Lemma incref_ok s R A W D c :
  LInv s R A W D → c ∈ R → ∃ s', c_incref c s = Ret (tt, s') ∧ LInv s' (c :: R) A W D ∧ stems s s'.
Proof.
  intros HR Hc. destruct (li_live _ _ _ _ _ HR c Hc) as [o Ho]. destruct (li_count _ _ _ _ _ HR c o Ho) as [Er _].
  unfold c_incref. run (c_deref_run _ _ _ Ho). eexists. split; [done|].
  apply (LInv_recount s R); [done|done| |by left|rewrite count_eq; lia]. intros x Hx. by apply count_ne.
Qed.

(** A connection that is no longer referred to goes. *)
Lemma LInv_delete s R A W D c o :
  LInv s (c :: R) A W D → objs s !! c = Some o → c ∉ R → (∀ fd, cbs s !! fd ≠ Some c) →
  LInv (with_objs (delete c (objs s)) s) R A W D ∧ stems s (with_objs (delete c (objs s)) s).
Proof.
  intros [H1 H2 H3 H4 H5 H6 H7 H8 H9] Ho Hin Hc. split; [split|split]; simpl;
    [|intros x ox [Hne Hl]%lookup_delete_Some..|intros x y ox oy [Hne Hl]%lookup_delete_Some [Hne' Hl']%lookup_delete_Some
     |intros x ox [Hne Hl]%lookup_delete_Some| | |lia|intros x ox [Hne Hl]%lookup_delete_Some]; eauto.
  - intros x Hx. rewrite lookup_delete_ne by congruence. apply H1. by right.
  - destruct (H2 x ox Hl) as [E1 E2]. rewrite count_ne in E1 by congruence. by apply elem_of_cons in E2 as [->|?].
  - intros fd x Hx. destruct (H8 fd x Hx) as (ox & ? & ?). exists ox. rewrite lookup_delete_ne; [done|]. intros <-. by apply (Hc fd).
  - intros x fd w Hp. destruct (H9 x fd w Hp) as (L1 & L2 & L3). split_and!; [done| |done].
    intros ox [_ Hx]%lookup_delete_Some. eauto.
Qed.

(** Dropping a reference deletes the connection when it was the last one: then
    it is dead, no send and no removal is under way, and no callback is left. *)
Lemma decref_ok s R A W D c :
  LInv s (c :: R) A W D → A ⊆ R → W ⊆ R → D ⊆ R →
  ∃ s', c_decref c s = Ret (tt, s') ∧ LInv s' R A W D ∧ stems s s' ∧ next_obj s' = next_obj s.
Proof.
  intros HR HA HW HD. destruct (li_live _ _ _ _ _ HR c) as [o Ho]; [by left|].
  destruct (li_count _ _ _ _ _ HR c o Ho) as [Er _]. rewrite count_eq in Er.
  assert (co_refno o - 1 = Z.of_nat (count c R)) as E by lia.
  unfold c_decref. run (c_deref_run _ _ _ Ho). cbv zeta. cbn [co_refno co_dead]. rewrite E. run eq_refl.
  assert (VERIFY (0 <=? Z.of_nat (count c R)) = Ret tt) as V by (unfold VERIFY; by rewrite (proj2 (Z.leb_le _ _)) by lia).
  unfold st_lift. rewrite V. run eq_refl. destruct (decide (c ∈ R)) as [Hin|Hin].
  - pose proof (proj1 (count_pos c R) Hin). rewrite (proj2 (Z.eqb_neq _ _)) by lia. cbn [andb].
    eexists. split; [done|]. assert (∀ x, x ≠ c → count x R = count x (c :: R)) by (intros; by rewrite count_ne).
    destruct (LInv_recount s (c :: R) R A W D c o (Z.of_nat (count c R)) HR Ho) as [H1 H2]; [done..|]. by split_and!.
  - assert (count c R = 0%nat) as -> by (rewrite count_pos in Hin; lia). cbn [Z.of_nat]. rewrite Z.eqb_refl.
    assert (co_dead o = true) as Hd.
    { destruct (co_dead o) eqn:Ed; [done|]. by destruct Hin; apply HA, (li_alive _ _ _ _ _ HR c o). }
    assert (co_wbuf o = false) as Hw.
    { destruct (co_wbuf o) eqn:Ed; [|done]. by destruct Hin; apply HW, (li_sends _ _ _ _ _ HR c o). }
    assert (∀ fd, cbs s !! fd ≠ Some c) as Hc.
    { intros fd Hfd. destruct Hin. by apply HD, (li_registered s _ A W D fd c o HR). }
    rewrite Hd, Hw. cbn [andb]. set (s1 := with_objs _ s). assert (objs s1 !! c = Some (CObj 0 true false (co_fd o) (co_time o))) as Hs1
      by apply lookup_insert_eq.
    unfold connection_delete. run (c_deref_run _ _ _ Hs1). unfold st_lift. run eq_refl. run eq_refl.
    eexists. split; [done|]. subst s1. unfold with_objs. cbn [objs next_obj cbs polled early]. rewrite delete_insert_eq.
    destruct (LInv_delete s R A W D c o HR Ho Hin Hc) as [? ?]. by split_and!.
Qed.

Lemma fd_free_ne fd s c o : fd_free fd s = true → objs s !! c = Some o → co_fd o ≠ fd.
Proof.
  unfold fd_free. rewrite forallb_forall. intros Ef Ho. specialize (Ef (c, o)). apply elem_of_map_to_list, list_elem_of_In in Ho.
  apply Ef in Ho. simpl in Ho. by destruct (Z.eqb_spec (co_fd o) fd).
Qed.

Lemma c_add_callback_run fd c s :
  (∀ c', cbs s !! fd = Some c' → c' = c) →
  c_add_callback fd c s = if fd <? MAX_POLL_FDS then Ret (tt, with_cbs (<[fd := c]> (cbs s)) s) else VerifyFailed.
Proof.
  intros Hc. unfold c_add_callback, VERIFY. destruct (fd <? MAX_POLL_FDS); [|done].
  destruct (cbs s !! fd) as [c'|]; [|done]. by rewrite (Hc c' eq_refl), Z.eqb_refl.
Qed.

Lemma connection_new_run fd now s :
  cbs s !! fd = None →
  connection_new fd now s =
    if fd <? MAX_POLL_FDS
    then Ret (next_obj s, CHeap (<[next_obj s := CObj 1 false false fd now]> (objs s)) (next_obj s + 1)
                            (<[fd := next_obj s]> (cbs s)) (polled s) (early s))
    else VerifyFailed.
Proof.
  intros Hc. unfold connection_new. cbv zeta. unfold mbind, st_bind. rewrite c_add_callback_run by (cbn [cbs]; congruence).
  by destruct (fd <? MAX_POLL_FDS).
Qed.

(** A new connection; the poll manager stops at too large a descriptor. *)
Lemma new_ok s R A W D fd now :
  LInv s R A W D → fd_free fd s = true →
  (connection_new fd now s = VerifyFailed ∧ MAX_POLL_FDS ≤ fd) ∨
  ∃ s', connection_new fd now s = Ret (next_obj s, s') ∧ LInv s' (next_obj s :: R) (next_obj s :: A) W D ∧ stems s s' ∧
    next_obj s ∉ R ∧ (∃ o, objs s' !! next_obj s = Some o ∧ co_fd o = fd ∧ co_dead o = false).
Proof.
  intros [H1 H2 H3 H4 H5 H6 H7 H8 H9] Hfree.
  assert (∀ c o, objs s !! c = Some o → co_fd o ≠ fd) as Hfd by (intros c o; by apply fd_free_ne).
  assert (objs s !! next_obj s = None) as Hn.
  { destruct (objs s !! next_obj s) as [o|] eqn:E; [|done]. apply H3 in E. lia. }
  assert (next_obj s ∉ R) as HnR by (intros [o Ho]%H1; congruence).
  assert (count (next_obj s) R = 0%nat) as Hc0 by (rewrite count_pos in HnR; lia).
  assert (cbs s !! fd = None) as Hcb.
  { destruct (cbs s !! fd) as [c|] eqn:E; [|done]. destruct (H8 fd c E) as (o & Ho & Ef & _). by destruct (Hfd c o). }
  rewrite connection_new_run by done. destruct (Z.ltb_spec fd MAX_POLL_FDS); [right|left; by split].
  eexists. split; [done|]. split; [split|split; [split|split; [done|]]]; simpl.
  - intros c [->|Hc]%elem_of_cons; [rewrite lookup_insert_eq; by eexists|].
    rewrite lookup_insert_ne by (intros E; by rewrite E in HnR). by apply H1.
  - intros c o [[<- <-]|[Hne Hl]]%lookup_insert_Some.
    + rewrite count_eq, Hc0. split; [done|by left].
    + rewrite count_ne by done. destruct (H2 c o Hl). split; [done|by right].
  - intros c o [[<- <-]|[Hne Hl%H3]]%lookup_insert_Some; lia.
  - intros c o [[<- <-]|[Hne Hl]]%lookup_insert_Some Hd; [by left|right; eauto].
  - intros c o [[<- <-]|[Hne Hl]]%lookup_insert_Some; [done|eauto].
  - intros c c' o o' [[<- <-]|[Hne Hl]]%lookup_insert_Some [[<- <-]|[Hne' Hl']]%lookup_insert_Some; simpl; [done| | |eauto].
    + intros E. by destruct (Hfd c' o').
    + intros E. by destruct (Hfd c o).
  - intros c o [[<- <-]|[Hne Hl]]%lookup_insert_Some; [done|eauto].
  - intros fd' c [[<- <-]|[Hne Hl]]%lookup_insert_Some; [rewrite lookup_insert_eq; by eexists|].
    destruct (H8 fd' c Hl) as (o & Ho & ?). exists o. rewrite lookup_insert_ne; [done|]. intros <-. congruence.
  - intros c fd' w Hp. destruct (H9 c fd' w Hp) as (L1 & L2 & L3). split_and!; [lia| |].
    + intros o [[<- _]|[_ Ho]]%lookup_insert_Some; [lia|eauto].
    + destruct L3 as [L3|]; [|by right]. left. rewrite lookup_insert_ne; [done|]. intros <-. congruence.
  - lia.
  - intros c o [[<- <-]|[Hne Hl]]%lookup_insert_Some Hlt; [lia|eauto].
  - eexists. split; [apply lookup_insert_eq|done].
Qed.

(** ** Death, callbacks and sends *)

(** The descriptor of a connection leaves the table. *)
Lemma LInv_unreg s R A W D D' c o p' e' :
  LInv s R A W D → objs s !! c = Some o → (∀ x, x ≠ c → x ∈ D → x ∈ D') →
  (∀ x, p' = Some x → polled s = Some x) → early s ⊆ e' → (∀ fd w, p' = Some (c, fd, w) → c ∈ e') →
  LInv (CHeap (objs s) (next_obj s) (delete (co_fd o) (cbs s)) p' e') R A W D'.
Proof.
  intros [H1 H2 H3 H4 H5 H6 H7 H8 H9] Ho HD Hp He Hc. split; try done; simpl.
  - intros fd x [Hne Hx]%lookup_delete_Some. destruct (H8 fd x Hx) as (ox & Hox & Hf & Hd). exists ox. split_and!; [done..|].
    intros E. apply HD; [|auto]. intros ->. congruence.
  - intros x fd w Hx. destruct (H9 x fd w (Hp _ Hx)) as (L1 & L2 & L3). split_and!; [done..|].
    destruct (decide (x = c)) as [->|Hne]; [right; by eapply Hc|]. destruct L3 as [L3|L3]; [left|right; auto].
    rewrite lookup_delete_ne; [done|]. intros <-. destruct (H8 _ x L3) as (ox & Hox & Hf & _). apply Hne. by eapply H6.
Qed.

(** The callback is made. *)
Lemma LInv_called s R A W D :
  LInv s R A W D → LInv (CHeap (objs s) (next_obj s) (cbs s) None (early s)) R A W D.
Proof. intros []. by split. Qed.

Lemma break_ok s R A W D c o :
  LInv s R A W D → objs s !! c = Some o → polled s = None →
  ∃ s', c_break c (co_fd o) o s = Ret (tt, s') ∧ LInv s' R A W D ∧ stems s s'.
Proof.
  intros HL Ho Hp. unfold c_break. run eq_refl. eexists. split; [done|]. destruct (li_count _ _ _ _ _ HL c o Ho) as [Er Hc].
  assert (LInv (with_cbs (delete (co_fd o) (cbs s)) s) R A W D) as HL1.
  { apply (LInv_unreg s R A W D D c o); try done. congruence. }
  destruct (LInv_store (with_cbs (delete (co_fd o) (cbs s)) s) R R A W W D D c o
    (CObj (co_refno o) true (co_wbuf o) (co_fd o) (co_time o)) HL1) as [H1 H2]; try done; simpl.
  - by apply (li_sends _ _ _ _ _ HL c o).
  - by rewrite lookup_delete_eq.
Qed.

(** The connection of the callback about to be made is gone, after its removal
    returned early; or it is dead and the callback is write_cb. *)
Definition stale_callback (s : cheap) : Prop :=
  ∃ c fd w, polled s = Some (c, fd, w) ∧ objs s !! c = None ∧ c ∈ early s.

Definition dead_write (s : cheap) : Prop := ∃ c fd, polled s = Some (c, fd, true) ∧ dead_at s c.

Lemma read_cb_ok s R A W D bad c o :
  LInv s R A W D → objs s !! c = Some o → polled s = None →
  ∃ more s', c_read_cb bad c (co_fd o) s = Ret (more, s') ∧ LInv s' R A W D ∧ stems s s' ∧ (more = true → co_dead o = false).
Proof.
  intros HL Ho Hp. unfold c_read_cb. run (c_deref_run _ _ _ Ho). unfold st_lift, VERIFY. rewrite Z.eqb_refl. run eq_refl.
  destruct (co_dead o) eqn:Ed; [by exists false, s|]. destruct bad; [|by exists true, s].
  destruct (break_ok s R A W D c o HL Ho Hp) as (s' & E & HL' & St). exists false, s'. split; [by run E|done].
Qed.

Lemma write_cb_ok s R A W D bad c o :
  LInv s R A W D → objs s !! c = Some o → polled s = None →
  if co_dead o then c_write_cb bad c (co_fd o) s = VerifyFailed
  else ∃ s', c_write_cb bad c (co_fd o) s = Ret (false, s') ∧ LInv s' R A W D ∧ stems s s'.
Proof.
  intros HL Ho Hp. unfold c_write_cb. destruct (co_dead o) eqn:Ed; run (c_deref_run _ _ _ Ho); rewrite Ed; [done|].
  unfold st_lift, VERIFY. run eq_refl. rewrite Z.eqb_refl. run eq_refl.
  destruct (co_wbuf o); [|by exists s]. destruct bad; [|by exists s]. cbn [negb].
  destruct (break_ok s R A W D c o HL Ho Hp) as (s' & E & HL' & St). exists s'. split; [by run E|done].
Qed.

Lemma callback_ok s R A W D bad :
  LInv s R A W D →
  c_callback bad s = Blocked ∨ c_callback bad s = Undef ∧ stale_callback s ∨ c_callback bad s = VerifyFailed ∧ dead_write s ∨
  ∃ more s', c_callback bad s = Ret (more, s') ∧ LInv s' R A W D ∧ stems s s' ∧ ∀ c, more = Some c → c ∈ R ∧ ¬ dead_at s c.
Proof.
  intros HL. unfold c_callback. destruct (polled s) as [[[c fd] w]|] eqn:Ep; [right|by left].
  destruct (li_polled _ _ _ _ _ HL c fd w Ep) as (_ & Hfd & Hreg). pose proof (LInv_called s R A W D HL) as HL1.
  set (s1 := CHeap (objs s) _ _ None _) in *. destruct (objs s !! c) as [o|] eqn:Ho.
  2:{ left. split; [by destruct w; unfold c_write_cb, c_read_cb, c_deref, mbind, st_bind; simpl; rewrite Ho|].
    exists c, fd, w. split_and!; [done..|]. destruct Hreg as [Hreg|]; [|done].
    destruct (li_cbs _ _ _ _ _ HL fd c Hreg) as (o & ? & _). congruence. }
  right. specialize (Hfd o eq_refl). subst fd. destruct (li_count _ _ _ _ _ HL c o Ho) as [_ Hc].
  assert (objs s1 !! c = Some o) as Ho1 by done. destruct w.
  - pose proof (write_cb_ok s1 R A W D bad c o HL1 Ho1 eq_refl) as Hw. destruct (co_dead o) eqn:Ed.
    + left. split; [by unfold mbind, st_bind; rewrite Hw|]. exists c, (co_fd o). split; [done|]. by exists o.
    + destruct Hw as (s' & E & HL' & St). right. exists None, s'. split; [by run E|done].
  - destruct (read_cb_ok s1 R A W D bad c o HL1 Ho1 eq_refl) as (more & s' & E & HL' & St & Hm).
    right. exists (if more then Some c else None), s'. split; [by run E|]. split_and!; [done..|].
    destruct more; [|done]. intros ? [= <-]. split; [done|]. intros (o' & ? & ?). specialize (Hm eq_refl). simpl in *. congruence.
Qed.

Lemma poll_ok s R A W D fd wr s' : LInv s R A W D → c_poll fd wr s = Some s' → LInv s' R A W D ∧ stems s s'.
Proof.
  intros HL. unfold c_poll. destruct (polled s); [done|]. destruct (cbs s !! fd) as [c|] eqn:Ec; [|done]. intros [= <-].
  destruct (li_cbs _ _ _ _ _ HL fd c Ec) as (o & Ho & Hf & _). pose proof HL as [H1 H2 H3 H4 H5 H6 H7 H8 H9].
  split; [|split; simpl; [lia|eauto]]. split; try done. simpl. intros c' fd' w [= <- <- <-]. split_and!; [eauto| |by left].
  intros o' Ho'. congruence.
Qed.

(** A connection that was alive is closed and its removal begins. *)
Lemma closeconn_ok s R A W D c :
  LInv s R A W D → c ∈ R →
  ∃ more s', c_closeconn c s = Ret (more, s') ∧ LInv s' R A W (if more : bool then c :: D else D) ∧ stems s s' ∧ dead_at s' c.
Proof.
  intros HL Hc. destruct (li_live _ _ _ _ _ HL c Hc) as [o Ho]. destruct (li_count _ _ _ _ _ HL c o Ho) as [Er _].
  unfold c_closeconn. run (c_deref_run _ _ _ Ho). destruct (co_dead o) eqn:Ed.
  { exists false, s. split_and!; [done|done|reflexivity|by exists o]. }
  run eq_refl. eexists true, _. split; [done|].
  destruct (LInv_store s R R A W W D (c :: D) c o (CObj (co_refno o) true (co_wbuf o) (co_fd o) (co_time o)) HL Ho) as [H1 H2]; try done; simpl.
  - by apply (li_sends _ _ _ _ _ HL c o).
  - intros _ _. by left.
  - intros x _ Hx. by right.
  - split_and!; [done|done|]. eexists. split; [apply lookup_insert_eq|done].
Qed.

(** A dead connection need not be among those that may be alive. *)
Lemma LInv_dead s R A W D c : LInv s R (c :: A) W D → dead_at s c → LInv s R A W D.
Proof.
  intros [H1 H2 H3 H4 H5 H6 H7 H8 H9] (o & Ho & Hd). split; try done.
  intros x ox Hx Ex. pose proof (H4 x ox Hx Ex) as [->|?]%elem_of_cons; [congruence|done].
Qed.

(** block_remove_fd returns: the removal is over. *)
Lemma removed_ok s R A W D spurious c o :
  LInv s R A W (c :: D) → objs s !! c = Some o →
  c_block_remove_fd spurious (co_fd o) c s = Blocked ∨
  ∃ s', c_block_remove_fd spurious (co_fd o) c s = Ret (tt, s') ∧ LInv s' R A W D ∧ stems s s' ∧ objs s' = objs s.
Proof.
  intros HL Ho. unfold c_block_remove_fd. cbv zeta. set (busy := match polled s with Some _ => _ | None => _ end).
  destruct (busy && negb spurious); [by left|right]. eexists. split; [done|]. split_and!; [|split; simpl; [lia|eauto]|done].
  apply (LInv_unreg s R A W (c :: D) D c o); try done.
  - intros x Hx [->|?]%elem_of_cons; done.
  - destruct busy; [by apply list_subseteq_cons|done].
  - intros fd w Hp. unfold busy. rewrite Hp, Z.eqb_refl. by left.
Qed.

Lemma closed_ok s R A W D spurious c :
  LInv s R A W (c :: D) → c ∈ R →
  c_closed spurious c s = Blocked ∨
  ∃ s', c_closed spurious c s = Ret (tt, s') ∧ LInv s' R A W D ∧ stems s s' ∧ objs s' = objs s.
Proof.
  intros HL Hc. destruct (li_live _ _ _ _ _ HL c Hc) as [o Ho]. unfold c_closed. run (c_deref_run _ _ _ Ho).
  by apply removed_ok.
Qed.

Definition q_sends (q : sphase) (l : list Z) : list Z := match q with QNone => [] | _ => l end.
Definition q_removes (q : sphase) (l : list Z) : list Z := match q with QRemove => l | _ => [] end.

Lemma send_ok s R A W D w c :
  LInv s R A W D → c ∈ R →
  c_send w c s = Blocked ∨
  ∃ q s', c_send w c s = Ret (q, s') ∧ LInv s' R A (q_sends q [c] ++ W) (q_removes q [c] ++ D) ∧ stems s s'.
Proof.
  intros HL Hc. destruct (li_live _ _ _ _ _ HL c Hc) as [o Ho]. destruct (li_count _ _ _ _ _ HL c o Ho) as [Er _].
  unfold c_send. run (c_deref_run _ _ _ Ho). destruct (co_dead o) eqn:Ed; [right; by exists QNone, s|].
  destruct (co_wbuf o) eqn:Ew; [by left|]. right. destruct w; [by exists QNone, s|..].
  - edestruct (LInv_store s R R A W (c :: W) D D c o (CObj (co_refno o) false true (co_fd o) (co_time o)) HL Ho) as [H1 H2];
      try done; simpl; [congruence|by left|by right|]. run eq_refl. set (s1 := with_objs _ s) in *.
    assert (objs s1 !! c = Some (CObj (co_refno o) false true (co_fd o) (co_time o))) as Ho1 by apply lookup_insert_eq.
    assert (∀ c', cbs s1 !! co_fd o = Some c' → c' = c) as Hone.
    { intros c' Hc'. destruct (li_cbs _ _ _ _ _ H1 _ c' Hc') as (o' & Ho' & Hf & _). by eapply (li_fds _ _ _ _ _ H1 c' c). }
    pose proof (li_limit _ _ _ _ _ HL c o Ho) as Hlim. pose proof (c_add_callback_run (co_fd o) c s1 Hone) as Ea.
    rewrite (proj2 (Z.ltb_lt _ _) Hlim) in Ea. run Ea. eexists QWait, _. split; [done|]. split; [|etrans; [exact H2|split; simpl; [lia|eauto]]].
    destruct H1 as [K1 K2 K3 K4 K5 K6 K7 K8 K9]. split; try done; simpl.
    + intros fd x [[<- <-]|[Hne Hx]]%lookup_insert_Some; [by eexists|by apply K8].
    + intros x fd w Hp. destruct (K9 x fd w Hp) as (L1 & L2 & [L3|L3]); split_and!; try done; [left|by right].
      rewrite lookup_insert. case_decide as E; [|done]. f_equal. symmetry. apply Hone. by rewrite E.
  - run eq_refl. eexists QRemove, _. split; [done|].
    apply (LInv_store s R R A W (c :: W) D (c :: D) c o); try done; simpl; [by left|by right|by left|by right].
Qed.

Lemma sent_ok s R A W D c :
  LInv s R A (c :: W) D → c ∈ R → ∃ s', c_sent c s = Ret (tt, s') ∧ LInv s' R A W D ∧ stems s s'.
Proof.
  intros HL Hc. unfold c_sent. destruct (li_live _ _ _ _ _ HL c Hc) as [o Ho]. destruct (li_count _ _ _ _ _ HL c o Ho) as [Er _].
  run (c_deref_run _ _ _ Ho). eexists. split; [done|]. apply (LInv_store s R R A (c :: W) W D D c o); try done; simpl.
  - intros x Hx [->|?]%elem_of_cons; done.
  - intros Hd Hr. by apply (li_registered s R A (c :: W) D (co_fd o) c o HL).
Qed.

Lemma send_removed_ok s R A W D spurious c :
  LInv s R A (c :: W) (c :: D) → c ∈ R →
  c_send_removed spurious c s = Blocked ∨
  ∃ s', c_send_removed spurious c s = Ret (tt, s') ∧ LInv s' R A W D ∧ stems s s'.
Proof.
  intros HL Hc. destruct (li_live _ _ _ _ _ HL c Hc) as [o Ho]. unfold c_send_removed. run (c_deref_run _ _ _ Ho).
  destruct (removed_ok s R A (c :: W) D spurious c o HL Ho) as [E|(s1 & E & HL1 & St & _)]; [left; unfold mbind, st_bind; by rewrite E|right].
  run E. destruct (sent_ok s1 R A W D c HL1 Hc) as (s2 & E2 & HL2 & St2). exists s2. split_and!; [done..|by etrans].
Qed.

(** ** The client's references *)
Definition sends_of (ls : list rcall) : list Z := ls ≫= λ l, q_sends (rl_ph l) (option_list (rl_ch l)).

Definition removes_of (ls : list rcall) : list Z := ls ≫= λ l, q_removes (rl_ph l) (option_list (rl_ch l)).

Definition refs_of (ls : list rcall) : list Z := ls ≫= λ l, option_list (rl_ch l).

Record RInv (x : rsys) : Prop := {
  ri_refs : LInv (r_heap x) (option_list (r_chan x) ++ refs_of (r_calls x))
    (if r_down x then [] else option_list (r_chan x)) (sends_of (r_calls x))
    ((if r_down x then option_list (r_chan x) else []) ++ removes_of (r_calls x));
  ri_down : r_down x = true → r_calls x = [] }.

Lemma sends_refs ls : sends_of ls ⊆ refs_of ls.
Proof.
  intros c (l & H1 & H2)%list_elem_of_bind. apply list_elem_of_bind. exists l. split; [|done].
  destruct (rl_ph l); [by apply elem_of_nil in H1|done..].
Qed.

Lemma removes_refs ls : removes_of ls ⊆ refs_of ls.
Proof.
  intros c (l & H1 & H2)%list_elem_of_bind. apply list_elem_of_bind. exists l. split; [|done].
  destruct (rl_ph l); [by apply elem_of_nil in H1..|done].
Qed.

(** A list around its [i]-th element. *)
Lemma lookup_split {A} (l : list A) i x :
  l !! i = Some x → ∃ l1 l2, l = l1 ++ x :: l2 ∧ (∀ y, <[i := y]> l = l1 ++ y :: l2) ∧ take i l ++ drop (S i) l = l1 ++ l2.
Proof.
  intros E. exists (take i l), (drop (S i) l). split_and!; [by rewrite take_drop_middle| |done].
  intros y. apply insert_take_drop. by eapply lookup_lt_Some.
Qed.

Lemma bind_mid {A} (f : A → list Z) l1 l l2 : (l1 ++ l :: l2) ≫= f ≡ₚ f l ++ ((l1 ++ l2) ≫= f).
Proof. rewrite !bind_app. simpl. by rewrite !(assoc_L (++)), (comm (++) (l1 ≫= f)). Qed.

(** The invariant around one of the calls. *)
Lemma RInv_mid s chan l1 l l2 :
  RInv (RSys s chan (l1 ++ l :: l2) false) ↔
  LInv s (option_list chan ++ option_list (rl_ch l) ++ refs_of (l1 ++ l2)) (option_list chan)
    (q_sends (rl_ph l) (option_list (rl_ch l)) ++ sends_of (l1 ++ l2))
    (q_removes (rl_ph l) (option_list (rl_ch l)) ++ removes_of (l1 ++ l2)).
Proof.
  unfold refs_of, sends_of, removes_of. split.
  - intros [H _]. simpl in H. unfold refs_of, sends_of, removes_of in H. by rewrite !bind_mid in H.
  - intros H. split; [|done]. simpl. unfold refs_of, sends_of, removes_of. by rewrite !bind_mid.
Qed.

Lemma call_not_down x i l : RInv x → r_calls x !! i = Some l → r_down x = false.
Proof. intros H E. destruct (r_down x) eqn:Ed; [|done]. by rewrite (ri_down _ H Ed), lookup_nil in E. Qed.

Lemma when_decref_ok s R A W D ch :
  LInv s (option_list ch ++ R) A W D → A ⊆ R → W ⊆ R → D ⊆ R → ∃ s', when ch c_decref s = Ret (tt, s') ∧ LInv s' R A W D.
Proof.
  intros HR HA HW HD. destruct ch as [c|]; [|by exists s].
  destruct (decref_ok s R A W D c HR HA HW HD) as (s' & ? & ? & _). eauto.
Qed.

(** Too large a descriptor. *)
Definition high_fd (fd : option (Z * (Z * Z))) : Prop := ∃ n now, fd = Some (n, now) ∧ MAX_POLL_FDS ≤ n.

Lemma connect_ok s R W D fd :
  LInv s R [] W D →
  connect_to_dst fd s = Blocked ∨ connect_to_dst fd s = VerifyFailed ∧ high_fd fd ∨
  ∃ chan s', connect_to_dst fd s = Ret (chan, s') ∧ LInv s' (option_list chan ++ R) (option_list chan) W D.
Proof.
  intros HR. destruct fd as [[fd now]|]; [|right; right; by exists None, s]. unfold connect_to_dst.
  destruct (fd_free fd s) eqn:Ef; [right|by left].
  destruct (new_ok s R [] W D fd now HR Ef) as [[E Hm]|(s' & E & HR' & _)].
  - left. split; [unfold mbind, st_bind; by rewrite E|]. by exists fd, now.
  - right. exists (Some (next_obj s)), s'. split; [by run E|done].
Qed.

(** The first half of get_refconn: a connection in chan_ that was alive, if any. *)
Lemma fresh_chan_ok s R W D fd chan :
  LInv s (option_list chan ++ R) (option_list chan) W D → W ⊆ R → D ⊆ R →
  ∃ dead, match chan with None => mret true | Some c => c_isdead c end s = Ret (dead, s) ∧
    let p := if dead : bool then when chan c_decref;; connect_to_dst fd else mret chan in
    p s = Blocked ∨ p s = VerifyFailed ∧ high_fd fd ∨
    ∃ chan' s', p s = Ret (chan', s') ∧ LInv s' (option_list chan' ++ R) (option_list chan') W D.
Proof.
  intros HR HW HD. destruct chan as [c|].
  - destruct (li_live _ _ _ _ _ HR c) as [o Ho]; [by left|]. exists (co_dead o).
    split; [unfold c_isdead; by run (c_deref_run _ _ _ Ho)|]. cbv zeta.
    destruct (co_dead o) eqn:Ed; [|right; right; by exists (Some c), s].
    assert (LInv s (c :: R) [] W D) as HR0 by (apply (LInv_dead s _ _ _ _ c HR); by exists o).
    destruct (decref_ok s R [] W D c HR0) as (s1 & E1 & HR1 & _); [apply list_subseteq_nil|done|done|].
    cbn [when]. rewrite (bind_run _ (λ _, connect_to_dst fd) _ _ _ E1). by apply connect_ok.
  - exists true. split; [done|]. cbv zeta. cbn [when]. rewrite (bind_run (mret tt) (λ _, connect_to_dst fd) _ _ _ eq_refl). by apply connect_ok.
Qed.

Lemma get_refconn_ok s R W D fd chan ch :
  LInv s (option_list chan ++ option_list ch ++ R) (option_list chan) W D → W ⊆ R → D ⊆ R →
  get_refconn fd chan ch s = Blocked ∨ get_refconn fd chan ch s = VerifyFailed ∧ high_fd fd ∨
  ∃ chan' ch' s', get_refconn fd chan ch s = Ret ((chan', ch'), s') ∧
    LInv s' (option_list chan' ++ option_list ch' ++ R) (option_list chan') W D.
Proof.
  intros HR HW HD. unfold get_refconn.
  destruct (fresh_chan_ok s (option_list ch ++ R) W D fd chan HR) as (dead & E1 & E2); [by apply list_subseteq_app_r..|].
  rewrite (bind_run _ _ _ _ _ E1). cbv zeta in E2. destruct E2 as [E2|[[E2 Hm]|(chan1 & s1 & E2 & HR1)]].
  - left. unfold mbind at 1, st_bind at 1. by rewrite E2.
  - right. left. split; [unfold mbind at 1, st_bind at 1; by rewrite E2|done].
  - right. right. rewrite (bind_run _ _ _ _ _ E2). destruct chan1 as [c|]; [|by exists None, ch, s1]. simpl in HR1.
    destruct (when_decref_ok s1 (c :: R) [c] W D ch) as (s2 & E3 & HR2).
    + by rewrite <- Permutation_middle.
    + intros x ->%list_elem_of_singleton. by left.
    + by apply list_subseteq_cons.
    + by apply list_subseteq_cons.
    + destruct (incref_ok s2 (c :: R) [c] W D c HR2) as (s3 & E4 & HR3 & _); [by left|].
      exists (Some c), (Some c), s3. split; [run E3; by run E4|done].
Qed.

(** ** Every action of the client *)

(** The ways to fail: the callback of a connection that is gone; write_cb on a dead
    connection; a descriptor the poll manager has no room for. *)
Definition r_undef (a : ract) (x : rsys) : Prop := (∃ bad, a = RCallback bad) ∧ stale_callback (r_heap x).

Definition r_fails (a : ract) (x : rsys) : Prop :=
  (∃ bad, a = RCallback bad) ∧ dead_write (r_heap x) ∨ ∃ i fd, a = RConn i fd ∧ high_fd fd.

Definition r_safe (a : ract) (x : rsys) : Prop :=
  (∃ o, r_run a x = Ret o ∧ ∀ y, o = Some y → RInv y) ∨ r_run a x = Undef ∧ r_undef a x ∨ r_run a x = VerifyFailed ∧ r_fails a x.

Lemma r_safe_none a x : r_run a x = Ret None → r_safe a x.
Proof. intros E. left. by exists None. Qed.

Lemma r_safe_some a x y : r_run a x = Ret (Some y) → RInv y → r_safe a x.
Proof. intros E H. left. exists (Some y). split; [done|]. by intros ? [= <-]. Qed.

Lemma on_heap_run {A} (p : C A) x k a s : p (r_heap x) = Ret (a, s) → on_heap p x k = Ret (Some (k a s)).
Proof. intros E. unfold on_heap. by rewrite E. Qed.

Lemma on_heap_blocked {A} (p : C A) x k : p (r_heap x) = Blocked → on_heap p x k = Ret None.
Proof. intros E. unfold on_heap. by rewrite E. Qed.

Lemma on_heap_some {A} (p : C A) x k y : on_heap p x k = Ret (Some y) → ∃ a s, y = k a s.
Proof. unfold on_heap. destruct (p (r_heap x)) as [[a s]| | | |]; try done. intros [= <-]. eauto. Qed.

Lemma RInv_conn x i fd : RInv x → r_safe (RConn i fd) x.
Proof.
  intros H. destruct (r_calls x !! i) as [[ch [| |]]|] eqn:E; [|by apply r_safe_none; simpl; rewrite E..].
  pose proof (call_not_down _ _ _ H E) as Hd. destruct x as [s chan ls dn]. simpl in E, Hd. subst dn.
  destruct (lookup_split _ _ _ E) as (l1 & l2 & -> & Hi & _). apply RInv_mid in H. simpl in H.
  destruct (get_refconn_ok s (refs_of (l1 ++ l2)) (sends_of (l1 ++ l2)) (removes_of (l1 ++ l2)) fd chan ch H)
    as [E1|[[E1 Hm]|(chan' & ch' & s' & E1 & H1)]]; [apply sends_refs|apply removes_refs| | |].
  - apply r_safe_none. simpl. rewrite E. by apply on_heap_blocked.
  - right. right. split; [simpl; rewrite E; unfold on_heap; simpl; by rewrite E1|]. right. by exists i, fd.
  - eapply r_safe_some; [simpl; rewrite E; by apply on_heap_run|]. simpl. rewrite Hi. by apply RInv_mid.
Qed.

(** A call sends, has sent, or returns from block_remove_fd. *)
Lemma RInv_sending a x i c q (p : C sphase) :
  RInv x → r_calls x !! i = Some (RCall (Some c) q) →
  (∀ R A W D, LInv (r_heap x) R A (q_sends q [c] ++ W) (q_removes q [c] ++ D) → c ∈ R →
     p (r_heap x) = Blocked ∨ ∃ q' s', p (r_heap x) = Ret (q', s') ∧ LInv s' R A (q_sends q' [c] ++ W) (q_removes q' [c] ++ D)) →
  r_run a x = on_heap p x (λ q', set_call i (RCall (Some c) q') x) → r_safe a x.
Proof.
  intros H E Hp Er. pose proof (call_not_down _ _ _ H E) as Hd. destruct x as [s chan ls dn]. simpl in *. subst dn.
  destruct (lookup_split _ _ _ E) as (l1 & l2 & -> & Hi & _). apply RInv_mid in H. simpl in H.
  destruct (Hp _ _ _ _ H) as [E1|(q' & s' & E1 & H1)]; [apply elem_of_app; right; by left| |].
  - apply r_safe_none. rewrite Er. by apply on_heap_blocked.
  - eapply r_safe_some; [rewrite Er; by apply on_heap_run|]. unfold set_call. simpl. rewrite Hi. by apply RInv_mid.
Qed.

Lemma RInv_send x i w : RInv x → r_safe (RSend i w) x.
Proof.
  intros H. destruct (r_calls x !! i) as [[[c|] [| |]]|] eqn:E; try (by apply r_safe_none; simpl; rewrite E).
  apply (RInv_sending _ x i c QNone (c_send w c) H E); [|by simpl; rewrite E]. intros R A W D HL Hc.
  destruct (send_ok _ _ _ _ _ w c HL Hc) as [?|(q & s' & ? & ? & _)]; [by left|right; eauto].
Qed.

Lemma RInv_sent x i : RInv x → r_safe (RSent i) x.
Proof.
  intros H. destruct (r_calls x !! i) as [[[c|] [| |]]|] eqn:E; try (by apply r_safe_none; simpl; rewrite E).
  apply (RInv_sending _ x i c QWait (c_sent c;; mret QNone) H E).
  - intros R A W D HL Hc. destruct (sent_ok _ _ _ _ _ c HL Hc) as (s' & E1 & ? & _). right. exists QNone, s'. split; [by run E1|done].
  - simpl. rewrite E. unfold on_heap, mbind, st_bind, res_bind. by destruct (c_sent c (r_heap x)) as [[? ?]| | | |].
Qed.

Lemma RInv_removed x i spurious : RInv x → r_safe (RRemoved i spurious) x.
Proof.
  intros H. destruct (r_calls x !! i) as [[[c|] [| |]]|] eqn:E; try (by apply r_safe_none; simpl; rewrite E).
  apply (RInv_sending _ x i c QRemove (c_send_removed spurious c;; mret QNone) H E).
  - intros R A W D HL Hc. destruct (send_removed_ok _ _ _ _ _ spurious c HL Hc) as [E1|(s' & E1 & ? & _)].
    + left. unfold mbind, st_bind. by rewrite E1.
    + right. exists QNone, s'. split; [by run E1|done].
  - simpl. rewrite E. unfold on_heap, mbind, st_bind, res_bind. by destruct (c_send_removed spurious c (r_heap x)) as [[? ?]| | | |].
Qed.

Lemma RInv_end x i : RInv x → r_safe (REnd i) x.
Proof.
  intros H. destruct (r_calls x !! i) as [[ch [| |]]|] eqn:E; [|by apply r_safe_none; simpl; rewrite E..].
  pose proof (call_not_down _ _ _ H E) as Hd. destruct x as [s chan ls dn]. simpl in E, Hd. subst dn.
  destruct (lookup_split _ _ _ E) as (l1 & l2 & -> & _ & Hi). apply RInv_mid in H. simpl in H.
  rewrite (assoc_L (++)), (comm (++) (option_list chan)), <- (assoc_L (++)) in H.
  edestruct (when_decref_ok s _ _ _ _ ch H) as (s' & E1 & H1).
  - by apply list_subseteq_app_l.
  - apply list_subseteq_app_r, sends_refs.
  - apply list_subseteq_app_r, removes_refs.
  - eapply r_safe_some; [simpl; rewrite E; by apply on_heap_run|]. simpl. rewrite Hi. by split.
Qed.

Lemma RInv_callback x bad : RInv x → r_safe (RCallback bad) x.
Proof.
  intros [H Hd]. destruct (callback_ok _ _ _ _ _ bad H) as [E|[[E Hs]|[[E Hs]|(more & s' & E & H1 & _)]]].
  - apply r_safe_none. simpl. by apply on_heap_blocked.
  - right. left. split; [simpl; unfold on_heap; by rewrite E|]. split; [by exists bad|done].
  - right. right. split; [simpl; unfold on_heap; by rewrite E|]. left. split; [by exists bad|done].
  - eapply r_safe_some; [simpl; by apply on_heap_run|]. by split.
Qed.

Lemma RInv_destroy x : RInv x → r_safe RDestroy x.
Proof.
  intros [H Hd]. destruct x as [s chan ls dn]. simpl in *. destruct ls; [|by apply r_safe_none].
  destruct dn; [by apply r_safe_none|]. destruct chan as [c|]; [|by eapply r_safe_some].
  simpl in H. destruct (closeconn_ok _ _ _ _ _ c H) as (more & s1 & E1 & H1 & _ & Hd1); [by left|]. destruct more.
  - apply LInv_dead in H1; [|done]. eapply r_safe_some; [simpl; apply on_heap_run; simpl; run E1; reflexivity|]. by split.
  - apply LInv_dead in H1; [|done]. destruct (decref_ok s1 [] [] [] [] c H1) as (s2 & E2 & H2 & _); [done..|].
    eapply r_safe_some; [simpl; apply on_heap_run; simpl; run E1; by run E2|]. by split.
Qed.

Lemma RInv_closed x spurious : RInv x → r_safe (RDown spurious) x.
Proof.
  intros [H Hd]. destruct x as [s chan ls dn]. simpl in *. destruct chan as [c|]; [|by apply r_safe_none].
  destruct dn; [|by apply r_safe_none]. rewrite (Hd eq_refl) in *. simpl in H.
  destruct (closed_ok _ _ _ _ _ spurious c H) as [E1|(s1 & E1 & H1 & _ & _)]; [by left| |].
  - apply r_safe_none. simpl. apply on_heap_blocked. simpl. unfold mbind, st_bind. by rewrite E1.
  - destruct (decref_ok s1 [] [] [] [] c H1) as (s2 & E2 & H2 & _); [done..|].
    eapply r_safe_some; [simpl; apply on_heap_run; simpl; by run E1|]. by split.
Qed.

Lemma RInv_run x a : RInv x → r_safe a x.
Proof.
  intros H. destruct a; auto using RInv_conn, RInv_send, RInv_sent, RInv_removed, RInv_end, RInv_callback, RInv_destroy, RInv_closed.
  - destruct (r_down x) eqn:Ed; [apply r_safe_none; simpl; by rewrite Ed|]. eapply r_safe_some; [simpl; by rewrite Ed|].
    destruct H as [H _]. rewrite Ed in H. split; [|done]. simpl in *. unfold refs_of, sends_of, removes_of in *. rewrite !bind_app. simpl.
    by rewrite !app_nil_r.
  - destruct (c_poll fd wr (r_heap x)) as [s'|] eqn:E; [|apply r_safe_none; simpl; by rewrite E].
    destruct H as [H Hd]. destruct (poll_ok _ _ _ _ _ _ _ _ H E) as [H1 _]. eapply r_safe_some; [simpl; by rewrite E|]. by split.
Qed.

Lemma RInv_reachable x : rtc rstep rsys_new x → RInv x.
Proof.
  intros Hr. revert x Hr. apply rtc_ind_r.
  - split; [|done]. split; simpl; try done. intros c Hc. by apply elem_of_nil in Hc.
  - intros x y _ [a E] H. destruct (RInv_run x a H) as [(o & E1 & H1)|[[E1 _]|[E1 _]]]; rewrite E in E1; try done.
    injection E1 as <-. by apply H1.
Qed.


(** A run: two calls share a connection that breaks under one of them; each
    takes the new one in turn. *)
Fixpoint r_runs (acts : list ract) (x : rsys) : res (option rsys) :=
  match acts with
  | [] => Ret (Some x)
  | a :: acts => match r_run a x with Ret (Some y) => r_runs acts y | r => r end
  end.

Lemma r_runs_sound acts x y : r_runs acts x = Ret (Some y) → rtc rstep x y.
Proof.
  revert x. induction acts as [|a acts IH]; intros x; simpl; [intros [= ->]; constructor|].
  destruct (r_run a x) as [[z|]| | | |] eqn:E; try done. intros H. eapply rtc_l; [by exists a|by apply IH].
Qed.

(** The first connection breaks in a write callback; the last send fails while the
    poll manager is about to call write_cb. *)
Definition ex_client_acts : list ract :=
  [RStart; RConn 0 (Some (7, (1, 0))); RSend 0 WPart; RStart; RConn 1 None; RPoll 7 true; RCallback true; RSent 0; RConn 0 None;
   RSend 1 WFull; RConn 1 (Some (8, (2, 0))); REnd 0; RPoll 8 true; RSend 0 WFail].

Definition ex_client : rsys :=
  RSys (CHeap {[2 := CObj 2 true true 8 (2, 0)]} 3 {[8 := 2]} (Some (2, 8, true)) []) (Some 2) [RCall (Some 2) QRemove] false.


(** A removal that a wakeup without a signal ends early, while the poll manager is
    about to call read_cb: the connection is deleted under the callback. *)
Lemma early_removal_use_after_free :
  ∃ x, rtc rstep rsys_new x ∧ r_run (RCallback false) x = Undef ∧ r_undef (RCallback false) x.
Proof.
  exists (RSys (CHeap {[2 := CObj 2 false false 8 (2, 0)]} 3 {[8 := 2]} (Some (1, 7, false)) [1]) (Some 2) [RCall (Some 2) QNone] false).
  split; [|split; [by_vm|]].
  - apply (r_runs_sound [RStart; RConn 0 (Some (7, (1, 0))); RPoll 7 false; RSend 0 WFail; RRemoved 0 true; RConn 0 (Some (8, (2, 0)))]). by_vm.
  - split; [by exists false|]. exists 1, 7, false. split_and!; [done|by_vm|by left].
Qed.
