(* ===== verification/ConnServer.v ===== *)
(** The server's use of connection objects: the listener (class tcpsconn of
    rpc/connection.cc) with its garbage collection, the jobs that rpcs::got_pdu
    creates and the connections rpcs::dispatch keeps for its clients
    (rpc/rpc.cc), over the heap of ConnLife.v.

    The accept thread looks at one connection at a time and takes the locks of
    isdead, ref and decref one after the other; dispatch threads and the poll
    manager run in between. *)
From S2P Require Import Prelude PollMgr RpcServer ConnLife.
Local Open Scope Z_scope.

(** ** The accept thread *)

(** What process_accept knows of the connection at its iterator. *)
Inductive seen := SNone | SDead | SOne.

(** Waiting in select; scanning, with the new connection [ch] and the entries
    that the iterator has still to visit; in ~tcpsconn, with the entries left;
    there inside closeconn of a connection. *)
Inductive aphase :=
  | AIdle
  | AScan (ch : Z) (todo : list (Z * Z)) (w : seen)
  | ADown (todo : list (Z * Z))
  | AClose (c : Z) (todo : list (Z * Z)).

(** One step of process_accept after accept and new connection, or of the loop
    of ~tcpsconn: the new phase and conns_. *)
Definition accept_step (spurious : bool) (acc : aphase) (conns : gmap Z Z) : C (aphase * gmap Z Z) :=
  match acc with
  | AIdle | ADown [] => mret (acc, conns)
  | AScan ch [] _ => o ← c_deref ch; mret (AIdle, <[co_fd o := ch]> conns)
  | AScan ch ((fd, c) :: todo) SNone =>
      dead ← c_isdead c;
      mret (if dead : bool then AScan ch ((fd, c) :: todo) SDead else AScan ch todo SNone, conns)
  | AScan ch ((fd, c) :: todo) SDead =>
      n ← c_ref c;
      mret (if n =? 1 then AScan ch ((fd, c) :: todo) SOne else AScan ch todo SNone, conns)
  | AScan ch ((fd, c) :: todo) SOne => c_decref c;; mret (AScan ch todo SNone, delete fd conns)
  | ADown ((fd, c) :: todo) =>
      more ← c_closeconn c;
      if more : bool then mret (AClose c todo, conns) else c_decref c;; mret (ADown todo, conns)
  | AClose c todo => c_closed spurious c;; c_decref c;; mret (ADown todo, conns)
  end.

(** ** Dispatch threads *)

(** Before the duplicate check, at the handler, with a reply to send, inside
    send, inside its block_remove_fd, and at the end. *)
Inductive jphase := PNew | PRun | PReply | PSend | PRemove | PEnd.

(** [sj_drop]: the end of dispatch drops the reference; the answer to a request
    for an old instance of the server returns without. *)
Record sjob := SJob { sj_c : Z; sj_clt : Z; sj_drop : bool; sj_ph : jphase }.

(** Saving the latest good connection to the client in conns_. *)
Definition save_latest (c clt : Z) (saved : gmap Z Z) : C (gmap Z Z) :=
  if clt =? 0 then mret saved
  else match saved !! clt with
       | None => c_incref c;; mret (<[clt := c]> saved)
       | Some old =>
           o ← c_deref old; o' ← c_deref c;
           if compare (co_time o) (co_time o') <? 0
           then c_decref old;; c_incref c;; mret (<[clt := c]> saved)
           else mret saved
       end.

(** Getting the latest connection to the client, before the reply is sent. *)
Definition latest_conn (c clt : Z) (saved : gmap Z Z) : C Z :=
  dead ← c_isdead c;
  if dead && negb (bool_decide (saved !! clt = Some c)) then
    c_decref c;;
    match saved !! clt with None => st_undef | Some c' => c_incref c';; mret c' end
  else mret c.

(** ** The server *)
Record ssys := SSys {
  v_heap : cheap; v_conns : gmap Z Z; v_acc : aphase;
  v_saved : gmap Z Z; v_jobs : list sjob; v_leaked : list Z }.

Definition ssys_new : ssys := SSys cheap_new ∅ AIdle ∅ [] [].

(** A client connects; the accept thread goes on; ~tcpsconn begins; a dispatch
    thread: bad
    header, old server instance, duplicate check reached, request in progress,
    reply remembered or forgotten, handler done, send, sent, return from
    block_remove_fd, end of dispatch.  The poll manager's thread tests its table,
    and makes the callback, which may find a packet for [clt] that the thread pool
    accepts or not. *)
Inductive sact :=
  | VAccept (fd : Z) (now : Z * Z)
  | VListen (spurious : bool)
  | VDown
  | VBad (i : nat)
  | VOld (i : nat)
  | VSave (i : nat)
  | VStop (i : nat)
  | VDup (i : nat)
  | VLatest (i : nat)
  | VSend (i : nat) (w : wres)
  | VSent (i : nat)
  | VRemoved (i : nat) (spurious : bool)
  | VEnd (i : nat)
  | VPoll (fd : Z) (wr : bool)
  | VCallback (bad : bool) (packet : option (Z * bool)).

Definition with_heap (s : cheap) (x : ssys) : ssys :=
  SSys s (v_conns x) (v_acc x) (v_saved x) (v_jobs x) (v_leaked x).

Definition with_jobs (js : list sjob) (x : ssys) : ssys :=
  SSys (v_heap x) (v_conns x) (v_acc x) (v_saved x) js (v_leaked x).

Definition with_saved (m : gmap Z Z) (x : ssys) : ssys :=
  SSys (v_heap x) (v_conns x) (v_acc x) m (v_jobs x) (v_leaked x).

Definition with_acc (a : aphase) (m : gmap Z Z) (x : ssys) : ssys :=
  SSys (v_heap x) m a (v_saved x) (v_jobs x) (v_leaked x).

Definition set_job (i : nat) (j : sjob) (x : ssys) : ssys := with_jobs (<[i := j]> (v_jobs x)) x.

Definition del_job (i : nat) (x : ssys) : ssys := with_jobs (take i (v_jobs x) ++ drop (S i) (v_jobs x)) x.

Definition at_phase (p : jphase) (j : sjob) : sjob := SJob (sj_c j) (sj_clt j) (sj_drop j) p.

(** The [i]-th job, if it is at phase [p]. *)
Definition job_at (i : nat) (p : jphase → bool) (x : ssys) : option sjob :=
  j ← v_jobs x !! i; if p (sj_ph j) then Some j else None.

Definition is_new (p : jphase) : bool := match p with PNew => true | _ => false end.
Definition is_run (p : jphase) : bool := match p with PRun => true | _ => false end.
Definition is_reply (p : jphase) : bool := match p with PReply => true | _ => false end.
Definition is_send (p : jphase) : bool := match p with PSend => true | _ => false end.
Definition is_remove (p : jphase) : bool := match p with PRemove => true | _ => false end.
Definition is_end (p : jphase) : bool := match p with PEnd => true | _ => false end.

Definition v_on {A} (p : C A) (x : ssys) (k : A → ssys → ssys) : res (option ssys) :=
  match p (v_heap x) with Blocked => Ret None | r => '(a, s) ← r; Ret (Some (k a (with_heap s x))) end.

Definition v_job (i : nat) (p : jphase → bool) (x : ssys) (f : sjob → res (option ssys)) : res (option ssys) :=
  match job_at i p x with Some j => f j | None => Ret None end.

(** End of dispatch. *)
Definition drop_job (i : nat) (j : sjob) (x : ssys) : res (option ssys) :=
  if sj_drop j then v_on (c_decref (sj_c j)) x (λ _, del_job i)
  else Ret (Some (SSys (v_heap x) (v_conns x) (v_acc x) (v_saved x)
                    (take i (v_jobs x) ++ drop (S i) (v_jobs x)) (sj_c j :: v_leaked x))).

(** rpcs::got_pdu: the connection and the client of the job, if there is one. *)
Definition v_got (c clt : Z) (succ : bool) : C (option (Z * Z)) :=
  c_incref c;; if succ then mret (Some (c, clt)) else c_decref c;; mret None.

Definition v_callback (bad : bool) (packet : option (Z * bool)) : C (option (Z * Z)) :=
  r ← c_callback bad;
  match r, packet with Some c, Some (clt, succ) => v_got c clt succ | _, _ => mret None end.

Definition add_job (r : option (Z * Z)) (x : ssys) : ssys :=
  match r with None => x | Some (c, clt) => with_jobs (v_jobs x ++ [SJob c clt true PNew]) x end.

(** The phase after the first part of send. *)
Definition sent_phase (q : sphase) : jphase := match q with QNone => PEnd | QWait => PSend | QRemove => PRemove end.

Definition v_run (a : sact) (x : ssys) : res (option ssys) :=
  match a with
  | VAccept fd now =>
      match v_acc x with
      | AIdle =>
          if fd_free fd (v_heap x) then
            v_on (connection_new fd now) x (λ ch x, with_acc (AScan ch (map_to_list (v_conns x)) SNone) (v_conns x) x)
          else Ret None
      | _ => Ret None
      end
  | VListen spurious => v_on (accept_step spurious (v_acc x) (v_conns x)) x (λ '(acc, conns), with_acc acc conns)
  | VDown => match v_acc x with AIdle => Ret (Some (with_acc (ADown (map_to_list (v_conns x))) (v_conns x) x)) | _ => Ret None end
  | VBad i => v_job i is_new x (λ j, drop_job i j x)
  | VOld i => v_job i is_new x (λ j, Ret (Some (set_job i (SJob (sj_c j) (sj_clt j) false PReply) x)))
  | VSave i =>
      v_job i is_new x (λ j, v_on (save_latest (sj_c j) (sj_clt j) (v_saved x)) x
                          (λ m x, set_job i (at_phase PRun j) (with_saved m x)))
  | VStop i => v_job i is_run x (λ j, Ret (Some (set_job i (at_phase PEnd j) x)))
  | VDup i => v_job i is_run x (λ j, Ret (Some (set_job i (at_phase PReply j) x)))
  | VLatest i =>
      v_job i is_run x (λ j, v_on (latest_conn (sj_c j) (sj_clt j) (v_saved x)) x
                          (λ c, set_job i (SJob c (sj_clt j) (sj_drop j) PReply)))
  | VSend i w => v_job i is_reply x (λ j, v_on (c_send w (sj_c j)) x (λ q, set_job i (at_phase (sent_phase q) j)))
  | VSent i => v_job i is_send x (λ j, v_on (c_sent (sj_c j)) x (λ _, set_job i (at_phase PEnd j)))
  | VRemoved i spurious =>
      v_job i is_remove x (λ j, v_on (c_send_removed spurious (sj_c j)) x (λ _, set_job i (at_phase PEnd j)))
  | VEnd i => v_job i is_end x (λ j, drop_job i j x)
  | VPoll fd wr => Ret (s ← c_poll fd wr (v_heap x); Some (with_heap s x))
  | VCallback bad packet => v_on (v_callback bad packet) x add_job
  end.

Definition vstep (x y : ssys) : Prop := ∃ a, v_run a x = Ret (Some y).

(** A handler is done, the connection of the request is dead, and the client has
    no saved one since it asked for no at-most-once service (nonce 0). *)
Definition null_reply (a : sact) (x : ssys) : Prop :=
  ∃ i j o, a = VLatest i ∧ job_at i is_run x = Some j ∧ sj_clt j = 0 ∧ objs (v_heap x) !! sj_c j = Some o ∧ co_dead o = true.

(** ** The invariant *)
Definition vals (m : gmap Z Z) : list Z := (map_to_list m).*2.

(** The connections the listener refers to. *)
Definition acc_conns (acc : aphase) (conns : gmap Z Z) : list Z :=
  match acc with
  | AIdle => vals conns
  | AScan ch _ _ => ch :: vals conns
  | ADown todo => todo.*2
  | AClose c todo => c :: todo.*2
  end.

(** The connection whose descriptor ~tcpsconn is removing. *)
Definition acc_removes (acc : aphase) : list Z := match acc with AClose c _ => [c] | _ => [] end.

(** The references outside the listener. *)
Definition outer (x : ssys) : list Z := vals (v_saved x) ++ (sj_c <$> v_jobs x) ++ v_leaked x.

Definition q_of (p : jphase) : sphase := match p with PSend => QWait | PRemove => QRemove | _ => QNone end.

Definition j_sends (js : list sjob) : list Z := js ≫= λ j, q_sends (q_of (sj_ph j)) [sj_c j].

Definition j_removes (js : list sjob) : list Z := js ≫= λ j, q_removes (q_of (sj_ph j)) [sj_c j].

Definition fds_ok (s : cheap) (conns : gmap Z Z) : Prop :=
  ∀ fd c, conns !! fd = Some c → ∃ o, objs s !! c = Some o ∧ co_fd o = fd.

Definition new_fd (s : cheap) (conns : gmap Z Z) (ch : Z) : Prop :=
  ∃ o, objs s !! ch = Some o ∧ conns !! co_fd o = None.

(** What the accept thread has seen is still so. *)
Definition seen_ok (s : cheap) (out : list Z) (todo : list (Z * Z)) (w : seen) : Prop :=
  match w, todo with
  | SNone, _ => True
  | SDead, (_, c) :: _ => dead_at s c
  | SOne, (_, c) :: _ => dead_at s c ∧ c ∉ out
  | _, [] => False
  end.

Definition AInv (s : cheap) (acc : aphase) (conns : gmap Z Z) (out : list Z) : Prop :=
  match acc with
  | AIdle => fds_ok s conns
  | AScan ch todo w => fds_ok s conns ∧ todo ⊆ map_to_list conns ∧ NoDup todo.*1 ∧ new_fd s conns ch ∧ seen_ok s out todo w
  | ADown _ => True
  | AClose c _ => dead_at s c
  end.

Definition jobs_ok (saved : gmap Z Z) (js : list sjob) : Prop :=
  saved !! 0 = None ∧ ∀ j, j ∈ js → is_run (sj_ph j) = true → sj_clt j ≠ 0 → is_Some (saved !! sj_clt j).

Record VInv (x : ssys) : Prop := {
  vi_refs : LInv (v_heap x) (acc_conns (v_acc x) (v_conns x) ++ outer x) (acc_conns (v_acc x) (v_conns x)) (j_sends (v_jobs x))
    (acc_removes (v_acc x) ++ j_removes (v_jobs x));
  vi_acc : AInv (v_heap x) (v_acc x) (v_conns x) (outer x);
  vi_jobs : jobs_ok (v_saved x) (v_jobs x) }.

Lemma vals_elem m c : c ∈ vals m ↔ ∃ k, m !! k = Some c.
Proof.
  unfold vals. rewrite list_elem_of_fmap. split.
  - intros ([k c'] & -> & H%elem_of_map_to_list). by exists k.
  - intros [k Hk]. exists (k, c). split; [done|]. by apply elem_of_map_to_list.
Qed.

Lemma vals_insert m k c : m !! k = None → vals (<[k := c]> m) ≡ₚ c :: vals m.
Proof. intros H. unfold vals. by rewrite map_to_list_insert. Qed.

Lemma vals_delete m k c : m !! k = Some c → vals m ≡ₚ c :: vals (delete k m).
Proof. intros H. unfold vals. by rewrite <- (map_to_list_delete m k c H). Qed.

Lemma vals_replace m k c c' : m !! k = Some c → vals m ≡ₚ c :: vals (delete k m) ∧ vals (<[k := c']> m) ≡ₚ c' :: vals (delete k m).
Proof.
  intros H. split; [by apply vals_delete|]. rewrite <- insert_delete_eq. apply vals_insert, lookup_delete_eq.
Qed.

Lemma j_sends_refs js : j_sends js ⊆ sj_c <$> js.
Proof.
  intros c (j & H1 & H2)%list_elem_of_bind. apply list_elem_of_fmap. exists j. split; [|done].
  destruct (q_of (sj_ph j)); [by apply elem_of_nil in H1|by apply list_elem_of_singleton in H1..].
Qed.

Lemma j_removes_refs js : j_removes js ⊆ sj_c <$> js.
Proof.
  intros c (j & H1 & H2)%list_elem_of_bind. apply list_elem_of_fmap. exists j. split; [|done].
  destruct (q_of (sj_ph j)); [by apply elem_of_nil in H1..|by apply list_elem_of_singleton in H1].
Qed.

Lemma acc_removes_refs acc conns : acc_removes acc ⊆ acc_conns acc conns.
Proof. destruct acc; simpl; [apply list_subseteq_nil..|]. intros x ->%list_elem_of_singleton. by left. Qed.

Lemma dead_stems s s' c : dead_at s c → stems s s' → is_Some (objs s' !! c) → c < next_obj s → dead_at s' c.
Proof.
  intros (o & Ho & Hd) [_ K] [o' Ho'] Hlt. destruct (K c o' Ho' Hlt) as (o1 & Ho1 & _ & Hd').
  exists o'. split; [done|]. apply Hd'. congruence.
Qed.

Lemma fd_stems s s' c o : objs s !! c = Some o → stems s s' → is_Some (objs s' !! c) → c < next_obj s →
  ∃ o', objs s' !! c = Some o' ∧ co_fd o' = co_fd o.
Proof.
  intros Ho [_ K] [o' Ho'] Hlt. destruct (K c o' Ho' Hlt) as (o1 & Ho1 & Hf & _). exists o'. split; [done|congruence].
Qed.

(** The listener's view while other threads move. *)
Lemma AInv_stems s s' acc conns R out out' W D R' W' D' :
  AInv s acc conns out → LInv s R (acc_conns acc conns) W D → LInv s' R' (acc_conns acc conns) W' D' →
  acc_conns acc conns ⊆ R → acc_conns acc conns ⊆ R' → stems s s' →
  (∀ c, c ∈ out' → c ∈ out ∨ ¬ dead_at s c) → AInv s' acc conns out'.
Proof.
  intros HA HL HL' HR HR' Hst Hout.
  assert (∀ c, c ∈ acc_conns acc conns → is_Some (objs s' !! c) ∧ c < next_obj s) as Hc.
  { intros c Hc. split; [by apply (li_live _ _ _ _ _ HL'), HR'|].
    destruct (li_live _ _ _ _ _ HL c (HR c Hc)) as [o Ho]. by apply (li_fresh _ _ _ _ _ HL c o). }
  assert (∀ c o, c ∈ acc_conns acc conns → objs s !! c = Some o → ∃ o', objs s' !! c = Some o' ∧ co_fd o' = co_fd o) as Hf.
  { intros c o Hi Ho. destruct (Hc c Hi). by eapply fd_stems. }
  destruct acc as [|ch todo w|todo|c todo]; simpl in *; [|destruct HA as (H1 & H2 & H3 & (o & Ho & Hn) & H5)|done|].
  - intros fd c Hl. destruct (HA fd c Hl) as (o & Ho & <-). apply Hf; [by apply vals_elem; exists (co_fd o)|done].
  - split_and!; [|done|done| |].
    + intros fd c Hl. destruct (H1 fd c Hl) as (o1 & Ho1 & <-). apply Hf; [right; by apply vals_elem; exists (co_fd o1)|done].
    + destruct (Hf ch o) as (o' & Ho' & E); [by left|done|]. exists o'. by rewrite E.
    + assert (∀ fd c t, todo = (fd, c) :: t → dead_at s c → dead_at s' c) as Hd.
      { intros fd c t -> Hd. destruct (Hc c); [|by eapply dead_stems]. right. apply vals_elem. exists fd.
        apply elem_of_map_to_list, H2. by left. }
      destruct w, todo as [|[fd c] t]; simpl in *; try done; [by eapply Hd|]. destruct H5 as [H5 H6].
      split; [by eapply Hd|]. intros [?|?]%Hout; done.
  - destruct (Hc c); [by left|]. by eapply dead_stems.
Qed.

(** A step of the other threads. *)
Lemma VInv_move x s' saved' js' leaked' :
  VInv x →
  let y := SSys s' (v_conns x) (v_acc x) saved' js' leaked' in
  LInv s' (acc_conns (v_acc x) (v_conns x) ++ outer y) (acc_conns (v_acc x) (v_conns x)) (j_sends js')
    (acc_removes (v_acc x) ++ j_removes js') →
  stems (v_heap x) s' → (∀ c, c ∈ outer y → c ∈ outer x ∨ ¬ dead_at (v_heap x) c) →
  jobs_ok saved' js' → VInv y.
Proof.
  intros [H1 H2 H3] y HL Hst Hout Hj. split; [done| |done]. eapply AInv_stems; [exact H2|exact H1|exact HL| | |done|done];
    by apply list_subseteq_app_l.
Qed.

(** ** The operations *)
Lemma save_latest_ok s Q A W D c clt saved :
  LInv s (vals saved ++ Q) A W D → c ∈ Q → A ⊆ Q → W ⊆ Q → D ⊆ Q → saved !! 0 = None →
  ∃ m s', save_latest c clt saved s = Ret (m, s') ∧ LInv s' (vals m ++ Q) A W D ∧ stems s s' ∧
    vals m ⊆ c :: vals saved ∧ (∀ k, is_Some (saved !! k) ∨ (k = clt ∧ k ≠ 0) → is_Some (m !! k)) ∧ m !! 0 = None.
Proof.
  intros HL Hc HA HW HD H0. unfold save_latest. destruct (Z.eqb_spec clt 0) as [->|Hz].
  { exists saved, s. split_and!; [done|done|reflexivity|by apply list_subseteq_cons| |done]. intros k [?|[-> ?]]; done. }
  assert (∀ k, is_Some (saved !! k) ∨ (k = clt ∧ k ≠ 0) → is_Some (<[clt := c]> saved !! k)) as Hk.
  { intros k Hk. destruct (decide (k = clt)) as [->|Hne]; [rewrite lookup_insert_eq; by eexists|].
    rewrite lookup_insert_ne by congruence. by destruct Hk as [?|[? _]]. }
  assert (<[clt := c]> saved !! 0 = None) as H0' by (by rewrite lookup_insert_ne).
  assert (vals (<[clt := c]> saved) ⊆ c :: vals saved) as Hsub.
  { intros d [k Hd]%vals_elem. apply lookup_insert_Some in Hd as [[_ <-]|[_ Hd]]; [by left|]. right. apply vals_elem. by exists k. }
  destruct (saved !! clt) as [old|] eqn:E.
  - destruct (vals_replace saved clt old c E) as [P1 P2]. rewrite P1 in HL. simpl in HL.
    destruct (li_live _ _ _ _ _ HL old) as [o Ho]; [by left|].
    destruct (li_live _ _ _ _ _ HL c) as [o' Ho']; [right; by apply elem_of_app; right|].
    run (c_deref_run _ _ _ Ho). run (c_deref_run _ _ _ Ho'). destruct (compare _ _ <? 0).
    + destruct (decref_ok s _ A W D old HL) as (s1 & E1 & HL1 & St1 & _); [by apply list_subseteq_app_r..|].
      destruct (incref_ok s1 _ A W D c HL1) as (s2 & E2 & HL2 & St2); [by apply elem_of_app; right|].
      exists (<[clt := c]> saved), s2. split; [run E1; by run E2|]. split; [by rewrite P2|]. split_and!; [by etrans|done..].
    + exists saved, s. split; [done|]. split; [by rewrite P1|].
      split_and!; [reflexivity|by apply list_subseteq_cons| |done]. intros k [?|[-> ?]]; [done|by eexists].
  - destruct (incref_ok s _ A W D c HL) as (s2 & E2 & HL2 & St2); [by apply elem_of_app; right|].
    exists (<[clt := c]> saved), s2. split; [by run E2|]. split; [by rewrite vals_insert by done|done].
Qed.

(** The choice of the connection for the reply fails only if there is none. *)
Lemma latest_conn_ok s Q A W D c clt saved :
  LInv s (c :: Q) A W D → A ⊆ Q → W ⊆ Q → D ⊆ Q → vals saved ⊆ Q →
  (latest_conn c clt saved s = Undef ∧ dead_at s c ∧ saved !! clt = None) ∨
  ((dead_at s c → is_Some (saved !! clt)) ∧
   ∃ c' s', latest_conn c clt saved s = Ret (c', s') ∧ LInv s' (c' :: Q) A W D ∧ stems s s' ∧ (c' = c ∨ c' ∈ vals saved)).
Proof.
  intros HL HA HW HD HQ. destruct (li_live _ _ _ _ _ HL c) as [o Ho]; [by left|]. unfold latest_conn.
  rewrite (bind_run _ _ _ (co_dead o) s) by (unfold c_isdead; by run (c_deref_run _ _ _ Ho)).
  destruct (co_dead o) eqn:Ed.
  2:{ right. split; [intros (o1 & ? & ?); congruence|]. exists c, s. split_and!; [done|done|reflexivity|by left]. }
  simpl. destruct (bool_decide_reflect (saved !! clt = Some c)) as [E|E]; simpl.
  { right. split; [by eexists|]. exists c, s. split_and!; [done|done|reflexivity|by left]. }
  destruct (decref_ok s Q A W D c HL HA HW HD) as (s1 & E1 & HL1 & St1 & _). destruct (saved !! clt) as [c'|] eqn:Ec.
  - assert (c' ∈ vals saved) as Hc' by (apply vals_elem; by exists clt).
    destruct (incref_ok s1 Q A W D c' HL1 (HQ c' Hc')) as (s2 & E2 & HL2 & St2). right. split; [by eexists|].
    exists c', s2. split; [run E1; by run E2|]. split_and!; [done|by etrans|by right].
  - left. split; [by run E1|]. split; [by exists o|done].
Qed.

(** ** Every action keeps the invariant *)
Definition v_safe (r : res (option ssys)) : Prop := ∃ o, r = Ret o ∧ ∀ y, o = Some y → VInv y.

Lemma v_safe_none : v_safe (Ret None).
Proof. by exists None. Qed.

Lemma v_safe_some y : VInv y → v_safe (Ret (Some y)).
Proof. intros H. exists (Some y). split; [done|]. by intros ? [= <-]. Qed.

Lemma v_safe_on {A} (p : C A) x k a s : p (v_heap x) = Ret (a, s) → VInv (k a (with_heap s x)) → v_safe (v_on p x k).
Proof. intros E H. unfold v_on. rewrite E. by apply v_safe_some. Qed.

Lemma v_safe_blocked {A} (p : C A) x k : p (v_heap x) = Blocked → v_safe (v_on p x k).
Proof. intros E. unfold v_on. rewrite E. apply v_safe_none. Qed.

(** A job, the others, and the references and sends around it. *)
Lemma job_split x i p j :
  job_at i p x = Some j →
  ∃ j1 j2, v_jobs x = j1 ++ j :: j2 ∧ p (sj_ph j) = true ∧ j ∈ v_jobs x ∧ (∀ j', <[i := j']> (v_jobs x) = j1 ++ j' :: j2) ∧
    take i (v_jobs x) ++ drop (S i) (v_jobs x) = j1 ++ j2.
Proof.
  unfold job_at. destruct (v_jobs x !! i) as [j0|] eqn:E; simpl; [|done]. destruct (p (sj_ph j0)) eqn:Ep; [|done]. intros [= ->].
  destruct (lookup_split _ _ _ E) as (j1 & j2 & E1 & Hi & Hd). exists j1, j2.
  split_and!; try done. by eapply list_elem_of_lookup_2.
Qed.

Lemma refs_job A saved (j1 j2 : list sjob) j leaked :
  A ++ vals saved ++ (sj_c <$> j1 ++ j :: j2) ++ leaked ≡ₚ sj_c j :: A ++ vals saved ++ (sj_c <$> j1 ++ j2) ++ leaked.
Proof.
  rewrite !fmap_app, fmap_cons, <- !(assoc_L (++)). simpl.
  rewrite <- !Permutation_middle. done.
Qed.

Lemma sends_job j1 j j2 : j_sends (j1 ++ j :: j2) ≡ₚ q_sends (q_of (sj_ph j)) [sj_c j] ++ j_sends (j1 ++ j2).
Proof. unfold j_sends. by rewrite bind_mid. Qed.

Lemma removes_job L j1 j j2 :
  L ++ j_removes (j1 ++ j :: j2) ≡ₚ q_removes (q_of (sj_ph j)) [sj_c j] ++ L ++ j_removes (j1 ++ j2).
Proof. unfold j_removes. by rewrite bind_mid, !(assoc_L (++)), (comm (++) L). Qed.

(** The references without one job. *)
Definition rest (x : ssys) (saved : gmap Z Z) (js : list sjob) : list Z :=
  acc_conns (v_acc x) (v_conns x) ++ vals saved ++ (sj_c <$> js) ++ v_leaked x.

Lemma VInv_job x j1 j j2 :
  VInv x → v_jobs x = j1 ++ j :: j2 →
  LInv (v_heap x) (sj_c j :: rest x (v_saved x) (j1 ++ j2)) (acc_conns (v_acc x) (v_conns x))
    (q_sends (q_of (sj_ph j)) [sj_c j] ++ j_sends (j1 ++ j2))
    (q_removes (q_of (sj_ph j)) [sj_c j] ++ acc_removes (v_acc x) ++ j_removes (j1 ++ j2)).
Proof. intros [H _ _] E. unfold outer in H. rewrite E in H. by rewrite refs_job, sends_job, removes_job in H. Qed.

Lemma rest_acc x m js : acc_conns (v_acc x) (v_conns x) ⊆ rest x m js.
Proof. by apply list_subseteq_app_l. Qed.

Lemma rest_sends x m js : j_sends js ⊆ rest x m js.
Proof. apply list_subseteq_app_r, list_subseteq_app_r, list_subseteq_app_l, j_sends_refs. Qed.

Lemma rest_removes x m js : acc_removes (v_acc x) ++ j_removes js ⊆ rest x m js.
Proof.
  intros c [Hc|Hc]%elem_of_app; [by eapply rest_acc, acc_removes_refs|].
  apply j_removes_refs in Hc. unfold rest. rewrite !elem_of_app. auto.
Qed.

Lemma rest_saved x m js : vals m ⊆ rest x m js.
Proof. by apply list_subseteq_app_r, list_subseteq_app_l. Qed.

Lemma VInv_set x s m j1 j j2 j' :
  VInv x → v_jobs x = j1 ++ j :: j2 →
  LInv s (sj_c j' :: rest x m (j1 ++ j2)) (acc_conns (v_acc x) (v_conns x))
    (q_sends (q_of (sj_ph j')) [sj_c j'] ++ j_sends (j1 ++ j2))
    (q_removes (q_of (sj_ph j')) [sj_c j'] ++ acc_removes (v_acc x) ++ j_removes (j1 ++ j2)) →
  stems (v_heap x) s → sj_c j' = sj_c j ∨ sj_c j' ∈ vals (v_saved x) → vals m ⊆ sj_c j :: vals (v_saved x) → m !! 0 = None →
  (∀ k, is_Some (v_saved x !! k) → is_Some (m !! k)) →
  (is_run (sj_ph j') = true → sj_clt j' ≠ 0 → is_Some (m !! sj_clt j')) →
  VInv (with_jobs (j1 ++ j' :: j2) (with_saved m (with_heap s x))).
Proof.
  intros HV E HL Hst Hc Hm H0 Hk Hr. apply (VInv_move x s m (j1 ++ j' :: j2) (v_leaked x) HV); [|done| |].
  - unfold outer. simpl. by rewrite refs_job, sends_job, removes_job.
  - intros c Hin. left. revert Hin. unfold outer. simpl. rewrite E, !fmap_app, !fmap_cons, !elem_of_app, !elem_of_cons.
    pose proof (Hm c) as Hmc. rewrite elem_of_cons in Hmc. naive_solver.
  - split; [done|]. intros k Hin Hrk Hz. apply elem_of_app in Hin. rewrite elem_of_cons in Hin.
    destruct Hin as [Hin|[->|Hin]]; [|by apply Hr|]; apply Hk, (vi_jobs _ HV); try done; rewrite E, elem_of_app, elem_of_cons; auto.
Qed.

Lemma VInv_del x s j1 j j2 leaked :
  VInv x → v_jobs x = j1 ++ j :: j2 → leaked = v_leaked x ∨ leaked = sj_c j :: v_leaked x →
  LInv s (acc_conns (v_acc x) (v_conns x) ++ vals (v_saved x) ++ (sj_c <$> j1 ++ j2) ++ leaked) (acc_conns (v_acc x) (v_conns x)) (j_sends (j1 ++ j2))
    (acc_removes (v_acc x) ++ j_removes (j1 ++ j2)) →
  stems (v_heap x) s → VInv (SSys s (v_conns x) (v_acc x) (v_saved x) (j1 ++ j2) leaked).
Proof.
  intros HV E Hlk HL Hst. apply (VInv_move x s (v_saved x) (j1 ++ j2) leaked HV); [done|done| |].
  - intros c Hin. left. revert Hin. unfold outer. simpl. rewrite E, !fmap_app, !fmap_cons, !elem_of_app, !elem_of_cons.
    destruct Hlk as [->| ->]; rewrite ?elem_of_cons; naive_solver.
  - split; [apply (vi_jobs _ HV)|]. intros k Hin Hrk Hz. apply (vi_jobs _ HV); try done.
    rewrite E, elem_of_app, elem_of_cons. apply elem_of_app in Hin. naive_solver.
Qed.

Lemma drop_job_ok x i j p : VInv x → job_at i p x = Some j → q_of (sj_ph j) = QNone → v_safe (drop_job i j x).
Proof.
  intros HV Hj Hs. destruct (job_split _ _ _ _ Hj) as (j1 & j2 & E & _ & _ & _ & Ht). unfold drop_job.
  pose proof (VInv_job x j1 j j2 HV E) as HL. rewrite Hs in HL. simpl in HL. destruct (sj_drop j).
  - destruct (decref_ok _ _ _ _ _ _ HL) as (s' & E1 & HL1 & St & _); [apply rest_acc|apply rest_sends|apply rest_removes|].
    eapply v_safe_on; [exact E1|]. unfold del_job. simpl. rewrite Ht. apply (VInv_del x s' j1 j j2); auto.
  - apply v_safe_some. rewrite Ht. apply (VInv_del x (v_heap x) j1 j j2); [done|done|by right| |reflexivity].
    unfold rest in HL. rewrite !(assoc_L (++)) in HL. by rewrite !(assoc_L (++)), <- Permutation_middle.
Qed.

(** A job that only goes on to another phase. *)
Lemma set_phase_ok x i j p d ph :
  VInv x → job_at i p x = Some j → q_of (sj_ph j) = QNone → q_of ph = QNone → is_run ph = false →
  v_safe (Ret (Some (set_job i (SJob (sj_c j) (sj_clt j) d ph) x))).
Proof.
  intros HV Hj Hs Hs' Hr. destruct (job_split _ _ _ _ Hj) as (j1 & j2 & E & _ & _ & Hset & _). apply v_safe_some. unfold set_job. rewrite Hset.
  pose proof (VInv_job x j1 j j2 HV E) as HL. rewrite Hs in HL.
  apply (VInv_set x (v_heap x) (v_saved x) j1 j j2 (SJob (sj_c j) (sj_clt j) d ph)); simpl; rewrite ?Hs', ?Hr; try done; auto.
  - by apply list_subseteq_cons.
  - apply (vi_jobs _ HV).
Qed.

Lemma VInv_save x i : VInv x → v_safe (v_run (VSave i) x).
Proof.
  intros HV. simpl. unfold v_job. destruct (job_at i is_new x) as [j|] eqn:Hj; [|apply v_safe_none].
  destruct (job_split _ _ _ _ Hj) as (j1 & j2 & E & Hp & _ & Hset & _).
  pose proof (VInv_job x j1 j j2 HV E) as HL. destruct (sj_ph j) eqn:Eph; try done. simpl in HL.
  set (Q := sj_c j :: acc_conns (v_acc x) (v_conns x) ++ (sj_c <$> j1 ++ j2) ++ v_leaked x).
  assert (∀ m, sj_c j :: rest x m (j1 ++ j2) ≡ₚ vals m ++ Q) as HQ.
  { intros m. unfold rest, Q. rewrite <- Permutation_middle, !(assoc_L (++)). by rewrite (comm (++) (vals m)). }
  rewrite HQ in HL.
  edestruct (save_latest_ok (v_heap x) Q _ _ _ (sj_c j) (sj_clt j) (v_saved x) HL) as (m & s' & E1 & HL1 & St & Hm & Hk & H0).
  - by left.
  - by apply list_subseteq_cons, list_subseteq_app_l.
  - apply list_subseteq_cons, list_subseteq_app_r, list_subseteq_app_l, j_sends_refs.
  - intros c [Hc|Hc]%elem_of_app; right; apply elem_of_app; [left; by eapply acc_removes_refs|right; apply elem_of_app; left].
    by apply j_removes_refs.
  - apply (vi_jobs _ HV).
  - eapply v_safe_on; [exact E1|]. unfold set_job. simpl. rewrite Hset. rewrite <- HQ in HL1.
    apply (VInv_set x s' m j1 j j2 (at_phase PRun j)); simpl; auto.
Qed.

Lemma VInv_latest x i :
  VInv x → v_safe (v_run (VLatest i) x) ∧ ¬ null_reply (VLatest i) x ∨ v_run (VLatest i) x = Undef ∧ null_reply (VLatest i) x.
Proof.
  intros HV. simpl. unfold v_job. destruct (job_at i is_run x) as [j|] eqn:Hj.
  2:{ left. split; [apply v_safe_none|]. intros (i' & j & o & [= <-] & ? & _). congruence. }
  destruct (job_split _ _ _ _ Hj) as (j1 & j2 & E & Hp & Hin & Hset & _).
  pose proof (VInv_job x j1 j j2 HV E) as HL. destruct (sj_ph j) eqn:Eph; try done. simpl in HL.
  destruct (vi_jobs _ HV) as [H0 Hrun]. rewrite <- Eph in Hp.
  edestruct (latest_conn_ok (v_heap x) _ _ _ _ (sj_c j) (sj_clt j) (v_saved x) HL) as [(E1 & (o & Ho & Hd) & Hn)|(Hn & c' & s' & E1 & HL1 & St & Hc')];
    [apply rest_acc|apply rest_sends|apply rest_removes|apply rest_saved|right|left].
  - split; [unfold v_on; by rewrite E1|]. exists i, j, o. split_and!; try done.
    destruct (decide (sj_clt j = 0)) as [|Hz]; [done|]. destruct (Hrun j Hin Hp Hz). congruence.
  - split.
    + eapply v_safe_on; [exact E1|]. unfold set_job. simpl.
      rewrite Hset. apply (VInv_set x s' (v_saved x) j1 j j2 (SJob c' (sj_clt j) (sj_drop j) PReply)); simpl; auto.
      by apply list_subseteq_cons.
    + intros (i' & j' & o & [= <-] & Hj' & Hz & Ho & Hd). assert (j' = j) as -> by congruence.
      destruct Hn; [by exists o|]. rewrite Hz in *. congruence.
Qed.

(** A job sends, has sent, or returns from block_remove_fd. *)
Lemma VInv_sending x i p j {B} (q : C B) (k : B → sphase) :
  VInv x → job_at i p x = Some j → is_run (sj_ph j) = false →
  (∀ R A W D, LInv (v_heap x) R A (q_sends (q_of (sj_ph j)) [sj_c j] ++ W) (q_removes (q_of (sj_ph j)) [sj_c j] ++ D) → sj_c j ∈ R →
     q (v_heap x) = Blocked ∨ ∃ b s', q (v_heap x) = Ret (b, s') ∧ stems (v_heap x) s' ∧
       LInv s' R A (q_sends (k b) [sj_c j] ++ W) (q_removes (k b) [sj_c j] ++ D)) →
  v_safe (v_on q x (λ b, set_job i (at_phase (sent_phase (k b)) j))).
Proof.
  intros HV Hj Hr Hq. destruct (job_split _ _ _ _ Hj) as (j1 & j2 & E & Hp & _ & Hset & _).
  destruct (Hq _ _ _ _ (VInv_job x j1 j j2 HV E)) as [Eq|(b & s' & Eq & St & HL)]; [by left|by apply v_safe_blocked|].
  eapply v_safe_on; [exact Eq|]. unfold set_job. simpl. rewrite Hset.
  apply (VInv_set x s' (v_saved x) j1 j j2 (at_phase (sent_phase (k b)) j)); simpl; auto.
  - by destruct (k b).
  - by apply list_subseteq_cons.
  - apply (vi_jobs _ HV).
  - by destruct (k b).
Qed.

Lemma VInv_send x i w : VInv x → v_safe (v_run (VSend i w) x).
Proof.
  intros HV. simpl. unfold v_job. destruct (job_at i is_reply x) as [j|] eqn:Hj; [|apply v_safe_none].
  destruct (job_split _ _ _ _ Hj) as (_ & _ & _ & Hp & _). destruct (sj_ph j) eqn:Eph; try done.
  eapply (VInv_sending x i is_reply j (c_send w (sj_c j)) id); [done|done|by rewrite Eph|]. rewrite Eph. intros R A W D HL Hc.
  destruct (send_ok _ _ _ _ _ w _ HL Hc) as [?|(q & s' & ? & ? & ?)]; [by left|right]. exists q, s'. by split_and!.
Qed.

Lemma VInv_sent x i : VInv x → v_safe (v_run (VSent i) x).
Proof.
  intros HV. simpl. unfold v_job. destruct (job_at i is_send x) as [j|] eqn:Hj; [|apply v_safe_none].
  destruct (job_split _ _ _ _ Hj) as (_ & _ & _ & Hp & _). destruct (sj_ph j) eqn:Eph; try done.
  eapply (VInv_sending x i is_send j (c_sent (sj_c j)) (λ _, QNone)); [done|done|by rewrite Eph|]. rewrite Eph. intros R A W D HL Hc.
  destruct (sent_ok _ _ _ _ _ _ HL Hc) as (s' & ? & ? & ?). right. exists tt, s'. by split_and!.
Qed.

Lemma VInv_removed x i spurious : VInv x → v_safe (v_run (VRemoved i spurious) x).
Proof.
  intros HV. simpl. unfold v_job. destruct (job_at i is_remove x) as [j|] eqn:Hj; [|apply v_safe_none].
  destruct (job_split _ _ _ _ Hj) as (_ & _ & _ & Hp & _). destruct (sj_ph j) eqn:Eph; try done.
  eapply (VInv_sending x i is_remove j (c_send_removed spurious (sj_c j)) (λ _, QNone)); [done|done|by rewrite Eph|]. rewrite Eph.
  intros R A W D HL Hc. destruct (send_removed_ok _ _ _ _ _ spurious _ HL Hc) as [?|(s' & ? & ? & ?)]; [by left|right].
  exists tt, s'. by split_and!.
Qed.

Lemma all_sends x : j_sends (v_jobs x) ⊆ acc_conns (v_acc x) (v_conns x) ++ outer x.
Proof. apply list_subseteq_app_r, list_subseteq_app_r, list_subseteq_app_l, j_sends_refs. Qed.

Lemma all_removes x : acc_removes (v_acc x) ++ j_removes (v_jobs x) ⊆ acc_conns (v_acc x) (v_conns x) ++ outer x.
Proof.
  intros c [Hc|Hc]%elem_of_app; apply elem_of_app; [left; by eapply acc_removes_refs|right].
  by apply elem_of_app; right; apply elem_of_app; left; apply j_removes_refs.
Qed.

(** A step that leaves all references outside the listener as they are. *)
Lemma VInv_heap x s' :
  VInv x → LInv s' (acc_conns (v_acc x) (v_conns x) ++ outer x) (acc_conns (v_acc x) (v_conns x)) (j_sends (v_jobs x))
    (acc_removes (v_acc x) ++ j_removes (v_jobs x)) →
  stems (v_heap x) s' → VInv (with_heap s' x).
Proof. intros HV HL St. apply (VInv_move x s' (v_saved x) (v_jobs x) (v_leaked x) HV); auto. apply (vi_jobs _ HV). Qed.

Lemma VInv_poll x fd wr : VInv x → v_safe (v_run (VPoll fd wr) x).
Proof.
  intros HV. simpl. destruct (c_poll fd wr (v_heap x)) as [s'|] eqn:E; simpl; [|apply v_safe_none].
  destruct (poll_ok _ _ _ _ _ _ _ _ (vi_refs _ HV) E) as [HL St]. by apply v_safe_some, VInv_heap.
Qed.

(** got_pdu on a connection that was alive when the callback began. *)
Lemma VInv_got x s c clt succ :
  VInv x → VInv (with_heap s x) → stems (v_heap x) s → c ∈ acc_conns (v_acc x) (v_conns x) ++ outer x → ¬ dead_at (v_heap x) c →
  ∃ r s', v_got c clt succ s = Ret (r, s') ∧ VInv (add_job r (with_heap s' x)).
Proof.
  intros HV HV1 St Hc Hd. pose proof (vi_refs _ HV1) as HL. simpl in HL.
  change (outer (with_heap s x)) with (outer x) in HL. unfold v_got.
  destruct (incref_ok _ _ _ _ _ c HL Hc) as (s1 & E1 & HL1 & St1). destruct succ.
  - exists (Some (c, clt)), s1. split; [by run E1|].
    apply (VInv_move x s1 (v_saved x) (v_jobs x ++ [SJob c clt true PNew]) (v_leaked x) HV); [|by etrans| |].
    + assert (v_jobs x ++ [] = v_jobs x) as Hn by apply app_nil_r. unfold outer in *. simpl. rewrite refs_job, sends_job, removes_job.
      simpl. by rewrite Hn.
    + intros d. unfold outer. simpl. rewrite fmap_app, !elem_of_app. simpl. rewrite list_elem_of_singleton.
      assert (d = c → ¬ dead_at (v_heap x) d) by (by intros ->). naive_solver.
    + split; [apply (vi_jobs _ HV)|]. intros j [Hj|Hj]%elem_of_app; [by apply (vi_jobs _ HV)|].
      by apply list_elem_of_singleton in Hj as ->.
  - destruct (decref_ok s1 _ _ _ _ c HL1) as (s2 & E2 & HL2 & St2 & _); [by apply list_subseteq_app_l|apply all_sends|apply all_removes|].
    exists None, s2. split; [run E1; by run E2|]. apply (VInv_heap x); [done|done|]. etrans; [exact St|by etrans].
Qed.

(** The ways to fail: the reply to a client without at-most-once service whose
    connection died, and the callback of a connection that is gone; write_cb on a
    dead connection, and a descriptor the poll manager has no room for. *)
Definition v_undef (a : sact) (x : ssys) : Prop := null_reply a x ∨ (∃ bad p, a = VCallback bad p) ∧ stale_callback (v_heap x).

Definition v_fails (a : sact) (x : ssys) : Prop :=
  (∃ bad p, a = VCallback bad p) ∧ dead_write (v_heap x) ∨ ∃ fd now, a = VAccept fd now ∧ MAX_POLL_FDS ≤ fd.

Lemma VInv_callback x bad packet :
  VInv x → v_safe (v_run (VCallback bad packet) x) ∨ v_run (VCallback bad packet) x = Undef ∧ stale_callback (v_heap x) ∨
    v_run (VCallback bad packet) x = VerifyFailed ∧ dead_write (v_heap x).
Proof.
  intros HV. simpl. unfold v_callback.
  destruct (callback_ok _ _ _ _ _ bad (vi_refs _ HV)) as [E|[[E Hs]|[[E Hs]|(more & s1 & E & HL & St & Hm)]]].
  - left. apply v_safe_blocked. unfold mbind, st_bind. by rewrite E.
  - right. left. split; [|done]. unfold v_on, mbind, st_bind, res_bind. by rewrite E.
  - right. right. split; [|done]. unfold v_on, mbind, st_bind, res_bind. by rewrite E.
  - left. assert (VInv (with_heap s1 x)) as HV1 by by apply VInv_heap.
    destruct more as [c|]; [|eapply v_safe_on; [run E; reflexivity|done]].
    destruct packet as [[clt succ]|]; [|eapply v_safe_on; [run E; reflexivity|done]].
    destruct (Hm c eq_refl) as [Hc Hd]. destruct (VInv_got x s1 c clt succ HV HV1 St Hc Hd) as (r & s2 & E2 & HV2).
    eapply v_safe_on; [run E; exact E2|done].
Qed.

Lemma VInv_down x : VInv x → v_safe (v_run VDown x).
Proof.
  intros HV. simpl. destruct (v_acc x) eqn:E; try apply v_safe_none. apply v_safe_some. destruct HV as [H1 H2 H3]. rewrite E in *. by split.
Qed.

Lemma VInv_accept x fd now :
  VInv x → v_safe (v_run (VAccept fd now) x) ∨ v_run (VAccept fd now) x = VerifyFailed ∧ MAX_POLL_FDS ≤ fd.
Proof.
  intros HV. simpl. destruct (v_acc x) eqn:E; try (left; apply v_safe_none). destruct (fd_free fd (v_heap x)) eqn:Ef; [|left; apply v_safe_none].
  destruct HV as [HL HA HJ]. rewrite E in *. simpl in HL, HA.
  destruct (new_ok _ _ _ _ _ fd now HL Ef) as [[E1 Hm]|(s' & E1 & HL1 & St & Hn & (o & Ho & Hfd & _))].
  { right. split; [unfold v_on; by rewrite E1|done]. }
  left. eapply v_safe_on; [exact E1|].
  assert (∀ k c, v_conns x !! k = Some c → k ≠ fd ∧ ∃ o, objs s' !! c = Some o ∧ co_fd o = k) as Hf.
  { intros k c Hk. destruct (HA k c Hk) as (oc & Hoc & <-). split.
    - by eapply fd_free_ne.
    - eapply (fd_stems _ _ c oc); [done|done| |by apply (li_fresh _ _ _ _ _ HL c oc)].
      apply (li_live _ _ _ _ _ HL1). right. by eapply (li_count _ _ _ _ _ HL). }
  split; simpl; [done| |done]. split_and!.
  - intros k c Hk. by apply Hf.
  - done.
  - apply NoDup_fst_map_to_list.
  - exists o. split; [done|]. rewrite Hfd. destruct (v_conns x !! fd) as [c|] eqn:Ec; [|done]. by destruct (Hf fd c Ec).
  - done.
Qed.

(** ** The accept thread's steps *)

(** A step of the scan that only looks. *)
Lemma VInv_look x ch todo w todo' w' :
  VInv x → v_acc x = AScan ch todo w → todo' ⊆ todo → NoDup todo'.*1 → seen_ok (v_heap x) (outer x) todo' w' →
  VInv (with_acc (AScan ch todo' w') (v_conns x) x).
Proof.
  intros [H1 H2 H3] E Hs Hnd Hok. rewrite E in *. destruct H2 as (F1 & F2 & F3 & F4 & F5).
  split; simpl; [done| |done]. split_and!; [done|by etrans|done|done|done].
Qed.

Lemma with_heap_id x : with_heap (v_heap x) x = x.
Proof. by destruct x. Qed.

Lemma VInv_add x ch w spurious : VInv x → v_acc x = AScan ch [] w → v_safe (v_run (VListen spurious) x).
Proof.
  intros [H1 H2 H3] E. unfold v_run. rewrite E in *. destruct H2 as (F1 & _ & _ & (o & Ho & Hn) & _).
  eapply v_safe_on; [unfold accept_step; run (c_deref_run _ _ _ Ho); reflexivity|]. rewrite with_heap_id. simpl in H1.
  split; simpl; [|intros fd c [[<- <-]|[Hne Hl]]%lookup_insert_Some; [by exists o|by apply F1]|done].
  by rewrite !vals_insert by done.
Qed.

(** What isdead and ref answer. *)
Lemma isdead_run s c o : objs s !! c = Some o → c_isdead c s = Ret (co_dead o, s).
Proof. intros Ho. unfold c_isdead. by run (c_deref_run _ _ _ Ho). Qed.

Lemma ref_run s c o : objs s !! c = Some o → c_ref c s = Ret (co_refno o, s).
Proof. intros Ho. unfold c_ref. by run (c_deref_run _ _ _ Ho). Qed.

Lemma scan_head x ch fd c todo w :
  VInv x → v_acc x = AScan ch ((fd, c) :: todo) w →
  v_conns x !! fd = Some c ∧ (∃ o, objs (v_heap x) !! c = Some o ∧ co_fd o = fd) ∧ fd ∉ todo.*1 ∧ NoDup todo.*1.
Proof.
  intros HV E. pose proof (vi_acc _ HV) as HA. rewrite E in HA. destruct HA as (F1 & F2 & F3 & _ & _).
  assert (v_conns x !! fd = Some c) as Hl by (apply elem_of_map_to_list, F2; by left). apply NoDup_cons in F3. split_and!; naive_solver.
Qed.

Lemma VInv_scan_none x ch fd c todo spurious : VInv x → v_acc x = AScan ch ((fd, c) :: todo) SNone → v_safe (v_run (VListen spurious) x).
Proof.
  intros HV E. destruct (scan_head _ _ _ _ _ _ HV E) as (Hl & (o & Ho & _) & Hn & Hnd). unfold v_run. rewrite E.
  eapply v_safe_on; [unfold accept_step; run (isdead_run _ _ _ Ho); reflexivity|]. rewrite with_heap_id.
  destruct (co_dead o) eqn:Ed; eapply VInv_look; try done.
  - by apply NoDup_cons.
  - by exists o.
  - by apply list_subseteq_cons.
Qed.

Lemma VInv_scan_dead x ch fd c todo spurious : VInv x → v_acc x = AScan ch ((fd, c) :: todo) SDead → v_safe (v_run (VListen spurious) x).
Proof.
  intros HV E. destruct (scan_head _ _ _ _ _ _ HV E) as (Hl & (o & Ho & _) & Hn & Hnd). unfold v_run. rewrite E.
  eapply v_safe_on; [unfold accept_step; run (ref_run _ _ _ Ho); reflexivity|]. rewrite with_heap_id.
  destruct (Z.eqb_spec (co_refno o) 1) as [E1|E1]; eapply VInv_look; try done; [by apply NoDup_cons| |by apply list_subseteq_cons].
  pose proof (vi_acc _ HV) as HA. rewrite E in HA. destruct HA as (_ & _ & _ & _ & Hd). split; [done|].
  pose proof (vi_refs _ HV) as HL. rewrite E in HL. destruct (li_count _ _ _ _ _ HL c o Ho) as [Hc _]. rewrite E1, count_app in Hc.
  assert (c ∈ acc_conns (AScan ch ((fd, c) :: todo) SDead) (v_conns x)) as Hin%count_pos.
  { right. apply vals_elem. by exists fd. }
  rewrite count_pos. lia.
Qed.

(** Erasing an entry: the reference goes, the rest of the listener's view stays. *)
Lemma erase_ok x ch fd c todo :
  VInv x → v_acc x = AScan ch ((fd, c) :: todo) SOne →
  ∃ s', c_decref c (v_heap x) = Ret (tt, s') ∧ VInv (with_acc (AScan ch todo SNone) (delete fd (v_conns x)) (with_heap s' x)) ∧
    objs s' !! c = None.
Proof.
  intros HV E. destruct (scan_head _ _ _ _ _ _ HV E) as (Hl & (o & Ho & Hfd) & Hn & Hnd).
  destruct HV as [HL HA HJ]. rewrite E in *. simpl in HL, HA. destruct HA as (F1 & F2 & _ & (on & Hon & Hnew) & Hd & Hout).
  set (A' := ch :: vals (delete fd (v_conns x))).
  assert (ch :: vals (v_conns x) ≡ₚ c :: A') as HP by (unfold A'; rewrite (vals_delete _ _ _ Hl); constructor).
  rewrite (app_comm_cons (vals (v_conns x)) (outer x) ch), HP in HL. apply LInv_dead in HL; [|done].
  change ((c :: A') ++ outer x) with (c :: A' ++ outer x) in HL.
  destruct (decref_ok _ _ _ _ _ _ HL) as (s' & E1 & HL1 & St & En); [by apply list_subseteq_app_l| | |].
  { apply list_subseteq_app_r, list_subseteq_app_r, list_subseteq_app_l, j_sends_refs. }
  { apply list_subseteq_app_r, list_subseteq_app_r, list_subseteq_app_l, j_removes_refs. }
  assert (∀ k d, delete fd (v_conns x) !! k = Some d → d ≠ c) as Hne.
  { intros k d [Hk Hkd]%lookup_delete_Some ->. destruct (F1 k c Hkd) as (o1 & Ho1 & Hf1). congruence. }
  assert (c ≠ ch) as Hch by (intros ->; congruence).
  assert (∀ d ox, d ∈ A' → objs (v_heap x) !! d = Some ox → ∃ o', objs s' !! d = Some o' ∧ co_fd o' = co_fd ox) as Hf.
  { intros d ox Hd' Hox. eapply fd_stems; [done|done| |by apply (li_fresh _ _ _ _ _ HL d ox)].
    apply (li_live _ _ _ _ _ HL1), elem_of_app. by left. }
  exists s'. split; [done|]. split; [split; [done| |done]|].
  - simpl. split_and!; [| |done| |done].
    + intros k d Hkd. destruct (F1 k d) as (ox & Hox & <-); [by apply lookup_delete_Some in Hkd as [_ ?]|].
      apply Hf; [|done]. right. apply vals_elem. by exists (co_fd ox).
    + intros [k d] Hin. apply elem_of_map_to_list. rewrite lookup_delete_ne; [apply elem_of_map_to_list, F2; by right|].
      intros ->. destruct Hn. apply list_elem_of_fmap. by exists (k, d).
    + destruct (Hf ch on) as (o' & Ho' & Efd); [by left|done|]. exists o'. split; [done|]. rewrite Efd. simpl.
      apply lookup_delete_None. by right.
  - destruct (objs s' !! c) as [o'|] eqn:Ec; [|done]. destruct (li_count _ _ _ _ _ HL1 c o' Ec) as [_ [Hin|Hin]%elem_of_app]; [|done].
    unfold A' in Hin. apply elem_of_cons in Hin as [?|[k Hk]%vals_elem]; [done|]. by destruct (Hne k c Hk).
Qed.

(** The loop of ~tcpsconn. *)
Lemma VInv_drop x s c todo k spurious :
  VInv x → LInv s (c :: todo.*2 ++ outer x) (c :: todo.*2) (j_sends (v_jobs x)) (j_removes (v_jobs x)) → dead_at s c →
  accept_step spurious (v_acc x) (v_conns x) (v_heap x) = (c_decref c;; mret (ADown todo, v_conns x)) s →
  k = (λ '(acc, conns), with_acc acc conns) → v_safe (v_on (accept_step spurious (v_acc x) (v_conns x)) x k).
Proof.
  intros [_ _ HJ] HL Hd E ->. apply LInv_dead in HL; [|done].
  destruct (decref_ok s _ _ _ _ c HL) as (s2 & E2 & HL2 & _); [by apply list_subseteq_app_l| | |].
  { apply list_subseteq_app_r, list_subseteq_app_r, list_subseteq_app_l, j_sends_refs. }
  { apply list_subseteq_app_r, list_subseteq_app_r, list_subseteq_app_l, j_removes_refs. }
  eapply v_safe_on; [rewrite E; run E2; reflexivity|]. by split.
Qed.

Lemma VInv_close x fd c todo spurious : VInv x → v_acc x = ADown ((fd, c) :: todo) → v_safe (v_run (VListen spurious) x).
Proof.
  intros HV E. pose proof (vi_refs _ HV) as HL. rewrite E in HL. simpl in HL. unfold v_run.
  destruct (closeconn_ok _ _ _ _ _ c HL) as (more & s1 & E1 & HL1 & St1 & Hd); [by left|]. destruct more.
  - eapply v_safe_on; [rewrite E; unfold accept_step; run E1; reflexivity|]. destruct HV as [_ _ HJ]. by split.
  - eapply VInv_drop; [done|exact HL1|done| |done]. rewrite E. unfold accept_step. by run E1.
Qed.

Lemma VInv_closing x c todo spurious : VInv x → v_acc x = AClose c todo → v_safe (v_run (VListen spurious) x).
Proof.
  intros HV E. pose proof (vi_refs _ HV) as HL. pose proof (vi_acc _ HV) as Ha. rewrite E in HL, Ha.
  destruct Ha as (o & Ho & Hd). simpl in HL. unfold v_run.
  destruct (closed_ok _ _ _ _ _ spurious c HL) as [E1|(s1 & E1 & HL1 & _ & Eo)]; [by left| |].
  - apply v_safe_blocked. rewrite E. unfold accept_step, mbind, st_bind. by rewrite E1.
  - eapply VInv_drop; [done|exact HL1|exists o; by rewrite Eo| |done]. rewrite E. unfold accept_step. by run E1.
Qed.

Lemma VInv_listen x spurious : VInv x → v_safe (v_run (VListen spurious) x).
Proof.
  intros HV. destruct (v_acc x) as [|ch [|[fd c] todo] w|[|[fd c] todo]|c todo] eqn:E.
  - unfold v_run. rewrite E. eapply v_safe_on; [done|]. rewrite with_heap_id. destruct x. simpl in E. by subst.
  - by eapply VInv_add.
  - destruct w; [by eapply VInv_scan_none|by eapply VInv_scan_dead|].
    destruct (erase_ok _ _ _ _ _ HV E) as (s' & E1 & HV' & _). unfold v_run. rewrite E.
    eapply v_safe_on; [unfold accept_step; run E1; reflexivity|]. done.
  - unfold v_run. rewrite E. eapply v_safe_on; [done|]. rewrite with_heap_id. destruct x. simpl in E. by subst.
  - by eapply VInv_close.
  - by eapply VInv_closing.
Qed.

(** The steps of a job that use no connection, and its end. *)
Lemma VInv_quiet x a :
  VInv x → (∃ i, a ∈ [VBad i; VOld i; VStop i; VDup i; VEnd i]) → v_safe (v_run a x).
Proof.
  intros HV [i Ha]. repeat (apply elem_of_cons in Ha as [->|Ha]); [..|by apply elem_of_nil in Ha];
    simpl; unfold v_job; destruct (job_at _ _ x) as [j|] eqn:Hj; try apply v_safe_none;
    destruct (job_split _ _ _ _ Hj) as (j1 & j2 & _ & Hp & _); destruct (sj_ph j) eqn:Eph; try done;
    try (eapply drop_job_ok; [done|done|by rewrite Eph]); eapply set_phase_ok; done || by rewrite Eph.
Qed.

Definition v_ok (a : sact) (x : ssys) : Prop :=
  v_safe (v_run a x) ∨ v_run a x = Undef ∧ v_undef a x ∨ v_run a x = VerifyFailed ∧ v_fails a x.

Lemma VInv_run x a : VInv x → v_ok a x ∧ (null_reply a x → v_run a x = Undef).
Proof.
  intros HV. assert ((∀ i, a ≠ VLatest i) → v_ok a x → v_ok a x ∧ (null_reply a x → v_run a x = Undef)) as Hnn.
  { intros Ha Hok. split; [done|]. intros (i & ? & ? & -> & _). by destruct (Ha i). }
  assert (∀ i, a ∈ [VBad i; VOld i; VStop i; VDup i; VEnd i] → v_ok a x) as Hq by (intros i Ha; left; apply VInv_quiet; eauto).
  destruct a; try (apply Hnn; [done|]);
    try (by left; auto using VInv_listen, VInv_down, VInv_save, VInv_send, VInv_sent, VInv_removed, VInv_poll);
    try (apply (Hq i); rewrite !elem_of_cons; naive_solver).
  - destruct (VInv_accept x fd now HV) as [H|[E Hm]]; [by left|]. right. right. split; [done|]. right. eauto.
  - destruct (VInv_latest x i HV) as [[H Hn]|[E Hn]]; [split; [by left|by intros ?%Hn]|]. split; [|done]. right. left. split; [done|by left].
  - destruct (VInv_callback x bad packet HV) as [H|[[E H]|[E H]]]; [by left|..].
    + right. left. split; [done|]. right. eauto.
    + right. right. split; [done|]. left. eauto.
Qed.

Lemma VInv_step x y : VInv x → vstep x y → VInv y.
Proof.
  intros HV [a E]. destruct (VInv_run x a HV) as [[(o & E1 & H)|[[E1 _]|[E1 _]]] _]; [|congruence..].
  apply H. congruence.
Qed.

Lemma VInv_reachable x : rtc vstep ssys_new x → VInv x.
Proof.
  intros Hr. revert x Hr. apply rtc_ind_r; [|intros x y _ Hs H; by eapply VInv_step].
  split; [split; simpl; try done; intros c Hc; by apply elem_of_nil in Hc|done|]. split; [done|]. intros j Hj. by apply elem_of_nil in Hj.
Qed.

(** After the listener and the jobs are gone nothing happens to the heap but
    callbacks that find dead connections dead. *)
Lemma callback_all_dead s R W D bad more s' :
  LInv s R [] W D → c_callback bad s = Ret (more, s') → more = None ∧ objs s' = objs s.
Proof.
  intros HL. unfold c_callback. destruct (polled s) as [[[c fd] w]|]; [|done].
  intros (b & s1 & E1 & [= <- <-])%bind_ret. assert (∀ o, objs s !! c = Some o → co_dead o = true) as Hd.
  { intros o Ho. destruct (co_dead o) eqn:Ed; [done|]. by pose proof (li_alive _ _ _ _ _ HL c o Ho Ed) as ?%elem_of_nil. }
  destruct w; unfold c_write_cb, c_read_cb, c_deref, mbind, st_bind, st_lift, VERIFY in E1; simpl in E1;
    (destruct (objs s !! c) as [o|]; [|done]); rewrite (Hd o eq_refl) in E1; [done|].
  destruct (co_fd o =? fd); [|done]. by injection E1 as <- <-.
Qed.

Lemma down_step x y :
  VInv x → v_acc x = ADown [] → v_jobs x = [] → vstep x y →
  v_acc y = ADown [] ∧ v_jobs y = [] ∧ ∀ c, is_Some (objs (v_heap y) !! c) ↔ is_Some (objs (v_heap x) !! c).
Proof.
  intros HV Ha Hj [a E]. assert (∀ i p, job_at i p x = None) as Hn by (intros; unfold job_at; by rewrite Hj, lookup_nil).
  destruct a; simpl in E; unfold v_job in E; rewrite ?Hn, ?Ha in E; try done.
  - injection E as <-. simpl. auto.
  - unfold c_poll in E. destruct (polled (v_heap x)), (cbs (v_heap x) !! fd); try done. by injection E as <-.
  - pose proof (vi_refs _ HV) as HL. rewrite Ha in HL. unfold v_on in E.
    destruct (v_callback bad packet (v_heap x)) as [[r s]| | | |] eqn:Er; try done. injection E as <-.
    unfold v_callback in Er. apply bind_ret in Er as (more & s1 & E1 & E2).
    destruct (callback_all_dead _ _ _ _ _ _ _ HL E1) as [-> Eo]. injection E2 as <- <-. simpl. by rewrite Eo.
Qed.


(** What the server never gives back: once the listener is destroyed and the
    jobs are done, the connections left are those in conns_ of rpcs and those
    of requests for an old server instance, and they stay for ever: ~rpcs does
    not release them. *)
Theorem server_leaks_connections (x y : ssys) (c : Z) :
  rtc vstep ssys_new x → v_acc x = ADown [] → v_jobs x = [] → rtc vstep x y →
  is_Some (objs (v_heap y) !! c) ↔ c ∈ vals (v_saved x) ++ v_leaked x.
Proof.
  intros HV%VInv_reachable Ha Hj Hr.
  assert (is_Some (objs (v_heap x) !! c) ↔ c ∈ vals (v_saved x) ++ v_leaked x) as <-.
  { pose proof (vi_refs _ HV) as HL. unfold outer in HL. rewrite Ha, Hj in HL. simpl in HL. split; [|by apply (li_live _ _ _ _ _ HL)].
    intros [o Ho]. by eapply (li_count _ _ _ _ _ HL). }
  revert HV Ha Hj. induction Hr as [x|x z y Hxz _ IH]; [done|]. intros HV Ha Hj.
  destruct (down_step x z HV Ha Hj Hxz) as (Ha' & Hj' & <-). apply IH; [by eapply VInv_step|done|done].
Qed.

(** ** Runs *)
Fixpoint v_runs (acts : list sact) (x : ssys) : res (option ssys) :=
  match acts with
  | [] => Ret (Some x)
  | a :: acts => match v_run a x with Ret (Some y) => v_runs acts y | r => r end
  end.

Lemma v_runs_sound acts x y : v_runs acts x = Ret (Some y) → rtc vstep x y.
Proof.
  revert x. induction acts as [|a acts IH]; intros x; simpl; [intros [= ->]; constructor|].
  destruct (v_run a x) as [[z|]| | | |] eqn:E; try done. intros H. eapply rtc_l; [by exists a|by apply IH].
Qed.

(** A client connects and goes; another connects, and the accept thread finds
    the first connection dead and without other references. *)
Definition ex_collect_acts : list sact :=
  [VAccept 5 (1, 0); VListen false; VPoll 5 false; VCallback false (Some (0, true)); VSave 0; VLatest 0; VSend 0 WPart; VPoll 5 true;
   VCallback false None; VSent 0; VEnd 0; VPoll 5 false; VCallback true None; VAccept 6 (2, 0); VListen false; VListen false].

Definition ex_collect : ssys :=
  SSys (CHeap {[1 := CObj 1 true false 5 (1, 0); 2 := CObj 1 false false 6 (2, 0)]} 3 {[6 := 2]} None []) {[5 := 1]}
    (AScan 2 [(5, 1)] SOne) ∅ [] [].


(** A client with at-most-once service: its connection stays after the listener
    and all jobs are gone. *)
Definition ex_leak_acts : list sact :=
  [VAccept 5 (1, 0); VListen false; VPoll 5 false; VCallback false (Some (9, true)); VSave 0; VStop 0; VEnd 0; VDown; VListen false;
   VListen false].

Definition ex_leak : ssys :=
  SSys (CHeap {[1 := CObj 1 true false 5 (1, 0)]} 2 ∅ None []) {[5 := 1]} (ADown []) {[9 := 1]} [] [].

Lemma server_leaks_connections_witness :
  rtc vstep ssys_new ex_leak ∧ (is_Some (objs (v_heap ex_leak) !! 1) ↔ 1 ∈ vals (v_saved ex_leak) ++ v_leaked ex_leak).
Proof.
  assert (rtc vstep ssys_new ex_leak) as H by (apply (v_runs_sound ex_leak_acts); by_vm).
  split; [exact H|]. apply (server_leaks_connections ex_leak ex_leak 1 H); reflexivity.
Defined.

(** The reply to a client without at-most-once service whose connection died. *)
Lemma plain_client_null_reply :
  ∃ x, rtc vstep ssys_new x ∧ v_run (VLatest 0) x = Undef.
Proof.
  exists (SSys (CHeap {[1 := CObj 2 true false 5 (1, 0)]} 2 ∅ None []) {[5 := 1]} AIdle ∅ [SJob 1 0 true PRun] []).
  split; [|by_vm]. apply (v_runs_sound [VAccept 5 (1, 0); VListen false; VPoll 5 false; VCallback false (Some (0, true)); VSave 0;
    VPoll 5 false; VCallback true None]). by_vm.
Qed.
