(* ===== verification/RpcClient.v ===== *)
(** The client side of the RPC library, [class rpcc] of rpc/rpc.h and
    rpc/rpc.cc: transaction ids, the window of received replies whose front
    acknowledges them to the server, the table of outstanding calls, the
    deadlines of [call1] and the timespec helpers. *)
From stdpp Require Import sorting.
From S2P Require Import Prelude Marshall RpcStub.
Local Open Scope Z_scope.

(** ** timespec helpers *)
Record timespec := Timespec { tv_sec : Z; tv_nsec : Z }.

Definition cmp_timespec (a b : timespec) : Z :=
  if tv_sec b <? tv_sec a then 1
  else if tv_sec a <? tv_sec b then -1
  else if tv_nsec b <? tv_nsec a then 1
  else if tv_nsec a <? tv_nsec b then -1
  else 0.

(** [while (tv_nsec > 1000000000)]: the number of rounds is at most
    [tv_nsec / 1000000000]. *)
Fixpoint carry_nsec (fuel : nat) (t : timespec) : timespec :=
  match fuel with
  | O => t
  | S fuel =>
      if 1000000000 <? tv_nsec t
      then carry_nsec fuel (Timespec (tv_sec t + 1) (tv_nsec t - 1000000000))
      else t
  end.

Definition add_timespec (a : timespec) (b : Z) : res timespec :=
  let sec := tv_sec a + Z.quot b 1000 in
  let nsec := tv_nsec a + Z.rem b 1000 * 1000000 in
  if nsec <? 0 then VerifyFailed
  else Ret (carry_nsec (Z.to_nat (nsec `div` 1000000000)) (Timespec sec nsec)).

Definition diff_timespec (end_ start : timespec) : res Z :=
  let diff := if tv_sec start <? tv_sec end_ then s32 ((tv_sec end_ - tv_sec start) * 1000) else 0 in
  if (diff =? 0) && negb (tv_sec end_ =? tv_sec start) then VerifyFailed
  else if tv_nsec start <? tv_nsec end_
  then Ret (s32 (diff + Z.quot (tv_nsec end_ - tv_nsec start) 1000000))
  else Ret (s32 (diff - Z.quot (tv_nsec start - tv_nsec end_) 1000000)).

(** ** The window of received transaction ids *)
Fixpoint insert_xid (xid : Z) (w : list Z) : list Z :=
  match w with
  | [] => [xid]
  | x :: w' => if xid <? x then xid :: x :: w' else x :: insert_xid xid w'
  end.

(** [while (front() + 1 == *it) pop_front()]: [p] are the elements before the
    iterator; when they are used up the front is [*it] itself. *)
Fixpoint pop_while (it : Z) (p : list Z) : list Z :=
  match p with
  | [] => []
  | f :: p' => if u32 (f + 1) =? it then pop_while it p' else p
  end.

Fixpoint compress_loop (p rest : list Z) : list Z :=
  match rest with
  | [] => p
  | it :: rest => compress_loop (pop_while it p ++ [it]) rest
  end.

Definition compress (w : list Z) : list Z :=
  match w with
  | [] => []
  | f :: rest => compress_loop [f] rest
  end.

Definition front (w : list Z) : Z := default 0 (head w).

Definition update_xid_rep (xid : Z) (w : list Z) : list Z :=
  if xid <=? front w then w else compress (insert_xid xid w).

(** ** class rpcc *)
Record caller := Caller { ca_done : bool; ca_intret : Z; ca_un : list Z }.

(** The last request of a lossy client, kept to be sent again as a duplicate
    once the server may have forgotten it. *)
Record request := Request { rq_buf : list Z; rq_dup : Z }.

Definition request_clear : request := Request [] (-1).

Definition isvalid (r : request) : bool := negb (rq_dup r =? -1).

Record rpcc := Rpcc {
  clt_nonce_ : Z; srv_nonce_ : Z; bind_done_ : bool; xid_ : Z;
  lossytest_ : Z; retrans_ : bool; destroy_wait_ : bool;
  calls_ : gmap Z caller;
  xid_rep_window : list Z;
  dup_req_ : request; xid_rep_done_ : Z }.

(** [nonce] is what [random()] gave, [lossy] the value of RPC_LOSSY. *)
Definition rpcc_new (nonce lossy : Z) (retrans : bool) : rpcc :=
  Rpcc (if retrans then nonce else 0) 0 false 1 lossy retrans false ∅ [0] request_clear (-1).

(** call1 up to the sending loop: an error code, or the transaction id and the
    header of the request. *)
Definition call1_begin (proc : Z) (c : rpcc) : (Z + Z * req_header) * rpcc :=
  if (negb (proc =? rpc_bind) && negb (bind_done_ c)) ||
     ((proc =? rpc_bind) && bind_done_ c) then (inl bind_failure, c)
  else if destroy_wait_ c then (inl cancel_failure, c)
  else
    let xid := xid_ c in
    (inr (xid, ReqHeader (s32 xid) (s32 proc) (clt_nonce_ c) (srv_nonce_ c)
                 (s32 (front (xid_rep_window c)))),
     Rpcc (clt_nonce_ c) (srv_nonce_ c) (bind_done_ c) (u32 (xid + 1)) (lossytest_ c) (retrans_ c)
       (destroy_wait_ c) (<[xid := Caller false 0 []]> (calls_ c)) (xid_rep_window c)
       (dup_req_ c) (xid_rep_done_ c)).

(** call1, at a transmission: the buffers handed to the connection, the
    forgotten duplicate first. *)
Definition call1_transmit (req : list Z) (c : rpcc) : list (list Z) * rpcc :=
  if isvalid (dup_req_ c) && (rq_dup (dup_req_ c) <? xid_rep_done_ c)
  then ([rq_buf (dup_req_ c); req],
        Rpcc (clt_nonce_ c) (srv_nonce_ c) (bind_done_ c) (xid_ c) (lossytest_ c) (retrans_ c)
          (destroy_wait_ c) (calls_ c) (xid_rep_window c) request_clear (xid_rep_done_ c))
  else ([req], c).

(** got_pdu: a reply arrived.  The map is keyed by [int]; the model's keys are
    the same 32 bits read unsigned. *)
Definition got_reply (h : reply_header) (un : list Z) (c : rpcc) : rpcc :=
  let xid := u32 (rp_xid h) in
  let w := update_xid_rep xid (xid_rep_window c) in
  let calls := match calls_ c !! xid with
               | None => calls_ c
               | Some ca => if ca_done ca then calls_ c
                            else <[xid := Caller true (rp_ret h) un]> (calls_ c)
               end in
  Rpcc (clt_nonce_ c) (srv_nonce_ c) (bind_done_ c) (xid_ c) (lossytest_ c) (retrans_ c)
    (destroy_wait_ c) calls w (dup_req_ c) (xid_rep_done_ c).

(** call1 after the sending loop, on a reply or on the final deadline. *)
Definition call1_end (xid : Z) (c : rpcc) : caller * rpcc :=
  (mget (Caller false 0 []) (calls_ c) xid,
   Rpcc (clt_nonce_ c) (srv_nonce_ c) (bind_done_ c) (xid_ c) (lossytest_ c) (retrans_ c)
     (destroy_wait_ c) (delete xid (calls_ c)) (update_xid_rep xid (xid_rep_window c))
     (dup_req_ c) (xid_rep_done_ c)).

(** The lossy client's record of an answered request, and what call1 returns. *)
Definition call1_remember (req : list Z) (xid xid_rep : Z) (ca : caller) (c : rpcc) : Z * rpcc :=
  (if ca_done ca then ca_intret ca else timeout_failure,
   if ca_done ca && negb (lossytest_ c =? 0)
   then Rpcc (clt_nonce_ c) (srv_nonce_ c) (bind_done_ c) (xid_ c) (lossytest_ c) (retrans_ c)
          (destroy_wait_ c) (calls_ c) (xid_rep_window c)
          (if isvalid (dup_req_ c) then dup_req_ c else Request req (s32 xid))
          (if xid_rep_done_ c <? xid_rep then xid_rep else xid_rep_done_ c)
   else c).

(** cancel: every outstanding call fails. *)
Definition cancel (c : rpcc) : rpcc :=
  Rpcc (clt_nonce_ c) (srv_nonce_ c) (bind_done_ c) (xid_ c) (lossytest_ c) (retrans_ c)
    (destroy_wait_ c || negb (bool_decide (calls_ c = ∅)))
    ((λ ca, Caller true cancel_failure (ca_un ca)) <$> calls_ c) (xid_rep_window c)
    (dup_req_ c) (xid_rep_done_ c).

(** bind, after its call returned. *)
Definition bind_end (ret r : Z) (c : rpcc) : rpcc :=
  if ret =? 0
  then Rpcc (clt_nonce_ c) (u32 r) true (xid_ c) (lossytest_ c) (retrans_ c) (destroy_wait_ c)
         (calls_ c) (xid_rep_window c) (dup_req_ c) (xid_rep_done_ c)
  else c.

(** ** The retransmission loop of call1

    The environment says, for each round, what [clock_gettime] gave at its start,
    whether the call was done when the mutex was taken, whether it was done after
    each return of [pthread_cond_timedwait] with 0 (a signal or none), whether it
    was done when the wait timed out at last, and whether the channel was dead. *)
Record round := Round {
  w_now : timespec; w_done0 : bool; w_wakes : list bool; w_last : bool; w_dead : bool }.

Definition to_min : Z := 1000.
Definition to_max : Z := 120000.

(** A deadline that pthread_cond_timedwait takes. *)
Definition ts_valid (t : timespec) : bool := (0 <=? tv_nsec t) && (tv_nsec t <? 1000000000).

(** [while (!ca.done)]: a wait until [next] ends with 0 or with ETIMEDOUT; for a
    deadline that is not valid it answers EINVAL at once, without giving up the
    mutex, so that [ca.done] cannot change. *)
Fixpoint wait_loop (fuel : nat) (next : timespec) (done_ : bool) (wakes : list bool) (last_ : bool) : res bool :=
  match fuel with
  | O => OutOfFuel
  | S fuel =>
      if done_ then Ret true
      else if ts_valid next then
        match wakes with
        | [] => Ret last_
        | d :: wakes => wait_loop fuel next d wakes last_
        end
      else wait_loop fuel next done_ wakes last_
  end.

Fixpoint call1_loop (waits fuel : nat) (retrans : bool) (curr_to : Z) (final : timespec)
    (transmit : bool) (sends : nat) (env : nat → round) (i : nat) : res (bool * nat * nat) :=
  match fuel with
  | O => OutOfFuel
  | S fuel =>
      let sends := if transmit then S sends else sends in
      if tv_sec final =? 0 then Ret (false, sends, i)
      else
        next ← add_timespec (w_now (env i)) curr_to;
        let past := 0 <? cmp_timespec next final in
        let next := if past then final else next in
        let final := if past then Timespec 0 (tv_nsec final) else final in
        done_ ← wait_loop waits next (w_done0 (env i)) (w_wakes (env i)) (w_last (env i));
        if done_ : bool then Ret (true, sends, S i)
        else call1_loop waits fuel retrans (s32 (Z.shiftl curr_to 1)) final (retrans && w_dead (env i)) sends env (S i)
  end.

(** * Timespec lemmas *)
Definition ns (t : timespec) : Z := tv_sec t * 1000000000 + tv_nsec t.

Lemma carry_nsec_ns fuel t : ns (carry_nsec fuel t) = ns t.
Proof.
  revert t. induction fuel as [|f IH]; intros t; simpl; [done|].
  destruct (_ <? _); [|done]. rewrite IH. unfold ns; simpl. lia.
Qed.

Lemma carry_nsec_range t :
  0 ≤ tv_nsec t → let t' := carry_nsec (Z.to_nat (tv_nsec t `div` 1000000000)) t in
  0 ≤ tv_nsec t' ≤ 1000000000 ∧ (tv_nsec t' = 0 → tv_nsec t = 0).
Proof.
  intros H0. remember (Z.to_nat (tv_nsec t `div` 1000000000)) as f eqn:E.
  revert t H0 E. induction f as [|f IH]; intros t H0 E; simpl.
  - split; [|done]. assert (tv_nsec t `div` 1000000000 ≤ 0) by lia.
    pose proof (Z.mod_pos_bound (tv_nsec t) 1000000000).
    pose proof (Z.div_mod (tv_nsec t) 1000000000). lia.
  - destruct (Z.ltb_spec 1000000000 (tv_nsec t)); [|split; [lia|done]].
    destruct (IH (Timespec (tv_sec t + 1) (tv_nsec t - 1000000000))) as [R Z0]; simpl; [lia| |].
    + replace (tv_nsec t - 1000000000) with (tv_nsec t + (-1) * 1000000000) by lia.
      rewrite Z.div_add by lia. lia.
    + simpl in *. split; [done|]. intros E0. specialize (Z0 E0). lia.
Qed.

(** * The window *)

(** Transaction ids below the front count as received. *)
Definition received (w : list Z) (x : Z) : Prop := x ≤ front w ∨ x ∈ w.

Record win_ok (w : list Z) : Prop := {
  wk_ne : w ≠ [];
  wk_sorted : StronglySorted Z.le w;
  wk_range : Forall (λ x, 0 ≤ x < 2 ^ 32) w;
  wk_gap : front w + 1 ∉ w }.

Lemma front_le w x : StronglySorted Z.le w → x ∈ w → front w ≤ x.
Proof.
  intros HS. destruct HS as [|f w _ Hf]; [by intros ?%elem_of_nil|]. unfold front; simpl.
  intros [->|?]%elem_of_cons; [lia|]. by eapply Forall_forall in Hf.
Qed.

Lemma insert_xid_elem xid w x : x ∈ insert_xid xid w ↔ x = xid ∨ x ∈ w.
Proof.
  induction w as [|y w IH]; simpl; [by rewrite list_elem_of_singleton, elem_of_nil; tauto|].
  destruct (_ <? _); rewrite !elem_of_cons, ?IH; tauto.
Qed.

Lemma insert_xid_sorted xid w :
  StronglySorted Z.le w → StronglySorted Z.le (insert_xid xid w).
Proof.
  induction 1 as [|y w HS IH Hd]; simpl; [by repeat constructor|].
  destruct (Z.ltb_spec xid y).
  - constructor; [by constructor|]. constructor; [lia|].
    eapply Forall_impl; [exact Hd|]. simpl; lia.
  - constructor; [done|]. apply Forall_forall. intros z [->|Hz]%insert_xid_elem; [lia|].
    by eapply Forall_forall in Hd.
Qed.

Lemma insert_xid_front xid w : w ≠ [] → front w ≤ xid → front (insert_xid xid w) = front w.
Proof.
  destruct w as [|f w]; [done|]. unfold front; simpl. intros _ H.
  destruct (Z.ltb_spec xid f); [lia|done].
Qed.

(** Popping removes either nothing or everything before the iterator. *)
Lemma pop_while_spec it p :
  p ≠ [] → StronglySorted Z.le (p ++ [it]) → Forall (λ x, 0 ≤ x < 2 ^ 32) (p ++ [it]) →
  front p + 1 ∉ p →
  (front p + 1 = it ∧ pop_while it p = []) ∨ (front p + 1 ≠ it ∧ pop_while it p = p).
Proof.
  induction p as [|f p IH]; [done|]. intros _ HS HR Hgap. unfold front in *; simpl in *.
  apply StronglySorted_inv in HS as [HS' Hhd]. rewrite Forall_forall in Hhd.
  apply Forall_cons in HR as [Hf HR].
  assert (it ∈ p ++ [it]) as Hin by (apply elem_of_app; right; by left).
  pose proof (Hhd it Hin) as Hle. assert (0 ≤ it < 2 ^ 32) as Hit by by eapply Forall_forall in HR.
  destruct (decide (f + 1 = it)) as [Hit'|Hne].
  - left. split; [done|]. rewrite uwrap_small by lia.
    destruct (Z.eqb_spec (f + 1) it); [|done].
    destruct p as [|f' p]; [done|].
    assert (f' = f) as ->.
    { assert (f ≤ f') by (apply Hhd; by left).
      assert (f' ≤ it).
      { apply StronglySorted_inv in HS' as [_ H']. eapply Forall_forall in H'; [exact H'|].
        apply elem_of_app. right. by left. }
      destruct (decide (f' = f)); [done|]. destruct Hgap. rewrite !elem_of_cons. right; left. lia. }
    destruct IH as [[_ E]|[E _]]; simpl; try done.
    rewrite not_elem_of_cons in Hgap. tauto.
  - right. split; [done|]. destruct (Z.eqb_spec (u32 (f + 1)) it) as [E|]; [|done].
    destruct (decide (f + 1 < 2 ^ 32)); [rewrite uwrap_small in E by lia; done|].
    exfalso. replace (f + 1) with (2 ^ 32) in E by lia.
    change (u32 (2 ^ 32)) with 0 in E. lia.
Qed.

Lemma compress_loop_spec rest p :
  p ≠ [] → StronglySorted Z.le (p ++ rest) → Forall (λ x, 0 ≤ x < 2 ^ 32) (p ++ rest) →
  front p + 1 ∉ p →
  win_ok (compress_loop p rest) ∧
  ∀ x, received (compress_loop p rest) x ↔ received p x ∨ x ∈ rest.
Proof.
  revert p. induction rest as [|it rest IH]; intros p Hne HS HR Hgap; simpl.
  - rewrite app_nil_r in *. split; [done|]. intros x. rewrite elem_of_nil. tauto.
  - replace (p ++ it :: rest) with ((p ++ [it]) ++ rest) in HS, HR by by rewrite <- app_assoc.
    assert (StronglySorted Z.le (p ++ [it])) as HS1 by by eapply StronglySorted_app_1_l.
    apply Forall_app in HR as HR1. destruct HR1 as [HR1 HRr].
    destruct (pop_while_spec it p Hne HS1 HR1 Hgap) as [[E ->]|[E ->]].
    + destruct (IH [it]) as [Hok Hrec]; try done.
      * rewrite <- app_assoc in HS. by eapply StronglySorted_app_1_r.
      * simpl. constructor; [by apply Forall_app in HR1 as [_ [? _]%Forall_cons]|done].
      * unfold front; simpl. rewrite list_elem_of_singleton. lia.
      * simpl. split; [done|]. intros x. rewrite Hrec. unfold received.
        change (front [it]) with it. rewrite list_elem_of_singleton, elem_of_cons.
        assert (∀ y, y ∈ p → y ≤ it).
        { intros y Hy. apply (StronglySorted_app_1_elem_of Z.le p [it] y it HS1 Hy). by left. }
        split; [|intros [[?|?]|[?|?]]; try tauto; try (left; left; lia)].
        -- intros [[?|?]|?]; try tauto. destruct (decide (x = it)); [tauto|]. left; left. lia.
        -- left; left. auto.
    + destruct (IH (p ++ [it])) as [Hok Hrec]; try done.
      * by destruct p.
      * destruct p as [|f p]; [done|]. unfold front in *; simpl in *.
        rewrite elem_of_cons, elem_of_app, list_elem_of_singleton.
        rewrite elem_of_cons in Hgap. intros [?|[?|?]]; tauto.
      * split; [done|]. intros x. rewrite Hrec. unfold received.
        replace (front (p ++ [it])) with (front p) by by destruct p.
        rewrite elem_of_app, list_elem_of_singleton, elem_of_cons. tauto.
Qed.

Lemma update_xid_rep_spec xid w :
  win_ok w → 0 ≤ xid < 2 ^ 32 →
  win_ok (update_xid_rep xid w) ∧
  ∀ x, received (update_xid_rep xid w) x ↔ received w x ∨ x = xid.
Proof.
  intros Hw Hx. unfold update_xid_rep.
  destruct (Z.leb_spec xid (front w)) as [Hle|Hgt].
  - split; [done|]. intros x. split; [tauto|]. intros [?| ->]; [done|by left].
  - destruct Hw as [Hne HS HR Hgap].
    assert (front (insert_xid xid w) = front w) as Hf by (apply insert_xid_front; [done|lia]).
    assert (Forall (λ x, 0 ≤ x < 2 ^ 32) (insert_xid xid w)) as HR'.
    { apply Forall_forall. intros y [->|Hy]%insert_xid_elem; [done|].
      by eapply Forall_forall in HR. }
    pose proof (insert_xid_sorted xid w HS) as HS'.
    pose proof (insert_xid_elem xid w) as He.
    destruct (insert_xid xid w) as [|f rest] eqn:E; [by specialize (He xid) as [_ ?%elem_of_nil]; eauto|].
    unfold compress. destruct (compress_loop_spec rest [f]) as [Hok Hrec]; try done.
    + unfold front; simpl. rewrite list_elem_of_singleton. lia.
    + split; [done|]. intros x. rewrite Hrec. unfold received, front in *; simpl in *.
      rewrite list_elem_of_singleton, <- Hf. specialize (He x). rewrite elem_of_cons in He.
      split; [intros [[?|?]|?]|intros [[?|?]|?]]; try tauto; left; left; lia.
Qed.

Lemma update_xid_rep_front xid w :
  win_ok w → 0 ≤ xid < 2 ^ 32 → front w ≤ front (update_xid_rep xid w).
Proof.
  intros Hw Hx. destruct (update_xid_rep_spec xid w Hw Hx) as [Hok Hrec].
  assert (received (update_xid_rep xid w) (front w)) as [?|Hin].
  { apply Hrec. left. by left. }
  - done.
  - (* the front of the new window is received in the old one or is xid *)
    set (w' := update_xid_rep xid w) in *.
    destruct (decide (front w ≤ front w')); [done|exfalso].
    destruct Hok as [Hne' HS' HR' Hgap'].
    assert (received w' (front w' + 1)) as [?|?]; [|lia|done].
    apply Hrec. left. left. lia.
Qed.

(** * The client as a transition system

    Its threads start calls, its poll thread delivers replies (to requests the
    client has issued, any number of times and in any order), calls end on a
    reply or on their deadline. *)
Inductive cstep : rpcc → rpcc → Prop :=
  | CBegin proc xid h c c' :
      call1_begin proc c = (inr (xid, h), c') → xid_ c < 2 ^ 32 - 1 → cstep c c'
  | CReply h un c : 1 ≤ u32 (rp_xid h) < xid_ c → cstep c (got_reply h un c)
  | CTransmit req c : cstep c (call1_transmit req c).2
  | CRemember req xid xid_rep ca c : cstep c (call1_remember req xid xid_rep ca c).2
  | CEnd xid c : is_Some (calls_ c !! xid) → cstep c (call1_end xid c).2
  | CCancel c : cstep c (cancel c)
  | CBind ret r c : cstep c (bind_end ret r c).

Record CInv (c : rpcc) : Prop := {
  ci_win : win_ok (xid_rep_window c);
  ci_xid : 1 ≤ xid_ c < 2 ^ 32;
  ci_calls : ∀ x ca, calls_ c !! x = Some ca → 1 ≤ x < xid_ c;
  ci_recv : ∀ x, 1 ≤ x → received (xid_rep_window c) x →
    x < xid_ c ∧ ∀ ca, calls_ c !! x = Some ca → ca_done ca = true;
  ci_ended : ∀ x, 1 ≤ x < xid_ c → calls_ c !! x = None → received (xid_rep_window c) x }.

Lemma rpcc_new_inv nonce lossy retrans : CInv (rpcc_new nonce lossy retrans).
Proof.
  split; simpl.
  - split; [done|repeat constructor|repeat constructor; lia|].
    unfold front; simpl. rewrite list_elem_of_singleton. lia.
  - lia.
  - intros x ca. by rewrite lookup_empty.
  - intros x Hx [Hr|Hr%list_elem_of_singleton]; [|lia]. unfold front in Hr; simpl in Hr. lia.
  - lia.
Qed.

Lemma call1_begin_inr proc c xid h c' :
  call1_begin proc c = (inr (xid, h), c') →
  xid = xid_ c ∧ xid_ c' = u32 (xid_ c + 1) ∧
  calls_ c' = <[xid_ c := Caller false 0 []]> (calls_ c) ∧
  xid_rep_window c' = xid_rep_window c ∧
  rq_xid h = s32 (xid_ c) ∧ rq_xid_rep h = s32 (front (xid_rep_window c)) ∧
  rq_clt_nonce h = clt_nonce_ c ∧ clt_nonce_ c' = clt_nonce_ c.
Proof.
  unfold call1_begin. destruct (_ || _); [done|]. destruct (destroy_wait_ c); [done|].
  by intros [= <- <- <-].
Qed.

Lemma CInv_begin proc xid h c c' :
  call1_begin proc c = (inr (xid, h), c') → xid_ c < 2 ^ 32 - 1 → CInv c → CInv c'.
Proof.
  intros (-> & Ex & Ec & Ew & _)%call1_begin_inr Hlt [H1 H2 H3 H4 H5].
  rewrite uwrap_small in Ex by lia. split; rewrite ?Ex, ?Ec, ?Ew; auto.
  - lia.
  - intros x ca. rewrite lookup_insert_Some. intros [[<- _]|[_ ?%H3]]; lia.
  - intros x Hx Hr. destruct (H4 x Hx Hr) as [Hlt' Hd]. split; [lia|]. intros ca.
    rewrite lookup_insert_Some. intros [[<- _]|[_ ?]]; [lia|auto].
  - intros x Hx. rewrite lookup_insert_None. intros [Hn Hne]. apply H5; [lia|done].
Qed.

Lemma CInv_got_reply h un c :
  1 ≤ u32 (rp_xid h) < xid_ c → CInv c → CInv (got_reply h un c).
Proof.
  intros Hx [H1 H2 H3 H4 H5].
  destruct (update_xid_rep_spec (u32 (rp_xid h)) _ H1) as [Hok Hrec]; [lia|].
  set (xid := u32 (rp_xid h)) in *.
  assert (∀ x ca, calls_ (got_reply h un c) !! x = Some ca →
    (∃ ca0, calls_ c !! x = Some ca0 ∧ (ca_done ca0 = true → ca_done ca = true)) ∧
    (x = xid → ca_done ca = true)) as Hc.
  { unfold got_reply; simpl. fold xid. intros x ca.
    destruct (calls_ c !! xid) as [c0|] eqn:E0; [destruct (ca_done c0) eqn:Ed|].
    - intros Hl. split; [eauto|]. intros ->. congruence.
    - rewrite lookup_insert_Some. intros [[<- <-]|[? ?]]; simpl; split; eauto; congruence.
    - intros Hl. split; [eauto|]. intros ->. congruence. }
  split; simpl; auto.
  - intros x ca Hl. apply Hc in Hl as [(ca0 & Hl & _) _]. eauto.
  - intros x Hx1 [Hr| ->]%Hrec.
    + destruct (H4 x Hx1 Hr) as [? Hd]. split; [done|]. intros ca Hl.
      apply Hc in Hl as [(ca0 & Hl & Himp) _]. auto.
    + split; [lia|]. intros ca Hl. by apply Hc in Hl as [_ ?]; auto.
  - intros x Hx1 Hn. apply Hrec. left. apply H5; [done|]. revert Hn. fold xid.
    destruct (calls_ c !! xid) as [c0|]; [destruct (ca_done c0)|]; auto.
    rewrite lookup_insert_None. tauto.
Qed.

Lemma CInv_end xid c : is_Some (calls_ c !! xid) → CInv c → CInv (call1_end xid c).2.
Proof.
  intros [ca0 Hs] [H1 H2 H3 H4 H5]. pose proof (H3 _ _ Hs) as Hx.
  destruct (update_xid_rep_spec xid _ H1) as [Hok Hrec]; [lia|].
  split; simpl; auto.
  - intros x ca [_ Hl]%lookup_delete_Some. eauto.
  - intros x Hx1 [Hr| ->]%Hrec.
    + destruct (H4 x Hx1 Hr) as [? Hd]. split; [done|]. intros ca [_ Hl]%lookup_delete_Some. auto.
    + split; [lia|]. intros ca [? _]%lookup_delete_Some. done.
  - intros x Hx1 [-> | Hn]%lookup_delete_None; apply Hrec; auto.
Qed.

Lemma CInv_cancel c : CInv c → CInv (cancel c).
Proof.
  intros [H1 H2 H3 H4 H5]. split; simpl; auto.
  - intros x ca. rewrite lookup_fmap_Some. intros (? & _ & ?). eauto.
  - intros x Hx Hr. split; [by apply H4|]. intros ca. rewrite lookup_fmap_Some.
    by intros (? & <- & _).
  - intros x Hx. rewrite lookup_fmap, fmap_None. auto.
Qed.

Lemma CInv_bind ret r c : CInv c → CInv (bind_end ret r c).
Proof. intros [H1 H2 H3 H4 H5]. unfold bind_end. destruct (_ =? _); by split. Qed.

Lemma CInv_transmit req c : CInv c → CInv (call1_transmit req c).2.
Proof. intros [H1 H2 H3 H4 H5]. unfold call1_transmit. destruct (_ && _); by split. Qed.

Lemma CInv_remember req xid xid_rep ca c :
  CInv c → CInv (call1_remember req xid xid_rep ca c).2.
Proof. intros [H1 H2 H3 H4 H5]. unfold call1_remember; simpl. destruct (_ && _); by split. Qed.

Lemma CInv_step c c' : cstep c c' → CInv c → CInv c'.
Proof.
  destruct 1; eauto using CInv_begin, CInv_got_reply, CInv_end, CInv_cancel, CInv_bind,
    CInv_transmit, CInv_remember.
Qed.

Lemma CInv_reachable nonce lossy retrans c : rtc cstep (rpcc_new nonce lossy retrans) c → CInv c.
Proof.
  intros H. pose proof (rpcc_new_inv nonce lossy retrans) as HI.
  remember (rpcc_new nonce lossy retrans) as c0 eqn:E0. clear E0.
  induction H; eauto using CInv_step.
Qed.

(** The front of the window only moves forward. *)
Lemma cstep_front c c' :
  cstep c c' → CInv c → front (xid_rep_window c) ≤ front (xid_rep_window c').
Proof.
  destruct 1 as [proc xid h c c' E _|h un c Hx|req c|req xid xr ca c|xid c [ca Hs]|c|ret r c];
    intros [H1 H2 H3 H4 H5].
  - apply call1_begin_inr in E as (_&_&_&->&_). lia.
  - simpl. apply update_xid_rep_front; [done|lia].
  - unfold call1_transmit. destruct (_ && _); simpl; lia.
  - unfold call1_remember; simpl. destruct (_ && _); simpl; lia.
  - simpl. pose proof (H3 _ _ Hs). apply update_xid_rep_front; [done|lia].
  - simpl. lia.
  - unfold bind_end. destruct (_ =? _); simpl; lia.
Qed.

Lemma cstep_nonce c c' : cstep c c' → clt_nonce_ c' = clt_nonce_ c.
Proof.
  destruct 1; try done.
  - by apply call1_begin_inr in H as (_&_&_&_&_&_&_&->).
  - unfold call1_transmit. by destruct (_ && _).
  - unfold call1_remember; simpl. by destruct (_ && _).
  - unfold bind_end. by destruct (_ =? _).
Qed.

(** * Theorems *)

(** The reply window is exact, duplicates included: recording a
    transaction id, possibly for the second time, makes exactly this id count
    as received in addition, keeps the window sorted, and leaves at its front
    the largest id up to which everything was received. *)
Theorem update_xid_rep_exact (xid : Z) (w : list Z) :
  win_ok w → 0 ≤ xid < 2 ^ 32 →
  win_ok (update_xid_rep xid w) ∧
  (∀ x, received (update_xid_rep xid w) x ↔ received w x ∨ x = xid) ∧
  ¬ received (update_xid_rep xid w) (front (update_xid_rep xid w) + 1).
Proof.
  intros Hw Hx. destruct (update_xid_rep_spec xid w Hw Hx) as [Hok Hrec].
  split; [done|]. split; [done|]. intros [?|?]; [lia|]. by apply (wk_gap _ Hok).
Qed.

(** What the client acknowledges: in every reachable state, the front of
    the window lies below every call that still waits for its reply, and no
    finished prefix of calls lies above it. *)
Theorem acknowledgement_exact (nonce lossy : Z) (retrans : bool) (c : rpcc) :
  rtc cstep (rpcc_new nonce lossy retrans) c →
  (∀ x ca, calls_ c !! x = Some ca → ca_done ca = false → front (xid_rep_window c) < x) ∧
  (∀ n, n < xid_ c → (∀ x, 1 ≤ x ≤ n → calls_ c !! x = None) → n ≤ front (xid_rep_window c)).
Proof.
  intros H%CInv_reachable. destruct H as [H1 H2 H3 H4 H5]. split.
  - intros x ca Hl Hd. destruct (decide (front (xid_rep_window c) < x)); [done|exfalso].
    destruct (H4 x) as [_ Hall]; [by apply H3 in Hl; lia|left; lia|].
    rewrite (Hall ca Hl) in Hd. done.
  - intros n Hn Hall. destruct (decide (n ≤ front (xid_rep_window c))); [done|exfalso].
    set (f := front (xid_rep_window c)) in *.
    assert (0 ≤ f) as Hf.
    { destruct H1 as [Hne _ HR _]. destruct (xid_rep_window c) as [|f0 w]; [done|].
      apply Forall_cons in HR as [? _]. unfold f, front; simpl. lia. }
    assert (received (xid_rep_window c) (f + 1)) as [?|?].
    { apply H5; [lia|]. apply Hall. lia. }
    + unfold f in *. lia.
    + by apply (wk_gap _ H1).
Qed.

Lemma add_timespec_norm (a : timespec) (b : Z) :
  0 ≤ tv_nsec a < 1000000000 → 0 ≤ b →
  ∃ t, add_timespec a b = Ret t ∧ ns t = ns a + b * 1000000 ∧
       (0 ≤ tv_nsec t < 1000000000 ↔ tv_nsec a + (b `mod` 1000) * 1000000 ≠ 1000000000).
Proof.
  intros Ha Hb. unfold add_timespec.
  rewrite Z.quot_div_nonneg, Z.rem_mod_nonneg by lia.
  pose proof (Z.mod_pos_bound b 1000 ltac:(lia)). pose proof (Z.div_mod b 1000 ltac:(lia)).
  set (n := tv_nsec a + b `mod` 1000 * 1000000) in *.
  assert (0 ≤ n < 2000000000) by (unfold n; lia).
  destruct (Z.ltb_spec n 0); [lia|]. eexists. split; [done|].
  set (t := Timespec (tv_sec a + b `div` 1000) n). split.
  - rewrite (carry_nsec_ns _ t). unfold ns, t, n; simpl. lia.
  - change (tv_nsec t) with n. destruct (decide (n < 1000000000)).
    + rewrite Z.div_small by lia. simpl. lia.
    + replace (n `div` 1000000000) with 1
        by (apply (Z.div_unique _ _ _ (n - 1000000000)); lia).
      change (Pos.to_nat 1) with 1%nat. simpl.
      destruct (Z.ltb_spec 1000000000 n); simpl; lia.
Qed.

(** Adding a timeout to a time keeps the exact instant; the result is
    normalised unless the nanoseconds add up to exactly one second, which the
    loop [while (tv_nsec > 1000000000)] leaves as 1000000000. *)
Theorem add_timespec_spec (a : timespec) (b : Z) :
  0 ≤ tv_nsec a < 1000000000 → 0 ≤ b →
  ∃ t, add_timespec a b = Ret t ∧ ns t = ns a + b * 1000000 ∧
       (0 ≤ tv_nsec t < 1000000000 ↔ tv_nsec a + (b `mod` 1000) * 1000000 ≠ 1000000000).
Proof. apply add_timespec_norm. Qed.

(** ** The sending loop *)
Definition final_of (now : timespec) (to : Z) : timespec :=
  match add_timespec now to with Ret t => t | _ => now end.

(** Whether the call was done when the round ended. *)
Definition w_done (r : round) : bool := w_done0 r || existsb id (w_wakes r) || w_last r.

(** What the clock and [pthread_cond_timedwait] promise: the nanoseconds are
    normalised, time does not go back before the first round, and a round that
    ends without the call being done ends at its deadline or later. *)
Record clock_ok (env : nat → round) (now0 F : timespec) : Prop := {
  ck_nsec : ∀ i, 0 ≤ tv_nsec (w_now (env i)) < 1000000000;
  ck_start : ns now0 ≤ ns (w_now (env 0%nat));
  ck_wait : ∀ i, w_done (env i) = false →
    Z.min (ns (w_now (env i)) + 1000 * 2 ^ Z.of_nat i * 1000000) (ns F) ≤ ns (w_now (env (S i))) }.

(** The wait ends, once the deadline is valid; otherwise it spins. *)
Lemma wait_loop_ends fuel next d wakes last_ :
  ts_valid next = true → (length wakes < fuel)%nat →
  wait_loop fuel next d wakes last_ = Ret (d || existsb id wakes || last_).
Proof.
  intros Hv. revert fuel d. induction wakes as [|w wakes IH]; intros fuel d Hf; (destruct fuel as [|fuel]; [simpl in Hf; lia|]);
    simpl; (destruct d; [done|]); rewrite Hv; [done|]. simpl in Hf. rewrite IH by lia. simpl. by destruct w.
Qed.

Lemma wait_loop_spins fuel next wakes last_ :
  ts_valid next = false → wait_loop fuel next false wakes last_ = OutOfFuel.
Proof. intros Hv. induction fuel as [|fuel IH]; simpl; [done|]. by rewrite Hv. Qed.

(** With too little fuel or not: nothing but the answer. *)
Lemma wait_loop_or fuel next d wakes last_ :
  d || existsb id wakes || last_ = false →
  wait_loop fuel next d wakes last_ = Ret false ∨ wait_loop fuel next d wakes last_ = OutOfFuel.
Proof.
  revert d wakes. induction fuel as [|fuel IH]; intros d wakes; simpl; [by right|].
  destruct d; [done|]. intros E. destruct (ts_valid next); [|exact (IH false wakes E)].
  destruct wakes as [|w wakes]; [by left; simpl in E; subst|]. apply (IH w wakes). simpl in E. by destruct w.
Qed.

Lemma add_timespec_valid a b t :
  0 ≤ tv_nsec a < 1000000000 → 0 ≤ b → add_timespec a b = Ret t →
  ts_valid t = negb (tv_nsec a + (b `mod` 1000) * 1000000 =? 1000000000).
Proof.
  intros Ha Hb E. destruct (add_timespec_norm a b Ha Hb) as (t' & E' & _ & Hv). rewrite E in E'. injection E' as <-.
  unfold ts_valid. destruct (Z.eqb_spec (tv_nsec a + b `mod` 1000 * 1000000) 1000000000) as [Eq|Hne]; simpl.
  - apply andb_false_iff. destruct (Z.leb_spec 0 (tv_nsec t)), (Z.ltb_spec (tv_nsec t) 1000000000); auto.
    exfalso. apply (proj1 Hv); [lia|exact Eq].
  - apply andb_true_iff. apply Hv in Hne as [? ?]. split; [by apply Z.leb_le|by apply Z.ltb_lt].
Qed.

Lemma carry_nsec_sec fuel t : tv_sec t ≤ tv_sec (carry_nsec fuel t).
Proof.
  revert t. induction fuel as [|f IH]; intros t; simpl; [lia|].
  destruct (_ <? _); [|lia].
  specialize (IH (Timespec (tv_sec t + 1) (tv_nsec t - 1000000000))). simpl in IH. lia.
Qed.

Lemma add_timespec_ret a b :
  0 ≤ tv_nsec a < 1000000000 → 0 ≤ b →
  ∃ t, add_timespec a b = Ret t ∧ ns t = ns a + b * 1000000 ∧ 0 ≤ tv_nsec t ≤ 1000000000 ∧
       tv_sec a ≤ tv_sec t.
Proof.
  intros Ha Hb. unfold add_timespec.
  rewrite Z.quot_div_nonneg, Z.rem_mod_nonneg by lia.
  pose proof (Z.mod_pos_bound b 1000 ltac:(lia)). pose proof (Z.div_mod b 1000 ltac:(lia)).
  set (n := tv_nsec a + b `mod` 1000 * 1000000) in *.
  assert (0 ≤ n < 2000000000) by (unfold n; lia).
  destruct (Z.ltb_spec n 0); [lia|].
  set (t := Timespec (tv_sec a + b `div` 1000) n).
  exists (carry_nsec (Z.to_nat (n `div` 1000000000)) t). split; [done|].
  pose proof (carry_nsec_ns (Z.to_nat (n `div` 1000000000)) t) as E.
  destruct (carry_nsec_range t) as [R _]; [simpl; lia|]. change (tv_nsec t) with n in R.
  cbv zeta in R. split; [rewrite E; unfold ns, t, n; simpl; lia|]. split; [done|].
  pose proof (carry_nsec_sec (Z.to_nat (n `div` 1000000000)) t) as Hs. simpl in Hs.
  assert (0 ≤ b `div` 1000) by (apply Z.div_pos; lia). unfold t in *. lia.
Qed.

Lemma cmp_timespec_ns a b :
  0 ≤ tv_nsec a ≤ 1000000000 → 0 ≤ tv_nsec b ≤ 1000000000 →
  (ns b < ns a → 0 < cmp_timespec a b) ∧ (0 < cmp_timespec a b → ns b ≤ ns a).
Proof. unfold cmp_timespec, ns. intros Ha Hb. split; repeat case_match; zbool; lia. Qed.

(** What round [i] computes: the next deadline, which is valid, and whether it
    lies beyond the final one. *)
Lemma round_deadline env now0 F i :
  clock_ok env now0 F → 0 ≤ tv_nsec F ≤ 1000000000 → (i ≤ 21)%nat →
  ∃ nx, add_timespec (w_now (env i)) (1000 * 2 ^ Z.of_nat i) = Ret nx ∧ ts_valid nx = true ∧
    ns nx = ns (w_now (env i)) + 1000 * 2 ^ Z.of_nat i * 1000000 ∧
    (ns F < ns nx → (0 <? cmp_timespec nx F) = true) ∧ ((0 <? cmp_timespec nx F) = true → ns F ≤ ns nx).
Proof.
  intros Hck HF Hi. assert (0 < 2 ^ Z.of_nat i) as Hp by (apply Z.pow_pos_nonneg; lia).
  pose proof (ck_nsec _ _ _ Hck i) as Hn.
  destruct (add_timespec_ret (w_now (env i)) (1000 * 2 ^ Z.of_nat i)) as (nx & En & Nn & Nr & _); [done|lia|].
  exists nx. split; [done|]. split.
  { rewrite (add_timespec_valid _ (1000 * 2 ^ Z.of_nat i) nx Hn ltac:(lia) En), (Z.mul_comm 1000), Z.mod_mul by done.
    destruct (Z.eqb_spec (tv_nsec (w_now (env i)) + 0 * 1000000) 1000000000); [lia|done]. }
  split; [done|]. destruct (cmp_timespec_ns nx F Nr HF) as [Hc1 Hc2]. split.
  - intros Hlt%Hc1. by apply Z.ltb_lt.
  - intros Hlt%Z.ltb_lt. by apply Hc2.
Qed.

Lemma double_timeout i :
  (i ≤ 20)%nat → s32 (Z.shiftl (1000 * 2 ^ Z.of_nat i) 1) = 1000 * 2 ^ Z.of_nat (S i).
Proof.
  intros Hi. rewrite Nat2Z.inj_succ, Z.pow_succ_r, Z.shiftl_mul_pow2 by lia.
  assert (0 < 2 ^ Z.of_nat i ≤ 2 ^ 20) by (split; [apply Z.pow_pos_nonneg; lia|apply Z.pow_le_mono_r; lia]).
  rewrite swrap_small; [lia| |lia]. change (2 ^ (32 - 1)) with 2147483648. lia.
Qed.

(** The time at which round [i] starts lies late enough for the next. *)
Lemma next_start env now0 F i nx :
  clock_ok env now0 F → w_done (env i) = false →
  ns nx = ns (w_now (env i)) + 1000 * 2 ^ Z.of_nat i * 1000000 → ns nx ≤ ns F →
  ns now0 + 1000 * (2 ^ Z.of_nat i - 1) * 1000000 ≤ ns (w_now (env i)) →
  ns now0 + 1000 * (2 ^ Z.of_nat (S i) - 1) * 1000000 ≤ ns (w_now (env (S i))).
Proof.
  intros Hck Hd Hnx Hle Hnow. pose proof (ck_wait _ _ _ Hck i Hd) as Hw.
  rewrite Nat2Z.inj_succ, Z.pow_succ_r by lia. lia.
Qed.

Lemma call1_loop_returns waits retrans now0 F env d :
  clock_ok env now0 F → 0 ≤ tv_nsec F ≤ 1000000000 → ts_valid F = true → tv_sec F ≠ 0 →
  ns F < ns now0 + 2 ^ 31 * 1000000 → (∀ i, (i < 22)%nat → (length (w_wakes (env i)) < waits)%nat) →
  ∀ i tr sends, (i + d = 21)%nat →
  ns now0 + 1000 * (2 ^ Z.of_nat i - 1) * 1000000 ≤ ns (w_now (env i)) →
  ∃ dn s' j,
    call1_loop waits (d + 2) retrans (1000 * 2 ^ Z.of_nat i) F tr sends env i = Ret (dn, s', S j) ∧
    (i ≤ j ≤ 21)%nat ∧ w_done (env j) = dn ∧ (∀ l, (i ≤ l < j)%nat → w_done (env l) = false) ∧
    (dn = false → ns F ≤ ns (w_now (env (S j)))) ∧
    (retrans = false → s' = if tr then S sends else sends).
Proof.
  intros Hck HF HvF HF0 Hto Hwk. induction d as [|d IH]; intros i tr sends Hi Hnow.
  all: destruct (round_deadline env now0 F i Hck HF) as (nx & En & Hvx & Nn & Hc1 & Hc2); [lia|].
  all: simpl; destruct (Z.eqb_spec (tv_sec F) 0) as [|_]; [done|]; rewrite En; cbn [mbind res_bind].
  all: rewrite wait_loop_ends by (first [by destruct (0 <? _)|apply Hwk; lia]); cbn [mbind res_bind]; fold (w_done (env i)).
  all: destruct (w_done (env i)) eqn:Ed;
    [do 3 eexists; split; [done|]; split; [lia|]; split; [done|]; split; [lia|];
     split; [done|by intros ->]|].
  all: pose proof (ck_wait _ _ _ Hck i Ed) as Hw.
  - (* the last round: the next deadline lies beyond the final one *)
    assert (i = 21)%nat as -> by lia.
    rewrite Hc1 by (rewrite Nn; change (2 ^ Z.of_nat 21) with 2097152 in *; lia).
    simpl. do 3 eexists. split; [done|]. split; [lia|]. split; [done|]. split; [lia|].
    split; [specialize (Hc1 ltac:(rewrite Nn; change (2 ^ Z.of_nat 21) with 2097152 in *; lia)); specialize (Hc2 Hc1); lia|].
    intros ->. done.
  - destruct (0 <? cmp_timespec nx F) eqn:Hp.
    + specialize (Hc2 eq_refl). rewrite Nat.add_comm. simpl. do 3 eexists. split; [done|]. split; [lia|]. split; [done|].
      split; [lia|]. split; [lia|]. intros ->. done.
    + assert (ns nx ≤ ns F) as Hle by (destruct (decide (ns F < ns nx)) as [Hlt%Hc1|]; [done|lia]).
      destruct (IH (S i) (retrans && w_dead (env i)) (if tr then S sends else sends)) as
        (dn & s' & j & E & Hj & Hd & Hl & Hf & Hs); [lia|by eapply next_start|].
      rewrite double_timeout by lia. exists dn, s', j. split; [exact E|]. split; [lia|]. split; [done|].
      split; [|split; [done|]].
      * intros l Hl'. destruct (decide (l = i)) as [->|]; [done|]. apply Hl. lia.
      * intros ->. rewrite Hs by done. done.
Qed.

(** If the final deadline is not valid and no reply comes, the last round spins. *)
Lemma call1_loop_spins waits retrans now0 F env d :
  clock_ok env now0 F → 0 ≤ tv_nsec F ≤ 1000000000 → ts_valid F = false → tv_sec F ≠ 0 →
  ns F < ns now0 + 2 ^ 31 * 1000000 → (∀ i, w_done (env i) = false) →
  ∀ fuel i tr sends, (i + d = 21)%nat →
  ns now0 + 1000 * (2 ^ Z.of_nat i - 1) * 1000000 ≤ ns (w_now (env i)) →
  call1_loop waits fuel retrans (1000 * 2 ^ Z.of_nat i) F tr sends env i = OutOfFuel.
Proof.
  intros Hck HF HvF HF0 Hto Hno. induction d as [|d IH]; intros fuel i tr sends Hi Hnow; (destruct fuel as [|fuel]; [done|]).
  all: destruct (round_deadline env now0 F i Hck HF) as (nx & En & Hvx & Nn & Hc1 & Hc2); [lia|].
  all: simpl; destruct (Z.eqb_spec (tv_sec F) 0) as [|_]; [done|]; rewrite En; cbn [mbind res_bind].
  all: assert (w_done0 (env i) = false) as E0
    by (pose proof (Hno i) as Hd; unfold w_done in Hd; by destruct (w_done0 (env i))).
  - assert (i = 21)%nat as -> by lia.
    rewrite Hc1 by (rewrite Nn; change (2 ^ Z.of_nat 21) with 2097152 in *; lia). rewrite E0.
    by rewrite wait_loop_spins.
  - destruct (0 <? cmp_timespec nx F) eqn:Hp; [rewrite E0; by rewrite wait_loop_spins|].
    assert (ns nx ≤ ns F) as Hle by (destruct (decide (ns F < ns nx)) as [Hlt%Hc1|]; [done|lia]).
    destruct (wait_loop_or waits nx _ _ _ (Hno i)) as [-> | ->]; [|done]. cbn [mbind res_bind].
    rewrite double_timeout by lia. apply IH; [lia|by eapply next_start].
Qed.

(** C18.  When a call returns.  If the time at which the call starts and its
    timeout do not add up to a whole second in nanoseconds, the sending loop of
    call1 ends after at most 22 rounds, whatever the connection does and however
    often the wait wakes up: it reports a reply only when one came, gives up only
    once the final deadline has passed, and without [retrans_] it transmits the
    request exactly once.  If they do, add_timespec leaves a final deadline that
    pthread_cond_timedwait refuses, and a call that gets no reply never returns:
    its last round spins with the mutex held. *)
Theorem call1_loop_terminates (waits : nat) (retrans : bool) (now0 : timespec) (to : Z) (env : nat → round) :
  0 ≤ tv_nsec now0 < 1000000000 → 0 < tv_sec now0 → 0 ≤ to < 2 ^ 31 →
  clock_ok env now0 (final_of now0 to) →
  (∀ i, (i < 22)%nat → (length (w_wakes (env i)) < waits)%nat) →
  if tv_nsec now0 + (to `mod` 1000) * 1000000 =? 1000000000 then
    (∀ i, w_done (env i) = false) →
    ∀ waits' fuel, call1_loop waits' fuel retrans to_min (final_of now0 to) true 0 env 0 = OutOfFuel
  else
  ∃ dn sends j,
    call1_loop waits 23 retrans to_min (final_of now0 to) true 0 env 0 = Ret (dn, sends, S j) ∧
    (j < 22)%nat ∧ w_done (env j) = dn ∧ (∀ l, (l < j)%nat → w_done (env l) = false) ∧
    (dn = false → ns now0 + to * 1000000 ≤ ns (w_now (env (S j)))) ∧
    (retrans = false → sends = 1%nat).
Proof.
  intros H0 Hs Hto Hck Hwk. unfold final_of in *.
  destruct (add_timespec_ret now0 to) as (F & EF & NF & RF & SF); [done|lia|]. rewrite EF in *.
  pose proof (add_timespec_valid now0 to F H0 ltac:(lia) EF) as HvF.
  assert (ns now0 + 1000 * (2 ^ Z.of_nat 0 - 1) * 1000000 ≤ ns (w_now (env 0%nat))) as H1.
  { simpl. pose proof (ck_start _ _ _ Hck). lia. }
  destruct (_ =? 1000000000); simpl in HvF.
  - intros Hno waits' fuel. by apply (call1_loop_spins waits' retrans now0 F env 21 Hck RF HvF ltac:(lia) ltac:(lia) Hno fuel 0).
  - destruct (call1_loop_returns waits retrans now0 F env 21 Hck RF HvF ltac:(lia) ltac:(lia) Hwk 0 true 0)
      as (dn & s' & j & E & Hj & Hd & Hl & Hf & Hr); [lia|done|].
    exists dn, s', j. split; [exact E|]. split; [lia|]. split; [done|].
    split; [intros; apply Hl; lia|]. split; [intros; rewrite <- NF; auto|done].
Qed.

(** ** Concrete runs *)

Lemma update_xid_rep_exact_witness :
  win_ok [3; 5; 6] ∧ 0 ≤ 4 < 2 ^ 32 ∧ update_xid_rep 4 [3; 5; 6] = [6] ∧
  ¬ received (update_xid_rep 4 [3; 5; 6]) 7.
Proof.
  assert (win_ok [3; 5; 6]) as H.
  { split; [done|repeat constructor; lia|repeat constructor; lia|].
    unfold front; simpl. rewrite !elem_of_cons, elem_of_nil. lia. }
  split; [done|]. split; [lia|]. split; [reflexivity|].
  exact (proj2 (proj2 (update_xid_rep_exact 4 [3; 5; 6] H ltac:(lia)))).
Defined.

(** Two calls are started, the second is answered first. *)
Definition run_client : rpcc :=
  let c := bind_end 0 7 (rpcc_new 99 0 true) in
  let c := (call1_begin 5 c).2 in
  let c := (call1_begin 5 c).2 in
  got_reply (ReplyHeader 2 0) [] c.

Lemma acknowledgement_exact_witness :
  rtc cstep (rpcc_new 99 0 true) run_client ∧ is_Some (calls_ run_client !! 1) ∧
  front (xid_rep_window run_client) < 1.
Proof.
  assert (rtc cstep (rpcc_new 99 0 true) run_client) as H.
  { eapply rtc_l; [apply (CBind 0 7)|]. eapply rtc_l.
    { eapply (CBegin 5); [vm_compute; reflexivity|vm_compute; reflexivity]. }
    eapply rtc_l.
    { eapply (CBegin 5); [vm_compute; reflexivity|vm_compute; reflexivity]. }
    eapply rtc_l; [apply (CReply (ReplyHeader 2 0) []); vm_compute; split; congruence|].
    apply rtc_refl. }
  split; [done|]. split; [by eexists|].
  exact (proj1 (acknowledgement_exact 99 0 true run_client H) 1 (Caller false 0 []) eq_refl eq_refl).
Defined.

Lemma add_timespec_spec_witness :
  add_timespec (Timespec 5 500000000) 2500 = Ret (Timespec 7 1000000000) ∧
  ∃ t, add_timespec (Timespec 5 500000000) 1600 = Ret t ∧ 0 ≤ tv_nsec t < 1000000000.
Proof.
  split; [reflexivity|].
  destruct (add_timespec_spec (Timespec 5 500000000) 1600) as (t & E & _ & H);
    [simpl; lia|lia|].
  exists t. split; [exact E|]. apply H. vm_compute. congruence.
Defined.

(** A server that never answers: round [i] starts when the previous deadline
    passed; each wait wakes up once without a signal. *)
Definition silent : nat → round :=
  λ i, Round (Timespec (100 + Z.min 5 (2 ^ Z.of_nat i - 1)) 0) false [false] false true.

Lemma call1_loop_terminates_witness :
  clock_ok silent (Timespec 100 0) (final_of (Timespec 100 0) 5000) ∧
  call1_loop 2 23 false to_min (final_of (Timespec 100 0) 5000) true 0 silent 0 = Ret (false, 1%nat, 3%nat) ∧
  ∃ dn sends j, call1_loop 2 23 false to_min (final_of (Timespec 100 0) 5000) true 0 silent 0
                = Ret (dn, sends, S j) ∧ sends = 1%nat.
Proof.
  assert (clock_ok silent (Timespec 100 0) (final_of (Timespec 100 0) 5000)) as H.
  { split; [intros i; simpl; lia|vm_compute; congruence|]. intros i _.
    change (ns (final_of (Timespec 100 0) 5000)) with 105000000000.
    unfold ns, silent. cbn [w_now tv_sec tv_nsec].
    rewrite Nat2Z.inj_succ, Z.pow_succ_r by lia.
    assert (0 < 2 ^ Z.of_nat i) by (apply Z.pow_pos_nonneg; lia). lia. }
  split; [done|]. split; [vm_compute; reflexivity|].
  destruct (call1_loop_terminates 2 false (Timespec 100 0) 5000 silent) as
    (dn & sends & j & E & _ & _ & _ & _ & Hs); [simpl; lia|simpl; lia|lia|done|intros i _; simpl; lia|].
  exists dn, sends, j. auto.
Defined.
