(* ===== verification/RpcSystem.v ===== *)
(** Client and server of the RPC library together: one client of rpc/rpc.cc,
    the network, and the server with its dispatch threads.

    The network holds every request header the client ever built and may
    deliver each of them any number of times, in any order and at any time;
    replies may be lost, repeated and forged.  Requests of other clients are
    arbitrary. *)
From S2P Require Import Prelude Marshall RpcStub RpcServer RpcClient.
Local Open Scope Z_scope.

Record world := World { wo_clt : rpcc; wo_net : list req_header; wo_srv : sys }.

Section world.
Context (create_time : Z → Z * Z).

(** The requests under check that carry the client's nonce came over the net. *)
Definition delivered (nonce : Z) (net : list req_header) (js : list job) : Prop :=
  ∀ c h, JCheck c h ∈ js → rq_clt_nonce h = nonce → h ∈ net.

Inductive wstep : world → world → Prop :=
  | WCall proc xid h c c' net s :
      call1_begin proc c = (inr (xid, h), c') → xid_ c < 2 ^ 32 - 1 →
      wstep (World c net s) (World c' (h :: net) s)
  | WClient c c' net s :
      cstep c c' → xid_ c' = xid_ c →
      wstep (World c net s) (World c' net s)
  | WServer c net s s' :
      step create_time s s' → delivered (clt_nonce_ c) net (jobs s') →
      wstep (World c net s) (World c net s').

Definition world_init (nonce lossy : Z) (retrans : bool) (snonce count : Z) (procs : gset Z) : world :=
  World (rpcc_new nonce lossy retrans) [] (init snonce count procs).

(** A call is waiting while it is in the table without an answer. *)
Definition waiting (c : rpcc) (xid : Z) : Prop :=
  ∃ ca, calls_ c !! xid = Some ca ∧ ca_done ca = false.

(** * What a step does to the acknowledgements and the refusals *)
Lemma cstep_waiting c c' xid :
  cstep c c' → CInv c → xid_ c' = xid_ c → waiting c' xid → waiting c xid.
Proof.
  intros Hs HI Hx (ca & Hl & Hd).
  destruct Hs as [proc y h c c' E Hlt|h un c Hb|req c|req y xr ca' c|y c Hy|c|ret r c].
  - apply call1_begin_inr in E as (_ & E & _). rewrite E, uwrap_small in Hx; [lia|].
    destruct (ci_xid _ HI). lia.
  - unfold got_reply in Hl; simpl in Hl. exists ca. split; [|done].
    destruct (calls_ c !! u32 (rp_xid h)) as [c0|] eqn:E0; [|done].
    destruct (ca_done c0); [done|].
    apply lookup_insert_Some in Hl as [[_ <-]|[_ Hl]]; done.
  - exists ca. unfold call1_transmit in Hl. by destruct (_ && _).
  - exists ca. unfold call1_remember in Hl; simpl in Hl. by destruct (_ && _).
  - exists ca. simpl in Hl. by apply lookup_delete_Some in Hl as [_ ?].
  - simpl in Hl. apply lookup_fmap_Some in Hl as (? & <- & _). done.
  - exists ca. unfold bind_end in Hl. by destruct (_ =? _).
Qed.

Lemma dispatch_check_window c h s o f s' :
  dispatch_check create_time c h s = (o, f, s') →
  (∀ clt, mget 0 (xid_rep_window_ s') clt = mget 0 (xid_rep_window_ s) clt ∨
     (rq_clt_nonce h = clt ∧ mget 0 (xid_rep_window_ s') clt
        = Z.max (mget 0 (xid_rep_window_ s) clt) (u32 (rq_xid_rep h)))) ∧
  (f ≠ None → u32 (rq_xid h) ≤ mget 0 (xid_rep_window_ s') (rq_clt_nonce h)).
Proof.
  unfold dispatch_check. set (clt := rq_clt_nonce h).
  assert (xid_rep_window_ (save_conn create_time c clt s) = xid_rep_window_ s) as Esv
    by (unfold save_conn; repeat case_match; done).
  destruct (negb (clt =? 0)).
  - destruct (checkduplicate_and_update clt _ _ _) as [[st [b sz]] s1] eqn:E.
    apply checkduplicate_spec in E. destruct E as [Hack Hoth _ _ _ _ _ Hst].
    unfold ack in Hack. rewrite Esv in Hack.
    assert (∀ clt', mget 0 (xid_rep_window_ s1) clt' = mget 0 (xid_rep_window_ s) clt' ∨
      (clt = clt' ∧ mget 0 (xid_rep_window_ s1) clt'
        = Z.max (mget 0 (xid_rep_window_ s) clt') (u32 (rq_xid_rep h)))) as Hw.
    { intros clt'. destruct (decide (clt = clt')) as [<-|Hne]; [by right|left].
      destruct (Hoth clt') as [-> _]; [done|]. by rewrite Esv. }
    destruct st; intros [= <- <- <-]; (split; [|try done]); try exact Hw.
    + intros clt'. by case_match.
    + intros _. simpl. unfold ack in Hst. rewrite Esv in Hst. by rewrite Hack.
  - intros [= <- <- <-]. split; [|done]. intros clt'. left. by case_match.
Qed.

Lemma step_window x y :
  step create_time x y →
  (∀ clt, mget 0 (xid_rep_window_ (srv y)) clt = mget 0 (xid_rep_window_ (srv x)) clt ∨
     ∃ c h, JCheck c h ∈ jobs x ∧ rq_clt_nonce h = clt ∧
       mget 0 (xid_rep_window_ (srv y)) clt
       = Z.max (mget 0 (xid_rep_window_ (srv x)) clt) (u32 (rq_xid_rep h))) ∧
  (∀ k, (k, atmostonce_failure) ∈ failed y → (k, atmostonce_failure) ∈ failed x ∨
     ∃ c h, JCheck c h ∈ jobs x ∧ key h = k ∧ k.2 ≤ mget 0 (xid_rep_window_ (srv y)) k.1).
Proof.
  destruct 1 as [c h ok s js ex hi se fa sy o f s' E|c h s js1 js2 ex hi se fa sy o f s' E
    |c h ret reply s js1 js2 ex hi se fa sy j s' E|c h b sz s js1 js2 ex hi se fa sy j s' E
    |c h b sz s js1 js2 ex hi se fa sy bytes s' E|c h b sz s js1 js2 ex hi se fa sy junk E|c s js ex hi se fa sy]; simpl.
  - assert (xid_rep_window_ s' = xid_rep_window_ s ∧ f ≠ Some atmostonce_failure) as [-> Hf].
    { unfold dispatch_begin in E. repeat case_match; by simplify_eq. }
    split; [by left|]. intros k [Hk|Hk]%elem_of_app; [|by left].
    destruct f as [f|]; simpl in Hk; [|by apply elem_of_nil in Hk].
    apply list_elem_of_singleton in Hk as [= _ <-]. done.
  - destruct (dispatch_check_window _ _ _ _ _ _ E) as [Hw Hf].
    assert (JCheck c h ∈ js1 ++ JCheck c h :: js2) as Hin
      by (apply elem_of_app; right; by left).
    split.
    + intros clt. destruct (Hw clt) as [?|[? ?]]; [by left|right]. by exists c, h.
    + intros k [Hk|Hk]%elem_of_app; [right|by left]. exists c, h. split; [done|].
      destruct f as [f|]; simpl in Hk; [|by apply elem_of_nil in Hk].
      apply list_elem_of_singleton in Hk as [= -> _]. split; [done|]. by apply Hf.
  - unfold dispatch_run in E. repeat case_match; simplify_eq; simpl; auto.
  - assert (xid_rep_window_ s' = xid_rep_window_ s) as ->; [|auto].
    unfold dispatch_record in E. repeat case_match; by simplify_eq.
  - assert (xid_rep_window_ s' = xid_rep_window_ s) as ->; [|auto].
    unfold dispatch_send in E. repeat case_match; by simplify_eq.
  - auto.
  - auto.
Qed.

(** * Invariant *)
Record WInv (w : world) : Prop := {
  wi_clt : CInv (wo_clt w);
  wi_srv : Inv (wo_srv w);
  wi_net : ∀ h, h ∈ wo_net w → u32 (rq_xid_rep h) ≤ front (xid_rep_window (wo_clt w)) ∧
    1 ≤ u32 (rq_xid h) < xid_ (wo_clt w);
  wi_del : delivered (clt_nonce_ (wo_clt w)) (wo_net w) (jobs (wo_srv w));
  wi_ack : mget 0 (xid_rep_window_ (srv (wo_srv w))) (clt_nonce_ (wo_clt w))
    ≤ front (xid_rep_window (wo_clt w));
  wi_ref : ∀ x, ((clt_nonce_ (wo_clt w), x), atmostonce_failure) ∈ failed (wo_srv w) →
    x < xid_ (wo_clt w) ∧ ¬ waiting (wo_clt w) x }.

Lemma waiting_front c x : CInv c → waiting c x → front (xid_rep_window c) < x.
Proof.
  intros HI (ca & Hl & Hd). destruct (decide (front (xid_rep_window c) < x)); [done|exfalso].
  pose proof (ci_calls _ HI _ _ Hl).
  destruct (ci_recv _ HI x) as [_ Hall]; [lia|left; lia|]. by rewrite (Hall ca Hl) in Hd.
Qed.

Lemma WInv_init nonce lossy retrans snonce count procs :
  WInv (world_init nonce lossy retrans snonce count procs).
Proof.
  split; simpl; try (intros ? ?%elem_of_nil; done).
  - apply rpcc_new_inv.
  - apply Inv_init.
  - intros c h ?%elem_of_nil. done.
  - unfold mget. by rewrite lookup_empty.
Qed.

Lemma WInv_step w w' : wstep w w' → WInv w → WInv w'.
Proof.
  destruct 1 as [proc xid h c c' net s E Hlt|c c' net s Hs Hx|c net s s' Hs Hdel];
    intros [H1 H2 H3 H4 H5 H6]; simpl in *.
  - pose proof (cstep_front _ _ (CBegin _ _ _ _ _ E Hlt) H1) as Hf.
    pose proof (CInv_begin _ _ _ _ _ E Hlt H1) as HI'.
    pose proof (ci_xid _ H1). pose proof (ci_win _ H1) as [Hne _ HR _].
    apply call1_begin_inr in E as (-> & Ex & Ec & Ew & Eq & Er & En & En').
    rewrite uwrap_small in Ex by lia.
    assert (0 ≤ front (xid_rep_window c) < 2 ^ 32) as Hfr.
    { destruct (xid_rep_window c); [done|]. by apply Forall_cons in HR as [? _]. }
    split; simpl; rewrite ?En', ?Ew, ?Ex; auto.
    + intros h' [->|Hh]%elem_of_cons.
      * rewrite Eq, Er, !uwrap_swrap, !uwrap_small by lia. lia.
      * destruct (H3 h' Hh). lia.
    + intros c0 h0 Hj Hn. right. by apply (H4 c0).
    + intros x Hf'. destruct (H6 x Hf') as [? Hw]. split; [lia|]. intros (ca & Hl & Hd). apply Hw.
      exists ca. split; [|done]. rewrite Ec in Hl. apply lookup_insert_Some in Hl as [[<- _]|[_ ?]]; [lia|done].
  - pose proof (cstep_front _ _ Hs H1) as Hf. pose proof (cstep_nonce _ _ Hs) as En.
    split; simpl; rewrite ?En, ?Hx; auto.
    + eauto using CInv_step.
    + intros h Hh. destruct (H3 h Hh). lia.
    + lia.
    + intros x Hf'. destruct (H6 x Hf') as [? Hw]. split; [lia|]. intros Hw'. apply Hw.
      eauto using cstep_waiting.
  - destruct (step_window _ _ Hs) as [Hw Hfa].
    assert (mget 0 (xid_rep_window_ (srv s')) (clt_nonce_ c) ≤ front (xid_rep_window c)) as Hack.
    { destruct (Hw (clt_nonce_ c)) as [->|(c0 & h & Hj & Hn & ->)]; [done|].
      destruct (H3 h); [by apply (H4 c0)|]. lia. }
    split; simpl; auto.
    + eauto using Inv_step.
    + intros x [Hf|(c0 & h & Hj & Hk & Hle)]%Hfa; [by apply H6|].
      injection Hk as Hn Hx. simpl in Hle.
      destruct (H3 h) as [_ Hb]; [by apply (H4 c0)|]. split; [lia|].
      intros Hwt%waiting_front; [|done]. lia.
Qed.

Lemma WInv_reachable nonce lossy retrans snonce count procs w :
  rtc wstep (world_init nonce lossy retrans snonce count procs) w → WInv w.
Proof.
  intros H. pose proof (WInv_init nonce lossy retrans snonce count procs) as HI.
  induction H; eauto using WInv_step.
Qed.
End world.

(** * Theorems *)

(** C13.  A call that still waits for its reply is never refused as too old:
    the server forgets replies only up to what the client acknowledges, and the
    client never acknowledges past a call that waits, whatever the network
    loses, repeats or delays. *)
Theorem waiting_never_refused (create_time : Z → Z * Z) (nonce lossy : Z) (retrans : bool)
    (snonce count : Z) (procs : gset Z) (w : world) (xid : Z) :
  rtc (wstep create_time) (world_init nonce lossy retrans snonce count procs) w →
  waiting (wo_clt w) xid →
  ((clt_nonce_ (wo_clt w), xid), atmostonce_failure) ∉ failed (wo_srv w).
Proof. intros HI%WInv_reachable Hw Hf. by apply (wi_ref _ HI) in Hf as [_ ?]. Qed.

(** C17.  A retransmission of a call that waits and whose handler was started is
    answered from the reply window: it is in progress or done, so it is neither
    executed a second time nor refused. *)
Theorem retransmission_answered (create_time : Z → Z * Z) (nonce lossy : Z) (retrans : bool)
    (snonce count : Z) (procs : gset Z) (w : world) (h : req_header) :
  rtc (wstep create_time) (world_init nonce lossy retrans snonce count procs) w →
  h ∈ wo_net w → clt_nonce_ (wo_clt w) ≠ 0 → waiting (wo_clt w) (u32 (rq_xid h)) →
  (clt_nonce_ (wo_clt w), u32 (rq_xid h)) ∈ execs (wo_srv w) →
  let st := (checkduplicate_and_update (clt_nonce_ (wo_clt w)) (u32 (rq_xid h))
               (u32 (rq_xid_rep h)) (srv (wo_srv w))).1.1 in
  st = INPROGRESS ∨ st = DONE.
Proof.
  intros HI%WInv_reachable Hn H0 Hw Hex. destruct HI as [H1 H2 H3 H4 H5 H6].
  apply waiting_front in Hw; [|done]. destruct (H3 h Hn) as [Hr _].
  pose proof (i_seen _ H2 _ _ Hex H0) as Hs.
  destruct (checkduplicate_and_update _ _ _ _) as [[st out] s'] eqn:E.
  apply checkduplicate_spec in E. pose proof (cp_st _ _ _ _ _ _ _ E) as Hst. simpl.
  unfold ack in Hst. destruct st; auto.
  - by destruct Hst as (_ & ? & _).
  - lia.
Qed.

(** C14.  While a call waits, every reply that the server sent for it is genuine:
    it was sent from a live buffer and holds the bytes that the one execution of
    its handler produced; a buffer that was freed is never sent for it, although
    the server does not protect its reply buffers against that. *)
Theorem waiting_reply_genuine (create_time : Z → Z * Z) (nonce lossy : Z) (retrans : bool)
    (snonce count : Z) (procs : gset Z) (w : world) (xid : Z) (b : list Z) :
  rtc (wstep create_time) (world_init nonce lossy retrans snonce count procs) w →
  clt_nonce_ (wo_clt w) ≠ 0 → waiting (wo_clt w) xid →
  let k := (clt_nonce_ (wo_clt w), xid) in
  (k, b) ∉ stray (wo_srv w) ∧
  ((k, b) ∈ sent (wo_srv w) →
     k ∈ execs (wo_srv w) ∧ ∃ l, (l, (k, b)) ∈ hist (wo_srv w) ∧
       ∀ l' b', (l', (k, b')) ∈ hist (wo_srv w) → b' = b).
Proof.
  intros HI%WInv_reachable H0 Hw k. destruct HI as [H1 H2 H3 H4 H5 H6]. split.
  - intros Hs. apply (i_stray _ H2) in Hs; [|done]. unfold acked in Hs. simpl in Hs.
    apply waiting_front in Hw; [|done]. lia.
  - intros Hs. split; [by eapply sent_executed|]. destruct (i_sent _ H2 _ _ Hs) as [l Hl]. exists l.
    split; [done|]. intros l' b' Hl'. by apply (hist_unique (wo_srv w) l' l k b' b).
Qed.

(** ** A concrete run: the bind call of a client was delivered and its handler
    was started. *)
Definition ex_bind_req : req_header := ReqHeader 1 1 99 0 0.
Definition ex_clt : rpcc := (call1_begin 1 (rpcc_new 99 0 true)).2.
Definition ex_sys1 : sys := Sys (rpcs_new 77 0 {[1]}) [JCheck 3 ex_bind_req] [] [] [] [] [].
Definition ex_sys2 : sys :=
  Sys (Rpcs 77 true {[1]} 0 0 ∅ {[99 := [reply_new 1]]} {[99 := 0]} {[99 := 3]}
         {[3 := 1]} ∅ ∅ 1)
    [JRun 3 ex_bind_req] [(99, 1)] [] [] [] [].

Lemma ex_world_reachable :
  rtc (wstep ex_ct) (world_init 99 0 true 77 0 {[1]}) (World ex_clt [ex_bind_req] ex_sys2).
Proof.
  eapply rtc_l; [eapply (WCall _ 1); [vm_compute; reflexivity|vm_compute; reflexivity]|].
  eapply rtc_l.
  { apply (WServer _ _ _ _ ex_sys1).
    - exact (StepRecv ex_ct 3 ex_bind_req true (rpcs_new 77 0 {[1]}) [] [] [] [] [] []
               (Some (JCheck 3 ex_bind_req)) None (rpcs_new 77 0 {[1]}) eq_refl).
    - intros c h [= -> ->]%list_elem_of_singleton _. vm_compute. left. }
  eapply rtc_l; [|apply rtc_refl]. apply (WServer _ _ _ _ ex_sys2).
  - exact (StepCheck ex_ct 3 ex_bind_req (rpcs_new 77 0 {[1]}) [] [] [] [] [] [] []
             (Some (JRun 3 ex_bind_req)) None (srv ex_sys2) eq_refl).
  - intros c h ?%list_elem_of_singleton. done.
Qed.

Lemma waiting_never_refused_witness :
  waiting ex_clt 1 ∧ ((clt_nonce_ ex_clt, 1), atmostonce_failure) ∉ failed ex_sys2.
Proof.
  assert (waiting ex_clt 1) as Hw by (exists (Caller false 0 []); split; reflexivity).
  split; [exact Hw|].
  exact (waiting_never_refused ex_ct 99 0 true 77 0 {[1]} (World ex_clt [ex_bind_req] ex_sys2) 1
           ex_world_reachable Hw).
Defined.

Lemma retransmission_answered_witness :
  (checkduplicate_and_update 99 1 0 (srv ex_sys2)).1.1 = INPROGRESS ∨
  (checkduplicate_and_update 99 1 0 (srv ex_sys2)).1.1 = DONE.
Proof.
  apply (retransmission_answered ex_ct 99 0 true 77 0 {[1]}
           (World ex_clt [ex_bind_req] ex_sys2) ex_bind_req).
  - exact ex_world_reachable.
  - apply list_elem_of_here.
  - discriminate.
  - exists (Caller false 0 []). split; reflexivity.
  - apply list_elem_of_here.
Defined.

(** The handler has returned and its reply was sent once. *)
Definition ex_sys3 : sys :=
  Sys (Rpcs 77 true {[1]} 0 0 ∅ {[99 := [Reply 1 true (Some 1) 2]]} {[99 := 0]} {[99 := 3]}
         {[3 := 0]} ∅ {[1 := [4; 2]]} 2)
    [] [(99, 1)] [(1, ((99, 1), [4; 2]))] [((99, 1), [4; 2])] [] [].

Lemma ex_sys3_steps : rtc (wstep ex_ct) (World ex_clt [ex_bind_req] ex_sys2) (World ex_clt [ex_bind_req] ex_sys3).
Proof.
  eapply rtc_l.
  { apply WServer.
    - eapply (StepRun ex_ct 3 ex_bind_req 0 [4; 2] _ [] []). vm_compute. reflexivity.
    - intros c h ?%list_elem_of_singleton. done. }
  eapply rtc_l.
  { apply WServer.
    - eapply (StepRecord ex_ct 3 ex_bind_req 1 2 _ [] []). vm_compute. reflexivity.
    - intros c h ?%list_elem_of_singleton. done. }
  eapply rtc_l; [|apply rtc_refl]. apply (WServer _ _ _ _ ex_sys3).
  - eapply (StepSend ex_ct 3 ex_bind_req (Some 1) 2 _ [] []). vm_compute. reflexivity.
  - intros c h ?%elem_of_nil. done.
Qed.

Lemma waiting_reply_genuine_witness :
  ((99, 1), [4; 2]) ∉ stray ex_sys3 ∧
  (((99, 1), [4; 2]) ∈ sent ex_sys3 →
     (99, 1) ∈ execs ex_sys3 ∧ ∃ l, (l, ((99, 1), [4; 2])) ∈ hist ex_sys3 ∧
       ∀ l' b', (l', ((99, 1), b')) ∈ hist ex_sys3 → b' = [4; 2]).
Proof.
  assert (waiting ex_clt 1) as Hw by (exists (Caller false 0 []); split; reflexivity).
  refine (waiting_reply_genuine ex_ct 99 0 true 77 0 {[1]} (World ex_clt [ex_bind_req] ex_sys3) 1 [4; 2] _ _ Hw);
    [|discriminate].
  etrans; [exact ex_world_reachable|exact ex_sys3_steps].
Defined.
