(* ===== verification/RpcCall.v ===== *)
(** Whole calls: rpcc::call over rpcc::call1, the packets on the connection,
    rpcs::dispatch from its start to its end, rpcc::got_pdu and rpcc::call_m,
    put together from Marshall.v, RpcStub.v, RpcServer.v and RpcClient.v.

    Clients and a server that is started, stopped and started again run one call
    after the other with lossy testing off.  The theorem says that such a session
    is the same as calling the methods locally, with the failures of unbound
    clients, of servers that are down and of servers that were restarted.
    Concurrent calls, lost and repeated packets are in RpcSystem.v. *)
From S2P Require Import Prelude Marshall RpcStub RpcServer RpcClient.
Local Open Scope Z_scope.

(** A procedure of the service: its argument and result types and its method. *)
Record proc_desc `{HeapJunk} (S : Type) := Proc {
  pd_arg : Type; pd_res : Type;
  pd_ca : codec pd_arg; pd_cr : codec pd_res;
  pd_caok : CodecOk pd_ca; pd_crok : CodecOk pd_cr;
  pd_meth : pd_arg → pd_res → ST S (Z * pd_res) }.
Arguments Proc {_ S _ _} _ _ {_ _} _.
Arguments pd_arg {_ S} _.
Arguments pd_res {_ S} _.
Arguments pd_ca {_ S} _.
Arguments pd_cr {_ S} _.
Arguments pd_meth {_ S} _ _ _.
#[export] Existing Instance pd_caok.
#[export] Existing Instance pd_crok.

Section calls.
Context `{HeapJunk} (create_time : Z → Z * Z) {S : Type} (service : Z → proc_desc S).

(** ** One dispatch thread *)

(** The handlers: rpcbind, which the constructor of rpcs registers, and those of
    the service. *)
Definition handler_of (s : rpcs) (proc : Z) : unmarshall → marshall → ST S (Z * marshall) :=
  if proc =? rpc_bind
  then h_fn c_int c_int (λ a _, let '(b, r) := rpcbind s a in mret (b, s32 r))
  else h_fn (pd_ca (service proc)) (pd_cr (service proc)) (pd_meth (service proc)).

(** A reply as it leaves: writepdu puts its size in front. *)
Definition framed (b : list Z) : list Z := splice 0 (be4 (Z.of_nat (length b))) b.

Definition fail_reply (h : req_header) (ret : Z) : list Z :=
  framed (m_bytes (pack_reply_header (ReplyHeader (rq_xid h) ret) marshall_new)).

(** The end of dispatch: the packet that is sent. *)
Definition dispatch_end (j : job) (s : rpcs) : ST S (option (list Z) * rpcs) :=
  match j with
  | JSend c h b sz => '(bytes, s) ← st_lift (dispatch_send c h b sz s); mret (Some (framed bytes), s)
  | _ => mret (None, s)
  end.

Definition dispatch (c : Z) (pdu : list Z) (s : rpcs) : ST S (option (list Z) * rpcs) :=
  let '(h, req) := unpack_req_header (unmarshall_of pdu (Z.of_nat (length pdu))) in
  '(o, f, s) ← st_lift (dispatch_begin c h (u_ok req) s);
  match o with
  | None => mret (fail_reply h <$> f, s)
  | Some _ =>
      match dispatch_check create_time c h s with
      | (Some (JRun c h), _, s) =>
          '(ret, rep) ← handler_of s (rq_proc h) req marshall_new;
          let bytes := m_bytes (pack_reply_header (ReplyHeader (rq_xid h) ret) rep) in
          '(j, s) ← st_lift (dispatch_run c h ret bytes s);
          match j with
          | JReply c h b sz => '(j, s) ← st_lift (dispatch_record c h b sz s); dispatch_end j s
          | _ => mret (None, s)
          end
      | (Some j, _, s) => dispatch_end j s
      | (None, f, s) => mret (fail_reply h <$> f, s)
      end
  end.

(** A packet arrives at the server, the pool takes it and runs it. *)
Definition server_got (c : Z) (pdu : list Z) (s : rpcs) : ST S (option (list Z) * rpcs) :=
  let '(_, s1) := got_pdu c true s in
  if reachable_ s then dispatch c pdu s1 else mret (None, s1).

(** ** One call *)

(** rpcc::got_pdu: the caller takes over the buffer of the packet. *)
Definition client_got (pdu : list Z) (clt : rpcc) : rpcc :=
  let '(h, rep) := unpack_reply_header (unmarshall_of pdu (Z.of_nat (length pdu))) in
  if u_ok rep then got_reply h pdu clt else clt.

Fixpoint deliver_all (c : Z) (bufs : list (list Z)) (clt : rpcc) (s : rpcs) : ST S (rpcc * rpcs) :=
  match bufs with
  | [] => mret (clt, s)
  | buf :: bufs =>
      '(o, s) ← server_got c buf s;
      deliver_all c bufs (match o with Some pdu => client_got pdu clt | None => clt end) s
  end.

(** ca.un after take_in. *)
Definition caller_un (ca : caller) : unmarshall :=
  if ca_done ca then (take_in unmarshall_new (unmarshall_of (ca_un ca) (Z.of_nat (length (ca_un ca))))).1
  else unmarshall_new.

(** call1 over the connection [c]; without a server there is no connection, so
    nothing is sent and the deadline passes. *)
Definition call1 (c proc : Z) (req : marshall) (clt : rpcc) (srv : option rpcs)
    : ST S ((Z * unmarshall) * rpcc * option rpcs) :=
  match call1_begin proc clt with
  | (inl e, clt) => mret ((e, unmarshall_new), clt, srv)
  | (inr (xid, h), clt) =>
      let buf := wire_pdu (pack_req_header h req) in
      '(clt, srv) ← match srv with
                    | None => mret (clt, None)
                    | Some s =>
                        let '(bufs, clt) := call1_transmit buf clt in
                        '(clt, s) ← deliver_all c bufs clt s; mret (clt, Some s)
                    end;
      let '(ca, clt) := call1_end xid clt in
      let '(ret, clt) := call1_remember buf xid (rq_xid_rep h) ca clt in
      mret ((ret, caller_un ca), clt, srv)
  end.

(** rpcc::call and rpcc::bind. *)
Definition call {A R} (ca : codec A) (cr : codec R) (c proc : Z) (a : A) (clt : rpcc) (srv : option rpcs)
    : ST S ((Z * R) * rpcc * option rpcs) :=
  '((ret, u), clt, srv) ← call1 c proc (call_req ca a) clt srv;
  '(ret, r) ← st_lift (call_m cr (fresh cr) ret u);
  mret ((ret, r), clt, srv).

Definition bind (c : Z) (clt : rpcc) (srv : option rpcs) : ST S (Z * rpcc * option rpcs) :=
  '((ret, r), clt, srv) ← call c_int c_int c rpc_bind 0 clt srv;
  mret (ret, bind_end ret r clt, srv).

(** ** Sessions *)
Inductive rop :=
  | OStart (nonce count : Z)
  | OStop
  | ONew (i nonce : Z) (retrans : bool)
  | ODel (i : Z)
  | OBind (c i : Z)
  | OCall (c i proc : Z) (a : pd_arg (service proc)).

Inductive rout :=
  | RDone
  | RBind (ret : Z)
  | RCall (proc ret : Z) (r : pd_res (service proc)).

Record rworld := RWorld { rw_clts : gmap Z rpcc; rw_srv : option rpcs }.

(** The procedures that are registered. *)
Context (procs : gset Z).

(** new rpcs and reg; its delete; new rpcc; its delete, which checks that no call is
    outstanding; bind; call. *)
Definition run_op (o : rop) (w : rworld) : ST S (rout * rworld) :=
  match o with
  | OStart nonce count =>
      mret (RDone, RWorld (rw_clts w) (Some (rpcs_new nonce count ({[rpc_bind]} ∪ procs))))
  | OStop => mret (RDone, RWorld (rw_clts w) None)
  | ONew i nonce retrans =>
      mret (RDone, RWorld (<[i := rpcc_new nonce 0 retrans]> (rw_clts w)) (rw_srv w))
  | ODel i =>
      match rw_clts w !! i with
      | None => st_undef
      | Some clt =>
          st_lift (VERIFY (bool_decide (calls_ clt = ∅)));;
          mret (RDone, RWorld (delete i (rw_clts w)) (rw_srv w))
      end
  | OBind c i =>
      match rw_clts w !! i with
      | None => st_undef
      | Some clt =>
          '(ret, clt, srv) ← bind c clt (rw_srv w);
          mret (RBind ret, RWorld (<[i := clt]> (rw_clts w)) srv)
      end
  | OCall c i proc a =>
      match rw_clts w !! i with
      | None => st_undef
      | Some clt =>
          '((ret, r), clt, srv) ← call (pd_ca (service proc)) (pd_cr (service proc)) c proc a clt (rw_srv w);
          mret (RCall proc ret r, RWorld (<[i := clt]> (rw_clts w)) srv)
      end
  end.

Fixpoint run_ops (l : list rop) (w : rworld) : ST S (list rout * rworld) :=
  match l with
  | [] => mret ([], w)
  | o :: l => '(x, w) ← run_op o w; '(xs, w) ← run_ops l w; mret (x :: xs, w)
  end.
End calls.

Lemma lift_run {S A B} (a : A) (f : A → ST S B) s : (st_lift (Ret a) ≫= f) s = f a s.
Proof. done. Qed.

(** * What a delivered request does to the server *)

(** The server is up, and keeps what is not about the client [clt]. *)
Definition server_env (s : rpcs) := (nonce_ s, reachable_ s, procs_ s, dead_ s).

Definition client_win (s : rpcs) (clt : Z) : Z * list Z :=
  (mget 0 (xid_rep_window_ s) clt, r_xid <$> mget [] (reply_window_ s) clt).

Record kept (clt : Z) (s s' : rpcs) : Prop := {
  kp_env : server_env s' = server_env s;
  kp_win : ∀ clt', clt' ≠ clt ∨ clt' = 0 → client_win s' clt' = client_win s clt' }.

Lemma kept_trans clt s1 s2 s3 : kept clt s1 s2 → kept clt s2 s3 → kept clt s1 s3.
Proof. intros [E1 W1] [E2 W2]. split; [congruence|]. intros clt' Hc. rewrite W2, W1; done. Qed.

(** Steps that touch connections, counters and the heap only. *)
Definition same_win (s s' : rpcs) : Prop :=
  server_env s' = server_env s ∧ reply_window_ s' = reply_window_ s ∧ xid_rep_window_ s' = xid_rep_window_ s.

Lemma same_win_kept clt s s' : same_win s s' → kept clt s s' ∧ ∀ clt', client_win s' clt' = client_win s clt'.
Proof. intros (E & E1 & E2). split; [split; [done|]|]; intros; unfold client_win; by rewrite E1, E2. Qed.

Lemma same_win_save_conn ct c clt s : same_win s (save_conn ct c clt s).
Proof. unfold save_conn. by repeat case_match. Qed.

Lemma same_win_updatestat (b : bool) p s : same_win s (if b then updatestat p s else s).
Proof. by destruct b. Qed.

(** A request that the server has not seen: its handler is to be run. *)
Lemma dispatch_check_new ct c h s :
  (rq_clt_nonce h ≠ 0 → ack s (rq_clt_nonce h) (u32 (rq_xid_rep h)) < u32 (rq_xid h) ∧
     u32 (rq_xid h) ∉ (client_win s (rq_clt_nonce h)).2) →
  ∃ s', dispatch_check ct c h s = (Some (JRun c h), None, s') ∧ kept (rq_clt_nonce h) s s' ∧
    (rq_clt_nonce h ≠ 0 →
       (client_win s' (rq_clt_nonce h)).1 = ack s (rq_clt_nonce h) (u32 (rq_xid_rep h)) ∧
       ∀ x, x ∈ (client_win s' (rq_clt_nonce h)).2 → x = u32 (rq_xid h) ∨ x ∈ (client_win s (rq_clt_nonce h)).2).
Proof.
  unfold dispatch_check. set (clt := rq_clt_nonce h). intros Hn.
  destruct (Z.eqb_spec clt 0) as [E0|E0]; cbn [negb].
  - eexists. split; [done|]. split; [|done].
    apply (same_win_kept clt s). apply same_win_updatestat.
  - destruct (Hn E0) as [Hack Hin]. clear Hn.
    pose proof (same_win_save_conn ct c clt s) as Hsv. set (s0 := save_conn ct c clt s) in *.
    destruct (same_win_kept clt s s0 Hsv) as [K0 W0].
    assert (ack s0 clt (u32 (rq_xid_rep h)) = ack s clt (u32 (rq_xid_rep h))) as Ea by (unfold ack; by destruct Hsv as (_ & _ & ->)).
    assert (server_env (checkduplicate_and_update clt (u32 (rq_xid h)) (u32 (rq_xid_rep h)) s0).2 = server_env s0) as Ee
      by (unfold checkduplicate_and_update; repeat case_match; done).
    destruct (checkduplicate_and_update clt _ _ s0) as [[st [b sz]] s1] eqn:E.
    apply checkduplicate_spec in E. destruct E as [C1 C2 C3 C4 C5 C6 _ C7].
    pose proof (W0 clt) as Wc. unfold client_win in Wc. injection Wc as _ Wc.
    assert (∀ r, r ∈ mget [] (reply_window_ s0) clt → r_xid r ≠ u32 (rq_xid h)) as Hnr.
    { intros r Hr E. apply Hin. simpl. rewrite <- Wc, <- E. by apply list_elem_of_fmap_2. }
    assert (st = NEW) as ->.
    { destruct st; [done| | |]; exfalso.
      - destruct C7 as (_ & r & Hr & Ex & _). by apply (Hnr r).
      - destruct C7 as (_ & r & Hr & Ex & _). by apply (Hnr r).
      - lia. }
    eexists. split; [done|].
    destruct (same_win_kept clt s1 _ (same_win_updatestat (negb (counting_ s1 =? 0)) (rq_proc h) s1)) as [K2 W2].
    split.
    + eapply kept_trans; [exact K0|]. eapply kept_trans; [|exact K2]. split; [done|].
      intros clt' Hc. unfold client_win. destruct (C2 clt') as [-> ->]; [|done]. destruct Hc as [?| ->]; [done|congruence].
    + intros _. rewrite W2. unfold client_win; simpl. split; [by rewrite C1|].
      intros x (r & -> & Hr)%list_elem_of_fmap. destruct (C4 r Hr) as [Hr'|[_ ->]]; [|by left].
      right. rewrite <- Wc. by apply list_elem_of_fmap_2.
Qed.

(** From the return of the handler to the reply on its way. *)
Lemma dispatch_finishes `{HeapJunk} {S} c h ret reply s (σ : S) :
  0 ≤ ret → c ∉ dead_ s → 0 ≤ rq_clt_nonce h →
  ∃ s', kept (rq_clt_nonce h) s s' ∧ client_win s' (rq_clt_nonce h) = client_win s (rq_clt_nonce h) ∧
  ('(j, s) ← st_lift (dispatch_run c h ret reply s);
   match j with
   | JReply c h b sz => '(j, s) ← st_lift (dispatch_record c h b sz s); dispatch_end j s
   | _ => mret (None, s)
   end) σ = Ret ((Some (framed reply), s'), σ).
Proof.
  intros Hr Hd Hc. unfold dispatch_run.
  destruct (Z.eqb_spec ret unmarshal_args_failure) as [E|_]; [unfold unmarshal_args_failure in E; lia|].
  destruct (Z.ltb_spec ret 0); [lia|].
  unfold mbind, st_bind, st_lift, res_bind, dispatch_record. cbn [mbind res_bind].
  set (s1 := Rpcs _ _ _ _ _ _ _ _ _ _ _ _ _).
  set (s2 := if 0 <? rq_clt_nonce h then _ else s1).
  assert (kept (rq_clt_nonce h) s s2 ∧ client_win s2 (rq_clt_nonce h) = client_win s (rq_clt_nonce h) ∧
          heap_ s2 !! brk_ s = Some reply ∧ dead_ s2 = dead_ s) as (K & W & Hh & Ed).
  { unfold s2. destruct (Z.ltb_spec 0 (rq_clt_nonce h)); [|by split; [|split; [|split; [apply lookup_insert_eq|]]]].
    split; [split; [done|]|split; [|split; [apply lookup_insert_eq|done]]].
    - intros clt' Hn. unfold client_win, add_reply; simpl. rewrite mget_insert_ne; [done|]. lia.
    - unfold client_win, add_reply; simpl. by rewrite mget_insert_eq, set_reply_xids. }
  clearbody s2. destruct (decide (c ∈ dead_ s2)) as [Hin|_]; [rewrite Ed in Hin; done|].
  unfold dispatch_end, mbind, st_bind, st_lift, res_bind, dispatch_send.
  change (Some (brk_ s) ≫= (heap_ s2 !!.)) with (heap_ s2 !! brk_ s). rewrite Hh.
  eexists. split; [|split; [|reflexivity]].
  - eapply kept_trans; [exact K|]. apply same_win_kept. by destruct (_ =? 0).
  - rewrite <- W. destruct (same_win_kept (rq_clt_nonce h) s2
      (decref c (if rq_clt_nonce h =? 0 then with_window (reply_window_ s2) (xid_rep_window_ s2) (free (Some (brk_ s)) (heap_ s2)) s2 else s2)))
      as [_ Hw]; [by destruct (_ =? 0)|apply Hw].
Qed.

(** * The client around a call *)

(** Between two calls, lossy testing off: [k] is the next transaction id. *)
Record idle (k : Z) (c : rpcc) : Prop := {
  id_calls : calls_ c = ∅;
  id_destroy : destroy_wait_ c = false;
  id_xid : xid_ c = k;
  id_win : xid_rep_window c = [k - 1];
  id_lossy : lossytest_ c = 0;
  id_dup : dup_req_ c = request_clear;
  id_nonce : 0 ≤ clt_nonce_ c < 2 ^ 32;
  id_srv : 0 ≤ srv_nonce_ c < 2 ^ 32 }.

Definition during (calls : gmap Z caller) (w : list Z) (k : Z) (c : rpcc) : rpcc :=
  Rpcc (clt_nonce_ c) (srv_nonce_ c) (bind_done_ c) (k + 1) 0 (retrans_ c) false calls w request_clear (xid_rep_done_ c).

Definition begun (k : Z) (c : rpcc) : rpcc := during {[k := Caller false 0 []]} [k - 1] k c.
Definition ended (k : Z) (c : rpcc) : rpcc := during ∅ [k] k c.

Definition header_of (k proc : Z) (c : rpcc) : req_header :=
  ReqHeader k (s32 proc) (clt_nonce_ c) (srv_nonce_ c) (k - 1).

Lemma ended_idle k c : idle k c → idle (k + 1) (ended k c).
Proof. intros [H1 H2 H3 H4 H5 H6 H7 H8]. split; simpl; try done. f_equal. lia. Qed.

Lemma call1_begin_idle proc k c :
  idle k c → (proc =? rpc_bind) = negb (bind_done_ c) → 1 ≤ k < 2 ^ 31 - 1 →
  call1_begin proc c = (inr (k, header_of k proc c), begun k c).
Proof.
  intros [H1 H2 H3 H4 H5 H6 H7 H8] Hb Hk. unfold call1_begin. rewrite Hb, H1, H2, H3, H4, H5, H6.
  destruct (bind_done_ c) eqn:Eb; cbn [negb andb orb];
    (change (front [k - 1]) with (k - 1); rewrite (swrap_small 32 k), (swrap_small 32 (k - 1)), uwrap_small by lia; unfold begun, during; by rewrite Eb).
Qed.

Lemma update_next k : 1 ≤ k < 2 ^ 32 → update_xid_rep k [k - 1] = [k].
Proof.
  intros Hk. unfold update_xid_rep. change (front [k - 1]) with (k - 1).
  destruct (Z.leb_spec k (k - 1)); [lia|]. cbn [insert_xid]. destruct (Z.ltb_spec k (k - 1)); [lia|].
  unfold compress. cbn [compress_loop pop_while]. rewrite (uwrap_small 32 (k - 1 + 1)) by lia.
  by destruct (Z.eqb_spec (k - 1 + 1) k); [|lia].
Qed.

Lemma update_again k : update_xid_rep k [k] = [k].
Proof. unfold update_xid_rep. change (front [k]) with k. by destruct (Z.leb_spec k k); [|lia]. Qed.

Lemma got_reply_begun k c ret pdu :
  1 ≤ k < 2 ^ 31 - 1 →
  got_reply (ReplyHeader k ret) pdu (begun k c) = during {[k := Caller true ret pdu]} [k] k c.
Proof.
  intros Hk. unfold got_reply, begun, during; simpl. rewrite uwrap_small by lia.
  rewrite lookup_singleton_eq, update_next by lia. simpl. by rewrite insert_singleton_eq.
Qed.

(** The end of call1, with or without an answer. *)
Lemma call1_ends k c ca w buf xr :
  w = [k] ∨ w = [k - 1] → 1 ≤ k < 2 ^ 31 - 1 →
  call1_end k (during {[k := ca]} w k c) = (ca, ended k c) ∧
  call1_remember buf k xr ca (ended k c) = (if ca_done ca then ca_intret ca else timeout_failure, ended k c).
Proof.
  intros Hw Hk. split.
  - unfold call1_end, ended, during, mget; simpl. rewrite lookup_singleton_eq, delete_singleton_eq. simpl.
    destruct Hw as [-> | ->]; [by rewrite update_again|by rewrite update_next by lia].
  - unfold call1_remember; simpl. by rewrite andb_false_r.
Qed.

Section call_runs.
Context `{HeapJunk} (create_time : Z → Z * Z) {S : Type} (service : Z → proc_desc S).

(** The reply that reached the caller. *)
Definition reply_un (pdu : list Z) : unmarshall := caller_un (Caller true 0 pdu).

Lemma call1_answered c proc req clt k s s' pdu ret u (σ σ' : S) :
  idle k clt → (proc =? rpc_bind) = negb (bind_done_ clt) → 1 ≤ k < 2 ^ 31 - 1 →
  server_got create_time service c (wire_pdu (pack_req_header (header_of k proc clt) req)) s σ = Ret ((Some pdu, s'), σ') →
  unpack_reply_header (unmarshall_of pdu (Z.of_nat (length pdu))) = (ReplyHeader k ret, u) → u_ok u = true →
  call1 create_time service c proc req clt (Some s) σ = Ret (((ret, reply_un pdu), ended k clt, Some s'), σ').
Proof.
  intros Hi Hb Hk E Eu Hu. unfold call1. rewrite (call1_begin_idle proc k clt) by done.
  set (buf := wire_pdu _) in *. clearbody buf.
  assert (call1_transmit buf (begun k clt) = ([buf], begun k clt)) as -> by done.
  unfold mbind, st_bind, mret, st_ret, res_bind. cbn [deliver_all].
  unfold mbind, st_bind, mret, st_ret, res_bind. rewrite E. unfold client_got. rewrite Eu, Hu.
  rewrite (got_reply_begun k clt ret pdu) by done.
  destruct (call1_ends k clt (Caller true ret pdu) [k] buf (rq_xid_rep (header_of k proc clt))) as [-> ->]; [by left|done|done].
Qed.

Lemma call1_down c proc req clt k (σ : S) :
  idle k clt → (proc =? rpc_bind) = negb (bind_done_ clt) → 1 ≤ k < 2 ^ 31 - 1 →
  call1 create_time service c proc req clt None σ = Ret (((timeout_failure, unmarshall_new), ended k clt, None), σ).
Proof.
  intros Hi Hb Hk. unfold call1. rewrite (call1_begin_idle proc k clt) by done.
  unfold mbind, st_bind, mret, st_ret, res_bind.
  destruct (call1_ends k clt (Caller false 0 []) [k - 1] (wire_pdu (pack_req_header (header_of k proc clt) req))
    (rq_xid_rep (header_of k proc clt))) as [E1 E2]; [by right|done|]. unfold begun. rewrite E1, E2. done.
Qed.

Lemma call1_unbound c proc req clt k srv (σ : S) :
  idle k clt → (proc =? rpc_bind) = bind_done_ clt →
  call1 create_time service c proc req clt srv σ = Ret (((bind_failure, unmarshall_new), clt, srv), σ).
Proof. intros Hi Hb. unfold call1, call1_begin. rewrite Hb. by destruct (bind_done_ clt). Qed.

(** ** A request at a server that is up *)
Definition fresh_in (k clt : Z) (s : rpcs) : Prop :=
  clt ≠ 0 → 0 ≤ (client_win s clt).1 < k ∧ ∀ x, x ∈ (client_win s clt).2 → x < k.

Definition fits {A} (c : codec A) `{!CodecOk c} (a : A) : Prop :=
  valid c a ∧ 24 + Z.of_nat (length (enc c a)) < 2 ^ 31.

Lemma handler_of_nonce s s' proc : nonce_ s' = nonce_ s → handler_of service s' proc = handler_of service s proc.
Proof. intros E. unfold handler_of, rpcbind. by rewrite E. Qed.

Lemma framed_wire m : m_inv m → framed (m_bytes m) = wire_pdu m.
Proof. intros Hm. unfold framed, wire_pdu. rewrite length_m_bytes by done. destruct Hm as (_ & [? _] & _). by rewrite Z2Nat.id. Qed.

Lemma header_valid k proc clt :
  idle k clt → 1 ≤ k < 2 ^ 31 - 1 → 0 ≤ proc < 2 ^ 31 → req_valid (header_of k proc clt).
Proof.
  intros Hi Hk Hp. destruct (id_nonce _ _ Hi), (id_srv _ _ Hi).
  repeat split; cbn [header_of rq_xid rq_proc rq_clt_nonce rq_srv_nonce rq_xid_rep]; rewrite ?swrap_small by lia; lia.
Qed.

(** The dispatch of a request of its client that comes next: the handler runs
    once, and its reply is sent. *)
Lemma dispatch_executes c pdu h u s ret rep (σ σ' : S) :
  unpack_req_header (unmarshall_of pdu (Z.of_nat (length pdu))) = (h, u) → u_ok u = true →
  rq_srv_nonce h = 0 ∨ rq_srv_nonce h = nonce_ s → rq_proc h ∈ procs_ s → c ∉ dead_ s → 0 ≤ rq_clt_nonce h →
  u32 (rq_xid_rep h) + 1 = u32 (rq_xid h) → fresh_in (u32 (rq_xid h)) (rq_clt_nonce h) s →
  handler_of service s (rq_proc h) u marshall_new σ = Ret ((ret, rep), σ') → 0 ≤ ret →
  ∃ s', dispatch create_time service c pdu s σ
        = Ret ((Some (framed (m_bytes (pack_reply_header (ReplyHeader (rq_xid h) ret) rep))), s'), σ') ∧
    kept (rq_clt_nonce h) s s' ∧ fresh_in (u32 (rq_xid h) + 1) (rq_clt_nonce h) s'.
Proof.
  intros Eu Hu Hn Hp Hd Hc Hx Hf Hh Hr. unfold dispatch. rewrite Eu, Hu.
  assert (dispatch_begin c h true s = Ret (Some (JCheck c h), None, s)) as ->.
  { unfold dispatch_begin. cbn [negb]. rewrite decide_True by done.
    destruct (Z.eqb_spec (rq_srv_nonce h) 0), (Z.eqb_spec (rq_srv_nonce h) (nonce_ s)); simpl; try done. lia. }
  rewrite lift_run.
  destruct (dispatch_check_new create_time c h s) as (s1 & -> & K1 & W1).
  { intros H0. destruct (Hf H0) as [Ha Hw]. unfold client_win in Ha; simpl in Ha. unfold ack. split; [lia|].
    intros Hin. specialize (Hw _ Hin). lia. }
  pose proof (kp_env _ _ _ K1) as Ee. unfold server_env in Ee. injection Ee as En _ _ Ed.
  cbv beta iota. rewrite (handler_of_nonce s s1 (rq_proc h) En). run Hh. cbv beta iota zeta.
  destruct (dispatch_finishes c h ret (m_bytes (pack_reply_header (ReplyHeader (rq_xid h) ret) rep)) s1 σ') as (s2 & K2 & W2 & E2);
    [done|by rewrite Ed|done|].
  exists s2. split; [exact E2|]. split; [by eapply kept_trans|].
  intros H0. rewrite W2. destruct (W1 H0) as [Ea Hin]. destruct (Hf H0) as [Ha Hw]. split.
  - rewrite Ea. unfold ack. unfold client_win in Ha; simpl in Ha. lia.
  - intros x [->|Hx']%Hin; [lia|]. specialize (Hw x Hx'). lia.
Qed.

(** got_pdu before it: a reference on the connection. *)
Lemma server_got_up c pdu s :
  reachable_ s = true → ∃ s1, server_got create_time service c pdu s = dispatch create_time service c pdu s1 ∧ same_win s s1.
Proof.
  intros Hr. unfold server_got, got_pdu. rewrite Hr. cbn [negb]. change (reachable_ (incref c s)) with (reachable_ s).
  rewrite Hr. cbn [negb orb]. by eexists.
Qed.

Lemma fresh_in_win k clt s s' : client_win s' clt = client_win s clt → fresh_in k clt s → fresh_in k clt s'.
Proof. unfold fresh_in. by intros ->. Qed.

Lemma call_executes {A R} (ca : codec A) (cr : codec R) `{!CodecOk ca, !CodecOk cr} meth c proc a clt k s b r (σ σ' : S) :
  idle k clt → (proc =? rpc_bind) = negb (bind_done_ clt) → 1 ≤ k < 2 ^ 31 - 1 → 0 ≤ proc < 2 ^ 31 →
  reachable_ s = true → c ∉ dead_ s → proc ∈ procs_ s → srv_nonce_ clt = 0 ∨ srv_nonce_ clt = nonce_ s →
  fresh_in k (clt_nonce_ clt) s → handler_of service s proc = h_fn ca cr meth →
  fits ca a → meth a (fresh cr) σ = Ret ((b, r), σ') → 0 ≤ b < 2 ^ 31 → fits cr r →
  ∃ s', call create_time service ca cr c proc a clt (Some s) σ = Ret (((b, r), ended k clt, Some s'), σ') ∧
    kept (clt_nonce_ clt) s s' ∧ fresh_in (k + 1) (clt_nonce_ clt) s'.
Proof.
  intros Hi Hb Hk Hp Hr Hd Hps Hn Hf Eh [Ha Hl] Em Hb' [Hv Hl'].
  pose proof (header_valid k proc clt Hi Hk Hp) as Hh. set (h := header_of k proc clt) in *.
  assert (u32 (rq_xid h) = k ∧ u32 (rq_xid_rep h) = k - 1 ∧ rq_proc h = proc ∧ rq_clt_nonce h = clt_nonce_ clt ∧
          rq_srv_nonce h = srv_nonce_ clt) as (E1 & E2 & E3 & E4 & E5).
  { unfold h, header_of. cbn [rq_xid rq_proc rq_clt_nonce rq_srv_nonce rq_xid_rep]. rewrite !uwrap_small, swrap_small by lia. done. }
  destruct (req_packet ca h a Ha Hh Hl) as (_ & Eu & W & Rs).
  set (pdu := wire_pdu (pack_req_header h (call_req ca a))) in *.
  destruct (take_all ca a _ Ha W Rs) as (u' & T & D).
  destruct (server_got_up c pdu s Hr) as (s1 & Eg & Hw). destruct (same_win_kept (clt_nonce_ clt) s s1 Hw) as [K1 W1].
  pose proof (kp_env _ _ _ K1) as Ee. unfold server_env in Ee. injection Ee as En _ Ep Ed.
  assert (handler_of service s1 (rq_proc h) (u_set_ind RPC_HEADER_SZ (unmarshall_of pdu (Z.of_nat (length pdu)))) marshall_new σ
          = Ret ((b, m_put cr r marshall_new), σ')) as Hrun.
  { rewrite (handler_of_nonce s s1 _ En), E3, Eh. unfold h_fn. rewrite T, lift_run. cbv beta iota. rewrite D. cbn [negb]. by run Em. }
  destruct (dispatch_executes c pdu h _ s1 b (m_put cr r marshall_new) σ σ' Eu) as (s2 & E & K2 & F2);
    [by destruct W as (_ & _ & _ & ?)|rewrite E5, En; done|by rewrite E3, Ep|by rewrite Ed|rewrite E4; apply (id_nonce _ _ Hi)|lia| |exact Hrun|lia|].
  { rewrite E1, E4. by apply (fresh_in_win _ _ s). }
  rewrite E4 in K2, F2. rewrite E1 in F2. exists s2. split; [|split; [by eapply kept_trans|done]].
  assert (reply_valid (ReplyHeader (rq_xid h) b)) as Hrv by (split; simpl; [apply Hh|lia]).
  destruct (call_req_bytes cr r Hv) as (Hm & _ & Hi2).
  destruct (pack_reply_header_bytes (ReplyHeader (rq_xid h) b) _ Hm) as (Hm' & _ & _); [rewrite Hi2; change RPC_HEADER_SZ with 24; lia|].
  change (call_req cr r) with (m_put cr r marshall_new) in Hm'. rewrite (framed_wire _ Hm') in E.
  destruct (reply_packet cr _ r Hv Hrv Hl') as (_ & E6 & W6 & R6). set (rp := wire_pdu (pack_reply_header _ _)) in *.
  unfold call. rewrite <- Eg in E.
  run (call1_answered c proc (call_req ca a) clt k s s2 rp b _ σ σ' Hi Hb Hk E E6 (proj2 (proj2 (proj2 W6)))).
  pose proof (receive_packet cr rp _ r E6 W6 R6 Hv (proj1 Hb')) as Erc. unfold receive in Erc. rewrite E6 in Erc.
  change (call_m cr (fresh cr) b (reply_un rp) = Ret (b, r)) in Erc. cbv beta iota. rewrite Erc. done.
Qed.

(** The code of a call that fails; the result keeps its value. *)
Lemma call_fails {A R} (ca : codec A) (cr : codec R) c proc a clt srv e u clt' srv' (σ σ' : S) :
  call1 create_time service c proc (call_req ca a) clt srv σ = Ret (((e, u), clt', srv'), σ') → e < 0 →
  call create_time service ca cr c proc a clt srv σ = Ret (((e, fresh cr), clt', srv'), σ').
Proof. intros E He. unfold call. run E. cbv beta iota. unfold call_m. by rewrite (proj2 (Z.ltb_lt _ _) He). Qed.

(** A failure reply as the client reads it. *)
Lemma fail_packet h e :
  - 2 ^ 31 ≤ rq_xid h < 2 ^ 31 → - 2 ^ 31 ≤ e < 2 ^ 31 →
  ∃ u, unpack_reply_header (unmarshall_of (fail_reply h e) (Z.of_nat (length (fail_reply h e)))) = (ReplyHeader (rq_xid h) e, u) ∧ u_ok u = true.
Proof.
  intros Hx He. unfold fail_reply. set (rh := ReplyHeader (rq_xid h) e). destruct marshall_new_inv as [Hm En].
  destruct (pack_reply_header_bytes rh _ Hm) as (Hm' & _ & Eb); [done|]. rewrite (framed_wire _ Hm').
  assert (length (reply_header_bytes rh) = 8%nat) as L by done.
  destruct (wire_pdu_shape _ (take 24 (malloc 1024)) (reply_header_bytes rh) [] Hm') as (sz & pad & Hsz & Hpad & Ep);
    [done|lia|by rewrite Eb, En, app_nil_r|].
  destruct (packet_reader sz (reply_header_bytes rh) pad [] Hsz Hpad) as (W4 & R4 & W6 & _).
  { rewrite !length_app. simpl. lia. }
  rewrite <- Ep in W4, R4, W6. eexists. split; [|exact (proj2 (proj2 (proj2 W6)))].
  by apply (unpack_reply_header_spec _ rh _ W4 R4).
Qed.

(** The server was restarted after the client was bound: the call is refused, and
    the handler is not run. *)
Lemma call_stale {A R} (ca : codec A) (cr : codec R) `{!CodecOk ca, !CodecOk cr} c proc a clt k s (σ : S) :
  idle k clt → (proc =? rpc_bind) = negb (bind_done_ clt) → 1 ≤ k < 2 ^ 31 - 1 → 0 ≤ proc < 2 ^ 31 →
  reachable_ s = true → srv_nonce_ clt ≠ 0 → srv_nonce_ clt ≠ nonce_ s → fits ca a →
  ∃ s', call create_time service ca cr c proc a clt (Some s) σ = Ret (((oldsrv_failure, fresh cr), ended k clt, Some s'), σ) ∧
    same_win s s'.
Proof.
  intros Hi Hb Hk Hp Hr H0 Hn [Ha Hl].
  pose proof (header_valid k proc clt Hi Hk Hp) as Hh. set (h := header_of k proc clt) in *.
  destruct (req_packet ca h a Ha Hh Hl) as (_ & Eu & W & _).
  set (pdu := wire_pdu (pack_req_header h (call_req ca a))) in *.
  destruct (server_got_up c pdu s Hr) as (s1 & Eg & Hw). exists s1. split; [|done].
  destruct Hw as (Ee & _). unfold server_env in Ee. injection Ee as En _ _ _.
  destruct (fail_packet h oldsrv_failure) as (u & Ef & Hu); [apply Hh|unfold oldsrv_failure; lia|].
  eapply call_fails; [|by unfold oldsrv_failure].
  refine (call1_answered c proc (call_req ca a) clt k s s1 _ oldsrv_failure u σ σ Hi Hb Hk _ Ef Hu).
  fold h. fold pdu. rewrite Eg. unfold dispatch. rewrite Eu, (proj2 (proj2 (proj2 W))). unfold dispatch_begin. cbn [negb].
  change (rq_srv_nonce h) with (srv_nonce_ clt). rewrite En.
  rewrite (proj2 (Z.eqb_neq _ _) H0), (proj2 (Z.eqb_neq _ _) Hn). cbn [negb andb]. by rewrite lift_run.
Qed.
End call_runs.
