(* ===== verification/RpcSession.v ===== *)
(** Sessions of calls (RpcCall.v) against their specification: a call is a local
    call of the method, unless the client is not bound, the server is down, or
    the server was restarted since the client was bound.  At the end the failure
    test of rpc/rpctest.cc, which is such a session. *)
From Stdlib Require Import Eqdep_dec.
From S2P Require Import Prelude Marshall RpcStub RpcServer RpcClient RpcCall RpcTest.
Local Open Scope Z_scope.

(** What is known of a client: the nonce of the server it was bound to, and the
    number of requests it made. *)
Record sclt := SClt { sc_bound : option Z; sc_calls : Z }.

(** The server's nonce while it is up, the clients, the nonces drawn so far for
    clients, and the state of the service. *)
Record spec (S : Type) := Spec {
  sp_srv : option Z; sp_clts : gmap Z sclt; sp_used : gset Z; sp_st : S }.
Arguments Spec {S} _ _ _ _.
Arguments sp_srv {S} _.
Arguments sp_clts {S} _.
Arguments sp_used {S} _.
Arguments sp_st {S} _.

Section session.
Context `{HeapJunk} (create_time : Z → Z * Z) {S : Type} (service : Z → proc_desc S) (procs : gset Z).
Implicit Types (σ : S) (cl : gmap Z sclt) (us : gset Z).

(** One request more. *)
Definition asked (sc : sclt) : sclt := SClt (sc_bound sc) (sc_calls sc + 1).

Definition room (sc : sclt) : Prop := sc_calls sc < 2 ^ 31 - 2.

Definition callable (proc : Z) (a : pd_arg (service proc)) : Prop :=
  0 ≤ proc < 2 ^ 31 ∧ proc ≠ rpc_bind ∧ proc ∈ procs ∧ fits (pd_ca (service proc)) a.

(** A server takes requests made for its own incarnation and for none. *)
Definition accepts (srv bound : Z) : Prop := bound = 0 ∨ bound = srv.

Inductive spec_step : spec S → rop service → rout service → spec S → Prop :=
  | SpStart n count sr cl us σ :
      0 ≤ n < 2 ^ 32 →
      spec_step (Spec sr cl us σ) (OStart service n count) (RDone service) (Spec (Some n) cl us σ)
  | SpStop sr cl us σ :
      spec_step (Spec sr cl us σ) (OStop service) (RDone service) (Spec None cl us σ)
  | SpNew i n (retrans : bool) sr cl us σ :
      0 ≤ n < 2 ^ 32 → (retrans = true → n ≠ 0 → n ∉ us) →
      spec_step (Spec sr cl us σ) (ONew service i n retrans) (RDone service)
        (Spec sr (<[i := SClt None 0]> cl) ({[n]} ∪ us) σ)
  | SpDel i sc sr cl us σ :
      cl !! i = Some sc →
      spec_step (Spec sr cl us σ) (ODel service i) (RDone service) (Spec sr (delete i cl) us σ)
  | SpBindTwice c i sc m sr cl us σ :
      cl !! i = Some sc → sc_bound sc = Some m →
      spec_step (Spec sr cl us σ) (OBind service c i) (RBind service bind_failure) (Spec sr cl us σ)
  | SpBindDown c i sc cl us σ :
      cl !! i = Some sc → sc_bound sc = None → room sc →
      spec_step (Spec None cl us σ) (OBind service c i) (RBind service timeout_failure)
        (Spec None (<[i := asked sc]> cl) us σ)
  | SpBind c i sc m cl us σ :
      cl !! i = Some sc → sc_bound sc = None → room sc →
      spec_step (Spec (Some m) cl us σ) (OBind service c i) (RBind service 0)
        (Spec (Some m) (<[i := SClt (Some m) (sc_calls sc + 1)]> cl) us σ)
  | SpCallUnbound c i proc a sc sr cl us σ :
      cl !! i = Some sc → sc_bound sc = None → callable proc a →
      spec_step (Spec sr cl us σ) (OCall service c i proc a)
        (RCall service proc bind_failure (fresh (pd_cr (service proc)))) (Spec sr cl us σ)
  | SpCallDown c i proc a sc m cl us σ :
      cl !! i = Some sc → sc_bound sc = Some m → room sc → callable proc a →
      spec_step (Spec None cl us σ) (OCall service c i proc a)
        (RCall service proc timeout_failure (fresh (pd_cr (service proc)))) (Spec None (<[i := asked sc]> cl) us σ)
  | SpCallStale c i proc a sc m n cl us σ :
      cl !! i = Some sc → sc_bound sc = Some m → room sc → callable proc a → ¬ accepts n m →
      spec_step (Spec (Some n) cl us σ) (OCall service c i proc a)
        (RCall service proc oldsrv_failure (fresh (pd_cr (service proc)))) (Spec (Some n) (<[i := asked sc]> cl) us σ)
  | SpCall c i proc a sc m n cl us σ b r σ' :
      cl !! i = Some sc → sc_bound sc = Some m → room sc → callable proc a → accepts n m →
      pd_meth (service proc) a (fresh (pd_cr (service proc))) σ = Ret ((b, r), σ') → 0 ≤ b < 2 ^ 31 →
      fits (pd_cr (service proc)) r →
      spec_step (Spec (Some n) cl us σ) (OCall service c i proc a) (RCall service proc b r)
        (Spec (Some n) (<[i := asked sc]> cl) us σ').

Inductive spec_run : spec S → list (rop service) → list (rout service) → spec S → Prop :=
  | SpNil sp : spec_run sp [] [] sp
  | SpCons sp1 sp2 sp3 o x l xs :
      spec_step sp1 o x sp2 → spec_run sp2 l xs sp3 → spec_run sp1 (o :: l) (x :: xs) sp3.

(** ** The relation between the specification and the code *)
Record clt_rel (us : gset Z) (sc : sclt) (c : rpcc) : Prop := {
  cr_idle : idle (sc_calls sc + 1) c;
  cr_calls : 0 ≤ sc_calls sc;
  cr_bound : match sc_bound sc with
             | None => bind_done_ c = false ∧ srv_nonce_ c = 0
             | Some m => bind_done_ c = true ∧ srv_nonce_ c = m
             end;
  cr_used : clt_nonce_ c ≠ 0 → clt_nonce_ c ∈ us }.

(** Clients the server has not heard of have no window. *)
Record srv_rel (us : gset Z) (m : Z) (s : rpcs) : Prop := {
  sr_env : server_env s = (m, true, {[rpc_bind]} ∪ procs, ∅);
  sr_nonce : 0 ≤ m < 2 ^ 32;
  sr_unused : ∀ n, n ≠ 0 → n ∉ us → client_win s n = (0, []) }.

Record rel (sp : spec S) (w : rworld) : Prop := {
  re_srv : option_Forall2 (srv_rel (sp_used sp)) (sp_srv sp) (rw_srv w);
  re_clts : ∀ i, option_Forall2 (clt_rel (sp_used sp)) (sp_clts sp !! i) (rw_clts w !! i);
  re_win : ∀ s i c, rw_srv w = Some s → rw_clts w !! i = Some c → fresh_in (xid_ c) (clt_nonce_ c) s;
  re_inj : ∀ i j c c', rw_clts w !! i = Some c → rw_clts w !! j = Some c' → i ≠ j →
    clt_nonce_ c = 0 ∨ clt_nonce_ c ≠ clt_nonce_ c' }.

Lemma kept_same_win clt s s' : same_win s s' → kept clt s s'.
Proof. intros Hw. apply (same_win_kept clt s s' Hw). Qed.

Lemma srv_rel_kept us m s s' clt : srv_rel us m s → kept clt s s' → (clt ≠ 0 → clt ∈ us) → srv_rel us m s'.
Proof.
  intros [E N U] [K W] Hc. split; [congruence|done|]. intros n Hn Hu. rewrite W; [by apply U|].
  destruct (decide (n = clt)) as [->|]; [|by left]. exfalso. auto.
Qed.

(** A client's step: the others keep what the server knows of them. *)
Lemma rel_client sr sr' cl us σ σ' w i sc sc' c c' srv' :
  rel (Spec sr cl us σ) w → rw_clts w !! i = Some c → clt_rel us sc' c' → clt_nonce_ c' = clt_nonce_ c →
  option_Forall2 (srv_rel us) sr' srv' →
  (∀ s', srv' = Some s' → fresh_in (xid_ c') (clt_nonce_ c) s' ∧ ∃ s, rw_srv w = Some s ∧ kept (clt_nonce_ c) s s') →
  cl !! i = Some sc →
  rel (Spec sr' (<[i := sc']> cl) us σ') (RWorld (<[i := c']> (rw_clts w)) srv').
Proof.
  intros [R1 R2 R3 R4] Hc Hr En Hs Hw Hsc. split; cbn [sp_srv sp_clts sp_used rw_srv rw_clts] in *.
  - done.
  - intros j. destruct (decide (i = j)) as [<-|Hne]; [rewrite !lookup_insert_eq; by constructor|].
    rewrite !lookup_insert_ne by done. apply R2.
  - intros s' j cj Es [[<- <-]|[Hne Hj]]%lookup_insert_Some; destruct (Hw _ Es) as (Hf & s & E0 & K); [by rewrite En|].
    pose proof (R3 s j cj E0 Hj) as Hfj.
    destruct (decide (clt_nonce_ cj = 0)) as [E|E]; [by intros ?|].
    apply (fresh_in_win _ _ s); [|done]. apply (kp_win _ _ _ K). left.
    destruct (R4 j i cj c Hj Hc) as [?|?]; [done|done|done].
  - intros j k cj ck [[<- <-]|[Hj1 Hj]]%lookup_insert_Some [[<- <-]|[Hk1 Hk]]%lookup_insert_Some Hne; rewrite ?En.
    + done.
    + by apply (R4 i k).
    + by apply (R4 j i).
    + by apply (R4 j k).
Qed.

Lemma clt_rel_ended us sc c : clt_rel us sc c → clt_rel us (asked sc) (ended (sc_calls sc + 1) c).
Proof.
  intros [H1 H2 H3 H4]. split; cbn [asked sc_calls sc_bound]; [by apply ended_idle|lia|done|done].
Qed.

Lemma clt_rel_bound us sc c m :
  clt_rel us sc c → 0 ≤ m < 2 ^ 32 → clt_rel us (SClt (Some m) (sc_calls sc)) (bind_end 0 (s32 m) c).
Proof.
  intros [[I1 I2 I3 I4 I5 I6 I7 I8] H2 H3 H4] Hm. unfold bind_end. rewrite Z.eqb_refl. split; simpl; [|done| |done].
  - split; simpl; try done. rewrite uwrap_swrap, uwrap_small by lia. lia.
  - rewrite uwrap_swrap, uwrap_small by lia. done.
Qed.

(** The clients and the server of two related states. *)
Lemma rel_lookup sr cl us σ w i sc :
  rel (Spec sr cl us σ) w → cl !! i = Some sc → ∃ c, rw_clts w !! i = Some c ∧ clt_rel us sc c ∧ idle (sc_calls sc + 1) c ∧
    1 ≤ sc_calls sc + 1.
Proof.
  intros HR Hl. pose proof (re_clts _ _ HR i) as Hi. cbn [sp_clts sp_used] in Hi. rewrite Hl in Hi.
  inversion Hi as [? c Hc Ea Eb|]; subst. exists c. destruct Hc as [H1 H2 H3 H4]. split; [done|]. split; [done|]. split; [done|lia].
Qed.

Lemma rel_server n cl us σ w :
  rel (Spec (Some n) cl us σ) w → ∃ s, rw_srv w = Some s ∧ srv_rel us n s ∧ nonce_ s = n ∧ reachable_ s = true ∧
    procs_ s = {[rpc_bind]} ∪ procs ∧ dead_ s = ∅.
Proof.
  intros HR. pose proof (re_srv _ _ HR) as Hs. cbn [sp_srv sp_used] in Hs. inversion Hs as [? s Hc Ea Eb|]; subst.
  exists s. split; [done|]. split; [done|]. destruct Hc as [E _ _]. unfold server_env in E. by injection E as -> -> -> ->.
Qed.

Lemma rel_down cl us σ w : rel (Spec None cl us σ) w → rw_srv w = None.
Proof. intros HR. pose proof (re_srv _ _ HR) as Hs. cbn [sp_srv] in Hs. by inversion Hs. Qed.

Lemma world_eta (w : rworld) i c : rw_clts w !! i = Some c → RWorld (<[i := c]> (rw_clts w)) (rw_srv w) = w.
Proof. intros Hc. rewrite insert_id by done. by destruct w. Qed.

Abbreviation op_ok sp o x sp' := (∀ w, rel sp w → ∃ w', run_op create_time service procs o w (sp_st sp) = Ret ((x, w'), sp_st sp') ∧ rel sp' w').

Lemma client_new_ok i n retrans sr cl us σ :
  0 ≤ n < 2 ^ 32 → (retrans = true → n ≠ 0 → n ∉ us) →
  op_ok (Spec sr cl us σ) (ONew service i n retrans) (RDone service) (Spec sr (<[i := SClt None 0]> cl) ({[n]} ∪ us) σ).
Proof.
  intros Hn Hf w HR. set (c' := rpcc_new n 0 retrans).
  exists (RWorld (<[i := c']> (rw_clts w)) (rw_srv w)). split.
  - done.
  - assert (clt_nonce_ c' = n ∨ clt_nonce_ c' = 0) as Hc' by (destruct retrans; auto).
    assert (clt_nonce_ c' ≠ 0 → clt_nonce_ c' ∉ us) as Hfr by (destruct retrans; [auto|done]).
    destruct HR as [R1 R2 R3 R4]. cbn [sp_srv sp_clts sp_used] in *. split; cbn [sp_srv sp_clts sp_used rw_clts rw_srv].
    + inversion R1 as [m s [E N U]|]; constructor. split; [done|done|]. intros n' Hz Hu. apply U; [done|set_solver].
    + intros j. destruct (decide (i = j)) as [<-|Hne].
      * rewrite !lookup_insert_eq. constructor. split; cbn [sc_calls sc_bound]; [|lia|done|].
        -- split; cbn [c' rpcc_new calls_ destroy_wait_ xid_ xid_rep_window lossytest_ dup_req_ clt_nonce_ srv_nonce_]; try done.
           destruct retrans; lia.
        -- intros Hz. destruct Hc' as [->|]; [set_solver|done].
      * rewrite !lookup_insert_ne by done. destruct (R2 j) as [sc c [H1 H2 H3 H4]|]; constructor.
        split; [done|done|done|]. intros Hz. apply elem_of_union. right. auto.
    + intros s j c Es [[<- <-]|[Hne Hj]]%lookup_insert_Some; [|by apply (R3 s j)]. intros Hz.
      rewrite Es in R1. inversion R1 as [m ? [E N U]|]; subst. rewrite U by auto. split; [simpl; lia|].
      intros x []%elem_of_nil.
    + assert (∀ j c, rw_clts w !! j = Some c → clt_nonce_ c' = 0 ∨ clt_nonce_ c' ≠ clt_nonce_ c) as Hd.
      { intros j c Hj. destruct (decide (clt_nonce_ c' = 0)); [by left|right]. intros E.
        pose proof (R2 j) as Rj. rewrite Hj in Rj. inversion Rj as [sc ? [H1 H2 H3 H4]|]; subst.
        rewrite E in *. by apply Hfr; [|apply H4]. }
      intros j k cj ck [[<- <-]|[Hj1 Hj]]%lookup_insert_Some [[<- <-]|[Hk1 Hk]]%lookup_insert_Some Hne; [done|by apply (Hd k)| |by apply (R4 j k)].
      destruct (Hd j cj Hj) as [E|E]; [|right; congruence]. destruct (decide (clt_nonce_ cj = 0)); [by left|right; congruence].
Qed.

Lemma del_ok i sc sr cl us σ :
  cl !! i = Some sc → op_ok (Spec sr cl us σ) (ODel service i) (RDone service) (Spec sr (delete i cl) us σ).
Proof.
  intros Hl w HR. destruct (rel_lookup sr cl us σ w i sc HR Hl) as (c & Hc & _ & Hi & _).
  eexists. split; [cbn [run_op sp_st]; rewrite Hc, bool_decide_true by apply Hi; done|].
  destruct HR as [R1 R2 R3 R4]. split; cbn [sp_srv sp_clts sp_used rw_clts rw_srv] in *; [done| | |].
  - intros j. destruct (decide (i = j)) as [<-|Hne]; [rewrite !lookup_delete_eq; constructor|]. rewrite !lookup_delete_ne by done. apply R2.
  - intros s j cj Es [_ Hj]%lookup_delete_Some. by apply (R3 s j).
  - intros j k cj ck [_ Hj]%lookup_delete_Some [_ Hk]%lookup_delete_Some. by apply (R4 j k).
Qed.

Lemma start_ok n count sr cl us σ :
  0 ≤ n < 2 ^ 32 → op_ok (Spec sr cl us σ) (OStart service n count) (RDone service) (Spec (Some n) cl us σ).
Proof.
  intros Hn w HR. eexists. split; [done|]. destruct HR as [R1 R2 R3 R4]. split; cbn [sp_srv sp_clts sp_used rw_clts rw_srv] in *; [|done| |done].
  - constructor. split; [done|done|]. intros n' _ _. unfold client_win; simpl. by rewrite !mget_empty.
  - intros s i c [= <-] Hc Hz. unfold client_win; simpl. rewrite !mget_empty. split; [|intros x []%elem_of_nil].
    pose proof (R2 i) as Ri. rewrite Hc in Ri. inversion Ri as [sc ? [H1 H2 H3 H4]|]; subst. rewrite (id_xid _ _ H1). lia.
Qed.

Lemma stop_ok sr cl us σ : op_ok (Spec sr cl us σ) (OStop service) (RDone service) (Spec None cl us σ).
Proof.
  intros w HR. eexists. split; [done|]. destruct HR as [R1 R2 R3 R4]. split; cbn [sp_srv sp_clts sp_used rw_clts rw_srv] in *; [constructor|done| |done].
  done.
Qed.

(** ** bind and call *)
Lemma swrap32_range z : - 2 ^ 31 ≤ s32 z < 2 ^ 31.
Proof. unfold swrap. pose proof (Z.mod_pos_bound (z + 2 ^ (32 - 1)) (2 ^ 32)). lia. Qed.

(** A client's operation that reached the server or not. *)
Lemma rel_ended sr cl us σ σ' w i sc c srv' :
  rel (Spec sr cl us σ) w → cl !! i = Some sc → rw_clts w !! i = Some c → clt_rel us sc c →
  option_Forall2 (λ s s', kept (clt_nonce_ c) s s' ∧ fresh_in (sc_calls sc + 1 + 1) (clt_nonce_ c) s') (rw_srv w) srv' →
  rel (Spec sr (<[i := asked sc]> cl) us σ') (RWorld (<[i := ended (sc_calls sc + 1) c]> (rw_clts w)) srv').
Proof.
  intros HR Hl Hc Hr Hs. pose proof (clt_rel_ended us sc c Hr) as Hr'.
  eapply rel_client; [exact HR|exact Hc|exact Hr'|done| | |exact Hl].
  - pose proof (re_srv _ _ HR) as R1. cbn [sp_srv sp_used] in R1.
    inversion Hs as [s s' [K F] Ea Eb|Ea Eb]; subst; rewrite <- Ea in R1; inversion R1; subst; constructor.
    eapply srv_rel_kept; [done|exact K|apply (cr_used _ _ _ Hr)].
  - intros s' ->. inversion Hs as [s ? [K F] Ea Eb|]; subst. split; [exact F|eauto].
Qed.

Lemma fresh_later k clt s : fresh_in k clt s → fresh_in (k + 1) clt s.
Proof. intros Hf Hn. destruct (Hf Hn) as [Ha Hw]. split; [lia|]. intros x Hx. specialize (Hw x Hx). lia. Qed.

Lemma call_down_ok {A R} (ca : codec A) (cr : codec R) c proc a sc clt us σ :
  clt_rel us sc clt → room sc → (proc =? rpc_bind) = negb (bind_done_ clt) →
  call create_time service ca cr c proc a clt None σ
  = Ret (((timeout_failure, fresh cr), ended (sc_calls sc + 1) clt, None), σ).
Proof.
  intros [H1 H2 _ _] Hroom Hb. unfold room in Hroom.
  eapply call_fails; [|by unfold timeout_failure]. apply call1_down; [done|done|lia].
Qed.

Lemma call_unbound_ok {A R} (ca : codec A) (cr : codec R) c proc a sc clt us srv σ :
  clt_rel us sc clt → (proc =? rpc_bind) = bind_done_ clt →
  call create_time service ca cr c proc a clt srv σ = Ret (((bind_failure, fresh cr), clt, srv), σ).
Proof.
  intros [H1 H2 _ _] Hb. eapply call_fails; [|by unfold bind_failure]. by eapply call1_unbound.
Qed.

Lemma bind_ok c i sc sr cl us σ w clt :
  rel (Spec sr cl us σ) w → cl !! i = Some sc → rw_clts w !! i = Some clt → clt_rel us sc clt → sc_bound sc = None → room sc →
  ∃ w', run_op create_time service procs (OBind service c i) w σ
        = Ret ((RBind service (if sr then 0 else timeout_failure), w'), σ) ∧
        rel (Spec sr (<[i := SClt sr (sc_calls sc + 1)]> cl) us σ) w'.
Proof.
  intros HR Hl Hc Hr Hb Hroom. destruct (cr_idle _ _ _ Hr) as [_ _ Hx _ _ _ Hn _]. pose proof (cr_bound _ _ _ Hr) as Hbd.
  pose proof (cr_calls _ _ _ Hr) as Hk.
  rewrite Hb in Hbd. destruct Hbd as [Hbd Hsn]. unfold run_op. rewrite Hc. destruct sr as [m|].
  - destruct (rel_server m cl us σ w HR) as (s & Es & Hs & En & Er & Ep & Ed). rewrite Es.
    destruct (call_executes create_time service c_int c_int (λ a _, let '(b, r) := rpcbind s a in mret (b, s32 r))
      c rpc_bind 0 clt (sc_calls sc + 1) s 0 (s32 m) σ σ) as (s' & E & K & F);
      [apply Hr|by rewrite Hbd|unfold room in Hroom; lia|done|done|by rewrite Ed|rewrite Ep; set_solver|by left|
       rewrite <- Hx; by apply (re_win _ _ HR s i)|done|done|unfold rpcbind; by rewrite En|lia| |].
    { pose proof (swrap32_range m). split; [apply valid_int; lia|done]. }
    eexists. split; [unfold bind; unfold mbind at 1, st_bind at 1; run E; done|].
    eapply (rel_client (Some m) (Some m) cl us σ σ w i sc); [exact HR|exact Hc| |reflexivity| | |exact Hl].
    + apply (clt_rel_bound us (asked sc)); [by apply clt_rel_ended|apply Hs].
    + constructor. eapply srv_rel_kept; [done|exact K|apply Hr].
    + intros ? [= <-]. split; [exact F|eauto].
  - rewrite (rel_down cl us σ w HR).
    pose proof (call_down_ok c_int c_int c rpc_bind 0 sc clt us σ Hr Hroom) as E. rewrite Hbd in E. specialize (E eq_refl).
    eexists. split; [unfold bind; unfold mbind at 1, st_bind at 1; run E; done|].
    replace (SClt None (sc_calls sc + 1)) with (asked sc) by (unfold asked; by rewrite Hb).
    eapply rel_ended; [exact HR|done|done|done|]. rewrite (rel_down cl us σ w HR). constructor.
Qed.

Lemma call_step c i proc a sr cl us σ w clt ret r clt' srv' σ' :
  rw_clts w !! i = Some clt →
  call create_time service (pd_ca (service proc)) (pd_cr (service proc)) c proc a clt (rw_srv w) σ
  = Ret (((ret, r), clt', srv'), σ') →
  run_op create_time service procs (OCall service c i proc a) w (sp_st (Spec sr cl us σ))
  = Ret ((RCall service proc ret r, RWorld (<[i := clt']> (rw_clts w)) srv'), σ').
Proof. intros Hc E. cbn [run_op sp_st]. rewrite Hc. by run E. Qed.

Lemma not_bind proc : proc ≠ rpc_bind → (proc =? rpc_bind) = false.
Proof. apply Z.eqb_neq. Qed.

(** A call by a bound client while the server is up. *)
Lemma call_up_ok c i proc a sc m n cl us σ w clt :
  rel (Spec (Some n) cl us σ) w → cl !! i = Some sc → rw_clts w !! i = Some clt → clt_rel us sc clt →
  sc_bound sc = Some m → room sc → callable proc a →
  (¬ accepts n m → ∃ w', run_op create_time service procs (OCall service c i proc a) w σ
     = Ret ((RCall service proc oldsrv_failure (fresh (pd_cr (service proc))), w'), σ) ∧
     rel (Spec (Some n) (<[i := asked sc]> cl) us σ) w') ∧
  (∀ b r σ', accepts n m → pd_meth (service proc) a (fresh (pd_cr (service proc))) σ = Ret ((b, r), σ') → 0 ≤ b < 2 ^ 31 →
     fits (pd_cr (service proc)) r →
     ∃ w', run_op create_time service procs (OCall service c i proc a) w σ = Ret ((RCall service proc b r, w'), σ') ∧
       rel (Spec (Some n) (<[i := asked sc]> cl) us σ') w').
Proof.
  intros HR Hl Hc Hr Hb Hroom (Hp & Hnb & Hin & Ha). pose proof (cr_calls _ _ _ Hr) as Hk. unfold room in Hroom.
  pose proof (cr_idle _ _ _ Hr) as Hi. pose proof (cr_bound _ _ _ Hr) as Hbd. rewrite Hb in Hbd. destruct Hbd as [Hbd Hsn].
  destruct (rel_server n cl us σ w HR) as (s & Es & Hs & En & Er & Ep & Ed).
  pose proof (re_win _ _ HR s i clt Es Hc) as Hf. rewrite (id_xid _ _ Hi) in Hf.
  assert ((proc =? rpc_bind) = negb (bind_done_ clt)) as Hbn by (rewrite Hbd; by apply not_bind).
  split.
  - intros Hacc. unfold accepts in Hacc.
    destruct (call_stale create_time service (pd_ca (service proc)) (pd_cr (service proc)) c proc a clt (sc_calls sc + 1) s σ)
      as (s' & E & Hw); [done|done|lia|lia|done|lia|lia|done|]. rewrite <- Es in E.
    eexists. split; [exact (call_step c i proc a (Some n) cl us σ w clt _ _ _ _ _ Hc E)|].
    eapply rel_ended; [exact HR|done|done|done|]. rewrite Es. constructor. split; [by apply kept_same_win|].
    apply fresh_later. apply (fresh_in_win _ _ s); [|done]. by apply (same_win_kept 0).
  - intros b r σ' Hacc Em Hb' Hv.
    destruct (call_executes create_time service (pd_ca (service proc)) (pd_cr (service proc)) (pd_meth (service proc))
      c proc a clt (sc_calls sc + 1) s b r σ σ') as (s' & E & K & F);
      [done|done|lia|lia|done|by rewrite Ed|rewrite Ep; set_solver|rewrite Hsn, En; exact Hacc|done| |done|done|done|done|].
    { unfold handler_of. by rewrite not_bind. }
    rewrite <- Es in E.
    eexists. split; [exact (call_step c i proc a (Some n) cl us σ w clt _ _ _ _ _ Hc E)|].
    eapply rel_ended; [exact HR|done|done|done|]. rewrite Es. by constructor.
Qed.

Lemma step_ok sp o x sp' : spec_step sp o x sp' → op_ok sp o x sp'.
Proof.
  destruct 1 as [n count sr cl us σ Hn|sr cl us σ|i n retrans sr cl us σ Hn Hu|i sc sr cl us σ Hl|c i sc m sr cl us σ Hl Hb|c i sc cl us σ Hl Hb Hroom
    |c i sc m cl us σ Hl Hb Hroom|c i proc a sc sr cl us σ Hl Hb Ha|c i proc a sc m cl us σ Hl Hb Hroom Ha
    |c i proc a sc m n cl us σ Hl Hb Hroom Ha Hacc|c i proc a sc m n cl us σ b r σ' Hl Hb Hroom Ha Hacc Em Hb' Hv].
  - by apply start_ok.
  - by apply stop_ok.
  - by apply client_new_ok.
  - by apply (del_ok i sc).
  - intros w HR. destruct (rel_lookup sr cl us σ w i sc HR Hl) as (clt & Hc & Hr & _). exists w. split; [|done].
    cbn [run_op sp_st]. rewrite Hc. pose proof (cr_bound _ _ _ Hr) as Hbd. rewrite Hb in Hbd.
    pose proof (call_unbound_ok c_int c_int c rpc_bind 0 sc clt us (rw_srv w) σ Hr) as E. rewrite (proj1 Hbd) in E. specialize (E eq_refl).
    unfold bind. unfold mbind at 1, st_bind at 1. run E. cbv beta iota zeta. rewrite <- (world_eta w i clt Hc) at 2. done.
  - intros w HR. destruct (rel_lookup None cl us σ w i sc HR Hl) as (clt & Hc & Hr & _).
    destruct (bind_ok c i sc None cl us σ w clt HR Hl Hc Hr Hb Hroom) as (w' & E & HR'). exists w'. split; [exact E|].
    unfold asked. by rewrite Hb.
  - intros w HR. destruct (rel_lookup (Some m) cl us σ w i sc HR Hl) as (clt & Hc & Hr & _).
    destruct (bind_ok c i sc (Some m) cl us σ w clt HR Hl Hc Hr Hb Hroom) as (w' & E & HR'). by exists w'.
  - intros w HR. destruct (rel_lookup sr cl us σ w i sc HR Hl) as (clt & Hc & Hr & _). exists w. split; [|done].
    pose proof (cr_bound _ _ _ Hr) as Hbd. rewrite Hb in Hbd. destruct Ha as (_ & Hnb & _).
    pose proof (call_unbound_ok (pd_ca (service proc)) (pd_cr (service proc)) c proc a sc clt us (rw_srv w) σ Hr) as E.
    rewrite (proj1 Hbd) in E. specialize (E (not_bind proc Hnb)).
    rewrite (call_step c i proc a sr cl us σ w clt _ _ _ _ _ Hc E). by rewrite (world_eta w i clt Hc).
  - intros w HR. destruct (rel_lookup None cl us σ w i sc HR Hl) as (clt & Hc & Hr & _).
    pose proof (cr_bound _ _ _ Hr) as Hbd. rewrite Hb in Hbd. destruct Ha as (_ & Hnb & _).
    pose proof (call_down_ok (pd_ca (service proc)) (pd_cr (service proc)) c proc a sc clt us σ Hr Hroom) as E.
    rewrite (proj1 Hbd) in E. specialize (E (not_bind proc Hnb)). rewrite <- (rel_down cl us σ w HR) in E at 1.
    eexists. split; [exact (call_step c i proc a None cl us σ w clt _ _ _ _ _ Hc E)|].
    eapply rel_ended; [exact HR|done|done|done|]. rewrite (rel_down cl us σ w HR). constructor.
  - intros w HR. destruct (rel_lookup (Some n) cl us σ w i sc HR Hl) as (clt & Hc & Hr & _).
    destruct (call_up_ok c i proc a sc m n cl us σ w clt HR Hl Hc Hr Hb Hroom Ha) as [E _]. by apply E.
  - intros w HR. destruct (rel_lookup (Some n) cl us σ w i sc HR Hl) as (clt & Hc & Hr & _).
    destruct (call_up_ok c i proc a sc m n cl us σ w clt HR Hl Hc Hr Hb Hroom Ha) as [_ E]. by apply E.
Qed.

Lemma run_ok sp l xs sp' :
  spec_run sp l xs sp' → ∀ w, rel sp w → ∃ w', run_ops create_time service procs l w (sp_st sp) = Ret ((xs, w'), sp_st sp') ∧ rel sp' w'.
Proof.
  induction 1 as [sp|sp1 sp2 sp3 o x l xs Hs _ IH]; intros w HR; [by exists w|].
  destruct (step_ok _ _ _ _ Hs w HR) as (w1 & E1 & R1). destruct (IH w1 R1) as (w2 & E2 & R2).
  exists w2. split; [|done]. cbn [run_ops]. run E1. cbv beta iota. by run E2.
Qed.

(** Before anything was started. *)
Definition spec_init (σ : S) : spec S := Spec None ∅ ∅ σ.
Definition rworld_init : rworld := RWorld ∅ None.

Lemma rel_init σ : rel (spec_init σ) rworld_init.
Proof.
  split; cbn [spec_init rworld_init sp_srv sp_clts sp_used rw_clts rw_srv]; [constructor| |done|].
  - intros i. rewrite !lookup_empty. constructor.
  - intros i j c c' Hi. by rewrite lookup_empty in Hi.
Qed.

(** C8.  Remote calls are local calls: in a session of any clients, calls, binds and
    restarts of the server, every operation returns what the specification says.
    A bound client's call runs the method once on the arguments that were sent and
    returns its status and result; a call before bind and a second bind are
    refused; without a server the call times out; a server that was restarted
    refuses the calls of clients bound to its predecessor, and runs nothing. *)
Theorem sessions_are_local (l : list (rop service)) (xs : list (rout service)) (σ : S) (sp : spec S) :
  spec_run (spec_init σ) l xs sp →
  ∃ w, run_ops create_time service procs l rworld_init σ = Ret ((xs, w), sp_st sp).
Proof. intros Hr. destruct (run_ok _ _ _ _ Hr _ (rel_init σ)) as (w & E & _). by exists w. Qed.
End session.

(** * failure_test of rpc/rpctest.cc *)
Section failure.
Context `{HeapJunk} (create_time : Z → Z * Z).

(** What startserver registers. *)
Definition test_service (proc : Z) : proc_desc unit :=
  if proc =? 22 then Proc (c_pair c_string c_string) c_string handle_22
  else if proc =? 23 then Proc c_int c_int handle_fast
  else if proc =? 24 then Proc c_int c_int handle_slow
  else Proc c_int c_string handle_bigrep.

Definition test_procs : gset Z := {[22; 23; 24; 25]}.

Definition test_op : rop test_service → rworld → ST unit (rout test_service * rworld) := run_op create_time test_service test_procs.

Definition do_op (o : rop test_service) (w : rworld) : ST unit rworld := '(_, w) ← test_op o w; mret w.

Definition do_bind (c i : Z) (w : rworld) : ST unit (Z * rworld) :=
  '(x, w) ← test_op (OBind test_service c i) w;
  match x with RBind _ ret => mret (ret, w) | _ => st_undef end.

(** client->call(22, "hello", " goodbye", rep) *)
Definition do_call (c i : Z) (w : rworld) : ST unit (Z * list Z * rworld) :=
  match rw_clts w !! i with
  | None => st_undef
  | Some clt =>
      '((ret, r), clt, srv) ← call create_time test_service (c_pair c_string c_string) c_string c 22 (hello, goodbye) clt (rw_srv w);
      mret (ret, r, RWorld (<[i := clt]> (rw_clts w)) srv)
  end.

(** failure_test up to its concurrent parts: clients[0] is client 0, client1 is
    client 2; [n1], [n0] are the nonces the new clients draw and [m] the one of
    the new server. *)
Definition failure_test (c : nat → Z) (n1 n0 m : Z) (w : rworld) : ST unit rworld :=
  w ← do_op (OStop test_service) w;
  w ← do_op (ONew test_service 2 n1 true) w;
  '(ret, w) ← do_bind (c 0%nat) 2 w;
  st_lift (VERIFY (ret <? 0));;
  w ← do_op (ODel test_service 2) w;
  w ← do_op (OStart test_service m 0) w;
  '(intret, _, w) ← do_call (c 1%nat) 0 w;
  st_lift (VERIFY (intret =? oldsrv_failure));;
  w ← do_op (ODel test_service 0) w;
  w ← do_op (ONew test_service 0 n0 true) w;
  '(ret, w) ← do_bind (c 2%nat) 0 w;
  st_lift (VERIFY (0 <=? ret));;
  '(ret, w) ← do_bind (c 3%nat) 0 w;
  st_lift (VERIFY (ret <? 0));;
  '(intret, rep, w) ← do_call (c 4%nat) 0 w;
  st_lift (VERIFY (intret =? 0));;
  st_lift (VERIFY (bool_decide (rep = hello ++ goodbye)));;
  mret w.

Lemma do_op_ok o sp sp' w :
  spec_step test_service test_procs sp o (RDone test_service) sp' → rel test_procs sp w →
  ∃ w', do_op o w tt = Ret (w', tt) ∧ rel test_procs sp' w'.
Proof.
  intros Hs HR. destruct (step_ok create_time test_service test_procs _ _ _ _ Hs w HR) as (w' & E & HR').
  destruct (sp_st sp), (sp_st sp'). exists w'. split; [|done]. unfold do_op, test_op. by run E.
Qed.

Lemma do_bind_ok c i ret sp sp' w :
  spec_step test_service test_procs sp (OBind test_service c i) (RBind test_service ret) sp' → rel test_procs sp w →
  ∃ w', do_bind c i w tt = Ret ((ret, w'), tt) ∧ rel test_procs sp' w'.
Proof.
  intros Hs HR. destruct (step_ok create_time test_service test_procs _ _ _ _ Hs w HR) as (w' & E & HR').
  destruct (sp_st sp), (sp_st sp'). exists w'. split; [|done]. unfold do_bind, test_op. by run E.
Qed.

Lemma do_call_ok c i ret r sp sp' w :
  spec_step test_service test_procs sp (OCall test_service c i 22 (hello, goodbye)) (RCall test_service 22 ret r) sp' →
  rel test_procs sp w →
  ∃ w', do_call c i w tt = Ret ((ret, r, w'), tt) ∧ rel test_procs sp' w'.
Proof.
  intros Hs HR. destruct (step_ok create_time test_service test_procs _ _ _ _ Hs w HR) as (w' & E & HR').
  destruct (sp_st sp), (sp_st sp'). exists w'. split; [|done]. unfold run_op in E. unfold do_call.
  destruct (rw_clts w !! i) as [clt|]; [|done].
  apply bind_ret in E as ([[[ret' r'] clt'] srv'] & [] & E & E'). change (pd_ca (test_service 22)) with (c_pair c_string c_string) in E.
  change (pd_cr (test_service 22)) with c_string in E. run E. unfold mret, st_ret in *. cbv beta iota in E'.
  injection E' as -> Er Ew. apply (Eqdep_dec.inj_pair2_eq_dec Z Z.eq_dec) in Er. by subst.
Qed.

Lemma callable_22 : callable test_service test_procs 22 (hello, goodbye).
Proof.
  split; [lia|]. split; [done|]. split; [unfold test_procs; set_solver|].
  split; [|done]. change (valid c_string hello ∧ valid c_string goodbye). by split; apply valid_string.
Qed.

Lemma verify_run {A} (b : bool) (f : unit → ST unit A) s : b = true → (st_lift (VERIFY b) ≫= f) s = f tt s.
Proof. by intros ->. Qed.

(** [stage L w R]: the operation that [L] describes gives the world [w], related by [R]. *)
Tactic Notation "stage" open_constr(L) ident(w) ident(R) :=
  let E := fresh in destruct L as (w & E & R); run E; clear E; cbv beta iota; repeat (rewrite verify_run by done).

(** The failure test passes after every session that bound clients[0]: no client
    binds to a server that is down, the restarted server refuses the client of
    its predecessor, and a new client is bound once and gets its answer. *)
Theorem failure_test_passes (l : list (rop test_service)) (xs : list (rout test_service)) (sp : spec unit)
    (sc : sclt) (old : Z) (c : nat → Z) (n1 n0 m : Z) :
  spec_run test_service test_procs (spec_init tt) l xs sp → sp_clts sp !! 0 = Some sc → sc_bound sc = Some old → room sc →
  old ≠ 0 → old ≠ m → 0 ≤ m < 2 ^ 32 → 0 < n1 < 2 ^ 32 → 0 < n0 < 2 ^ 32 → n1 ∉ sp_used sp → n0 ∉ sp_used sp → n0 ≠ n1 →
  ∃ w w', run_ops create_time test_service test_procs l rworld_init tt = Ret ((xs, w), tt) ∧
    failure_test c n1 n0 m w tt = Ret (w', tt).
Proof.
  intros Hl Hc Hb Hroom Hz Hne Hm Hn1 Hn0 Hu1 Hu0 Hn.
  destruct (run_ok create_time test_service test_procs _ _ _ _ Hl _ (rel_init _ _)) as (w & E & HR).
  destruct sp as [sr cl us []]. cbn [sp_clts sp_used sp_st] in *. exists w.
  assert (∃ w', failure_test c n1 n0 m w tt = Ret (w', tt)) as [w' E']; [|by exists w']. unfold failure_test. clear E.
  pose proof callable_22 as Ha. assert (n0 ∉ {[n1]} ∪ us) as Hu2 by set_solver.
  stage (do_op_ok _ _ _ w (SpStop test_service test_procs sr cl us tt) HR) w1 R1.
  stage (do_op_ok _ _ _ w1 (SpNew test_service test_procs 2 n1 true None cl us tt ltac:(lia) (λ _ _, Hu1)) R1) w2 R2.
  stage (do_bind_ok (c 0%nat) 2 _ _ _ w2
    (SpBindDown test_service test_procs _ 2 (SClt None 0) _ _ tt (lookup_insert_eq _ _ _) eq_refl ltac:(by unfold room; simpl; lia)) R2) w3 R3.
  stage (do_op_ok _ _ _ w3 (SpDel test_service test_procs 2 _ None _ _ tt (lookup_insert_eq _ _ _)) R3) w4 R4.
  stage (do_op_ok _ _ _ w4 (SpStart test_service test_procs m 0 None _ _ tt Hm) R4) w5 R5.
  match type of R5 with rel _ (Spec _ ?x _ _) _ => assert (x !! 0 = Some sc) as L0 by (by rewrite lookup_delete_ne, !lookup_insert_ne) end.
  stage (do_call_ok (c 1%nat) 0 _ _ _ _ w5 (SpCallStale test_service test_procs _ 0 22 _ sc old m _ _ tt L0 Hb Hroom Ha ltac:(unfold accepts; lia)) R5) w6 R6.
  stage (do_op_ok _ _ _ w6 (SpDel test_service test_procs 0 _ _ _ _ tt (lookup_insert_eq _ _ _)) R6) w7 R7.
  stage (do_op_ok _ _ _ w7 (SpNew test_service test_procs 0 n0 true _ _ _ tt ltac:(lia) (λ _ _, Hu2)) R7) w8 R8.
  stage (do_bind_ok (c 2%nat) 0 _ _ _ w8 (SpBind test_service test_procs _ 0 (SClt None 0) m _ _ tt (lookup_insert_eq _ _ _) eq_refl ltac:(by unfold room; simpl; lia)) R8) w9 R9.
  stage (do_bind_ok (c 3%nat) 0 _ _ _ w9 (SpBindTwice test_service test_procs _ 0 (SClt (Some m) (0 + 1)) m _ _ _ tt (lookup_insert_eq _ _ _) eq_refl) R9) w10 R10.
  stage (do_call_ok (c 4%nat) 0 0 (hello ++ goodbye) _ _ w10
    (SpCall test_service test_procs _ 0 22 _ (SClt (Some m) (0 + 1)) m m _ _ tt 0 (hello ++ goodbye) tt (lookup_insert_eq _ _ _) eq_refl
       ltac:(by unfold room; simpl; lia) Ha (or_intror eq_refl) eq_refl ltac:(lia) (conj (valid_string (hello ++ goodbye) eq_refl) eq_refl)) R10) w11 R11.
  by exists w11.
Qed.
End failure.

(** ** A session: a server, a client that calls it, and a restart *)
#[local] Instance session_junk : HeapJunk := λ _, 85.

Definition ex_open : list (rop test_service) :=
  [OStart test_service 77 0; ONew test_service 0 99 true; OBind test_service 3 0].

Definition ex_bound : spec unit := Spec (Some 77) {[0 := SClt (Some 77) 1]} {[99]} tt.

Lemma ex_open_run l xs sp :
  spec_run test_service test_procs ex_bound l xs sp →
  spec_run test_service test_procs (spec_init tt) (ex_open ++ l)
    (RDone test_service :: RDone test_service :: RBind test_service 0 :: xs) sp.
Proof.
  intros Hl. eapply SpCons; [by apply SpStart|]. eapply SpCons; [by apply SpNew|].
  eapply SpCons; [by eapply SpBind; [apply lookup_insert_eq|done|done]|].
  rewrite insert_insert_eq. cbn [sc_calls]. rewrite union_empty_r_L. exact Hl.
Qed.

Definition ex_calls : list (rop test_service) :=
  [OCall test_service 3 0 22 (hello, goodbye); OStop test_service; OStart test_service 78 0; OCall test_service 4 0 22 (hello, goodbye)].

Lemma sessions_are_local_witness :
  ∃ w, run_ops ex_ct test_service test_procs (ex_open ++ ex_calls) rworld_init tt
  = Ret (([RDone test_service; RDone test_service; RBind test_service 0; RCall test_service 22 0 (hello ++ goodbye); RDone test_service;
           RDone test_service; RCall test_service 22 oldsrv_failure []], w), tt).
Proof.
  eapply (sessions_are_local ex_ct test_service test_procs (ex_open ++ ex_calls) _ tt
    (Spec (Some 78) (<[0 := SClt (Some 77) 3]> (<[0 := SClt (Some 77) 2]> {[0 := SClt (Some 77) 1]})) {[99]} tt)).
  apply ex_open_run. eapply SpCons.
  { apply (SpCall test_service test_procs 3 0 22 (hello, goodbye) (SClt (Some 77) 1) 77 77 _ _ tt 0 (hello ++ goodbye) tt);
      [done|done|done|apply callable_22|by right|done|done|]. by split; [apply valid_string|]. }
  eapply SpCons; [apply SpStop|]. eapply SpCons; [by apply SpStart|]. eapply SpCons; [|apply SpNil].
  apply (SpCallStale test_service test_procs 4 0 22 (hello, goodbye) (SClt (Some 77) 2) 77 78);
    [apply lookup_insert_eq|done|done|apply callable_22|by intros [?|?]].
Defined.

Lemma failure_test_passes_witness :
  ∃ w w', run_ops ex_ct test_service test_procs (ex_open ++ []) rworld_init tt
          = Ret (([RDone test_service; RDone test_service; RBind test_service 0], w), tt) ∧
    failure_test ex_ct (λ k, Z.of_nat k) 100 101 78 w tt = Ret (w', tt).
Proof.
  apply (failure_test_passes ex_ct (ex_open ++ []) [RDone test_service; RDone test_service; RBind test_service 0] ex_bound
    (SClt (Some 77) 1) 77 (λ k, Z.of_nat k) 100 101 78); try done.
  apply ex_open_run. apply SpNil.
Defined.
