(* ===== verification/ExtentServer.v ===== *)
(** The extent server, extent_server.cc: blocks of 512 bytes in the file
    "disk", read and written by block number. *)
From S2P Require Import Prelude Marshall.
Local Open Scope Z_scope.

(** ** extent_protocol and the block size *)
Definition OK : Z := 0.
Definition RPCERR : Z := 1.
Definition NOENT : Z := 2.
Definition IOERR : Z := 3.
Definition BSIZE : Z := 512.

(** ** The file *)

(** lseek(fd, id * BSIZE, SEEK_SET): the product is an unsigned 64-bit number
    and the argument a signed one; a negative offset is refused and leaves the
    position unchanged. *)
Definition lseek (pos id : Z) : Z :=
  let off := s64 (u64 (id * BSIZE)) in if off <? 0 then pos else off.

(** Reading at a position gives what the file has there; writing past the end
    fills the hole with zeros. *)
Definition file_read (pos n : Z) (f : list Z) : list Z :=
  slice (Z.to_nat pos) (Z.to_nat n) f.

Definition file_write (pos : Z) (bs f : list Z) : list Z :=
  match bs with
  | [] => f
  | _ => splice (Z.to_nat pos) bs (f ++ replicate (Z.to_nat pos - length f) 0)
  end.

(** ** The operations *)

(** [w] is what write() returned: -1, or the number of bytes written.  The
    string is handed to write() with the length BSIZE whatever its size is. *)
Definition extent_server_put (w : Z) (id : Z) (buf f : list Z) : res (Z * list Z) :=
  if Z.of_nat (length buf) <? BSIZE then Undef
  else
    let f := if w <? 0 then f
             else file_write (lseek 0 id) (take (Z.to_nat w) (take (Z.to_nat BSIZE) buf)) f in
    let ret := if negb (u64 w =? BSIZE) then IOERR else OK in
    let ret := if u64 w =? 0 then NOENT else ret in
    Ret (ret, f).

(** [while (BSIZE != cnt)] seek and read. *)
Fixpoint get_loop (fuel : nat) (pos id : Z) (f : list Z) : res (list Z) :=
  match fuel with
  | O => OutOfFuel
  | S fuel =>
      let pos := lseek pos id in
      let b := file_read pos BSIZE f in
      let cnt := Z.of_nat (length b) in
      if cnt =? BSIZE then Ret b else get_loop fuel (pos + cnt) id f
  end.

Definition extent_server_get (fuel : nat) (id : Z) (f : list Z) : res (Z * list Z) :=
  b ← get_loop fuel 0 id f; Ret (OK, b).

Definition extent_server_getattr (id : Z) : Z * attr := (OK, Attr 0 0 0 0).

Definition extent_server_remove (id : Z) : Z := OK.

(** The constructor truncates the file. *)
Definition extent_server_new : list Z := [].

(** ** The abstract contents: a block is there once the file reaches its end *)
Definition file_view (f : list Z) (id : Z) : option (list Z) :=
  if (id + 1) * BSIZE <=? Z.of_nat (length f)
  then Some (slice (Z.to_nat (id * BSIZE)) (Z.to_nat BSIZE) f) else None.

(** Block numbers whose byte offset fits in an off_t. *)
Definition id_ok (id : Z) : Prop := 0 ≤ id < 2 ^ 54.

(** * Lemmas *)
Lemma lseek_ok pos id : id_ok id → lseek pos id = id * BSIZE.
Proof.
  unfold id_ok, lseek, BSIZE. intros Hid.
  rewrite uwrap_small by lia.
  rewrite swrap_small; [|change (2 ^ (64 - 1)) with (2 ^ 63); lia|lia].
  destruct (Z.ltb_spec (id * 512) 0); [lia|done].
Qed.

Lemma file_view_read id f :
  id_ok id → (Z.of_nat (length (file_read (id * BSIZE) BSIZE f)) =? BSIZE)
             = bool_decide (is_Some (file_view f id)) ∧
  (is_Some (file_view f id) → file_view f id = Some (file_read (id * BSIZE) BSIZE f)).
Proof.
  unfold id_ok, file_view, file_read, slice, BSIZE. intros Hid.
  destruct (Z.leb_spec ((id + 1) * 512) (Z.of_nat (length f))) as [H|H].
  - rewrite length_take, length_drop, bool_decide_true by by eexists.
    split; [|done]. destruct (Z.eqb_spec (Z.of_nat (Z.to_nat 512 `min` (length f - Z.to_nat (id * 512)))) 512); lia.
  - rewrite length_take, length_drop, bool_decide_false by by intros [? ?].
    split; [|by intros [? ?]].
    destruct (Z.eqb_spec (Z.of_nat (Z.to_nat 512 `min` (length f - Z.to_nat (id * 512)))) 512); [lia|done].
Qed.

Lemma get_loop_view fuel pos id f :
  id_ok id → get_loop fuel pos id f
  = match fuel with O => OutOfFuel | _ =>
      match file_view f id with Some b => Ret b | None => OutOfFuel end end.
Proof.
  intros Hid. destruct (file_view_read id f Hid) as [E1 E2].
  revert pos. induction fuel as [|fuel IH]; intros pos; [done|]. simpl.
  rewrite lseek_ok, E1 by done. destruct (file_view f id) as [b|] eqn:E.
  - rewrite bool_decide_true by by eexists.
    assert (Some b = Some (file_read (id * BSIZE) BSIZE f)) as [= <-] by (apply E2; eauto). done.
  - rewrite bool_decide_false by by intros [? ?]. rewrite IH. by destruct fuel.
Qed.

Lemma file_write_view id b f :
  id_ok id → length b = 512%nat →
  let f' := file_write (id * BSIZE) b f in
  file_view f' id = Some b ∧
  ∀ id' c, id_ok id' → id' ≠ id → file_view f id' = Some c → file_view f' id' = Some c.
Proof.
  unfold id_ok, file_write, file_view, BSIZE. intros Hid Hb.
  destruct b as [|b0 bt]; [done|]. set (b := b0 :: bt) in *.
  set (off := Z.to_nat (id * 512)). set (p := f ++ replicate (off - length f) 0).
  assert (off ≤ length p)%nat as Hp
    by (unfold p; rewrite length_app, length_replicate; lia).
  assert (length (splice off b p) = max (length p) (off + 512)) as HL.
  { unfold splice. rewrite !length_app, length_take, length_drop, Hb. lia. }
  assert (length f ≤ length p)%nat as Hfp by (unfold p; rewrite length_app; lia).
  simpl. split.
  - rewrite HL. destruct (Z.leb_spec ((id + 1) * 512) (Z.of_nat (max (length p) (off + 512)))); [|lia].
    f_equal. fold off. replace (Z.to_nat 512) with (length b) by (rewrite Hb; done).
    by apply slice_splice_eq.
  - intros id' c Hid' Hne. rewrite HL.
    destruct (Z.leb_spec ((id' + 1) * 512) (Z.of_nat (length f))) as [Hin|]; [|done].
    destruct (Z.leb_spec ((id' + 1) * 512) (Z.of_nat (max (length p) (off + 512)))); [|lia].
    intros [= <-]. f_equal.
    assert (slice (Z.to_nat (id' * 512)) (Z.to_nat 512) p
            = slice (Z.to_nat (id' * 512)) (Z.to_nat 512) f) as <-.
    { unfold slice, p. rewrite drop_app_le by lia. rewrite take_app_le; [done|].
      rewrite length_drop. lia. }
    destruct (decide (id' < id)).
    + apply slice_splice_before; lia.
    + apply slice_splice_after; rewrite ?Hb; lia.
Qed.

Lemma put_full id buf f :
  id_ok id → (512 ≤ length buf)%nat →
  extent_server_put BSIZE id buf f
  = Ret (OK, file_write (id * BSIZE) (take 512 buf) f).
Proof.
  intros Hid Hb. unfold extent_server_put, BSIZE at 1 2 3 4.
  destruct (Z.ltb_spec (Z.of_nat (length buf)) 512); [lia|].
  rewrite lseek_ok by done. change (Z.to_nat 512) with 512%nat.
  rewrite take_take. change (512 `min` 512)%nat with 512%nat. reflexivity.
Qed.

(** * Theorems *)

(** Blocks are independent cells: a block that was written in full is
    read back as written, at once, and every other block that could be read
    still reads the same. *)
Theorem extent_put_get (id : Z) (buf f : list Z) :
  id_ok id → (512 ≤ length buf)%nat →
  ∃ f', extent_server_put BSIZE id buf f = Ret (OK, f') ∧
    (∀ n, extent_server_get (S n) id f' = Ret (OK, take 512 buf)) ∧
    (∀ id' n c, id_ok id' → id' ≠ id →
       extent_server_get n id' f = Ret (OK, c) → extent_server_get n id' f' = Ret (OK, c)).
Proof.
  intros Hid Hb. rewrite put_full by done. eexists. split; [done|].
  destruct (file_write_view id (take 512 buf) f Hid) as [V1 V2];
    [rewrite length_take; lia|].
  unfold extent_server_get. split.
  - intros n. rewrite get_loop_view by done. by rewrite V1.
  - intros id' n c Hid' Hne. rewrite !get_loop_view by done. destruct n; [done|].
    destruct (file_view f id') as [b|] eqn:E; [|done]. intros [= <-]. by rewrite (V2 id' b).
Qed.

(** Reading returns exactly for the blocks the file holds in full; for
    any other block the loop [while (BSIZE != cnt)] never ends. *)
Theorem extent_get_returns_iff (id : Z) (f : list Z) :
  id_ok id →
  ((∃ n b, extent_server_get n id f = Ret (OK, b)) ↔ (id + 1) * BSIZE ≤ Z.of_nat (length f)) ∧
  (Z.of_nat (length f) < (id + 1) * BSIZE → ∀ n, extent_server_get n id f = OutOfFuel).
Proof.
  intros Hid. unfold extent_server_get.
  assert (∀ n, get_loop n 0 id f = _) as E by (intros n; by apply get_loop_view).
  unfold file_view in E. destruct (Z.leb_spec ((id + 1) * BSIZE) (Z.of_nat (length f))) as [H|H].
  - split; [|lia]. split; [done|]. intros _. exists 1%nat. eexists. by rewrite E.
  - split.
    + split; [|lia]. intros (n & b & Hn). rewrite E in Hn. by destruct n.
    + intros _ n. rewrite E. by destruct n.
Qed.

(** Block numbers count modulo 2^55: the byte offset is computed in 64
    bits, so block [id + 2^55] is block [id], for writes and for reads. *)
Theorem extent_ids_alias (w id : Z) (n : nat) (buf f : list Z) :
  extent_server_put w (id + 2 ^ 55) buf f = extent_server_put w id buf f ∧
  extent_server_get n (id + 2 ^ 55) f = extent_server_get n id f.
Proof.
  assert (∀ pos, lseek pos (id + 2 ^ 55) = lseek pos id) as E.
  { intros pos. unfold lseek, BSIZE, uwrap.
    replace ((id + 2 ^ 55) * 512) with (id * 512 + 1 * 2 ^ 64) by lia.
    by rewrite Z_mod_plus_full. }
  split; [unfold extent_server_put; by rewrite E|].
  unfold extent_server_get. assert (∀ pos, get_loop n pos (id + 2 ^ 55) f = get_loop n pos id f) as ->;
    [|done].
  induction n as [|n IH]; intros pos; [done|]. simpl. rewrite E. by destruct (_ =? _).
Qed.

Lemma extent_put_get_witness :
  ∃ f', extent_server_put BSIZE 1 (replicate 512 7) [] = Ret (OK, f') ∧
    length f' = 1024%nat ∧ extent_server_get 1 1 f' = Ret (OK, replicate 512 7).
Proof.
  destruct (extent_put_get 1 (replicate 512 7) []) as (f' & E & G & _);
    [unfold id_ok; lia|rewrite length_replicate; lia|].
  exists f'. split; [exact E|]. split.
  - vm_compute in E. injection E as <-. reflexivity.
  - exact (G 0%nat).
Defined.

Lemma extent_get_returns_iff_witness :
  (∃ n b, extent_server_get n 0 (replicate 600 0) = Ret (OK, b)) ∧
  extent_server_get 100 1 (replicate 600 0) = OutOfFuel.
Proof.
  split.
  - apply (extent_get_returns_iff 0 (replicate 600 0)); [unfold id_ok; lia|vm_compute; discriminate].
  - apply (extent_get_returns_iff 1 (replicate 600 0)); [unfold id_ok; lia|reflexivity].
Defined.
