(* ===== verification/ExtentCache.v ===== *)
(** The clients of the extent server: [extent_client] (extent_client.cc), which
    calls the server for every block, and [extent_client_cache]
    (extent_client_cache.cc), which keeps blocks and writes them back on flush.
    [BlockStore] is what both promise to the file system above. *)
From S2P Require Import Prelude Marshall ExtentServer.
Local Open Scope Z_scope.

(** ** A remote call: answered by the server's handler, or failed with a
    negative code, the handler having run or not. *)
Inductive rpc_result := Answered | Failed (e : Z) (executed : bool).

(** ** extent_client: the state is the server's file *)

(** get copies BSIZE bytes out of the answer; a failed call leaves the answer
    empty, and the copy then reads outside it. *)
Definition extent_client_get (n : rpc_result) (eid : Z) (f : list Z) : res (Z * list Z) :=
  match n with
  | Answered =>
      '(ret, b) ← extent_server_get 1 eid f;
      if Z.of_nat (length b) <? BSIZE then Undef else Ret (ret, take (Z.to_nat BSIZE) b)
  | Failed _ _ => Undef
  end.

Definition extent_client_put (n : rpc_result) (w eid : Z) (buf f : list Z) : res (Z * list Z) :=
  if Z.of_nat (length buf) <? BSIZE then Undef
  else let b := take (Z.to_nat BSIZE) buf in
       match n with
       | Answered => extent_server_put w eid b f
       | Failed e true => '(_, f) ← extent_server_put w eid b f; Ret (e, f)
       | Failed e false => Ret (e, f)
       end.

Definition extent_client_getattr (n : rpc_result) (eid : Z) (a : attr) : Z * attr :=
  match n with Answered => extent_server_getattr eid | Failed e _ => (e, a) end.

Definition extent_client_remove (eid : Z) : Z := OK.
Definition extent_client_flush (eid : Z) : Z := OK.

Arguments extent_client_get : simpl never.
Arguments extent_client_put : simpl never.

(** ** extent_client_cache *)
Record Cache := MkCache {
  data_cache : list Z; attr_cache : attr;
  is_data_cached : bool; is_attr_cached : bool; is_data_dirty : bool }.

(** What fresh memory holds: the constructor of [Cache] sets two flags only. *)
Record garbage := Garbage { g_data : list Z; g_attr : attr; g_dirty : bool }.

Definition Cache_new (g : garbage) : Cache :=
  MkCache (g_data g) (g_attr g) false false (g_dirty g).

Record ecache := ECache { cache_map : gmap Z Cache; disk : list Z }.

Definition ecache_new (f : list Z) : ecache := ECache ∅ f.

Definition cache_getattr (g : garbage) (n : rpc_result) (eid : Z) (a : attr) (s : ecache)
    : Z * attr * ecache :=
  let cache := mget (Cache_new g) (cache_map s) eid in
  if is_attr_cached cache
  then (OK, attr_cache cache, ECache (<[eid := cache]> (cache_map s)) (disk s))
  else
    let '(ret, a) := extent_client_getattr n eid a in
    (ret, a, ECache (<[eid := MkCache (data_cache cache) a (is_data_cached cache) true
                                (is_data_dirty cache)]> (cache_map s)) (disk s)).

Definition cache_get (g : garbage) (n : rpc_result) (eid : Z) (s : ecache)
    : res (Z * list Z * ecache) :=
  let cache := mget (Cache_new g) (cache_map s) eid in
  if is_data_cached cache
  then Ret (OK, data_cache cache, ECache (<[eid := cache]> (cache_map s)) (disk s))
  else
    '(ret, b) ← extent_client_get n eid (disk s);
    Ret (ret, b, ECache (<[eid := MkCache b (attr_cache cache) true (is_attr_cached cache) false]>
                           (cache_map s)) (disk s)).

Definition cache_put (g : garbage) (eid : Z) (buf : list Z) (s : ecache) : res (Z * ecache) :=
  let cache := mget (Cache_new g) (cache_map s) eid in
  if Z.of_nat (length buf) <? BSIZE then Undef
  else Ret (OK, ECache (<[eid := MkCache (take (Z.to_nat BSIZE) buf) (attr_cache cache) true
                                   (is_attr_cached cache) true]> (cache_map s)) (disk s)).

Definition cache_remove (n : rpc_result) (eid : Z) (s : ecache) : Z * ecache :=
  (match n with Answered => extent_server_remove eid | Failed e _ => e end,
   ECache (delete eid (cache_map s)) (disk s)).

Definition cache_flush (g : garbage) (n : rpc_result) (w eid : Z) (s : ecache)
    : res (Z * ecache) :=
  let cache := mget (Cache_new g) (cache_map s) eid in
  if negb (is_data_dirty cache) then Ret (OK, ECache (delete eid (cache_map s)) (disk s))
  else
    '(ret, f) ← extent_client_put n w eid (data_cache cache) (disk s);
    Ret (ret, ECache (delete eid (cache_map s)) f).

(** ** The abstract contents and the invariant *)
Definition cache_view (s : ecache) (eid : Z) : option (list Z) :=
  match cache_map s !! eid with
  | Some c => if is_data_cached c then Some (data_cache c) else file_view (disk s) eid
  | None => file_view (disk s) eid
  end.

(** A block: 512 bytes. *)
Definition is_block (b : list Z) : Prop := length b = 512%nat ∧ Forall is_byte b.

(** Cached data are blocks, and a clean one is what the server holds. *)
Record cache_wf (s : ecache) : Prop := {
  cw_disk : Forall is_byte (disk s);
  cw_data : ∀ eid c, cache_map s !! eid = Some c → is_data_cached c = true →
    id_ok eid ∧ is_block (data_cache c) ∧
    (is_data_dirty c = false → file_view (disk s) eid = Some (data_cache c)) }.

(** ** The interface: what a block store promises to its client *)
Class BlockStore (S : Type) := {
  bs_get : Z → S → res (Z * list Z * S);
  bs_put : Z → list Z → S → res (Z * S);
  bs_view : S → Z → option (list Z);
  bs_wf : S → Prop }.

Class BlockStoreLaws (S : Type) `{BlockStore S} := {
  bs_view_law : ∀ s id b, bs_wf s → id_ok id → bs_view s id = Some b → is_block b;
  bs_get_law : ∀ s id b, bs_wf s → id_ok id → bs_view s id = Some b →
    ∃ s', bs_get id s = Ret (OK, b, s') ∧ bs_wf s' ∧ ∀ i, bs_view s' i = bs_view s i;
  bs_put_law : ∀ s id b, bs_wf s → id_ok id → is_block b →
    ∃ s', bs_put id b s = Ret (OK, s') ∧ bs_wf s' ∧ bs_view s' id = Some b ∧
      ∀ i c, id_ok i → i ≠ id → bs_view s i = Some c → bs_view s' i = Some c }.

(** * Lemmas *)
Lemma file_view_block f id b :
  Forall is_byte f → id_ok id → file_view f id = Some b → is_block b.
Proof.
  unfold id_ok, file_view, BSIZE, is_block. intros Hf Hid.
  destruct (Z.leb_spec ((id + 1) * 512) (Z.of_nat (length f))); [|done]. intros [= <-].
  split; [apply length_slice; lia|by apply slice_Forall].
Qed.

Lemma file_write_bytes pos b f :
  Forall is_byte f → Forall is_byte b → Forall is_byte (file_write pos b f).
Proof.
  intros Hf Hb. unfold file_write. destruct b; [done|]. apply splice_Forall; [|done].
  apply Forall_app. split; [done|]. apply Forall_replicate. unfold is_byte; lia.
Qed.

Lemma client_get_view eid f b :
  Forall is_byte f → id_ok eid → file_view f eid = Some b →
  extent_client_get Answered eid f = Ret (OK, b).
Proof.
  intros Hf Hid Hv. destruct (file_view_block f eid b Hf Hid Hv) as [Hl _].
  unfold extent_client_get, extent_server_get. rewrite get_loop_view, Hv by done. simpl.
  rewrite Hl. simpl. rewrite take_ge; [done|]. rewrite Hl. done.
Qed.

Lemma client_put_write eid b f :
  id_ok eid → is_block b →
  extent_client_put Answered BSIZE eid b f = Ret (OK, file_write (eid * BSIZE) b f).
Proof.
  intros Hid [Hl _]. unfold extent_client_put. rewrite Hl. simpl.
  rewrite put_full by (rewrite ?length_take, ?Hl; first [done|lia]).
  rewrite (take_ge b) by (rewrite Hl; done). rewrite take_ge by (rewrite Hl; done). done.
Qed.

(** extent_client is a block store. *)
#[export] Instance file_store : BlockStore (list Z) := {
  bs_get id f := '(ret, b) ← extent_client_get Answered id f; Ret (ret, b, f);
  bs_put id b f := extent_client_put Answered BSIZE id b f;
  bs_view := file_view;
  bs_wf := Forall is_byte }.

#[export] Instance file_store_laws : BlockStoreLaws (list Z).
Proof.
  split; simpl.
  - intros f id b. apply file_view_block.
  - intros f id b Hf Hid Hv. exists f. by rewrite (client_get_view id f b).
  - intros f id b Hf Hid Hb. rewrite client_put_write by done.
    destruct (file_write_view id b f Hid) as [V1 V2]; [apply Hb|].
    eexists. split; [done|]. split; [apply file_write_bytes; [done|apply Hb]|]. auto.
Qed.

#[export] Instance id_ok_dec id : Decision (id_ok id).
Proof. unfold id_ok. apply _. Defined.
#[export] Instance is_block_dec b : Decision (is_block b).
Proof. unfold is_block, is_byte. apply _. Defined.

(** The reference store: a map of blocks.  It answers for the blocks it has and
    takes full blocks at numbers that have a place on the disk, no more. *)
#[export] Instance map_store : BlockStore (gmap Z (list Z)) := {
  bs_get id m := match m !! id with Some b => Ret (OK, b, m) | None => Undef end;
  bs_put id b m := if decide (id_ok id ∧ is_block b) then Ret (OK, <[id := b]> m) else Undef;
  bs_view m id := m !! id;
  bs_wf m := map_Forall (λ id b, id_ok id ∧ is_block b) m }.

#[export] Instance map_store_laws : BlockStoreLaws (gmap Z (list Z)).
Proof.
  split; simpl.
  - intros m id b Hm _ Hl. by destruct (Hm _ _ Hl).
  - intros m id b Hm _ Hl. exists m. by rewrite Hl.
  - intros m id b Hm Hid Hb. rewrite decide_True by done. eexists. split; [done|].
    split; [by apply map_Forall_insert_2|]. split; [apply lookup_insert_eq|].
    intros i c _ Hne Hl. by rewrite lookup_insert_ne.
Qed.

(** * The cache *)
Section cache.
Context (g : garbage).

Lemma cache_view_mget s eid :
  cache_view s eid = let c := mget (Cache_new g) (cache_map s) eid in
    if is_data_cached c then Some (data_cache c) else file_view (disk s) eid.
Proof. unfold cache_view, mget. by destruct (cache_map s !! eid). Qed.

Lemma cache_wf_mget s eid :
  cache_wf s → let c := mget (Cache_new g) (cache_map s) eid in
  is_data_cached c = true → id_ok eid ∧ is_block (data_cache c) ∧
    (is_data_dirty c = false → file_view (disk s) eid = Some (data_cache c)).
Proof.
  intros [_ H]. unfold mget. destruct (cache_map s !! eid) as [c|] eqn:E; [|done].
  simpl. by apply H.
Qed.

(** Replacing one entry by one that is well formed. *)
Lemma cache_wf_insert s eid c :
  cache_wf s →
  (is_data_cached c = true → id_ok eid ∧ is_block (data_cache c) ∧
     (is_data_dirty c = false → file_view (disk s) eid = Some (data_cache c))) →
  cache_wf (ECache (<[eid := c]> (cache_map s)) (disk s)).
Proof.
  intros [Hd Hw] Hc. split; [done|]. simpl. intros e c'.
  rewrite lookup_insert_Some. intros [[<- <-]|[_ ?]]; eauto.
Qed.

Lemma cache_view_insert s eid c i :
  cache_view (ECache (<[eid := c]> (cache_map s)) (disk s)) i
  = if decide (i = eid)
    then if is_data_cached c then Some (data_cache c) else file_view (disk s) i
    else cache_view s i.
Proof.
  unfold cache_view. simpl. case_decide as E.
  - subst. by rewrite lookup_insert_eq.
  - by rewrite lookup_insert_ne.
Qed.

Lemma cache_get_spec s eid b :
  cache_wf s → id_ok eid → cache_view s eid = Some b →
  ∃ s', cache_get g Answered eid s = Ret (OK, b, s') ∧ cache_wf s' ∧
    (∀ i, cache_view s' i = cache_view s i) ∧ disk s' = disk s.
Proof.
  intros Hw Hid Hv. pose proof (cache_wf_mget s eid Hw) as Hc. simpl in Hc.
  rewrite cache_view_mget in Hv. simpl in Hv. unfold cache_get.
  set (c := mget (Cache_new g) (cache_map s) eid) in *.
  destruct (is_data_cached c) eqn:Ec.
  - simplify_eq. eexists. split; [done|].
    split; [apply cache_wf_insert; [done|intros _; by apply Hc]|].
    split; [|done]. intros i. rewrite cache_view_insert, Ec. case_decide as Ei; [|done].
    subst i. rewrite cache_view_mget. simpl. fold c. by rewrite Ec.
  - rewrite (client_get_view eid (disk s) b); [|apply Hw|done|done]. simpl.
    eexists. split; [done|]. split.
    + apply cache_wf_insert; [done|]. simpl. intros _. split; [done|]. split; [|done].
      by apply (file_view_block (disk s) eid); [apply Hw| |].
    + split; [|done]. intros i. rewrite cache_view_insert. simpl. case_decide as Ei; [|done].
      subst i. rewrite cache_view_mget. simpl. fold c. by rewrite Ec.
Qed.

Lemma cache_put_spec s eid b :
  cache_wf s → id_ok eid → is_block b →
  ∃ s', cache_put g eid b s = Ret (OK, s') ∧ cache_wf s' ∧ disk s' = disk s ∧
    ∀ i, cache_view s' i = if decide (i = eid) then Some b else cache_view s i.
Proof.
  intros Hw Hid Hb. unfold cache_put. destruct Hb as [Hl Hb]. rewrite Hl. simpl.
  rewrite take_ge by (rewrite Hl; done). eexists. split; [done|]. split.
  - apply cache_wf_insert; done.
  - split; [done|]. intros i. rewrite cache_view_insert. done.
Qed.

(** Flushing writes the block back if its entry says dirty, and drops the entry;
    the other blocks keep their contents.  A fresh entry may say dirty. *)
Lemma cache_flush_spec s eid :
  cache_wf s → id_ok eid → is_block (data_cache (mget (Cache_new g) (cache_map s) eid)) →
  ∃ s', cache_flush g Answered BSIZE eid s = Ret (OK, s') ∧ cache_wf s' ∧
    cache_map s' = delete eid (cache_map s) ∧
    (∀ i b, id_ok i → i ≠ eid → cache_view s i = Some b → cache_view s' i = Some b) ∧
    (∀ i b, id_ok i → i ≠ eid → file_view (disk s) i = Some b → file_view (disk s') i = Some b) ∧
    (is_data_cached (mget (Cache_new g) (cache_map s) eid) = true → file_view (disk s') eid = cache_view s eid).
Proof.
  intros Hw Hid Hb. unfold cache_flush. pose proof (cache_wf_mget s eid Hw) as Hc.
  pose proof (cache_view_mget s eid) as Hv. simpl in Hc, Hv.
  set (c := mget (Cache_new g) (cache_map s) eid) in *.
  assert (∀ f, Forall is_byte f →
    (∀ i b, id_ok i → i ≠ eid → file_view (disk s) i = Some b → file_view f i = Some b) →
    cache_wf (ECache (delete eid (cache_map s)) f) ∧
    ∀ i b, id_ok i → i ≠ eid → cache_view s i = Some b → cache_view (ECache (delete eid (cache_map s)) f) i = Some b)
    as Hrest.
  { intros f Hf Hoth. split; [split; [done|]|]; simpl.
    - intros e c' [Hne Hl]%lookup_delete_Some Hcd. destruct (cw_data _ Hw e c' Hl Hcd) as (Hide & ? & Hcl).
      split_and!; [done..|]. intros Hd. apply Hoth; auto.
    - intros i b Hi Hne. unfold cache_view. simpl. rewrite lookup_delete_ne by done.
      destruct (cache_map s !! i) as [c'|]; [destruct (is_data_cached c'); [done|]|]; auto. }
  destruct (is_data_dirty c) eqn:Ed; simpl.
  - rewrite client_put_write by done. simpl. eexists. split; [done|].
    destruct (file_write_view eid (data_cache c) (disk s) Hid) as [V1 V2]; [apply Hb|].
    destruct (Hrest (file_write (eid * BSIZE) (data_cache c) (disk s))) as [W1 W2];
      [apply file_write_bytes; [apply Hw|apply Hb]|exact V2|].
    split_and!; [done..|]. intros Hcd. simpl. by rewrite V1, Hv, Hcd.
  - eexists. split; [done|]. destruct (Hrest (disk s)) as [W1 W2]; [apply Hw|auto|].
    split_and!; [done|done|done|auto|]. intros Hcd. simpl. rewrite Hv, Hcd. by apply Hc.
Qed.

(** extent_client_cache is a block store. *)
Definition cache_store : BlockStore ecache := {|
  bs_get := cache_get g Answered;
  bs_put := cache_put g;
  bs_view := cache_view;
  bs_wf := cache_wf |}.

Lemma cache_store_laws : @BlockStoreLaws ecache cache_store.
Proof.
  split; simpl.
  - intros s id b Hw Hid Hv. pose proof (cache_wf_mget s id Hw) as Hc.
    rewrite cache_view_mget in Hv. simpl in *. destruct (is_data_cached _).
    + simplify_eq. by apply Hc.
    + eapply file_view_block; [apply Hw| |]; done.
  - intros s id b Hw Hid Hv.
    destruct (cache_get_spec s id b Hw Hid Hv) as (s' & E & Hw' & Hv' & _). eauto.
  - intros s id b Hw Hid Hb. destruct (cache_put_spec s id b Hw Hid Hb) as (s' & E & Hw' & _ & Hv').
    exists s'. split; [done|]. split; [done|]. split; [by rewrite Hv', decide_True|].
    intros i c _ Hne Hi. by rewrite Hv', decide_False.
Qed.
End cache.

(** ** Sequences of operations, on the cache and on the abstract store *)
Inductive bop :=
  | BGet (id : Z)
  | BPut (id : Z) (b : list Z)
  | BFlush (id : Z)
  | BRemove (id : Z)
  | BAttr (id : Z).

Definition bop_ok (o : bop) : Prop :=
  match o with
  | BGet id | BFlush id | BRemove id | BAttr id => id_ok id
  | BPut id b => id_ok id ∧ is_block b
  end.

(** One operation on the cache: its status, and the block that a read gives. *)
Definition cache_op (g : garbage) (o : bop) (s : ecache) : res (Z * list Z * ecache) :=
  match o with
  | BGet id => cache_get g Answered id s
  | BPut id b => '(ret, s) ← cache_put g id b s; Ret (ret, [], s)
  | BFlush id => '(ret, s) ← cache_flush g Answered BSIZE id s; Ret (ret, [], s)
  | BRemove id => let '(ret, s) := cache_remove Answered id s in Ret (ret, [], s)
  | BAttr id => let '(ret, _, s) := cache_getattr g Answered id (g_attr g) s in Ret (ret, [], s)
  end.

(** A sequence of them; at each, fresh memory holds something else. *)
Fixpoint run_cache (ops : list (garbage * bop)) (s : ecache) : res (list (Z * list Z) * ecache) :=
  match ops with
  | [] => Ret ([], s)
  | (g, o) :: ops => '(ret, b, s) ← cache_op g o s; '(out, s) ← run_cache ops s; Ret ((ret, b) :: out, s)
  end.

(** The abstract store: the blocks whose contents are known, and the blocks in
    use, which were read or written since they were last flushed or removed.  A
    block that is flushed while in use keeps its contents.  The contents of a
    block that is removed, or flushed while not in use, are unknown. *)
Definition bstore : Type := gmap Z (list Z) * gset Z.

Definition store_op (o : bop) (st : bstore) : option (list Z * bstore) :=
  let '(m, used) := st in
  match o with
  | BGet id => b ← m !! id; Some (b, (m, {[id]} ∪ used))
  | BPut id b => Some ([], (<[id := b]> m, {[id]} ∪ used))
  | BFlush id => Some ([], (if decide (id ∈ used) then m else delete id m, used ∖ {[id]}))
  | BRemove id => Some ([], (delete id m, used ∖ {[id]}))
  | BAttr _ => Some ([], (m, used))
  end.

Fixpoint run_store (ops : list bop) (st : bstore) : option (list (Z * list Z)) :=
  match ops with
  | [] => Some []
  | o :: ops => '(b, st) ← store_op o st; out ← run_store ops st; Some ((OK, b) :: out)
  end.

(** The cache implements the abstract store: known blocks are what it shows, the
    blocks in use are cached, and every entry has room for a block. *)
Record implements (s : ecache) (st : bstore) : Prop := {
  im_wf : cache_wf s;
  im_room : ∀ id c, cache_map s !! id = Some c → is_block (data_cache c);
  im_known : ∀ id b, st.1 !! id = Some b → id_ok id ∧ cache_view s id = Some b;
  im_used : ∀ id, id ∈ st.2 → ∃ c, cache_map s !! id = Some c ∧ is_data_cached c = true }.

Lemma in_use_add (used : gset Z) (id i : Z) (P : Prop) :
  P → i ∈ {[id]} ∪ used → i = id ∧ P ∨ i ≠ id ∧ i ∈ used.
Proof. intros HP. destruct (decide (i = id)); set_solver. Qed.

Section simulation.
Context (g : garbage) (Hg : is_block (g_data g)).

Lemma room_fresh s st id : implements s st → is_block (data_cache (mget (Cache_new g) (cache_map s) id)).
Proof.
  intros [_ Hr _ _]. unfold mget. destruct (cache_map s !! id) as [c|] eqn:E; simpl; [by apply (Hr id)|done].
Qed.

(** An entry is replaced and the disk stays. *)
Lemma implements_insert s st id c m' used' :
  implements s st → id_ok id → is_block (data_cache c) →
  (is_data_cached c = true → is_data_dirty c = false → file_view (disk s) id = Some (data_cache c)) →
  (∀ i b, m' !! i = Some b → i ≠ id → st.1 !! i = Some b) →
  (∀ b, m' !! id = Some b → (if is_data_cached c then Some (data_cache c) else file_view (disk s) id) = Some b) →
  (∀ i, i ∈ used' → i = id ∧ is_data_cached c = true ∨ i ≠ id ∧ i ∈ st.2) →
  implements (ECache (<[id := c]> (cache_map s)) (disk s)) (m', used').
Proof.
  intros [Hw Hr Hk Hu] Hid Hb Hcl Hm Hm' Hus. split; simpl.
  - apply cache_wf_insert; [done|]. intros Hc. split_and!; [done..|]. by apply Hcl.
  - intros i c'. rewrite lookup_insert_Some. intros [[_ <-]|[_ ?]]; [done|eauto].
  - intros i b Hi. rewrite cache_view_insert. case_decide as E.
    + subst i. split; [done|]. by apply Hm'.
    + apply Hk. by apply Hm.
  - intros i [[-> Hc]|[Hne Hi]]%Hus; [rewrite lookup_insert_eq; eauto|]. rewrite lookup_insert_ne by done. auto.
Qed.

Lemma sim_get s m used id b :
  implements s (m, used) → id_ok id → m !! id = Some b →
  ∃ s', cache_get g Answered id s = Ret (OK, b, s') ∧ implements s' (m, {[id]} ∪ used).
Proof.
  intros HI Hid Hb. pose proof HI as [Hw Hr Hk Hu]. destruct (Hk id b Hb) as [_ Hv].
  destruct (cache_get_spec g s id b Hw Hid Hv) as (s' & E & Hw' & Hv' & _). exists s'. split; [done|].
  unfold cache_get in E. rewrite (cache_view_mget g) in Hv. simpl in Hv.
  pose proof (room_fresh s _ id HI) as Hrm. pose proof (cache_wf_mget g s id Hw) as Hc. simpl in Hc.
  set (c := mget (Cache_new g) (cache_map s) id) in *. destruct (is_data_cached c) eqn:Ec.
  - injection E as _ <-. apply (implements_insert s (m, used)); try done.
    + intros _. by apply Hc.
    + intros b' Hb'. rewrite Ec. congruence.
    + intros i. by apply in_use_add.
  - destruct (extent_client_get Answered id (disk s)) as [[ret b']| | | |]; try done. simpl in E.
    injection E as _ -> <-. apply (implements_insert s (m, used)); cbn [data_cache is_data_cached is_data_dirty]; try done.
    + eapply file_view_block; [apply Hw| |]; done.
    + intros b' Hb'. congruence.
    + intros i. by apply in_use_add.
Qed.

Lemma sim_put s m used id b :
  implements s (m, used) → id_ok id → is_block b →
  ∃ s', cache_put g id b s = Ret (OK, s') ∧ implements s' (<[id := b]> m, {[id]} ∪ used).
Proof.
  intros HI Hid Hb. unfold cache_put. pose proof Hb as [Hl _]. rewrite Hl. simpl.
  rewrite take_ge by (rewrite Hl; done). eexists. split; [done|].
  eapply implements_insert; simpl; try done.
  - intros i b' Hi Hne. by rewrite lookup_insert_ne in Hi.
  - intros b'. by rewrite lookup_insert_eq.
  - intros i. by apply in_use_add.
Qed.

Lemma sim_flush s m used id :
  implements s (m, used) → id_ok id →
  ∃ s', cache_flush g Answered BSIZE id s = Ret (OK, s') ∧
    implements s' (if decide (id ∈ used) then m else delete id m, used ∖ {[id]}).
Proof.
  intros HI Hid. pose proof HI as [Hw Hr Hk Hu].
  destruct (cache_flush_spec g s id Hw Hid (room_fresh s _ id HI)) as (s' & E & Hw' & Ecm & Hv & _ & Hown).
  exists s'. split; [done|]. split; simpl; [done| | |].
  - intros i c. rewrite Ecm. intros [_ ?]%lookup_delete_Some. eauto.
  - intros i b Hi. assert (m !! i = Some b ∧ (i = id → id ∈ used)) as [Hm Hin].
    { case_decide; [done|]. apply lookup_delete_Some in Hi as [? ?]. by split. }
    destruct (Hk i b Hm) as [Hio Hvi]. split; [done|]. destruct (decide (i = id)) as [->|Hne]; [|auto].
    destruct (Hu id (Hin eq_refl)) as (c & Hc & Hcd). unfold cache_view at 1. rewrite Ecm, lookup_delete_eq.
    rewrite Hown; [done|]. unfold mget. by rewrite Hc.
  - intros i [Hi Hne]%elem_of_difference. rewrite Ecm, lookup_delete_ne by (clear -Hne; set_solver). auto.
Qed.

Lemma sim_remove s m used id :
  implements s (m, used) → implements (cache_remove Answered id s).2 (delete id m, used ∖ {[id]}).
Proof.
  intros [Hw Hr Hk Hu]. unfold cache_remove. simpl. split; simpl.
  - destruct Hw as [Hd Hw]. split; [done|]. simpl. intros i c [_ ?]%lookup_delete_Some. eauto.
  - intros i c [_ ?]%lookup_delete_Some. eauto.
  - intros i b [Hne Hi]%lookup_delete_Some. destruct (Hk i b Hi) as [Hio Hv]. split; [done|].
    unfold cache_view in *. simpl. by rewrite lookup_delete_ne.
  - intros i [Hi Hne]%elem_of_difference. rewrite lookup_delete_ne by (clear -Hne; set_solver). auto.
Qed.

Lemma sim_attr s m used id a :
  implements s (m, used) → id_ok id →
  ∃ a' s', cache_getattr g Answered id a s = (OK, a', s') ∧ implements s' (m, used).
Proof.
  intros HI Hid. pose proof HI as [Hw Hr Hk Hu]. unfold cache_getattr. pose proof (room_fresh s _ id HI) as Hrm.
  pose proof (cache_wf_mget g s id Hw) as Hc. pose proof (cache_view_mget g s id) as Hv. simpl in *.
  assert (id ∈ used → is_data_cached (mget (Cache_new g) (cache_map s) id) = true) as Hin.
  { intros (c & Hc' & Hcd)%Hu. unfold mget. by rewrite Hc'. }
  set (c := mget (Cache_new g) (cache_map s) id) in *.
  assert (∀ c', data_cache c' = data_cache c → is_data_cached c' = is_data_cached c →
    is_data_dirty c' = is_data_dirty c → implements (ECache (<[id := c']> (cache_map s)) (disk s)) (m, used)) as H.
  { intros c' E1 E2 E3. eapply implements_insert; try done; rewrite ?E1, ?E2, ?E3; try done.
    - intros Hcd. by apply Hc.
    - intros b Hb. destruct (Hk id b Hb) as [_ Hvb]. by rewrite <- Hvb, Hv.
    - intros i Hi. destruct (decide (i = id)) as [->|]; [left; auto|by right]. }
  destruct (is_attr_cached c); simpl; eexists _, _; (split; [done|]); by apply H.
Qed.

Lemma sim_op o s st b st' :
  implements s st → bop_ok o → store_op o st = Some (b, st') →
  ∃ s', cache_op g o s = Ret (OK, b, s') ∧ implements s' st'.
Proof.
  destruct st as [m used]. intros HI Ho. destruct o as [id|id d|id|id|id]; simpl.
  - destruct (m !! id) as [b'|] eqn:Eb; [|done]. intros [= <- <-]. by apply sim_get.
  - intros [= <- <-]. destruct Ho as [Hid Hb]. destruct (sim_put s m used id d HI Hid Hb) as (s' & -> & ?). eauto.
  - intros [= <- <-]. destruct (sim_flush s m used id HI Ho) as (s' & -> & ?). eauto.
  - intros [= <- <-]. eexists. split; [done|]. by apply (sim_remove s m used id).
  - intros [= <- <-]. destruct (sim_attr s m used id (g_attr g) HI Ho) as (a & s' & -> & ?). simpl. eauto.
Qed.
End simulation.

(** * Theorems *)

(** C4.  The cache is transparent: any sequence of reads, writes, flushes,
    removals and attribute queries answers OK and gives, through the cache, the
    blocks that an abstract store gives, whatever is cached or written back when
    and whatever the memory of a new entry holds.  A flush keeps the contents of a
    block that was read or written since it was last flushed or removed.  What a
    removed block holds is unknown, since remove drops the dirty copy and the
    server keeps its old one; so is what a block holds that is flushed while not
    in use, since the dirty flag of its new entry is never set. *)
Theorem cache_refines_store (ops : list (garbage * bop)) (m : gmap Z (list Z)) (used : gset Z) (s : ecache)
    (out : list (Z * list Z)) :
  Forall (λ o, is_block (g_data o.1) ∧ bop_ok o.2) ops → implements s (m, used) →
  run_store ops.*2 (m, used) = Some out →
  ∃ s' st', run_cache ops s = Ret (out, s') ∧ implements s' st'.
Proof.
  intros Hok. generalize (m, used). clear m used. intros st. revert st s out.
  induction Hok as [|[g o] ops [Hg Ho] _ IH]; intros st s out HI.
  { intros [= <-]. by exists s, st. }
  rewrite fmap_cons. cbn [snd run_store run_cache]. destruct (store_op o st) as [[b st1]|] eqn:E; [|done].
  cbn [mbind option_bind]. destruct (run_store ops.*2 st1) as [out1|] eqn:Er; [|done]. simpl. intros [= <-].
  destruct (sim_op g Hg o s st b st1 HI Ho E) as (s1 & -> & HI1). simpl.
  destruct (IH st1 s1 out1 HI1 Er) as (s' & st' & -> & ?). simpl. eauto.
Qed.

(** Flushing writes back: after a write and a flush the server holds the
    block, the cache no longer does, and the other blocks are untouched. *)
Theorem flush_writes_back (g : garbage) (eid : Z) (b : list Z) (s : ecache) :
  cache_wf s → id_ok eid → is_block b →
  ∃ s1 s2, cache_put g eid b s = Ret (OK, s1) ∧
    cache_flush g Answered BSIZE eid s1 = Ret (OK, s2) ∧
    file_view (disk s2) eid = Some b ∧ cache_map s2 !! eid = None ∧
    (∀ i c, id_ok i → i ≠ eid → file_view (disk s) i = Some c → file_view (disk s2) i = Some c).
Proof.
  intros Hw Hid Hb. destruct (cache_put_spec g s eid b Hw Hid Hb) as (s1 & E & Hw1 & Ed & Hv1).
  assert (∃ c, cache_map s1 !! eid = Some c ∧ is_data_cached c = true) as (c & Hl & Hc).
  { unfold cache_put in E. case_match; [done|]. simplify_eq. simpl. rewrite lookup_insert_eq. eauto. }
  assert (mget (Cache_new g) (cache_map s1) eid = c) as Em by (unfold mget; by rewrite Hl).
  destruct (cache_flush_spec g s1 eid Hw1 Hid) as (s2 & E2 & _ & Ecm & _ & Hoth & Hv).
  { rewrite Em. by apply (cw_data _ Hw1 eid c). }
  exists s1, s2. split; [done|]. split; [done|]. split; [rewrite Hv by (by rewrite Em); by rewrite Hv1, decide_True|].
  split; [rewrite Ecm; apply lookup_delete_eq|]. by rewrite <- Ed.
Qed.

(** A flush can write garbage: [Cache()] leaves [is_data_dirty] unset, and
    flushing a block that was never read nor written stores whatever memory
    held whenever the unset flag reads as true. *)
Theorem flush_uncached_writes_garbage (g : garbage) (eid : Z) (s : ecache) :
  g_dirty g = true → is_block (g_data g) → id_ok eid → cache_map s !! eid = None →
  ∃ s', cache_flush g Answered BSIZE eid s = Ret (OK, s') ∧
    file_view (disk s') eid = Some (g_data g).
Proof.
  intros Hd Hb Hid Hn. unfold cache_flush, mget. rewrite Hn. simpl. rewrite Hd. simpl.
  rewrite client_put_write by done. simpl. eexists. split; [done|]. simpl.
  by destruct (file_write_view eid (g_data g) (disk s) Hid (proj1 Hb)) as [? _].
Qed.

(** A flush whose remote call fails loses the block: the error code is
    returned but the dirty copy is dropped from the cache all the same, and the
    server still has the old contents. *)
Theorem failed_flush_loses_block (g : garbage) (eid w e : Z) (c : Cache) (s : ecache) :
  cache_map s !! eid = Some c → is_data_dirty c = true → is_block (data_cache c) →
  ∃ s', cache_flush g (Failed e false) w eid s = Ret (e, s') ∧
    cache_view s' eid = file_view (disk s) eid ∧ disk s' = disk s.
Proof.
  intros Hl Hd [Hb _]. unfold cache_flush, mget. rewrite Hl. simpl. rewrite Hd. simpl.
  unfold extent_client_put. rewrite Hb. simpl. eexists. split; [done|]. split; [|done].
  unfold cache_view. simpl. by rewrite lookup_delete_eq.
Qed.

(** ** Concrete runs *)
Definition ex_g (d : bool) : garbage := Garbage (replicate 512 170) (Attr 0 0 0 0) d.
Definition ex_b (x : Z) : list Z := replicate 512 x.
Definition ex_cache : ecache := ecache_new (ex_b 1 ++ ex_b 2).

Lemma ex_b_block x : is_byte x → is_block (ex_b x).
Proof. intros. split; [apply length_replicate|by apply Forall_replicate]. Qed.

Lemma ex_cache_wf : cache_wf ex_cache.
Proof.
  split; [|by intros ? ?]. change (disk ex_cache) with (ex_b 1 ++ ex_b 2). apply Forall_app.
  split; apply Forall_replicate; unfold is_byte; lia.
Qed.

Lemma ex_implements : implements ex_cache ({[0 := ex_b 1; 1 := ex_b 2]}, ∅).
Proof.
  split; simpl; [exact ex_cache_wf|by intros ? ?| |set_solver].
  intros id b. rewrite !lookup_insert_Some.
  intros [[<- <-]|[_ [<- <-]%lookup_singleton_Some]]; (split; [unfold id_ok; lia|vm_compute; reflexivity]).
Qed.

(** Block 3 is flushed while not in use and its memory says dirty; block 0 is
    removed and written again. *)
Definition ex_bops : list (garbage * bop) :=
  [(ex_g true, BGet 1); (ex_g true, BPut 1 (ex_b 5)); (ex_g true, BAttr 0); (ex_g true, BFlush 1);
   (ex_g false, BGet 1); (ex_g true, BFlush 3); (ex_g true, BRemove 0); (ex_g true, BPut 0 (ex_b 6));
   (ex_g true, BGet 0)].

Lemma ex_bops_ok : Forall (λ o : garbage * bop, is_block (g_data o.1) ∧ bop_ok o.2) ex_bops.
Proof.
  assert (∀ d, is_block (g_data (ex_g d))) as Hg by (intros d; apply ex_b_block; unfold is_byte; lia).
  repeat (apply Forall_cons; split; [split; [apply Hg|cbn [snd bop_ok]]|]); try apply Forall_nil_2;
    try (unfold id_ok; lia); (split; [unfold id_ok; lia|apply ex_b_block; unfold is_byte; lia]).
Qed.

Lemma cache_refines_store_witness :
  ∃ s', run_cache ex_bops ex_cache
    = Ret ([(OK, ex_b 2); (OK, []); (OK, []); (OK, []); (OK, ex_b 5); (OK, []); (OK, []); (OK, []); (OK, ex_b 6)], s').
Proof.
  destruct (cache_refines_store ex_bops {[0 := ex_b 1; 1 := ex_b 2]} ∅ ex_cache
    [(OK, ex_b 2); (OK, []); (OK, []); (OK, []); (OK, ex_b 5); (OK, []); (OK, []); (OK, []); (OK, ex_b 6)])
    as (s' & _ & E & _).
  - exact ex_bops_ok.
  - exact ex_implements.
  - vm_compute. reflexivity.
  - exists s'. exact E.
Defined.

Lemma flush_writes_back_witness :
  ∃ s1 s2, cache_put (ex_g true) 1 (ex_b 5) ex_cache = Ret (OK, s1) ∧
    cache_flush (ex_g true) Answered BSIZE 1 s1 = Ret (OK, s2) ∧ file_view (disk s2) 1 = Some (ex_b 5).
Proof.
  destruct (flush_writes_back (ex_g true) 1 (ex_b 5) ex_cache) as (s1 & s2 & E1 & E2 & V & _);
    [exact ex_cache_wf|unfold id_ok; lia|apply ex_b_block; unfold is_byte; lia|].
  exists s1, s2. auto.
Defined.

Lemma flush_uncached_writes_garbage_witness :
  ∃ s', cache_flush (ex_g true) Answered BSIZE 1 ex_cache = Ret (OK, s') ∧
    file_view (disk s') 1 = Some (ex_b 170).
Proof.
  apply (flush_uncached_writes_garbage (ex_g true) 1 ex_cache);
    [reflexivity|apply ex_b_block; unfold is_byte; lia|unfold id_ok; lia|reflexivity].
Defined.

Lemma failed_flush_loses_block_witness :
  let s := ECache {[1 := MkCache (ex_b 5) (Attr 0 0 0 0) true false true]} (ex_b 1 ++ ex_b 2) in
  ∃ s', cache_flush (ex_g false) (Failed (-1) false) BSIZE 1 s = Ret (-1, s') ∧
    cache_view s' 1 = Some (ex_b 2).
Proof.
  intros s.
  destruct (failed_flush_loses_block (ex_g false) 1 BSIZE (-1)
    (MkCache (ex_b 5) (Attr 0 0 0 0) true false true) s) as (s' & E & V & _);
    [reflexivity|reflexivity|apply ex_b_block; unfold is_byte; lia|].
  exists s'. split; [exact E|]. rewrite V. vm_compute. reflexivity.
Defined.
