(* ===== verification/LockServer.v ===== *)
(** The lock servers: the plain one of lock_server.cc, which keeps waiting
    clients inside the acquire call, and the one of lock_server_cache.cc, which
    lets clients cache locks and asks for them back. *)
From S2P Require Import Prelude.
Local Open Scope Z_scope.

(** ** lock_protocol *)
Definition lk_OK : Z := 0.
Definition lk_RETRY : Z := 1.
Definition lk_NOENT : Z := 3.

(** ** class lock_server *)
Record lock_server := LockServer {
  lock_status : gmap Z bool; lock_times : gmap Z Z }.

Definition lock_server_new : lock_server := LockServer ∅ ∅.

Definition lock_server_stat (lid : Z) (s : lock_server) : Z * Z * lock_server :=
  let r := mget 0 (lock_times s) lid in
  (lk_OK, r, LockServer (lock_status s) (<[lid := r]> (lock_times s))).

(** [None]: the thread waits on the condition variable and looks again when it
    is woken. *)
Definition lock_server_acquire (lid : Z) (s : lock_server) : option (Z * lock_server) :=
  if mget false (lock_status s) lid then None
  else Some (lk_OK, LockServer (<[lid := true]> (lock_status s))
                      (<[lid := s32 (mget 0 (lock_times s) lid + 1)]> (lock_times s))).

Definition lock_server_release (lid : Z) (s : lock_server) : Z * lock_server :=
  match lock_status s !! lid with
  | None => (lk_NOENT, s)
  | Some false => (lk_NOENT, s)
  | Some true => (lk_OK, LockServer (<[lid := false]> (lock_status s)) (lock_times s))
  end.

(** ** class lock_server_cache *)

(** The maps of the server, gathered per lock.  Client ids are strings of the
    form host:port; the model numbers them in the order of the strings, which
    is the order in which std::set visits them.  [owner = None] is "". *)
Record slock := SLock {
  sl_locked : bool; sl_revoked : bool; sl_owner : option Z; sl_waiters : list Z }.

Record lserver := LServer { ls_locks : gmap Z slock; nacquire : Z }.

Definition lock_server_cache_new (n : Z) : lserver := LServer ∅ n.

Definition slock_new : slock := SLock false false None [].

(** std::set<std::string>::insert and erase. *)
Fixpoint waiter_insert (id : Z) (ws : list Z) : list Z :=
  match ws with
  | [] => [id]
  | w :: ws' => if id <? w then id :: ws
                else if id =? w then ws else w :: waiter_insert id ws'
  end.

Definition waiter_erase (id : Z) (ws : list Z) : list Z := filter (λ w, w ≠ id) ws.

(** acquire: the return value, and whether the owner has to be asked to give
    the lock back. *)
Definition server_acquire (lid id : Z) (s : lserver) : Z * bool * lserver :=
  let l := mget slock_new (ls_locks s) lid in
  let put l := LServer (<[lid := l]> (ls_locks s)) (s32 (nacquire s + 1)) in
  if negb (sl_locked l) then
    (lk_OK, false, put (SLock true false (Some id) (waiter_erase id (sl_waiters l))))
  else if decide (sl_owner l = Some id) then
    (lk_RETRY, false,
     put (SLock (sl_locked l) (sl_revoked l) (sl_owner l) (waiter_insert id (sl_waiters l))))
  else if sl_revoked l then
    (lk_RETRY, false,
     put (SLock (sl_locked l) (sl_revoked l) (sl_owner l) (waiter_insert id (sl_waiters l))))
  else
    (lk_RETRY, true,
     put (SLock (sl_locked l) true (sl_owner l) (waiter_insert id (sl_waiters l)))).

(** The destination of the revoke call, read after the mutex was given up; [bound]
    says whether safebind gave a client for the address.  An empty address cannot
    be bound.  Without a client the server stops. *)
Definition revoke_target (bound : bool) (lid : Z) (s : lserver) : res Z :=
  match sl_owner (mget slock_new (ls_locks s) lid) with
  | Some d => if bound then Ret d else VerifyFailed
  | None => VerifyFailed
  end.

(** The destination of a retry call in the loop of release, in the same way. *)
Definition retry_target (bound : bool) (w : Z) : res Z := if bound then Ret w else VerifyFailed.

(** release up to its loop: the new state and the waiters that are told to retry,
    two at most. *)
Definition server_release (lid id : Z) (s : lserver) : res (Z * list Z * lserver) :=
  match ls_locks s !! lid with
  | None => VerifyFailed
  | Some l =>
      Ret (lk_OK, take 2 (sl_waiters l),
           LServer (<[lid := SLock false false None (sl_waiters l)]> (ls_locks s)) (nacquire s))
  end.

Definition server_stat (lid : Z) (s : lserver) : Z * Z := (lk_OK, nacquire s).

(** * The plain server: grants and releases alternate *)
Inductive lop := LAcquire (lid : Z) | LRelease (lid : Z).

(** A history: the operations that completed with OK, in order. *)
Inductive lhist : lock_server → list lop → lock_server → Prop :=
  | LhNil s : lhist s [] s
  | LhAcq lid s s1 h s2 :
      lock_server_acquire lid s = Some (lk_OK, s1) → lhist s1 h s2 →
      lhist s (LAcquire lid :: h) s2
  | LhRel lid s s1 h s2 :
      lock_server_release lid s = (lk_OK, s1) → lhist s1 h s2 →
      lhist s (LRelease lid :: h) s2.

Definition of_lid (lid : Z) (o : lop) : bool :=
  match o with LAcquire l | LRelease l => l =? lid end.

(** Acquire and release in strict alternation, starting free or held. *)
Fixpoint alternates (held : bool) (h : list lop) : bool :=
  match h with
  | [] => true
  | LAcquire _ :: h => negb held && alternates true h
  | LRelease _ :: h => held && alternates false h
  end.

Lemma lhist_alternates lid s h s' :
  lhist s h s' → alternates (mget false (lock_status s) lid) (filter (λ o, of_lid lid o = true) h) = true.
Proof.
  induction 1 as [s|l s s1 h s2 E _ IH|l s s1 h s2 E _ IH]; [done| |].
  - unfold lock_server_acquire in E. destruct (mget false (lock_status s) l) eqn:El; [done|].
    injection E as <-. simpl in IH. rewrite filter_cons. simpl.
    destruct (Z.eqb_spec l lid) as [->|Hne].
    + rewrite decide_True by done. simpl. rewrite El. by rewrite mget_insert_eq in IH.
    + rewrite decide_False by done. by rewrite mget_insert_ne in IH.
  - unfold lock_server_release in E. destruct (lock_status s !! l) as [[]|] eqn:El; [|done|done].
    injection E as <-. simpl in IH. rewrite filter_cons. simpl.
    destruct (Z.eqb_spec l lid) as [->|Hne].
    + rewrite decide_True by done. simpl. rewrite mget_insert_eq in IH.
      unfold mget at 1. by rewrite El.
    + rewrite decide_False by done. by rewrite mget_insert_ne in IH.
Qed.

(** * Theorems *)

(** The plain server serialises: of every lock, the acquires and releases
    that succeed alternate strictly, starting with an acquire; and an acquire
    waits only while the lock is held. *)
Theorem lock_server_serialises (lid : Z) (h : list lop) (s : lock_server) :
  lhist lock_server_new h s →
  alternates false (filter (λ o, of_lid lid o = true) h) = true ∧
  (lock_server_acquire lid s = None ↔ (lock_server_release lid s).1 = lk_OK).
Proof.
  intros H. split; [exact (lhist_alternates lid _ _ _ H)|].
  unfold lock_server_acquire, lock_server_release, mget.
  by destruct (lock_status s !! lid) as [[]|].
Qed.

Lemma lock_server_serialises_witness :
  ∃ s, lhist lock_server_new [LAcquire 1; LAcquire 2; LRelease 1; LAcquire 1] s ∧
    (lock_server_acquire 1 s = None ↔ (lock_server_release 1 s).1 = lk_OK).
Proof.
  assert (∃ s, lhist lock_server_new [LAcquire 1; LAcquire 2; LRelease 1; LAcquire 1] s) as [s H].
  { eexists. eapply LhAcq; [vm_compute; reflexivity|]. eapply LhAcq; [vm_compute; reflexivity|].
    eapply LhRel; [vm_compute; reflexivity|]. eapply LhAcq; [vm_compute; reflexivity|]. apply LhNil. }
  exists s. split; [exact H|]. exact (proj2 (lock_server_serialises 1 _ _ H)).
Defined.
