(* ===== verification/LockStub.v ===== *)
(** The remote calls of the lock clients: the stubs of lock_client.cc, the calls
    of lock_client_cache.cc, and the handlers that lock_smain.cc registers.

    A handler is modelled up to the method of the server it runs, so that the
    theorems hold for every method of its type. *)
From S2P Require Import Prelude Marshall RpcStub LockServer.
Local Open Scope Z_scope.

(** rpc_numbers of lock_protocol.h *)
Definition acquire_proc : Z := 28673.
Definition release_proc : Z := 28674.
Definition stat_proc : Z := 28675.

Section stubs.
Context `{HeapJunk}.

(** lock_client::stat, acquire and release send cl->id(), an unsigned int, and
    the lock id. *)
Definition lock_client_req (id lid : Z) : marshall := call_req (c_pair c_uint c_ull) (id, lid).

(** lock_client::stat, once the call returned [ret] and [r]. *)
Definition lock_client_stat_end (ret r : Z) : res Z := VERIFY (ret =? lk_OK);; Ret r.

(** lock_client_cache sends the lock id and the address it can be called at. *)
Definition lock_client_cache_req (lid : Z) (id : list Z) : marshall :=
  call_req (c_pair c_ull c_string) (lid, id).

(** lock_smain.cc: the handlers of the caching server, and (switched off there)
    those of the plain one. *)
Definition smain_stat {S} (meth : Z → Z → ST S (Z * Z)) := h_fn c_ull c_int meth.
Definition smain_acquire {S} (meth : Z * list Z → Z → ST S (Z * Z)) := h_fn (c_pair c_ull c_string) c_int meth.
Definition smain_plain {S} (meth : Z * Z → Z → ST S (Z * Z)) := h_fn (c_pair c_int c_ull) c_int meth.

(** The packet of a request. *)
Definition request_pdu (h : req_header) (m : marshall) : list Z := wire_pdu (pack_req_header h m).

(** * The bytes *)

Lemma high_word lid : 0 ≤ lid < 2 ^ 64 → 0 ≤ lid ≫ 32 < 2 ^ 32.
Proof.
  intros. rewrite Z.shiftr_div_pow2 by lia. split; [apply Z.div_pos; lia|].
  apply Z.div_lt_upper_bound; lia.
Qed.

(** The lock id that the first eight bytes of a request of lock_client are. *)
Definition shifted_lid (id lid : Z) : Z := id * 2 ^ 32 + lid ≫ 32.

Lemma shifted_lid_enc id lid :
  0 ≤ id < 2 ^ 32 → 0 ≤ lid < 2 ^ 64 →
  valid c_ull (shifted_lid id lid) ∧
  enc (c_pair c_uint c_ull) (id, lid) = enc c_ull (shifted_lid id lid) ++ be4 (u32 lid).
Proof.
  intros Hi Hl. pose proof (high_word lid Hl) as Hh. unfold shifted_lid. split; [simpl; lia|].
  set (x := id * 2 ^ 32 + lid ≫ 32).
  change (be4 id ++ (be4 (u32 (lid ≫ 32)) ++ be4 (u32 lid))
          = (be4 (u32 (x ≫ 32)) ++ be4 (u32 x)) ++ be4 (u32 lid)).
  rewrite app_assoc, !be4_u32. do 2 f_equal; [f_equal|].
  - unfold x. rewrite (Z.shiftr_div_pow2 (_ + _)) by lia. rewrite Z.div_add_l, (Z.div_small (lid ≫ 32)) by lia. lia.
  - rewrite <- (be4_u32 x), <- (be4_u32 (lid ≫ 32)). f_equal. unfold uwrap, x.
    by rewrite Z.add_comm, Z_mod_plus_full.
Qed.

Lemma lock_client_valid id lid : 0 ≤ id < 2 ^ 32 → 0 ≤ lid < 2 ^ 64 → valid (c_pair c_uint c_ull) (id, lid).
Proof. done. Qed.

(** The server after it read the header, and the first eight bytes. *)
Lemma lock_client_packet id lid h :
  0 ≤ id < 2 ^ 32 → 0 ≤ lid < 2 ^ 64 → req_valid h →
  let p := request_pdu h (lock_client_req id lid) in
  ∃ u u', unpack_req_header (unmarshall_of p (Z.of_nat (length p))) = (h, u) ∧
    u_take c_ull (fresh c_ull) u = Ret (shifted_lid id lid, u') ∧ u_wf u' ∧ rest u' = be4 (u32 lid) ∧
    u_sz u' = 36 ∧ u_ind u' = 32 ∧ Z.of_nat (length (u_buf u')) = 36.
Proof.
  intros Hi Hl Hh. cbv zeta. unfold request_pdu, lock_client_req. destruct (shifted_lid_enc id lid Hi Hl) as [Hv Ee].
  destruct (req_packet (c_pair c_uint c_ull) h (id, lid) (lock_client_valid id lid Hi Hl) Hh) as (Lp & E & W & R); [done|].
  set (p := wire_pdu _) in *. clearbody p. rewrite Ee in R.
  eexists _, _. split; [exact E|]. split; [by apply (take_ok _ Hv _ _ W R)|].
  destruct (rest_advance _ _ _ W R) as [W' R']. split; [done|]. split; [done|].
  assert (length (enc (c_pair c_uint c_ull) (id, lid)) = 12%nat) as L12 by done. rewrite L12 in Lp.
  simpl. split; [lia|]. split; [done|]. lia.
Qed.
End stubs.

(** * Theorems *)
Section theorems.
Context `{HeapJunk}.

(** C27.  The stubs of lock_client.cc do not fit the server that lock_smain.cc
    starts: a stat request stops the server at its check of the arguments,
    whatever lock it asks for; an acquire or release request stops it too, or
    makes it read outside the packet when the low word of the lock id is almost
    2^32, unless this word is 0. *)
Theorem lock_client_stops_server {S} (stat : Z → Z → ST S (Z * Z)) (acquire : Z * list Z → Z → ST S (Z * Z))
    (h : req_header) (id lid : Z) (s : S) :
  0 ≤ id < 2 ^ 32 → 0 ≤ lid < 2 ^ 64 → req_valid h →
  let p := request_pdu h (lock_client_req id lid) in
  serve (smain_stat stat) p s = VerifyFailed ∧
  (u32 lid ≠ 0 → serve (smain_acquire acquire) p s = if 36 + u32 lid <? 2 ^ 32 then VerifyFailed else Undef).
Proof.
  intros Hi Hl Hh p. destruct (lock_client_packet id lid h Hi Hl Hh) as (u & u' & E & T & W & R & Sz & Ix & Lb).
  fold p in E. split.
  - apply (serve_rejects c_ull c_int stat p h _ s u u' E T). unfold okdone. rewrite Sz, Ix. by destruct (u_ok u').
  - intros Hlo. assert (0 ≤ u32 lid < 2 ^ 32) as Hr by (apply uwrap_range; lia).
    assert (u_uint 0 u' = Ret (u32 lid, advance 4 u')) as Eu.
    { apply (u_uint_reads 0 (u32 lid) Hr u' [] W). by rewrite app_nil_r. }
    assert (u_take (c_pair c_ull c_string) (0, []) u
      = '(b, v) ← u_rawbytes [] (u32 lid) (advance 4 u'); Ret ((shifted_lid id lid, b), v)) as ET.
    { change (u_take (c_pair c_ull c_string) (0, []) u) with
        ('(a, v) ← u_take c_ull 0 u; '(b, v) ← u_string [] v; Ret ((a, b), v)).
      change (fresh c_ull) with 0 in T. rewrite T. cbn [mbind res_bind]. unfold u_string. rewrite Eu. cbn [mbind res_bind].
      destruct W as (_ & _ & _ & Hk). change (u_ok (advance 4 u')) with (u_ok u'). by rewrite Hk. }
    assert (u_sz (advance 4 u') = 36 ∧ u_ind (advance 4 u') = 36 ∧ Z.of_nat (length (u_buf (advance 4 u'))) = 36)
      as (S4 & I4 & B4) by (simpl; lia).
    unfold u_rawbytes in ET. rewrite S4, I4, B4 in ET. change (u32 36) with 36 in ET.
    destruct (Z.ltb_spec (36 + u32 lid) (2 ^ 32)) as [Hs|Hs].
    + rewrite (uwrap_small 32 (36 + u32 lid)) in ET by lia.
      destruct (Z.ltb_spec 36 (36 + u32 lid)); [|lia]. cbn [mbind res_bind] in ET.
      by apply (serve_rejects (c_pair c_ull c_string) c_int acquire p h _ s u _ E ET).
    + assert (u32 (36 + u32 lid) = 36 + u32 lid - 2 ^ 32) as Ew.
      { unfold uwrap at 1. replace (36 + u32 lid) with (36 + u32 lid - 2 ^ 32 + 1 * 2 ^ 32) at 1 by lia.
        rewrite Z_mod_plus_full. apply Z.mod_small. lia. }
      rewrite Ew in ET. destruct (Z.ltb_spec 36 (36 + u32 lid - 2 ^ 32)); [lia|].
      destruct (Z.ltb_spec 36 (36 + u32 lid)); [|lia]. cbn [mbind res_bind] in ET.
      unfold serve. rewrite E. unfold smain_acquire, h_fn, st_lift, mbind, st_bind, res_bind.
      change (fresh (c_pair c_ull c_string)) with (0, @nil Z). by rewrite ET.
Qed.

(** The calls of lock_client_cache fit the caching server, and those of
    lock_client fit the plain one: the server's method gets the lock id and the
    client as they were sent, the client's number as a signed integer, and the
    client gets the method's status and result. *)
Theorem lock_calls_exchange {S} (acquire : Z * list Z → Z → ST S (Z * Z)) (plain : Z * Z → Z → ST S (Z * Z))
    (h : req_header) (lid id : Z) (addr : list Z) (s s' : S) (b r : Z) :
  0 ≤ lid < 2 ^ 64 → 0 ≤ id < 2 ^ 32 → valid c_string addr → Z.of_nat (length addr) < 2 ^ 30 → req_valid h →
  0 ≤ b < 2 ^ 31 → - 2 ^ 31 ≤ r < 2 ^ 31 →
  (acquire (lid, addr) 0 s = Ret ((b, r), s') →
   ∃ pdu, serve (smain_acquire acquire) (request_pdu h (lock_client_cache_req lid addr)) s = Ret (pdu, s') ∧
     receive c_int pdu = Ret (b, r)) ∧
  (plain (s32 id, lid) 0 s = Ret ((b, r), s') →
   ∃ pdu, serve (smain_plain plain) (request_pdu h (lock_client_req id lid)) s = Ret (pdu, s') ∧
     receive c_int pdu = Ret (b, r)).
Proof.
  intros Hl Hi Ha Hlen Hh Hb Hr. split; intros Hm.
  - apply (exchange_run (c_pair c_ull c_string) (c_pair c_ull c_string) c_int acquire h (lid, addr) (lid, addr) s s' b r);
      try done.
    change (enc (c_pair c_ull c_string) (lid, addr)) with
      ((be4 (u32 (lid ≫ 32)) ++ be4 (u32 lid)) ++ (be4 (Z.of_nat (length addr)) ++ addr)).
    rewrite !length_app. change (length (be4 _)) with 4%nat. lia.
  - apply (exchange_run (c_pair c_uint c_ull) (c_pair c_int c_ull) c_int plain h (id, lid) (s32 id, lid) s s' b r); try done.
    + change (be4 id ++ (be4 (u32 (lid ≫ 32)) ++ be4 (u32 lid)) = be4 (s32 id) ++ (be4 (u32 (lid ≫ 32)) ++ be4 (u32 lid))).
      by rewrite be4_s32.
    + split; [|done]. unfold swrap. change (32 - 1) with 31. pose proof (Z.mod_pos_bound (id + 2 ^ 31) (2 ^ 32)).
      simpl valid. lia.
Qed.
End theorems.

(** ** Witnesses *)
#[local] Instance zero_junk_stub : HeapJunk := λ _, 0.

Definition ex_stat_header : req_header := ReqHeader 3 stat_proc 9 12 2.

Lemma ex_stat_valid : req_valid ex_stat_header.
Proof. unfold req_valid, ex_stat_header, stat_proc. simpl. lia. Qed.

(** What lock_demo does: stat of lock 1. *)
Lemma lock_client_stops_server_witness :
  serve (smain_stat (λ _ _ s, Ret ((0, 0), s))) (request_pdu ex_stat_header (lock_client_req 9 1)) (0 : Z) = VerifyFailed.
Proof.
  destruct (lock_client_stops_server (λ _ _ s, Ret ((0, 0), s)) (λ _ _ s, Ret ((0, 0), s)) ex_stat_header 9 1 0)
    as [E _]; [lia|lia|exact ex_stat_valid|exact E].
Defined.

Lemma lock_calls_exchange_witness :
  ∃ pdu, serve (smain_acquire (λ a _ s, Ret ((lk_OK, 0), s + fst a)))
           (request_pdu ex_stat_header (lock_client_cache_req 5 [49; 58; 50])) 1 = Ret (pdu, 6) ∧
    receive c_int pdu = Ret (lk_OK, 0).
Proof.
  destruct (lock_calls_exchange (λ a _ s, Ret ((lk_OK, 0), s + fst a)) (λ _ _ s, Ret ((0, 0), s)) ex_stat_header 5 9
    [49; 58; 50] 1 6 lk_OK 0) as [E _]; [lia|lia|vm_compute; repeat split; discriminate|simpl; lia
    |exact ex_stat_valid|unfold lk_OK; lia|lia|apply E; reflexivity].
Defined.
