(* ===== verification/LockCache.v ===== *)
(** The caching lock client of lock_client_cache.cc.  Each operation is split
    where it gives up the mutex of the lock: to call the server, and to wait on
    the condition variable. *)
From S2P Require Import Prelude LockServer.
Local Open Scope Z_scope.

Inductive oostatus := NONE | FREE | LOCKED | ACQUIRING | RELEASING | EARLY_REVOKED.

#[export] Instance oostatus_eq_dec : EqDecision oostatus.
Proof. solve_decision. Defined.

(** The entries of status_map, waiters_num_map, revoked_map and retried_map of
    one lock; a missing entry is the default one. *)
Record lk := Lk { status : oostatus; waiters_num : Z; revoked : bool; retried : bool }.

Definition lk_new : lk := Lk NONE 0 false false.

(** The maps are keyed by [int]: the 64-bit lock id is cut to 32 bits. *)
Definition lk_key (lid : Z) : Z := s32 lid.

Abbreviation lclient := (gmap Z lk).

Definition lk_of (c : lclient) (lid : Z) : lk := mget lk_new c (lk_key lid).

Definition set_lk (lid : Z) (l : lk) (c : lclient) : lclient := <[lk_key lid := l]> c.

Definition set_status (st : oostatus) (l : lk) : lk := Lk st (waiters_num l) (revoked l) (retried l).
Definition set_revoked (b : bool) (l : lk) : lk := Lk (status l) (waiters_num l) b (retried l).
Definition set_retried (b : bool) (l : lk) : lk := Lk (status l) (waiters_num l) (revoked l) b.
Definition add_waiters (n : Z) (l : lk) : lk :=
  Lk (status l) (s32 (waiters_num l + n)) (revoked l) (retried l).

(** What a thread does next. *)
Inductive outcome := Granted | CallServer | Wait.

(** acquire from CHECK_AGAIN on.  The case ACQUIRING with a pending retry jumps
    back with status NONE, which calls the server. *)
Definition acquire_check (l : lk) : res (outcome * lk) :=
  match status l with
  | NONE => Ret (CallServer, set_status ACQUIRING l)
  | FREE => Ret (Granted, set_status LOCKED l)
  | LOCKED => Ret (Wait, add_waiters 1 l)
  | ACQUIRING =>
      if retried l
      then Ret (CallServer, set_status ACQUIRING (set_retried false (set_status NONE l)))
      else Ret (Wait, add_waiters 1 l)
  | RELEASING => Ret (Wait, add_waiters 1 l)
  | EARLY_REVOKED => VerifyFailed
  end.

(** The answer of the acquire call, then CHECK_AGAIN. *)
Definition acquire_reply (ret : Z) (l : lk) : res (outcome * lk) :=
  let l := if (ret =? lk_OK) && bool_decide (status l = ACQUIRING) then set_status FREE l else l in
  acquire_check l.

(** Woken from the condition variable, then CHECK_AGAIN. *)
Definition acquire_wake (l : lk) : res (outcome * lk) := acquire_check (add_waiters (-1) l).

(** release, from CHECK_POINT on: [CallServer] after dorelease(lid). *)
Definition release_check (l : lk) : res (outcome * lk) :=
  match status l with
  | LOCKED =>
      if revoked l && (waiters_num l =? 0)
      then Ret (CallServer, set_revoked false (set_status RELEASING l))
      else Ret (Granted, set_status FREE l)
  | RELEASING => Ret (Wait, add_waiters 1 l)
  | _ => VerifyFailed
  end.

Definition release_wake (l : lk) : res (outcome * lk) := release_check (add_waiters (-1) l).

(** The release call returned. *)
Definition release_reply (l : lk) : lk := set_status NONE l.

(** revoke_handler: [true] is the call of the server's release after
    dorelease(lid), made while the mutex is held. *)
Definition revoke_handler (l : lk) : bool * lk :=
  if decide (status l = FREE) then (true, set_status NONE l) else (false, set_revoked true l).

(** retry_handler *)
Definition retry_handler (l : lk) : lk := set_retried true l.
