(* ===== verification/LockProtocol.v ===== *)
(** Lock clients and lock server together: any number of clients, each with any
    number of threads, the caching server, and the calls between them.

    A task is a thread at a point where it does not hold a mutex it is about to
    take, or a remote call under way; a step runs one task to its next such
    point.  Remote calls are reliable (they are executed once and answered), as
    the code assumes.  A thread that called acquire and has it returned holds
    the lock until it calls release. *)
From S2P Require Import Prelude LockServer LockCache.
Local Open Scope Z_scope.

(** Who called the server's release: a thread in release, or the revoke handler
    on behalf of client [c0]'s acquire. *)
Inductive rel_src := ByRelease | ByRevoke (c0 : Z).

Inductive task :=
  | TAcq (c lid : Z)                     (* in acquire, before CHECK_AGAIN *)
  | TWait (c lid : Z)                    (* in acquire, in pthread_cond_wait *)
  | THold (c lid : Z)                    (* acquire returned *)
  | TRel (c lid : Z)                     (* in release, before CHECK_POINT *)
  | TRelWait (c lid : Z)                 (* in release, in pthread_cond_wait *)
  | MAcq (c lid : Z)                     (* acquire call on its way to the server *)
  | SRevoke (c lid : Z)                  (* server acquire, before it reads the owner *)
  | MRevoke (d lid c : Z)                (* revoke call to d, for c's acquire *)
  | MAcqRep (c lid ret : Z)              (* answer of the acquire call *)
  | MRel (c lid : Z) (src : rel_src)     (* release call on its way to the server *)
  | SRetry (c lid : Z) (src : rel_src) (ws : list Z) (* server release, retry calls left *)
  | MRelRep (c lid : Z) (src : rel_src). (* answer of the release call *)

(** [cheld]: mutexes of clients held during a remote call (by revoke_handler);
    [sheld]: mutexes of the server held during retry calls. *)
Record lsys := LSys {
  clients : gmap Z lclient; server : lserver;
  cheld : gset (Z * Z); sheld : gset Z;
  tasks : list task }.

Definition client (x : lsys) (c : Z) : lclient := mget ∅ (clients x) c.
Definition lk_at (x : lsys) (c lid : Z) : lk := lk_of (client x c) lid.

(** The state after client [c] changed its entry of [lid], with new tasks. *)
Definition upd (x : lsys) (c lid : Z) (l : lk) (ts : list task) : lsys :=
  LSys (<[c := set_lk lid l (client x c)]> (clients x)) (server x) (cheld x) (sheld x) ts.

Definition after_acquire (o : outcome) (c lid : Z) : task :=
  match o with Granted => THold c lid | CallServer => MAcq c lid | Wait => TWait c lid end.

Definition after_release (o : outcome) (c lid : Z) : list task :=
  match o with Granted => [] | CallServer => [MRel c lid ByRelease] | Wait => [TRelWait c lid] end.

Definition mutex_free (x : lsys) (c lid : Z) : Prop := (c, lk_key lid) ∉ cheld x.

Inductive lstep : lsys → lsys → Prop :=
  | LNew c lid x : 
      lstep x (LSys (clients x) (server x) (cheld x) (sheld x) (TAcq c lid :: tasks x))
  | LAcq c lid o l x t1 t2 :
      tasks x = t1 ++ TAcq c lid :: t2 → mutex_free x c lid →
      acquire_check (lk_at x c lid) = Ret (o, l) →
      lstep x (upd x c lid l (t1 ++ after_acquire o c lid :: t2))
  | LWake c lid o l x t1 t2 :
      tasks x = t1 ++ TWait c lid :: t2 → mutex_free x c lid →
      acquire_wake (lk_at x c lid) = Ret (o, l) →
      lstep x (upd x c lid l (t1 ++ after_acquire o c lid :: t2))
  | LAcqRep c lid ret o l x t1 t2 :
      tasks x = t1 ++ MAcqRep c lid ret :: t2 → mutex_free x c lid →
      acquire_reply ret (lk_at x c lid) = Ret (o, l) →
      lstep x (upd x c lid l (t1 ++ after_acquire o c lid :: t2))
  | LUser c lid x t1 t2 :
      tasks x = t1 ++ THold c lid :: t2 →
      lstep x (LSys (clients x) (server x) (cheld x) (sheld x) (t1 ++ TRel c lid :: t2))
  | LRel c lid o l x t1 t2 :
      tasks x = t1 ++ TRel c lid :: t2 → mutex_free x c lid →
      release_check (lk_at x c lid) = Ret (o, l) →
      lstep x (upd x c lid l (t1 ++ after_release o c lid ++ t2))
  | LRelWake c lid o l x t1 t2 :
      tasks x = t1 ++ TRelWait c lid :: t2 → mutex_free x c lid →
      release_wake (lk_at x c lid) = Ret (o, l) →
      lstep x (upd x c lid l (t1 ++ after_release o c lid ++ t2))
  | LSrvAcq c lid ret rv s x t1 t2 :
      tasks x = t1 ++ MAcq c lid :: t2 → lid ∉ sheld x →
      server_acquire lid c (server x) = (ret, rv, s) →
      lstep x (LSys (clients x) s (cheld x) (sheld x)
                 (t1 ++ (if rv : bool then SRevoke c lid else MAcqRep c lid ret) :: t2))
  | LSrvRevoke c lid bound d x t1 t2 :
      tasks x = t1 ++ SRevoke c lid :: t2 → revoke_target bound lid (server x) = Ret d →
      lstep x (LSys (clients x) (server x) (cheld x) (sheld x) (t1 ++ MRevoke d lid c :: t2))
  | LRevoke d lid c b l x t1 t2 :
      tasks x = t1 ++ MRevoke d lid c :: t2 → mutex_free x d lid →
      revoke_handler (lk_at x d lid) = (b, l) →
      lstep x (LSys (<[d := set_lk lid l (client x d)]> (clients x)) (server x)
                 (if b : bool then {[(d, lk_key lid)]} ∪ cheld x else cheld x) (sheld x)
                 (t1 ++ (if b then MRel d lid (ByRevoke c) else MAcqRep c lid lk_RETRY) :: t2))
  | LSrvRel c lid src ret ws s x t1 t2 :
      tasks x = t1 ++ MRel c lid src :: t2 → lid ∉ sheld x →
      server_release lid c (server x) = Ret (ret, ws, s) →
      lstep x (LSys (clients x) s (cheld x) ({[lid]} ∪ sheld x) (t1 ++ SRetry c lid src ws :: t2))
  | LRetry c lid src bound w d ws x t1 t2 :
      tasks x = t1 ++ SRetry c lid src (w :: ws) :: t2 → retry_target bound w = Ret d → mutex_free x d lid →
      lstep x (upd x d lid (retry_handler (lk_at x d lid)) (t1 ++ SRetry c lid src ws :: t2))
  | LRetryEnd c lid src x t1 t2 :
      tasks x = t1 ++ SRetry c lid src [] :: t2 →
      lstep x (LSys (clients x) (server x) (cheld x) (sheld x ∖ {[lid]})
                 (t1 ++ MRelRep c lid src :: t2))
  | LRelRep c lid x t1 t2 :
      tasks x = t1 ++ MRelRep c lid ByRelease :: t2 → mutex_free x c lid →
      lstep x (upd x c lid (release_reply (lk_at x c lid)) (t1 ++ t2))
  | LRevokeEnd c lid c0 x t1 t2 :
      tasks x = t1 ++ MRelRep c lid (ByRevoke c0) :: t2 →
      lstep x (LSys (clients x) (server x) (cheld x ∖ {[(c, lk_key lid)]}) (sheld x)
                 (t1 ++ MAcqRep c0 lid lk_RETRY :: t2)).

Definition lsys_new (n : Z) : lsys := LSys ∅ (lock_server_cache_new n) ∅ ∅ [].

(** * Accounting for one lock *)
Definition b2n (P : Prop) `{Decision P} : nat := if decide P then 1%nat else 0%nat.
Arguments b2n : simpl never.

Definition task_lid (t : task) : Z :=
  match t with
  | TAcq _ lid | TWait _ lid | THold _ lid | TRel _ lid | TRelWait _ lid | MAcq _ lid
  | SRevoke _ lid | MRevoke _ lid _ | MAcqRep _ lid _ | MRel _ lid _ | SRetry _ lid _ _
  | MRelRep _ lid _ => lid
  end.

(** The lock is with [c] as a task: a grant or a release under way. *)
Definition tok_t (c lid : Z) (t : task) : nat :=
  match t with
  | MAcqRep c' lid' ret => b2n (c' = c ∧ lid' = lid ∧ ret = lk_OK)
  | MRel c' lid' _ => b2n (c' = c ∧ lid' = lid)
  | _ => 0
  end.

(** Threads between acquire and the end of release. *)
Definition hold_t (c lid : Z) (t : task) : nat :=
  match t with
  | THold c' lid' | TRel c' lid' | TRelWait c' lid' => b2n (c' = c ∧ lid' = lid)
  | _ => 0
  end.

(** Calls of release made by a thread in release. *)
Definition rel_t (c lid : Z) (t : task) : nat :=
  match t with
  | MRel c' lid' ByRelease | SRetry c' lid' ByRelease _ | MRelRep c' lid' ByRelease =>
      b2n (c' = c ∧ lid' = lid)
  | _ => 0
  end.

(** The request to give the lock back: before the owner is read, and after. *)
Definition srv_t (lid : Z) (t : task) : nat :=
  match t with SRevoke _ lid' => b2n (lid' = lid) | _ => 0 end.
Definition rvk_t (c lid : Z) (t : task) : nat :=
  match t with
  | MRevoke c' lid' _ => b2n (c' = c ∧ lid' = lid)
  | MRel c' lid' _ => b2n (c' = c ∧ lid' = lid)
  | _ => 0
  end.

Definition tok_l (l : lk) : nat := b2n (status l = FREE ∨ status l = LOCKED).
Definition hold_l (l : lk) : nat := b2n (status l = LOCKED).
Definition rel_l (l : lk) : nat := b2n (status l = RELEASING).
Definition rvk_l (l : lk) : nat := b2n (revoked l = true).

Abbreviation total f ts := (sum_list_with f ts).

Definition lkc (cl : gmap Z lclient) (c lid : Z) : lk := lk_of (mget ∅ cl c) lid.
Definition slk (s : lserver) (lid : Z) : slock := mget slock_new (ls_locks s) lid.

Section accounting.
Context (lid : Z).

Definition tok (cl : gmap Z lclient) (ts : list task) (c : Z) : nat :=
  tok_l (lkc cl c lid) + total (tok_t c lid) ts.
Definition rvk (cl : gmap Z lclient) (ts : list task) (c : Z) : nat :=
  rvk_l (lkc cl c lid) + total (rvk_t c lid) ts.

(** A client has the lock at most once and only as the owner; its threads that
    hold it, and its calls of release, match its status; the request to give
    the lock back exists at most once, at the owner. *)
Record LInv (cl : gmap Z lclient) (s : lserver) (ts : list task) : Prop := {
  li_tok : ∀ c, (tok cl ts c ≤ 1)%nat;
  li_own : ∀ c, (1 ≤ tok cl ts c)%nat →
    sl_locked (slk s lid) = true ∧ sl_owner (slk s lid) = Some c;
  li_hold : ∀ c, (total (hold_t c lid) ts ≤ hold_l (lkc cl c lid))%nat;
  li_rel : ∀ c, (total (rel_t c lid) ts ≤ rel_l (lkc cl c lid))%nat;
  li_rvk : ∀ c, (total (srv_t lid) ts + rvk cl ts c ≤ b2n (sl_revoked (slk s lid) = true))%nat;
  li_rvo : ∀ c, (1 ≤ rvk cl ts c)%nat → sl_owner (slk s lid) = Some c;
  li_rvl : sl_revoked (slk s lid) = true → is_Some (sl_owner (slk s lid));
  li_locked : is_Some (sl_owner (slk s lid)) ↔ sl_locked (slk s lid) = true;
  li_early : ∀ c, status (lkc cl c lid) ≠ EARLY_REVOKED }.

(** Nothing changes for this lock. *)
Lemma LInv_frame cl s ts cl' s' ts' :
  LInv cl s ts → (∀ c, lkc cl' c lid = lkc cl c lid) → slk s' lid = slk s lid →
  (∀ c, total (tok_t c lid) ts' = total (tok_t c lid) ts) →
  (∀ c, total (hold_t c lid) ts' = total (hold_t c lid) ts) →
  (∀ c, total (rel_t c lid) ts' = total (rel_t c lid) ts) →
  (∀ c, total (rvk_t c lid) ts' = total (rvk_t c lid) ts) →
  total (srv_t lid) ts' = total (srv_t lid) ts →
  LInv cl' s' ts'.
Proof.
  intros [H1 H2 H3 H4 H5 H6 H7 H8 H9] Ec Es E1 E2 E3 E4 E5.
  split; unfold tok, rvk in *; intros; rewrite ?Ec, ?Es, ?E1, ?E2, ?E3, ?E4, ?E5 in *; auto.
Qed.

(** One client changes its entry, and one task is replaced. *)
Lemma LInv_client cl s t1 t t2 cl' ts c l' :
  LInv cl s (t1 ++ t :: t2) →
  lkc cl' c lid = l' → (∀ d, d ≠ c → lkc cl' d lid = lkc cl d lid) →
  (∀ d, d ≠ c → total (tok_t d lid) ts = tok_t d lid t ∧ total (hold_t d lid) ts = hold_t d lid t ∧
     total (rel_t d lid) ts = rel_t d lid t ∧ total (rvk_t d lid) ts = rvk_t d lid t) →
  let l := lkc cl c lid in
  total (srv_t lid) ts = srv_t lid t →
  (tok_l l' + total (tok_t c lid) ts ≤ tok_l l + tok_t c lid t)%nat →
  (hold_l l + total (hold_t c lid) ts ≤ hold_l l' + hold_t c lid t)%nat →
  (rel_l l + total (rel_t c lid) ts ≤ rel_l l' + rel_t c lid t)%nat →
  (rvk_l l' + total (rvk_t c lid) ts ≤ rvk_l l + rvk_t c lid t)%nat →
  status l' ≠ EARLY_REVOKED →
  LInv cl' s (t1 ++ ts ++ t2).
Proof.
  intros [H1 H2 H3 H4 H5 H6 H7 H8 H9] El Eo Ed l Es Ct Ch Cr Cv Ce.
  assert (∀ f, total f (t1 ++ t :: t2) = total f t1 + f t + total f t2)%nat as Ex
    by (intros; rewrite sum_list_with_app; simpl; lia).
  assert (∀ f, total f (t1 ++ ts ++ t2) = total f t1 + total f ts + total f t2)%nat as Ey
    by (intros; rewrite !sum_list_with_app; lia).
  assert (∀ d, tok cl' (t1 ++ ts ++ t2) d ≤ tok cl (t1 ++ t :: t2) d)%nat as Ht.
  { intros d. unfold tok. rewrite Ex, Ey. destruct (decide (d = c)) as [->|Hne].
    - rewrite El. fold l. lia.
    - destruct (Ed d Hne) as (-> & _). rewrite Eo by done. lia. }
  assert (∀ d, rvk cl' (t1 ++ ts ++ t2) d ≤ rvk cl (t1 ++ t :: t2) d)%nat as Hv.
  { intros d. unfold rvk. rewrite Ex, Ey. destruct (decide (d = c)) as [->|Hne].
    - rewrite El. fold l. lia.
    - destruct (Ed d Hne) as (_ & _ & _ & ->). rewrite Eo by done. lia. }
  split; auto.
  - intros d. specialize (H1 d). specialize (Ht d). lia.
  - intros d Hd. apply H2. specialize (Ht d). lia.
  - intros d. specialize (H3 d). rewrite Ex in H3. rewrite Ey.
    destruct (decide (d = c)) as [->|Hne].
    + rewrite El. fold l in H3. lia.
    + destruct (Ed d Hne) as (_ & -> & _). by rewrite Eo.
  - intros d. specialize (H4 d). rewrite Ex in H4. rewrite Ey.
    destruct (decide (d = c)) as [->|Hne].
    + rewrite El. fold l in H4. lia.
    + destruct (Ed d Hne) as (_ & _ & -> & _). by rewrite Eo.
  - intros d. specialize (H5 d). specialize (Hv d). rewrite Ex in H5. rewrite Ey. lia.
  - intros d Hd. apply H6. specialize (Hv d). lia.
  - intros d. destruct (decide (d = c)) as [->|Hne]; [by rewrite El|by rewrite Eo].
Qed.
End accounting.

(** Lock ids that the clients' [int] keys keep apart. *)
Definition small (lid : Z) : Prop := 0 ≤ lid < 2 ^ 31.

Definition lids_small (ts : list task) : Prop := Forall (λ t, small (task_lid t)) ts.

Lemma lk_key_small lid : small lid → lk_key lid = lid.
Proof.
  unfold small, lk_key. intros. apply swrap_small; [|lia].
  change (2 ^ (32 - 1)) with (2 ^ 31). lia.
Qed.

Lemma lkc_set cl c lid l d lid' :
  small lid → small lid' →
  lkc (<[c := set_lk lid l (mget ∅ cl c)]> cl) d lid'
  = if decide (d = c ∧ lid = lid') then l else lkc cl d lid'.
Proof.
  intros Hl Hl'. unfold lkc, lk_of. destruct (decide (d = c)) as [->|Hd].
  - rewrite mget_insert_eq. unfold set_lk. destruct (decide (lid = lid')) as [->|Hne].
    + rewrite mget_insert_eq, decide_True by done. done.
    + rewrite !lk_key_small by done. rewrite mget_insert_ne, decide_False by naive_solver. done.
  - rewrite mget_insert_ne, decide_False by naive_solver. done.
Qed.

Lemma b2n_false (P : Prop) `{Decision P} : ¬ P → b2n P = 0%nat.
Proof. intros. unfold b2n. by rewrite decide_False. Qed.
Lemma b2n_true (P : Prop) `{Decision P} : P → b2n P = 1%nat.
Proof. intros. unfold b2n. by rewrite decide_True. Qed.
Lemma b2n_le (P : Prop) `{Decision P} : (b2n P ≤ 1)%nat.
Proof. unfold b2n. case_decide; lia. Qed.

(** A task of another lock counts for nothing. *)
Lemma other_lock_zero c lid t :
  task_lid t ≠ lid →
  tok_t c lid t = 0%nat ∧ hold_t c lid t = 0%nat ∧ rel_t c lid t = 0%nat ∧
  rvk_t c lid t = 0%nat ∧ srv_t lid t = 0%nat.
Proof.
  intros H. destruct t as [| | | | | | | | | ? ? [|] | ? ? [|] ? | ? ? [|]]; simpl in *;
    rewrite ?b2n_false by naive_solver; done.
Qed.

Lemma other_locks_zero c lid ts :
  Forall (λ t, task_lid t ≠ lid) ts →
  total (tok_t c lid) ts = 0%nat ∧ total (hold_t c lid) ts = 0%nat ∧ total (rel_t c lid) ts = 0%nat ∧
  total (rvk_t c lid) ts = 0%nat ∧ total (srv_t lid) ts = 0%nat.
Proof.
  induction 1 as [|t ts Ht _ IH]; [done|]. simpl.
  destruct (other_lock_zero c lid t Ht) as (-> & -> & -> & -> & ->). done.
Qed.

Lemma LInv_other lid cl s t1 t t2 cl' s' ts :
  LInv lid cl s (t1 ++ t :: t2) →
  (∀ c, lkc cl' c lid = lkc cl c lid) → slk s' lid = slk s lid →
  task_lid t ≠ lid → Forall (λ t, task_lid t ≠ lid) ts →
  LInv lid cl' s' (t1 ++ ts ++ t2).
Proof.
  intros HI Ec Es Ht Hts.
  assert (∀ f, f t = total f ts → total f (t1 ++ ts ++ t2) = total f (t1 ++ t :: t2)) as E.
  { intros f Hf. rewrite !sum_list_with_app. simpl. lia. }
  apply (LInv_frame lid cl s (t1 ++ t :: t2)); try done; intros; apply E.
  all: try (pose proof (other_lock_zero c lid t Ht); pose proof (other_locks_zero c lid ts Hts); lia).
  pose proof (other_lock_zero 0 lid t Ht); pose proof (other_locks_zero 0 lid ts Hts); lia.
Qed.

(** What a client step may do to its entry and its task. *)
Record change_ok (c lid : Z) (l : lk) (t : task) (l' : lk) (ts : list task) : Prop := {
  ch_lid : task_lid t = lid ∧ Forall (λ t, task_lid t = lid) ts;
  ch_others : ∀ d, d ≠ c → total (tok_t d lid) ts = tok_t d lid t ∧
    total (hold_t d lid) ts = hold_t d lid t ∧ total (rel_t d lid) ts = rel_t d lid t ∧
    total (rvk_t d lid) ts = rvk_t d lid t;
  ch_srv : total (srv_t lid) ts = srv_t lid t;
  ch_tok : (tok_l l' + total (tok_t c lid) ts ≤ tok_l l + tok_t c lid t)%nat;
  ch_hold : (hold_l l + total (hold_t c lid) ts ≤ hold_l l' + hold_t c lid t)%nat;
  ch_rel : (rel_l l + total (rel_t c lid) ts ≤ rel_l l' + rel_t c lid t)%nat;
  ch_rvk : (rvk_l l' + total (rvk_t c lid) ts ≤ rvk_l l + rvk_t c lid t)%nat;
  ch_early : status l ≠ EARLY_REVOKED → status l' ≠ EARLY_REVOKED }.

Lemma LInv_client_step lid0 cl s t1 t t2 c lid l' ts :
  small lid0 → small lid → LInv lid0 cl s (t1 ++ t :: t2) →
  change_ok c lid (lkc cl c lid) t l' ts →
  LInv lid0 (<[c := set_lk lid l' (mget ∅ cl c)]> cl) s (t1 ++ ts ++ t2).
Proof.
  intros Hs0 Hs HI [[Hl Hls] Hd Es Ct Ch Cr Cv Ce].
  destruct (decide (lid = lid0)) as [->|Hne].
  - eapply (LInv_client lid0 cl s t1 t t2 _ ts c l' HI); try done.
    + by rewrite lkc_set, decide_True.
    + intros d Hd'. rewrite lkc_set, decide_False by naive_solver. done.
    + apply Ce, (li_early _ _ _ _ HI).
  - apply (LInv_other lid0 cl s t1 t t2 _ s ts HI); try done; [|congruence|].
    + intros d. by rewrite lkc_set, decide_False by naive_solver.
    + eapply Forall_impl; [exact Hls|]. simpl. congruence.
Qed.

(** Evaluates the counters of a step once the status is known. *)
Ltac counters :=
  simpl; unfold tok_l, hold_l, rel_l, rvk_l, b2n; simpl;
  repeat case_decide; naive_solver lia.

Ltac change_tac :=
  split; [split; [done|repeat constructor]|intros ? ?; simpl; rewrite ?b2n_false by naive_solver; done
         |done|counters..|done].

Lemma acquire_check_ok c lid l t o l' :
  acquire_check l = Ret (o, l') →
  (t = TAcq c lid ∨ t = TWait c lid ∨ ∃ ret, t = MAcqRep c lid ret ∧ ret ≠ lk_OK) →
  change_ok c lid l t l' [after_acquire o c lid].
Proof.
  destruct l as [st w rv rt]. unfold acquire_check; simpl. intros E Ht.
  assert (task_lid t = lid ∧ (∀ d, tok_t d lid t = 0 ∧ hold_t d lid t = 0 ∧ rel_t d lid t = 0 ∧
    rvk_t d lid t = 0)%nat ∧ srv_t lid t = 0%nat) as (Hl & Hz & Hz').
  { destruct Ht as [->|[->|(ret & -> & Hr)]]; simpl; [done|done|].
    rewrite ?b2n_false by naive_solver. split; [done|]. split; [|done]. intros d.
    by rewrite ?b2n_false by naive_solver. }
  destruct st; [| | |destruct rt| |done]; simplify_eq.
  all: split; [split; [done|repeat constructor]| |done| | | | |done];
    [intros d Hd; destruct (Hz d) as (-> & -> & -> & ->); simpl; rewrite ?b2n_false by naive_solver; done|..];
    destruct (Hz c) as (E1 & E2 & E3 & E4); rewrite ?E1, ?E2, ?E3, ?E4; counters.
Qed.

Lemma acquire_reply_ok c lid ret l o l' :
  acquire_reply ret l = Ret (o, l') →
  change_ok c lid l (MAcqRep c lid ret) l' [after_acquire o c lid].
Proof.
  unfold acquire_reply. destruct (Z.eqb_spec ret lk_OK) as [->|Hne]; simpl.
  2: { intros E. eapply acquire_check_ok; eauto 10. }
  destruct l as [st w rv rt]. unfold acquire_check; simpl. intros E.
  destruct st; [| | |destruct rt| |]; simpl in E; simplify_eq; change_tac.
Qed.

Lemma release_check_ok c lid l t o l' :
  release_check l = Ret (o, l') → (t = TRel c lid ∨ t = TRelWait c lid) → 
  change_ok c lid l t l' (after_release o c lid).
Proof.
  destruct l as [st w rv rt]. unfold release_check; simpl. intros E Ht.
  destruct st; try done; [destruct (rv && (w =? 0)) eqn:Er|]; simplify_eq.
  1: apply andb_true_iff in Er as [-> _].
  all: destruct Ht as [-> | ->]; change_tac.
Qed.

Lemma add_waiters_ok c lid l n t l' ts :
  change_ok c lid (add_waiters n l) t l' ts → change_ok c lid l t l' ts.
Proof. intros [H1 H2 H3 H4 H5 H6 H7 H8]. split; done. Qed.

Lemma retry_ok c lid src w ws w' l :
  change_ok w lid l (SRetry c lid src (w' :: ws)) (retry_handler l) [SRetry c lid src ws].
Proof.
  destruct l as [st n rv rt]. split; simpl; [by repeat constructor| |done| | | | |done].
  - intros d Hd. destruct src; simpl; lia.
  - unfold tok_l; simpl. lia.
  - unfold hold_l; simpl. lia.
  - unfold rel_l; simpl. destruct src; simpl; lia.
  - unfold rvk_l; simpl. lia.
Qed.

Lemma revoke_ok d lid c l b l' :
  revoke_handler l = (b, l') →
  change_ok d lid l (MRevoke d lid c) l'
    [if b then MRel d lid (ByRevoke c) else MAcqRep c lid lk_RETRY].
Proof.
  destruct l as [st n rv rt]. unfold revoke_handler; simpl. case_decide as E; intros [= <- <-].
  - subst st. change_tac.
  - change_tac.
Qed.

Lemma release_reply_ok c lid l :
  status l = RELEASING →
  change_ok c lid l (MRelRep c lid ByRelease) (release_reply l) [].
Proof. destruct l as [st n rv rt]. simpl. intros ->. change_tac. Qed.

(** * The server's steps *)
Lemma slk_set s lid l n lid' :
  slk (LServer (<[lid := l]> (ls_locks s)) n) lid' = if decide (lid = lid') then l else slk s lid'.
Proof.
  unfold slk; simpl. case_decide as E; [subst; apply mget_insert_eq|by apply mget_insert_ne].
Qed.

Lemma total_mid f t1 (t : task) t2 :
  total f (t1 ++ t :: t2) = (total f t1 + f t + total f t2)%nat.
Proof. rewrite sum_list_with_app. simpl. lia. Qed.

(** The server's entry changes in a way the counters do not see. *)
Lemma LInv_srv_same lid cl s t1 t t2 s' t' :
  LInv lid cl s (t1 ++ t :: t2) →
  sl_locked (slk s' lid) = sl_locked (slk s lid) → sl_owner (slk s' lid) = sl_owner (slk s lid) →
  sl_revoked (slk s' lid) = sl_revoked (slk s lid) →
  (∀ c, tok_t c lid t' = tok_t c lid t ∧ hold_t c lid t' = hold_t c lid t ∧
        rel_t c lid t' = rel_t c lid t ∧ rvk_t c lid t' = rvk_t c lid t) →
  srv_t lid t' = srv_t lid t →
  LInv lid cl s' (t1 ++ t' :: t2).
Proof.
  intros [H1 H2 H3 H4 H5 H6 H7 H8 H9] El Eo Er Ed Es.
  split; unfold tok, rvk in *; intros; rewrite ?El, ?Eo, ?Er, ?total_mid, ?Es in *;
    try (destruct (Ed c) as (E1 & E2 & E3 & E4)); rewrite ?E1, ?E2, ?E3, ?E4 in *; auto.
  all: repeat match goal with H : ∀ c, _ |- _ => specialize (H c) end; rewrite ?total_mid in *; auto.
Qed.

(** Nobody has a lock that the server says is free. *)
Lemma LInv_free lid cl s ts c :
  LInv lid cl s ts → sl_locked (slk s lid) = false →
  tok lid cl ts c = 0%nat ∧ rvk lid cl ts c = 0%nat ∧ total (srv_t lid) ts = 0%nat ∧
  sl_revoked (slk s lid) = false.
Proof.
  intros [H1 H2 H3 H4 H5 H6 H7 H8 H9] Hf.
  assert (sl_revoked (slk s lid) = false) as Hr.
  { destruct (sl_revoked (slk s lid)); [|done]. apply H8 in H7; congruence. }
  specialize (H5 c). rewrite Hr in H5. unfold b2n in H5. simpl in H5.
  split_and!; try lia; [|done]. specialize (H2 c).
  destruct (tok lid cl ts c); [done|]. destruct H2 as [? _]; [lia|congruence].
Qed.

Lemma LInv_srv_acquire lid0 cl s t1 t2 c lid ret rv s' :
  LInv lid0 cl s (t1 ++ MAcq c lid :: t2) →
  server_acquire lid c s = (ret, rv, s') →
  LInv lid0 cl s' (t1 ++ (if rv : bool then SRevoke c lid else MAcqRep c lid ret) :: t2).
Proof.
  intros HI E. unfold server_acquire in E. fold (slk s lid) in E.
  destruct (decide (lid = lid0)) as [->|Hne].
  2: { apply (LInv_other lid0 cl s t1 (MAcq c lid) t2 cl s'
         [if rv then SRevoke c lid else MAcqRep c lid ret] HI); try done.
       - repeat case_match; simplify_eq; by rewrite slk_set, decide_False.
       - repeat constructor. by destruct rv. }
  destruct (sl_locked (slk s lid0)) eqn:El; simpl in E.
  - assert (∀ d, tok_t d lid0 (MAcqRep c lid0 lk_RETRY) = 0%nat) as Hz
      by (intros; simpl; by rewrite b2n_false by naive_solver).
    case_decide as Eo; [|destruct (sl_revoked (slk s lid0)) eqn:Er]; simplify_eq.
    1,2: eapply LInv_srv_same; [exact HI|rewrite slk_set, decide_True by done; simpl; done..| |done];
      intros d; by rewrite Hz.
    destruct HI as [H1 H2 H3 H4 H5 H6 H7 H8 H9].
    assert (∀ d, rvk lid0 cl (t1 ++ MAcq c lid0 :: t2) d = 0%nat ∧
      total (srv_t lid0) (t1 ++ MAcq c lid0 :: t2) = 0%nat) as Hv.
    { intros d. specialize (H5 d). rewrite Er, (b2n_false (false = true)) in H5 by done. lia. }
    unfold tok, rvk in *.
    split; unfold tok, rvk in *; rewrite ?slk_set, ?decide_True by done; simpl; intros;
      repeat match goal with H : ∀ c : Z, _, d : Z |- _ => specialize (H d) end;
      rewrite ?total_mid in *; simpl in *; auto.
    + split; [done|]. by apply H2.
    + rewrite (b2n_true (lid0 = lid0)), (b2n_true (true = true)) by done. lia.
    + by apply H8.
    + by rewrite H8.
  - destruct (LInv_free lid0 cl s _ c HI El) as (_ & _ & Hs0 & Hr0).
    assert (∀ d, tok lid0 cl (t1 ++ MAcq c lid0 :: t2) d = 0%nat ∧
                 rvk lid0 cl (t1 ++ MAcq c lid0 :: t2) d = 0%nat) as Hz.
    { intros d. by destruct (LInv_free lid0 cl s _ d HI El) as (? & ? & _). }
    destruct HI as [H1 H2 H3 H4 H5 H6 H7 H8 H9]. simplify_eq.
    split; unfold tok, rvk in *; rewrite ?slk_set, ?decide_True by done; simpl; intros;
      repeat match goal with H : ∀ c : Z, _, d : Z |- _ => specialize (H d) end;
      rewrite ?total_mid in *; simpl in *; auto.
    + pose proof (b2n_le (c = c0 ∧ lid0 = lid0 ∧ lk_OK = lk_OK)). lia.
    + split; [done|]. destruct (decide (c = c0)) as [->|]; [done|].
      rewrite b2n_false in H by naive_solver. lia.
    + lia.
    + lia.
    + done.
Qed.

Lemma LInv_srv_revoke lid0 cl s t1 t2 c lid bound d :
  LInv lid0 cl s (t1 ++ SRevoke c lid :: t2) → revoke_target bound lid s = Ret d →
  LInv lid0 cl s (t1 ++ MRevoke d lid c :: t2).
Proof.
  intros HI E. destruct (decide (lid = lid0)) as [->|Hne].
  2: { apply (LInv_other lid0 cl s t1 (SRevoke c lid) t2 cl s [MRevoke d lid c] HI); try done.
       by repeat constructor. }
  unfold revoke_target in E. fold (slk s lid0) in E.
  destruct (sl_owner (slk s lid0)) as [d'|] eqn:Eo; [|done]. destruct bound; [|done]. simplify_eq.
  destruct HI as [H1 H2 H3 H4 H5 H6 H7 H8 H9].
  split; unfold tok, rvk in *; intros;
    repeat match goal with H : ∀ c : Z, _, d : Z |- _ => specialize (H d) end;
    rewrite ?total_mid in *; simpl in *; auto.
  - rewrite (b2n_true (lid0 = lid0)) in H5 by done.
    pose proof (b2n_le (d = c0 ∧ lid0 = lid0)). lia.
  - destruct (decide (d = c0)) as [->|]; [done|]. rewrite b2n_false in H by naive_solver.
    by apply H6.
Qed.

Lemma LInv_srv_release lid0 cl s t1 t2 c lid src ret ws s' :
  LInv lid0 cl s (t1 ++ MRel c lid src :: t2) → server_release lid c s = Ret (ret, ws, s') →
  LInv lid0 cl s' (t1 ++ SRetry c lid src ws :: t2).
Proof.
  intros HI E. unfold server_release in E.
  destruct (ls_locks s !! lid) as [l|] eqn:El; [|done]. simplify_eq.
  destruct (decide (lid = lid0)) as [->|Hne].
  2: { apply (LInv_other lid0 cl s t1 (MRel c lid src) t2 cl _ [SRetry c lid src _] HI); try done.
       - by rewrite slk_set, decide_False.
       - by repeat constructor. }
  destruct HI as [H1 H2 H3 H4 H5 H6 H7 H8 H9].
  assert (sl_owner (slk s lid0) = Some c) as Hown.
  { apply H2. unfold tok. rewrite total_mid. simpl. rewrite b2n_true by done. lia. }
  assert (∀ d, (tok lid0 cl (t1 ++ MRel c lid0 src :: t2) d ≤ b2n (d = c))%nat ∧
               (rvk lid0 cl (t1 ++ MRel c lid0 src :: t2) d ≤ b2n (d = c))%nat) as Hd.
  { intros d. destruct (decide (d = c)) as [->|Hne].
    - rewrite b2n_true by done. specialize (H1 c). specialize (H5 c).
      pose proof (b2n_le (sl_revoked (slk s lid0) = true)). lia.
    - rewrite b2n_false by done. specialize (H2 d). specialize (H6 d).
      split; [destruct (tok _ _ _ d)|destruct (rvk _ _ _ d)]; try lia.
      + destruct H2 as [_ ?]; [lia|congruence].
      + enough (sl_owner (slk s lid0) = Some d) by congruence. apply H6. lia. }
  assert (∀ d, b2n (c = d ∧ lid0 = lid0) = b2n (d = c)) as Eb.
  { intros d. unfold b2n. repeat case_decide; naive_solver. }
  assert (total (srv_t lid0) (t1 ++ MRel c lid0 src :: t2) = 0)%nat as Hsr.
  { specialize (H5 c). unfold rvk in H5. rewrite (total_mid (rvk_t c lid0)) in H5.
    assert (rvk_t c lid0 (MRel c lid0 src) = 1%nat) as E1 by (simpl; by rewrite b2n_true).
    pose proof (b2n_le (sl_revoked (slk s lid0) = true)). lia. }
  split; unfold tok, rvk in *; rewrite ?slk_set, ?decide_True by done; simpl; intros;
    repeat match goal with H : ∀ c : Z, _, d : Z |- _ => specialize (H d) end;
    rewrite ?total_mid in *; simpl in *; rewrite ?Eb in *; auto; try lia.
  all: try (destruct src; simpl in *; rewrite ?Eb in *; lia).
  all: by split; [intros [? ?]|].
Qed.

(** * The invariant holds in every reachable state *)
Definition Linv (x : lsys) : Prop :=
  lids_small (tasks x) ∧ ∀ lid, small lid → LInv lid (clients x) (server x) (tasks x).

Lemma lids_small_mid t1 t t2 ts :
  lids_small (t1 ++ t :: t2) → Forall (λ t', task_lid t' = task_lid t) ts → lids_small (t1 ++ ts ++ t2).
Proof.
  unfold lids_small. rewrite !Forall_app, Forall_cons. intros (H1 & Ht & H2) Hts.
  split; [done|]. split; [|done]. eapply Forall_impl; [exact Hts|]. simpl. by intros ? ->.
Qed.

(** A client step, for all locks at once. *)
Lemma Linv_client x t1 t t2 c lid l' ts ch sh :
  Linv x → tasks x = t1 ++ t :: t2 → change_ok c lid (lk_at x c lid) t l' ts →
  Linv (LSys (<[c := set_lk lid l' (client x c)]> (clients x)) (server x) ch sh (t1 ++ ts ++ t2)).
Proof.
  intros [Hs HI] E Hc. rewrite E in *. destruct (ch_lid _ _ _ _ _ _ Hc) as [Hl Hls].
  assert (small lid) as Hsm.
  { unfold lids_small in Hs. rewrite Forall_app, Forall_cons in Hs. destruct Hs as (_ & ? & _).
    by rewrite <- Hl. }
  split; simpl.
  - eapply lids_small_mid; [exact Hs|]. by rewrite Hl.
  - intros lid0 H0. apply (LInv_client_step lid0 _ _ t1 t t2); auto.
Qed.

Lemma Linv_server x t1 t t2 t' s' ch sh :
  Linv x → tasks x = t1 ++ t :: t2 → task_lid t' = task_lid t →
  (∀ lid, small lid → LInv lid (clients x) (server x) (t1 ++ t :: t2) →
     LInv lid (clients x) s' (t1 ++ t' :: t2)) →
  Linv (LSys (clients x) s' ch sh (t1 ++ t' :: t2)).
Proof.
  intros [Hs HI] E Hl Hstep. rewrite E in *. split; simpl; [|by auto].
  apply (lids_small_mid t1 t t2 [t'] Hs). by repeat constructor.
Qed.

(** While a thread's release call is under way, the status is RELEASING. *)
Lemma releasing_while_called x t1 c lid t2 :
  Linv x → tasks x = t1 ++ MRelRep c lid ByRelease :: t2 → status (lk_at x c lid) = RELEASING.
Proof.
  intros [Hs HI] Et. assert (small lid) as Hl.
  { rewrite Et in Hs. unfold lids_small in Hs. rewrite Forall_app, Forall_cons in Hs.
    by destruct Hs as (_ & ? & _). }
  pose proof (li_rel _ _ _ _ (HI lid Hl) c) as Hr. rewrite Et, total_mid in Hr. simpl in Hr.
  rewrite b2n_true in Hr by done. unfold rel_l, b2n in Hr.
  case_decide as Hd; [exact Hd|lia].
Qed.

Lemma Linv_step x y : lstep x y → lids_small (tasks y) → Linv x → Linv y.
Proof.
  intros Hst Hsm HI.
  destruct Hst as [c lid x|c lid o l x t1 t2 Et _ E|c lid o l x t1 t2 Et _ E
    |c lid ret o l x t1 t2 Et _ E|c lid x t1 t2 Et|c lid o l x t1 t2 Et _ E
    |c lid o l x t1 t2 Et _ E|c lid ret rv s x t1 t2 Et _ E|c lid bd d x t1 t2 Et E
    |d lid c b l x t1 t2 Et _ E|c lid src ret ws s x t1 t2 Et _ E|c lid src bd w d ws x t1 t2 Et _ _
    |c lid src x t1 t2 Et|c lid x t1 t2 Et _|c lid c0 x t1 t2 Et].
  - destruct HI as [_ HI]. split; [done|]. intros lid0 H0.
    by apply (LInv_frame lid0 (clients x) (server x) (tasks x)); auto.
  - eapply (Linv_client _ _ _ _ _ _ _ [_]); [done|done|]. eapply acquire_check_ok; eauto.
  - eapply (Linv_client _ _ _ _ _ _ _ [_]); [done|done|]. eapply add_waiters_ok, acquire_check_ok; eauto.
  - eapply (Linv_client _ _ _ _ _ _ _ [_]); [done|done|]. by apply acquire_reply_ok.
  - eapply Linv_server; [done|done|done|]. intros lid0 _ HL. by eapply LInv_srv_same.
  - eapply Linv_client; [done|done|]. eapply release_check_ok; eauto.
  - eapply Linv_client; [done|done|]. eapply add_waiters_ok, release_check_ok; eauto.
  - eapply Linv_server; [done|done|by destruct rv|]. intros lid0 _ HL. by eapply LInv_srv_acquire.
  - eapply Linv_server; [done|done|done|]. intros lid0 _ HL. by eapply LInv_srv_revoke.
  - eapply (Linv_client _ _ _ _ _ _ _ [_]); [done|done|]. by apply revoke_ok.
  - eapply Linv_server; [done|done|done|]. intros lid0 _ HL. by eapply LInv_srv_release.
  - eapply (Linv_client _ _ _ _ _ _ _ [_]); [done|done|]. apply retry_ok.
  - eapply Linv_server; [done|done|done|]. intros lid0 _ HL. eapply LInv_srv_same; [done..| |done].
    intros d. by destruct src.
  - eapply (Linv_client _ _ _ _ _ _ _ []); [done|done|]. apply release_reply_ok.
    by eapply releasing_while_called.
  - eapply Linv_server; [done|done|done|]. intros lid0 _ HL. eapply LInv_srv_same; [done..| |done].
    intros d. simpl. rewrite ?b2n_false by naive_solver. done.
Qed.

(** Runs in which lock ids fit the clients' keys. *)
Definition lreach (n : Z) : lsys → Prop :=
  rtc (λ x y, lstep x y ∧ lids_small (tasks y)) (lsys_new n).

Lemma Linv_init n : Linv (lsys_new n).
Proof.
  assert (∀ c lid, lkc ∅ c lid = lk_new) as El
    by (intros; unfold lkc, lk_of, mget; by rewrite !lookup_empty).
  split; [constructor|]. intros lid Hl. split; simpl.
  all: unfold tok, rvk, slk, mget; simpl; rewrite ?lookup_empty; simpl; intros; rewrite ?El in *;
    unfold tok_l, hold_l, rel_l, rvk_l, b2n in *; simpl in *; try lia; try done.
Qed.

Lemma lreach_inv n x : lreach n x → Linv x.
Proof.
  intros H. pose proof (Linv_init n) as HI. unfold lreach in H.
  remember (lsys_new n) as x0 eqn:E0. clear E0.
  induction H as [|x y z [Hs Hl] _ IH]; [done|]. apply IH. by eapply Linv_step.
Qed.

(** ** An executable scheduler *)

(** What the scheduler does: start an acquire, or run the task at an index. *)
Inductive act := New (c lid : Z) | Run (i : nat).

Definition guard_free (x : lsys) (c lid : Z) (y : option lsys) : option lsys :=
  if decide ((c, lk_key lid) ∈ cheld x) then None else y.

Definition res_opt {A} (r : res A) : option A := match r with Ret a => Some a | _ => None end.

Definition run_task (x : lsys) (t1 : list task) (t : task) (t2 : list task) : option lsys :=
  let put cl s ch sh ts := Some (LSys cl s ch sh (t1 ++ ts ++ t2)) in
  let acq c lid r := guard_free x c lid ('(o, l) ← res_opt r;
    Some (upd x c lid l (t1 ++ after_acquire o c lid :: t2))) in
  let rel c lid r := guard_free x c lid ('(o, l) ← res_opt r;
    Some (upd x c lid l (t1 ++ after_release o c lid ++ t2))) in
  match t with
  | TAcq c lid => acq c lid (acquire_check (lk_at x c lid))
  | TWait c lid => acq c lid (acquire_wake (lk_at x c lid))
  | MAcqRep c lid ret => acq c lid (acquire_reply ret (lk_at x c lid))
  | THold c lid => put (clients x) (server x) (cheld x) (sheld x) [TRel c lid]
  | TRel c lid => rel c lid (release_check (lk_at x c lid))
  | TRelWait c lid => rel c lid (release_wake (lk_at x c lid))
  | MAcq c lid =>
      if decide (lid ∈ sheld x) then None
      else let '(ret, rv, s) := server_acquire lid c (server x) in
           put (clients x) s (cheld x) (sheld x)
             [if rv : bool then SRevoke c lid else MAcqRep c lid ret]
  | SRevoke c lid =>
      d ← res_opt (revoke_target true lid (server x));
      put (clients x) (server x) (cheld x) (sheld x) [MRevoke d lid c]
  | MRevoke d lid c =>
      guard_free x d lid
        (let '(b, l) := revoke_handler (lk_at x d lid) in
         put (<[d := set_lk lid l (client x d)]> (clients x)) (server x)
           (if b : bool then {[(d, lk_key lid)]} ∪ cheld x else cheld x) (sheld x)
           [if b then MRel d lid (ByRevoke c) else MAcqRep c lid lk_RETRY])
  | MRel c lid src =>
      if decide (lid ∈ sheld x) then None
      else '(ret, ws, s) ← res_opt (server_release lid c (server x));
           put (clients x) s (cheld x) ({[lid]} ∪ sheld x) [SRetry c lid src ws]
  | SRetry c lid src (w :: ws) =>
      guard_free x w lid
        (Some (upd x w lid (retry_handler (lk_at x w lid)) (t1 ++ SRetry c lid src ws :: t2)))
  | SRetry c lid src [] => put (clients x) (server x) (cheld x) (sheld x ∖ {[lid]}) [MRelRep c lid src]
  | MRelRep c lid ByRelease =>
      guard_free x c lid (Some (upd x c lid (release_reply (lk_at x c lid)) (t1 ++ t2)))
  | MRelRep c lid (ByRevoke c0) =>
      put (clients x) (server x) (cheld x ∖ {[(c, lk_key lid)]}) (sheld x) [MAcqRep c0 lid lk_RETRY]
  end.

Definition run_act (a : act) (x : lsys) : option lsys :=
  match a with
  | New c lid => Some (LSys (clients x) (server x) (cheld x) (sheld x) (TAcq c lid :: tasks x))
  | Run i => t ← tasks x !! i; run_task x (take i (tasks x)) t (drop (S i) (tasks x))
  end.

Fixpoint run_acts (acts : list act) (x : lsys) : option lsys :=
  match acts with [] => Some x | a :: acts => y ← run_act a x; run_acts acts y end.

Lemma guard_free_Some x c lid o y :
  guard_free x c lid o = Some y → mutex_free x c lid ∧ o = Some y.
Proof. unfold guard_free, mutex_free. by case_decide. Qed.

Lemma run_task_sound x t1 t t2 y :
  tasks x = t1 ++ t :: t2 → run_task x t1 t t2 = Some y → lstep x y.
Proof.
  intros Et. destruct t; simpl; intros H.
  all: try (destruct ws); try (destruct src).
  all: try (apply guard_free_Some in H as [Hf H]).
  all: try (case_decide as Hd; [done|]).
  all: try match type of H with context [server_acquire ?a ?b ?s] =>
             destruct (server_acquire a b s) as [[ret rv] s'] eqn:E end.
  all: try match type of H with context [revoke_handler ?l] =>
             destruct (revoke_handler l) as [b l'] eqn:E end.
  all: try match type of H with context [res_opt ?r] =>
             destruct r as [[[? ?] ?]| | | |] eqn:E; try done end.
  all: try match type of H with context [res_opt ?r] =>
             destruct r as [[? ?]| | | |] eqn:E; try done end.
  all: try match type of H with context [res_opt ?r] =>
             destruct r as [?| | | |] eqn:E; try done end.
  all: simpl in H; injection H as <-;
    first [solve [eapply LWake; eauto] | solve [eapply LRelWake; eauto]
          | solve [eapply LAcqRep; eauto] | solve [eapply (LRetry _ _ _ true); eauto] | econstructor; by eauto].
Qed.

Lemma run_act_sound a x y : run_act a x = Some y → lstep x y.
Proof.
  destruct a as [c lid|i]; simpl; [intros [= <-]; apply LNew|].
  destruct (tasks x !! i) as [t|] eqn:Et; [|done]. simpl. intros E.
  eapply run_task_sound; [|exact E]. symmetry. by apply take_drop_middle.
Qed.

Lemma run_acts_sound acts x y : run_acts acts x = Some y → rtc lstep x y.
Proof.
  revert x. induction acts as [|a acts IH]; simpl; intros x H; [injection H as ->; apply rtc_refl|].
  destruct (run_act a x) as [x'|] eqn:E; [|done]. simpl in H. eapply rtc_l; [|by apply IH].
  by apply (run_act_sound a).
Qed.

(** ** A lost lock stays lost *)

(** The server has given the lock away, and it is nowhere. *)
Definition lost (lid : Z) (x : lsys) : Prop :=
  sl_locked (slk (server x) lid) = true ∧ ∀ c, tok lid (clients x) (tasks x) c = 0%nat.

Lemma client_tok_le lid0 x t1 t t2 c lid l' ts d :
  small lid0 → Linv x → tasks x = t1 ++ t :: t2 → change_ok c lid (lk_at x c lid) t l' ts →
  (tok lid0 (<[c := set_lk lid l' (client x c)]> (clients x)) (t1 ++ ts ++ t2) d
   ≤ tok lid0 (clients x) (tasks x) d)%nat.
Proof.
  intros H0 [Hs _] E [[Hl Hls] Hd _ Ct _ _ _ _]. rewrite E in *. unfold tok.
  assert (small lid) as Hsm.
  { unfold lids_small in Hs. rewrite Forall_app, Forall_cons in Hs. destruct Hs as (_ & ? & _).
    by rewrite <- Hl. }
  rewrite total_mid, !sum_list_with_app. unfold client. rewrite lkc_set by done.
  destruct (decide (lid = lid0)) as [->|Hne].
  - destruct (decide (d = c)) as [->|Hdc].
    + rewrite decide_True by done. unfold lk_at, client in Ct. fold (lkc (clients x) c lid0) in Ct. lia.
    + rewrite decide_False by naive_solver. destruct (Hd d Hdc) as (-> & _). lia.
  - rewrite decide_False by naive_solver.
    assert (Forall (λ t, task_lid t ≠ lid0) ts) as Ho
      by (eapply Forall_impl; [exact Hls|]; simpl; congruence).
    pose proof (other_locks_zero d lid0 ts Ho). lia.
Qed.

Lemma lost_client lid0 x t1 t t2 c lid l' ts ch sh :
  small lid0 → Linv x → tasks x = t1 ++ t :: t2 → change_ok c lid (lk_at x c lid) t l' ts →
  lost lid0 x →
  lost lid0 (LSys (<[c := set_lk lid l' (client x c)]> (clients x)) (server x) ch sh (t1 ++ ts ++ t2)).
Proof.
  intros H0 HI E Hc [Hl Hz]. split; [done|]. intros d. simpl.
  pose proof (client_tok_le lid0 x t1 t t2 c lid l' ts d H0 HI E Hc). specialize (Hz d). lia.
Qed.

Lemma lost_server lid0 x t1 t t2 t' s' ch sh :
  tasks x = t1 ++ t :: t2 → lost lid0 x →
  (sl_locked (slk (server x) lid0) = true → sl_locked (slk s' lid0) = true) →
  (∀ c, (tok_t c lid0 t' ≤ tok_t c lid0 t)%nat) →
  lost lid0 (LSys (clients x) s' ch sh (t1 ++ t' :: t2)).
Proof.
  intros E [Hl Hz] Hs Ht. rewrite E in *. split; simpl; [by auto|]. intros c.
  specialize (Hz c). specialize (Ht c). unfold tok in *. rewrite total_mid in *. lia.
Qed.

Lemma lost_step lid0 x y : small lid0 → lstep x y → Linv x → lost lid0 x → lost lid0 y.
Proof.
  intros H0 Hst HI HL.
  destruct Hst as [c lid x|c lid o l x t1 t2 Et _ E|c lid o l x t1 t2 Et _ E
    |c lid ret o l x t1 t2 Et _ E|c lid x t1 t2 Et|c lid o l x t1 t2 Et _ E
    |c lid o l x t1 t2 Et _ E|c lid ret rv s x t1 t2 Et _ E|c lid bd d x t1 t2 Et E
    |d lid c b l x t1 t2 Et _ E|c lid src ret ws s x t1 t2 Et _ E|c lid src bd w d ws x t1 t2 Et _ _
    |c lid src x t1 t2 Et|c lid x t1 t2 Et _|c lid c0 x t1 t2 Et].
  - exact HL.
  - eapply (lost_client _ _ _ _ _ _ _ _ [_]); [done|done|done| |done]. eapply acquire_check_ok; eauto.
  - eapply (lost_client _ _ _ _ _ _ _ _ [_]); [done|done|done| |done].
    eapply add_waiters_ok, acquire_check_ok; eauto.
  - eapply (lost_client _ _ _ _ _ _ _ _ [_]); [done|done|done| |done]. by apply acquire_reply_ok.
  - eapply lost_server; [done|done|done|]. done.
  - eapply lost_client; [done|done|done| |done]. eapply release_check_ok; eauto.
  - eapply lost_client; [done|done|done| |done]. eapply add_waiters_ok, release_check_ok; eauto.
  - unfold server_acquire in E. fold (slk (server x) lid) in E.
    destruct (decide (lid = lid0)) as [->|Hne].
    + destruct HL as [Hl Hz]. rewrite Hl in E. simpl in E.
      eapply lost_server; [done|done| |].
      * intros _. repeat case_match; simplify_eq; by rewrite slk_set, decide_True.
      * intros d. repeat case_match; simplify_eq; simpl; rewrite ?b2n_false by naive_solver; lia.
    + eapply lost_server; [done|done| |].
      * intros Hl. repeat case_match; simplify_eq; by rewrite slk_set, decide_False.
      * intros d. destruct rv; simpl; rewrite ?b2n_false by naive_solver; lia.
  - eapply lost_server; [done|done|done|]. done.
  - eapply (lost_client _ _ _ _ _ _ _ _ [_]); [done|done|done| |done]. by apply revoke_ok.
  - destruct (decide (lid = lid0)) as [->|Hne].
    + destruct HL as [_ Hz]. specialize (Hz c). unfold tok in Hz. rewrite Et, total_mid in Hz.
      simpl in Hz. rewrite b2n_true in Hz by done. lia.
    + eapply lost_server; [done|done| |].
      * intros Hl. unfold server_release in E. case_match; simplify_eq. by rewrite slk_set, decide_False.
      * intros d. simpl. lia.
  - eapply (lost_client _ _ _ _ _ _ _ _ [_]); [done|done|done| |done]. apply retry_ok.
  - eapply lost_server; [done|done|done|]. done.
  - eapply (lost_client _ _ _ _ _ _ _ _ []); [done|done|done| |done]. apply release_reply_ok.
    by eapply releasing_while_called.
  - eapply lost_server; [done|done|done|]. intros d. simpl. rewrite b2n_false by naive_solver. lia.
Qed.

(** * Theorems *)
Lemma total_one (f : task → nat) ts i t : ts !! i = Some t → (f t ≤ total f ts)%nat.
Proof.
  intros H. rewrite <- (take_drop_middle ts i t H), sum_list_with_app. simpl. lia.
Qed.

Lemma total_two (f : task → nat) ts i j a b :
  ts !! i = Some a → ts !! j = Some b → (i < j)%nat → (f a + f b ≤ total f ts)%nat.
Proof.
  intros Ha Hb Hij. rewrite <- (take_drop_middle ts i a Ha), sum_list_with_app. simpl.
  pose proof (total_one f (drop (S i) ts) (j - S i) b) as H.
  rewrite lookup_drop in H. replace (S i + (j - S i))%nat with j in H by lia.
  specialize (H Hb). lia.
Qed.

(** A thread that holds the lock: its client's status, and the server's view. *)
Lemma hold_owner n x lid i c :
  lreach n x → small lid → (tasks x !! i = Some (THold c lid) ∨ tasks x !! i = Some (TRel c lid)) ∨ tasks x !! i = Some (TRelWait c lid) →
  status (lk_at x c lid) = LOCKED ∧ sl_owner (slk (server x) lid) = Some c.
Proof.
  intros [_ HI]%lreach_inv Hl Hi. specialize (HI lid Hl).
  assert (1 ≤ total (hold_t c lid) (tasks x))%nat as H1.
  { destruct Hi as [[Hi|Hi]|Hi]; eapply (total_one (hold_t c lid)) in Hi; simpl in Hi;
      rewrite b2n_true in Hi by done; lia. }
  pose proof (li_hold _ _ _ _ HI c) as Hh. unfold hold_l, b2n in Hh. case_decide as Hst; [|lia].
  split; [exact Hst|]. apply (li_own _ _ _ _ HI). unfold tok, tok_l.
  rewrite b2n_true by auto. lia.
Qed.

(** Two threads that hold a lock are one. *)
Lemma hold_unique n x lid i j c d :
  lreach n x → small lid → tasks x !! i = Some (THold c lid) → tasks x !! j = Some (THold d lid) → i = j ∧ c = d.
Proof.
  intros Hr Hl Hi Hj.
  destruct (hold_owner n x lid i c Hr Hl (or_introl (or_introl Hi))) as [_ Ho].
  destruct (hold_owner n x lid j d Hr Hl (or_introl (or_introl Hj))) as [_ Ho'].
  assert (c = d) as <- by congruence. split; [|done].
  apply lreach_inv in Hr as [_ HI]. pose proof (li_hold _ _ _ _ (HI lid Hl) c) as Hh.
  assert (hold_l (lkc (clients x) c lid) ≤ 1)%nat by apply b2n_le.
  assert (hold_t c lid (THold c lid) = 1)%nat as E1 by (simpl; by rewrite b2n_true).
  destruct (decide (i = j)) as [|Hne]; [done|exfalso].
  assert (i < j ∨ j < i)%nat as [Hij|Hij] by lia.
  - pose proof (total_two (hold_t c lid) _ _ _ _ _ Hi Hj Hij). lia.
  - pose proof (total_two (hold_t c lid) _ _ _ _ _ Hj Hi Hij). lia.
Qed.

(** C1.  Mutual exclusion: at any time at most one thread, of all threads of
    all clients, holds a lock, and the server knows its client as the owner. *)
Theorem mutual_exclusion (n : Z) (x : lsys) (lid : Z) (i j : nat) (c d : Z) :
  lreach n x → small lid →
  tasks x !! i = Some (THold c lid) → tasks x !! j = Some (THold d lid) →
  i = j ∧ c = d ∧ sl_owner (slk (server x) lid) = Some c.
Proof.
  intros Hr Hl Hi Hj. destruct (hold_unique n x lid i j c d Hr Hl Hi Hj) as [? ?]. split_and!; [done|done|].
  by apply (hold_owner n x lid i c Hr Hl (or_introl (or_introl Hi))).
Qed.


(** The request to give a lock back always goes to the client that owns
    it, although the server reads the owner after giving up its mutex; and only
    the owner's release reaches the server, which does not check it. *)
Theorem revoke_reaches_owner (n : Z) (x : lsys) (t : task) :
  lreach n x → t ∈ tasks x →
  match t with
  | MRevoke d lid _ => sl_owner (slk (server x) lid) = Some d
  | MRel d lid _ => sl_locked (slk (server x) lid) = true ∧ sl_owner (slk (server x) lid) = Some d
  | _ => True
  end.
Proof.
  intros Hr [i Hi]%list_elem_of_lookup_1. pose proof (lreach_inv n x Hr) as [Hs HI].
  assert (small (task_lid t)) as Hl by (eapply Forall_lookup_1 in Hs; eauto).
  pose proof (HI _ Hl) as HL. destruct t; simpl in *; try done.
  - apply (li_rvo _ _ _ _ HL). pose proof (total_one (rvk_t d lid) _ _ _ Hi) as H1. simpl in H1.
    rewrite b2n_true in H1 by done. unfold rvk. lia.
  - apply (li_own _ _ _ _ HL). pose proof (total_one (tok_t c lid) _ _ _ Hi) as H1. simpl in H1.
    rewrite b2n_true in H1 by done. unfold tok. lia.
Qed.

(** The run that loses a lock: two threads of client 2 have an acquire call
    under way at the same time, because a retry request reached the client while
    the first call was under way. *)
Definition lost_run : list act :=
  [New 1 1; Run 0; Run 0; Run 0] ++
  [New 2 1; Run 0; Run 0; Run 0; Run 0; Run 0; New 2 1; Run 0] ++
  replicate 6 (Run 2) ++
  [Run 1; New 1 1; Run 0; Run 0; Run 0] ++
  [New 3 1; Run 0; Run 0; Run 0; Run 0; Run 0] ++
  replicate 7 (Run 1) ++
  [Run 1; Run 2; Run 2] ++ replicate 5 (Run 0) ++
  replicate 6 (Run 2) ++ [Run 1; Run 1].

(** The run stays within lock ids that fit the clients' keys. *)
Fixpoint small_run (acts : list act) (x : lsys) : bool :=
  match acts with
  | [] => true
  | a :: acts =>
      match run_act a x with
      | Some y => forallb (λ t, (0 <=? task_lid t) && (task_lid t <? 2 ^ 31)) (tasks y) && small_run acts y
      | None => false
      end
  end.

Lemma small_run_lreach acts x y :
  small_run acts x = true → run_acts acts x = Some y →
  rtc (λ x y, lstep x y ∧ lids_small (tasks y)) x y.
Proof.
  revert x. induction acts as [|a acts IH]; simpl; intros x Hs H; [injection H as ->; apply rtc_refl|].
  destruct (run_act a x) as [x'|] eqn:E; [|done]. simpl in H.
  apply andb_true_iff in Hs as [Hl Hs]. eapply rtc_l; [split|by apply IH].
  - by apply (run_act_sound a).
  - apply Forall_forall. intros t Ht. rewrite forallb_forall in Hl.
    apply list_elem_of_In in Ht. apply Hl, andb_true_iff in Ht as [? ?]. zbool. split; lia.
Qed.

Lemma run_reached acts n y :
  small_run acts (lsys_new n) = true → run_acts acts (lsys_new n) = Some y → lreach n y.
Proof. apply small_run_lreach. Qed.

(** A lock can be lost for good: there is a run after which the server
    says that client 2 owns the lock while the client does not know, and from
    then on no thread of any client ever holds the lock again. *)
Theorem lock_lost_forever :
  ∃ x, lreach 0 x ∧ sl_owner (slk (server x) 1) = Some 2 ∧ status (lk_at x 2 1) = ACQUIRING ∧
    ∀ y, rtc (λ x y, lstep x y ∧ lids_small (tasks y)) x y → ∀ c, THold c 1 ∉ tasks y.
Proof.
  destruct (run_acts lost_run (lsys_new 0)) as [x|] eqn:E; [|by vm_compute in E].
  assert (lreach 0 x) as Hr by (eapply run_reached; [|exact E]; vm_compute; reflexivity).
  exists x. split; [done|].
  assert (lost 1 x ∧ sl_owner (slk (server x) 1) = Some 2 ∧ status (lk_at x 2 1) = ACQUIRING) as (HL & Ho & Hst).
  { assert (map_Forall (λ _ cl, tok_l (lk_of cl 1) = 0%nat) (clients x) ∧
            tasks x = [TWait 3 1; MAcq 2 1]) as [Hc Ht].
    { vm_compute in E. injection E as <-. split; [|reflexivity].
      by_vm. }
    split; [|vm_compute in E; injection E as <-; by split; vm_compute].
    split; [vm_compute in E; injection E as <-; reflexivity|]. intros c. unfold tok. rewrite Ht. simpl.
    unfold lkc, mget. destruct (clients x !! c) as [cl|] eqn:Ec; simpl.
    - rewrite (Hc c cl Ec). done.
    - unfold lk_of, mget. by rewrite lookup_empty. }
  split; [done|]. split; [done|]. intros y Hy.
  assert (Linv x) as HI by by eapply lreach_inv. assert (small 1) as H1 by (unfold small; lia).
  clear E Hr Ho Hst.
  assert (lost 1 y ∧ Linv y) as [[_ Hz] [_ HI']].
  { induction Hy as [|x y z [Hs Hl] _ IH]; [done|]. apply IH; eauto using lost_step, Linv_step. }
  intros c [i Hi]%list_elem_of_lookup_1. specialize (HI' 1 H1).
  pose proof (total_one (hold_t c 1) _ _ _ Hi) as Ht. simpl in Ht. rewrite b2n_true in Ht by done.
  pose proof (li_hold _ _ _ _ HI' c) as Hh. specialize (Hz c). unfold tok, tok_l in Hz.
  unfold hold_l, b2n in Hh. case_decide as Hst; [|lia].
  rewrite b2n_true in Hz by auto. lia.
Qed.

(** Locks whose ids agree modulo 2^32 are confused by the clients, whose
    maps are keyed by [int]: two clients hold the same lock. *)
Theorem truncated_ids_break_exclusion :
  ∃ x, rtc lstep (lsys_new 0) x ∧
    THold 1 (1 + 2 ^ 32) ∈ tasks x ∧ THold 2 (1 + 2 ^ 32) ∈ tasks x.
Proof.
  destruct (run_acts ([New 1 1; Run 0; Run 0; Run 0; Run 0; Run 0] ++
    [New 1 (1 + 2 ^ 32); Run 0; New 2 (1 + 2 ^ 32); Run 0; Run 0; Run 0]) (lsys_new 0))
    as [x|] eqn:E; [|by vm_compute in E].
  exists x. split; [by eapply run_acts_sound|].
  vm_compute in E. injection E as <-. split; [right; left|left].
Qed.

(** ** Concrete runs *)
Definition ex_lock_run : list act :=
  [New 1 7; Run 0; Run 0; Run 0; New 2 7; Run 0; Run 0].

Definition ex_locks : lsys := default (lsys_new 0) (run_acts ex_lock_run (lsys_new 0)).

Lemma ex_locks_reached : lreach 0 ex_locks.
Proof. apply (run_reached ex_lock_run); vm_compute; reflexivity. Qed.

Lemma mutual_exclusion_witness :
  tasks ex_locks = [SRevoke 2 7; THold 1 7] ∧ sl_owner (slk (server ex_locks) 7) = Some 1.
Proof.
  split; [vm_compute; reflexivity|].
  apply (mutual_exclusion 0 ex_locks 7 1 1 1 1);
    [exact ex_locks_reached|unfold small; lia|vm_compute; reflexivity|vm_compute; reflexivity].
Defined.


Lemma revoke_reaches_owner_witness :
  ∃ x, run_acts [Run 0] ex_locks = Some x ∧ sl_owner (slk (server x) 7) = Some 1.
Proof.
  destruct (run_acts [Run 0] ex_locks) as [x|] eqn:E; [|by vm_compute in E].
  exists x. split; [reflexivity|].
  apply (revoke_reaches_owner 0 x (MRevoke 1 7 2)).
  - apply (run_reached (ex_lock_run ++ [Run 0])); [vm_compute; reflexivity|].
    rewrite <- E. vm_compute. reflexivity.
  - vm_compute in E. injection E as <-. left.
Defined.
