(* ===== verification/Coherence.v ===== *)
(** The caches of several file system clients over one extent server, kept
    together by the locks (lock_flush_cache in yfs_client.cc, the calls of
    dorelease in lock_client_cache.cc).

    A block is read and written by a thread that holds the lock of its number.
    dorelease(lid) flushes the block; lock_client_cache calls it right before the
    call of the server's release, with the mutex of the lock held, so it belongs
    to the step that puts this call under way.  Calls to the extent server are
    answered.  At every step the memory of a new cache entry holds something
    else; its dirty flag is never initialised, so that flushing a block that the
    client does not cache may write garbage, which is an event of the run. *)
From S2P Require Import Prelude Marshall ExtentServer ExtentCache LockServer LockCache LockProtocol.
Local Open Scope Z_scope.

Record csys := CSys { locks : lsys; caches : gmap Z (gmap Z Cache); cdisk : list Z }.

Definition csys_new (n : Z) (f : list Z) : csys := CSys (lsys_new n) ∅ f.

(** The cache of client [c] over the common disk. *)
Definition ecache_of (s : csys) (c : Z) : ecache := ECache (mget ∅ (caches s) c) (cdisk s).

Definition with_ecache (x : lsys) (s : csys) (c : Z) (e : ecache) : csys :=
  CSys x (<[c := cache_map e]> (caches s)) (disk e).

(** Calls of the server's release of [lid] by client [c] under way. *)
Definition mrel_t (c lid : Z) (t : task) : nat :=
  match t with MRel c' lid' _ => b2n (c' = c ∧ lid' = lid) | _ => 0 end.

Definition keeps (x y : lsys) : Prop :=
  ∀ c lid, (total (mrel_t c lid) (tasks y) ≤ total (mrel_t c lid) (tasks x))%nat.

Definition gives_back (x y : lsys) (c lid : Z) : Prop :=
  ∀ c' lid', total (mrel_t c' lid') (tasks y)
             = (total (mrel_t c' lid') (tasks x) + b2n (c = c' ∧ lid = lid'))%nat.

Inductive cevent :=
  | ERead (c lid : Z) (b : list Z)
  | EWrite (c lid : Z) (b : list Z)
  | EGarbage (c lid : Z) (b : list Z). (* a flush of what new memory held *)

(** lock_flush_cache::dorelease *)
Definition dorelease (g : garbage) (lid : Z) (e : ecache) : res (Z * ecache) := cache_flush g Answered BSIZE lid e.

(** The flush of a block that client [c] does not cache. *)
Definition flushed_garbage (g : garbage) (s : csys) (c lid : Z) : list cevent :=
  match mget ∅ (caches s) c !! lid with
  | Some _ => []
  | None => if g_dirty g then [EGarbage c lid (g_data g)] else []
  end.

Inductive cstep (s : csys) : list cevent → csys → Prop :=
  | CLock y :
      lstep (locks s) y → lids_small (tasks y) → keeps (locks s) y →
      cstep s [] (CSys y (caches s) (cdisk s))
  | CGiveBack g y c lid ret e :
      lstep (locks s) y → lids_small (tasks y) → gives_back (locks s) y c lid → is_block (g_data g) →
      dorelease g lid (ecache_of s c) = Ret (ret, e) → cstep s (flushed_garbage g s c lid) (with_ecache y s c e)
  | CRead g c lid ret b e :
      THold c lid ∈ tasks (locks s) → cache_get g Answered lid (ecache_of s c) = Ret (ret, b, e) →
      cstep s [ERead c lid b] (with_ecache (locks s) s c e)
  | CWrite g c lid buf ret e :
      THold c lid ∈ tasks (locks s) → is_block buf → cache_put g lid buf (ecache_of s c) = Ret (ret, e) →
      cstep s [EWrite c lid buf] (with_ecache (locks s) s c e).

Inductive cruns (s : csys) : list cevent → csys → Prop :=
  | cr_nil : cruns s [] s
  | cr_step evs s1 ev s2 : cruns s evs s1 → cstep s1 ev s2 → cruns s (evs ++ ev) s2.

(** ** Every step of the locks is a step of the whole *)
Lemma total_mids f (t1 t2 ts : list task) : total f (t1 ++ ts ++ t2) = (total f t1 + total f ts + total f t2)%nat.
Proof. rewrite !sum_list_with_app. lia. Qed.

Lemma lstep_cases x y : lstep x y → keeps x y ∨ ∃ c lid, gives_back x y c lid.
Proof.
  intros Hs. destruct Hs; simpl in *; unfold keeps, gives_back; simpl.
  all: try (match goal with H : tasks ?x = _ |- _ => rewrite H end).
  1: (left; intros; lia).
  all: repeat setoid_rewrite total_mid; repeat setoid_rewrite total_mids; simpl.
  all: try (left; intros; destruct o; simpl; lia).
  all: try (left; intros; simpl; lia).
  1,2: destruct o; [left|right; exists c, lid|left]; intros; simpl; lia.
  - left. intros. destruct rv; simpl; lia.
  - destruct b; [right; exists d, lid|left]; intros; simpl; lia.
  - left. intros. rewrite sum_list_with_app. lia.
Qed.

(** ** A client loses a lock only by giving it back *)
Lemma tok_l_status l : tok_l l = 1%nat ↔ status l = FREE ∨ status l = LOCKED.
Proof. unfold tok_l, b2n. by case_decide. Qed.

Lemma acquire_check_tok l o l' : acquire_check l = Ret (o, l') → tok_l l = 1%nat → tok_l l' = 1%nat.
Proof.
  intros E [Hs|Hs]%tok_l_status; unfold acquire_check in E; rewrite Hs in E; injection E as <- <-;
    apply tok_l_status; by right.
Qed.

Lemma acquire_wake_tok l o l' : acquire_wake l = Ret (o, l') → tok_l l = 1%nat → tok_l l' = 1%nat.
Proof. intros E Ht. by apply (acquire_check_tok _ _ _ E). Qed.

Lemma acquire_reply_tok ret l o l' : acquire_reply ret l = Ret (o, l') → tok_l l = 1%nat → tok_l l' = 1%nat.
Proof.
  intros E Ht. apply (acquire_check_tok _ _ _ E). destruct (_ && _); [|done]. apply tok_l_status. by left.
Qed.

Lemma release_check_tok l o l' :
  release_check l = Ret (o, l') → tok_l l = 1%nat → tok_l l' = 1%nat ∨ o = CallServer.
Proof.
  intros E [Hs|Hs]%tok_l_status; unfold release_check in E; rewrite Hs in E; [done|].
  destruct (revoked l && _); injection E as <- <-; [by right|]. left. apply tok_l_status. by left.
Qed.

Lemma release_wake_tok l o l' :
  release_wake l = Ret (o, l') → tok_l l = 1%nat → tok_l l' = 1%nat ∨ o = CallServer.
Proof. intros E Ht. by apply (release_check_tok _ _ _ E). Qed.

Lemma lk_at_upd x c lid l ts d lid' :
  small lid → small lid' →
  lk_at (upd x c lid l ts) d lid' = if decide (d = c ∧ lid = lid') then l else lk_at x d lid'.
Proof. apply lkc_set. Qed.

Lemma task_small x t1 t t2 : Linv x → tasks x = t1 ++ t :: t2 → small (task_lid t).
Proof. intros [Hs _] E. rewrite E in Hs. by apply Forall_app in Hs as [_ [? _]%Forall_cons]. Qed.

Definition gained (x y : lsys) (c lid : Z) : Prop :=
  (total (mrel_t c lid) (tasks x) < total (mrel_t c lid) (tasks y))%nat.

Lemma lstep_tok x y c lid :
  small lid → Linv x → lstep x y → tok_l (lk_at x c lid) = 1%nat →
  tok_l (lk_at y c lid) = 1%nat ∨ gained x y c lid.
Proof.
  intros Hl HI Hs Ht. unfold gained.
  destruct Hs as [|c0 lid0 o l x t1 t2 Et _ E|c0 lid0 o l x t1 t2 Et _ E|c0 lid0 ret o l x t1 t2 Et _ E| |
    c0 lid0 o l x t1 t2 Et _ E|c0 lid0 o l x t1 t2 Et _ E| | |d lid0 c0 b l x t1 t2 Et _ E| |
    c0 lid0 src bd w w' ws x t1 t2 Et _ _| |c0 lid0 x t1 t2 Et _|]; try (by left).
  all: pose proof (task_small _ _ _ _ HI Et) as Hsm; simpl in Hsm.
  all: rewrite ?lk_at_upd by done.
  6: match goal with |- context [lk_at (LSys ?cl _ _ _ _) c lid] =>
       change (lk_at (LSys cl _ _ _ _) c lid) with (lkc cl c lid) end; unfold client; rewrite lkc_set by done.
  all: case_decide as Hd; [destruct Hd as [-> ->]|by left].
  - left. eauto using acquire_check_tok.
  - left. eauto using acquire_wake_tok.
  - left. eauto using acquire_reply_tok.
  - destruct (release_check_tok _ _ _ E Ht) as [?| ->]; [by left|]. right. simpl. rewrite Et, !total_mid.
    simpl. rewrite b2n_true by done. lia.
  - destruct (release_wake_tok _ _ _ E Ht) as [?| ->]; [by left|]. right. simpl. rewrite Et, !total_mid.
    simpl. rewrite b2n_true by done. lia.
  - unfold revoke_handler in E. case_decide as Hst; injection E as <- <-; [|by left].
    right. simpl. rewrite Et, !total_mid. simpl. rewrite b2n_true by done. lia.
  - by left.
  - exfalso. destruct HI as [_ HI]. pose proof (li_rel _ _ _ _ (HI _ Hl) c0) as Hr.
    rewrite Et, total_mid in Hr. simpl in Hr. rewrite b2n_true in Hr by done.
    change (lkc (clients x) c0 lid) with (lk_at x c0 lid) in Hr. unfold rel_l in Hr.
    apply tok_l_status in Ht as [Hs|Hs]; rewrite Hs, b2n_false in Hr by done; lia.
Qed.

(** ** The contents of the blocks *)

(** What was written last to a block, garbage included, or what the disk held at
    the start. *)
Definition latest (f : list Z) (evs : list cevent) (lid : Z) : option (list Z) :=
  foldl (λ acc ev, match ev with
                   | EWrite _ lid' b | EGarbage _ lid' b => if decide (lid' = lid) then Some b else acc
                   | ERead _ _ _ => acc
                   end) (file_view f lid) evs.

Lemma latest_read f evs c lid b lid' : latest f (evs ++ [ERead c lid b]) lid' = latest f evs lid'.
Proof. unfold latest. by rewrite foldl_app. Qed.

Lemma latest_write f evs c lid b lid' :
  latest f (evs ++ [EWrite c lid b]) lid' = if decide (lid = lid') then Some b else latest f evs lid'.
Proof. unfold latest. by rewrite foldl_app. Qed.

Lemma latest_garbage f evs c lid b lid' :
  latest f (evs ++ [EGarbage c lid b]) lid' = if decide (lid = lid') then Some b else latest f evs lid'.
Proof. unfold latest. by rewrite foldl_app. Qed.

Definition centry (s : csys) (c lid : Z) : option Cache := mget ∅ (caches s) c !! lid.

Lemma centry_with y s c e d lid :
  centry (with_ecache y s c e) d lid = if decide (d = c) then cache_map e !! lid else centry s d lid.
Proof.
  unfold centry. simpl. case_decide as E; [subst; by rewrite mget_insert_eq|by rewrite mget_insert_ne].
Qed.

(** Cached blocks belong to clients that have the lock, and hold what was written
    last; a clean one is on the disk; a block that nobody caches is on the disk
    as it was written last. *)
Record CInv (f : list Z) (evs : list cevent) (s : csys) : Prop := {
  ci_lock : Linv (locks s);
  ci_disk : Forall is_byte (cdisk s);
  ci_held : ∀ c lid e, centry s c lid = Some e →
    small lid ∧ is_data_cached e = true ∧ is_block (data_cache e) ∧ tok_l (lk_at (locks s) c lid) = 1%nat;
  ci_data : ∀ c lid e b, centry s c lid = Some e → latest f evs lid = Some b → data_cache e = b;
  ci_clean : ∀ c lid e, centry s c lid = Some e → is_data_dirty e = false →
    file_view (cdisk s) lid = Some (data_cache e);
  ci_view : ∀ lid b, small lid → latest f evs lid = Some b → (∀ c, centry s c lid = None) →
    file_view (cdisk s) lid = Some b }.

Lemma CInv_init n f : Forall is_byte f → CInv f [] (csys_new n f).
Proof. intros Hf. split; [apply Linv_init|done|..]; done. Qed.

Lemma small_id_ok lid : small lid → id_ok lid.
Proof. unfold small, id_ok. lia. Qed.

Lemma tok_unique x c d lid :
  Linv x → small lid → tok_l (lk_at x c lid) = 1%nat → tok_l (lk_at x d lid) = 1%nat → c = d.
Proof.
  intros [_ HI] Hl Hc Hd. specialize (HI lid Hl).
  destruct (li_own _ _ _ _ HI c) as [_ E1]; [unfold tok; change (lkc (clients x) c lid) with (lk_at x c lid); lia|].
  destruct (li_own _ _ _ _ HI d) as [_ E2]; [unfold tok; change (lkc (clients x) d lid) with (lk_at x d lid); lia|].
  congruence.
Qed.

Lemma hold_tok x c lid : Linv x → THold c lid ∈ tasks x → small lid ∧ tok_l (lk_at x c lid) = 1%nat.
Proof.
  intros [Hs HI] [i Hi]%list_elem_of_lookup_1.
  assert (small lid) as Hl by (by eapply (Forall_lookup_1 _ _ _ _ Hs) in Hi). split; [done|].
  pose proof (li_hold _ _ _ _ (HI lid Hl) c) as Hh. pose proof (total_one (hold_t c lid) _ _ _ Hi) as Ht.
  simpl in Ht. rewrite b2n_true in Ht by done. apply tok_l_status. right.
  change (lkc (clients x) c lid) with (lk_at x c lid) in Hh. unfold hold_l in Hh.
  destruct (decide (status (lk_at x c lid) = LOCKED)) as [|Hne]; [done|]. rewrite b2n_false in Hh by done. lia.
Qed.

(** Nobody else caches a block whose lock a thread holds. *)
Lemma cached_by_holder f evs s c lid d e :
  CInv f evs s → tok_l (lk_at (locks s) c lid) = 1%nat → centry s d lid = Some e → d = c.
Proof.
  intros HI Hc Hd. destruct (ci_held _ _ _ HI d lid e Hd) as (Hl & _ & _ & Ht).
  by apply (tok_unique (locks s) d c lid (ci_lock _ _ _ HI)).
Qed.

(** ** The operations of one cache *)
Lemma cache_get_cases g cm f lid ret b e' :
  Forall is_byte f → id_ok lid → (∀ e, cm !! lid = Some e → is_data_cached e = true) →
  cache_get g Answered lid (ECache cm f) = Ret (ret, b, e') →
  disk e' = f ∧
  ((∃ e, cm !! lid = Some e ∧ b = data_cache e ∧ cache_map e' = cm) ∨
   (cm !! lid = None ∧ file_view f lid = Some b ∧
    ∃ a x, cache_map e' = <[lid := MkCache b a true x false]> cm)).
Proof.
  intros Hf Hid Hc. unfold cache_get, mget. simpl. destruct (cm !! lid) as [e|] eqn:Ee; simpl.
  - rewrite (Hc e) by done. intros [= <- <- <-]. simpl. split; [done|]. left. exists e.
    split_and!; [done|done|by apply insert_id].
  - destruct (file_view f lid) as [v|] eqn:Ev.
    + rewrite (client_get_view lid f v) by done. simpl. intros [= <- <- <-]. split; [done|]. right.
      split_and!; [done|done|by eexists _, _].
    + unfold extent_client_get, extent_server_get. rewrite get_loop_view, Ev by done. done.
Qed.

Lemma dorelease_cases g cm f lid ret e' :
  id_ok lid → is_block (g_data g) → (∀ e, cm !! lid = Some e → is_block (data_cache e)) →
  dorelease g lid (ECache cm f) = Ret (ret, e') →
  cache_map e' = delete lid cm ∧
  ((disk e' = f ∧ (∀ e, cm !! lid = Some e → is_data_dirty e = false) ∧ (cm !! lid = None → g_dirty g = false)) ∨
   (∃ e, cm !! lid = Some e ∧ disk e' = file_write (lid * BSIZE) (data_cache e) f) ∨
   (cm !! lid = None ∧ g_dirty g = true ∧ disk e' = file_write (lid * BSIZE) (g_data g) f)).
Proof.
  intros Hid Hg Hb. unfold dorelease, cache_flush, mget. simpl. destruct (cm !! lid) as [e|] eqn:Ee; simpl.
  - destruct (is_data_dirty e) eqn:Ed; simpl.
    + rewrite client_put_write by eauto. simpl. intros [= <- <-]. split; [done|]. right. left. by exists e.
    + intros [= <- <-]. split; [done|]. left. split_and!; [done| |done]. by intros e0 [= <-].
  - destruct (g_dirty g) eqn:Ed; simpl.
    + rewrite client_put_write by done. simpl. intros [= <- <-]. split; [done|]. right. by right.
    + intros [= <- <-]. split; [done|]. by left.
Qed.

(** ** Every step keeps the invariant *)
Lemma CInv_lock f evs s y :
  CInv f evs s → lstep (locks s) y → lids_small (tasks y) → keeps (locks s) y →
  CInv f evs (CSys y (caches s) (cdisk s)).
Proof.
  intros HI Hs Hsm Hk. destruct HI as [H1 H2 H3 H4 H5 H6].
  split; simpl; [by apply (Linv_step (locks s))|done| |done|done|done].
  intros c lid e He. destruct (H3 c lid e He) as (Hl & Hc & Hb & Ht). split_and!; [done|done|done|].
  destruct (lstep_tok _ _ c lid Hl H1 Hs Ht) as [?|Hg]; [done|]. specialize (Hk c lid). unfold gained in Hg. lia.
Qed.

(** The client that gives a lock back is the only one that may cache the block. *)
Lemma giver_alone f evs s y c lid d e :
  CInv f evs s → lstep (locks s) y → lids_small (tasks y) → gives_back (locks s) y c lid →
  small lid → centry s d lid = Some e → d = c.
Proof.
  intros HI Hs Hsm Hgb Hl He. pose proof HI as [H1 _ H3 _ _ _].
  destruct (H3 d lid e He) as (_ & _ & _ & Ht). destruct (decide (d = c)) as [|Hne]; [done|exfalso].
  destruct (Linv_step _ _ Hs Hsm H1) as [_ HIy]. specialize (HIy lid Hl).
  destruct (li_own _ _ _ _ HIy c) as [_ E1].
  { unfold tok. pose proof (Hgb c lid) as Hc. rewrite b2n_true in Hc by done.
    assert (∀ ts, total (mrel_t c lid) ts ≤ total (tok_t c lid) ts)%nat as Hle; [|specialize (Hle (tasks y)); lia].
    intros ts. induction ts as [|t ts IH]; [done|]. destruct t; simpl in *; lia. }
  destruct (lstep_tok _ _ d lid Hl H1 Hs Ht) as [Hy|Hgn].
  - destruct (li_own _ _ _ _ HIy d) as [_ E2]; [|congruence].
    unfold tok. change (lkc (clients y) d lid) with (lk_at y d lid). lia.
  - unfold gained in Hgn. rewrite (Hgb d lid), b2n_false in Hgn by naive_solver. lia.
Qed.

(** The disk after a flush of block [lid], for the other blocks. *)
Lemma flushed_others f evs s g c lid e lid' b :
  CInv f evs s → small lid → small lid' → lid' ≠ lid → is_block (g_data g) →
  (disk e = cdisk s ∨ (∃ e1, centry s c lid = Some e1 ∧ disk e = file_write (lid * BSIZE) (data_cache e1) (cdisk s)) ∨
   disk e = file_write (lid * BSIZE) (g_data g) (cdisk s)) →
  file_view (cdisk s) lid' = Some b → file_view (disk e) lid' = Some b.
Proof.
  intros HI Hl Hl' Hne [Hg _] Hd Hv. destruct Hd as [->|[(e1 & He1 & ->)| ->]]; [done|..];
    eapply file_write_view; auto using small_id_ok. by apply (ci_held _ _ _ HI c lid e1).
Qed.

(** The flushed block itself: the disk holds what was written last. *)
Lemma flushed_own f evs s g c lid e b :
  CInv f evs s → small lid → is_block (g_data g) → (∀ d e0, centry s d lid = Some e0 → d = c) →
  ((disk e = cdisk s ∧ (∀ e0, centry s c lid = Some e0 → is_data_dirty e0 = false) ∧
      (centry s c lid = None → g_dirty g = false)) ∨
   (∃ e0, centry s c lid = Some e0 ∧ disk e = file_write (lid * BSIZE) (data_cache e0) (cdisk s)) ∨
   (centry s c lid = None ∧ g_dirty g = true ∧ disk e = file_write (lid * BSIZE) (g_data g) (cdisk s))) →
  latest f (evs ++ flushed_garbage g s c lid) lid = Some b → file_view (disk e) lid = Some b.
Proof.
  intros HI Hl [Hg _] Hone Hd. pose proof HI as [H1 H2 H3 H4 H5 H6]. unfold flushed_garbage.
  change (mget ∅ (caches s) c !! lid) with (centry s c lid).
  destruct Hd as [(-> & Hcl & Hn)|[(e1 & He1 & ->)|(Hn & -> & ->)]].
  - destruct (centry s c lid) as [e1|] eqn:E1; [|rewrite Hn by done]; rewrite app_nil_r; intros Hlat.
    + rewrite (H5 c lid e1) by auto. f_equal. by apply (H4 c lid).
    + apply H6; [done|done|]. intros d. destruct (centry s d lid) as [e0|] eqn:E0; [|done].
      pose proof (Hone d e0 E0). congruence.
  - rewrite He1, app_nil_r. intros Hlat. rewrite (H4 c lid e1 b He1 Hlat).
    destruct (H3 c lid e1 He1) as (_ & _ & [Hlen _] & _). rewrite (H4 c lid e1 b He1 Hlat) in Hlen.
    by destruct (file_write_view lid b (cdisk s) (small_id_ok _ Hl) Hlen) as [-> _].
  - rewrite Hn, latest_garbage, decide_True by done. intros [= <-].
    by destruct (file_write_view lid (g_data g) (cdisk s) (small_id_ok _ Hl) Hg) as [-> _].
Qed.

Lemma CInv_give_back g f evs s y c lid ret e :
  is_block (g_data g) → CInv f evs s → lstep (locks s) y → lids_small (tasks y) → gives_back (locks s) y c lid →
  small lid → dorelease g lid (ecache_of s c) = Ret (ret, e) →
  CInv f (evs ++ flushed_garbage g s c lid) (with_ecache y s c e).
Proof.
  intros Hg HI Hs Hsm Hgb Hl Hfl. pose proof HI as [H1 H2 H3 H4 H5 H6].
  destruct (dorelease_cases g (mget ∅ (caches s) c) (cdisk s) lid ret e (small_id_ok _ Hl) Hg) as [Em Ed]; [|done|].
  { intros e0 He. by apply (H3 c lid). }
  change (mget ∅ (caches s) c !! lid) with (centry s c lid) in Ed.
  assert (∀ d e0, centry s d lid = Some e0 → d = c) as Hone by (intros d e0; by apply (giver_alone f evs s y)).
  assert (∀ d lid' e0, centry (with_ecache y s c e) d lid' = Some e0 → centry s d lid' = Some e0 ∧ lid' ≠ lid) as Hent.
  { intros d lid' e0. rewrite centry_with, Em. case_decide as E.
    - subst d. intros [? ?]%lookup_delete_Some. split; [done|congruence].
    - intros He. split; [done|]. intros ->. by apply E, (Hone d e0). }
  assert (∀ lid' b, small lid' → lid' ≠ lid → file_view (cdisk s) lid' = Some b →
            file_view (disk e) lid' = Some b) as Hother.
  { intros lid' b Hl' Hne. apply (flushed_others f evs s g c lid); try done. naive_solver. }
  assert (∀ lid', lid' ≠ lid → latest f (evs ++ flushed_garbage g s c lid) lid' = latest f evs lid') as Elat.
  { intros lid' Hne. unfold flushed_garbage. destruct (_ !! lid); [by rewrite app_nil_r|].
    destruct (g_dirty g); [by rewrite latest_garbage, decide_False|by rewrite app_nil_r]. }
  split; simpl.
  - by apply (Linv_step (locks s)).
  - destruct Ed as [[-> _]|[(e1 & He1 & ->)|(_ & _ & ->)]]; [done|..]; apply file_write_bytes; try done; [|apply Hg].
    by apply (H3 c lid e1).
  - intros d lid' e0 [He Hne]%Hent. destruct (H3 d lid' e0 He) as (Hl' & Hc & Hb & Ht). split_and!; [done|done|done|].
    destruct (lstep_tok _ _ d lid' Hl' H1 Hs Ht) as [?|Hgn]; [done|]. exfalso. unfold gained in Hgn.
    rewrite (Hgb d lid'), b2n_false in Hgn by naive_solver. lia.
  - intros d lid' e0 b [He Hne]%Hent. rewrite Elat by done. by apply H4 with d.
  - intros d lid' e0 [He Hne]%Hent Hcl. apply Hother; [apply (H3 d lid' e0 He)|done|]. by apply (H5 d).
  - intros lid' b Hl' Hlat Hno. destruct (decide (lid' = lid)) as [->|Hne].
    + by apply (flushed_own f evs s g c lid e b).
    + rewrite Elat in Hlat by done. apply Hother; [done|done|]. apply H6; [done|done|]. intros d. specialize (Hno d).
      rewrite centry_with, Em in Hno. case_decide as E; [|done]. subst d. by rewrite lookup_delete_ne in Hno.
Qed.

Lemma CInv_read g f evs s c lid ret b e :
  CInv f evs s → THold c lid ∈ tasks (locks s) → cache_get g Answered lid (ecache_of s c) = Ret (ret, b, e) →
  CInv f (evs ++ [ERead c lid b]) (with_ecache (locks s) s c e) ∧ (∀ b0, latest f evs lid = Some b0 → b = b0).
Proof.
  intros HI Hh Hget. pose proof HI as [H1 H2 H3 H4 H5 H6]. destruct (hold_tok _ _ _ H1 Hh) as [Hl Ht].
  destruct (cache_get_cases g (mget ∅ (caches s) c) (cdisk s) lid ret b e H2 (small_id_ok _ Hl)) as [Ed Hcs]; [|done|].
  { intros e0 He. by apply (H3 c lid). }
  assert (∀ d e0, centry s d lid = Some e0 → d = c) as Hone by (intros d e0; by apply (cached_by_holder f evs)).
  destruct Hcs as [(e1 & He1 & -> & Em)|(He1 & Hv & a & x & Em)].
  - assert (∀ d lid', centry (with_ecache (locks s) s c e) d lid' = centry s d lid') as Ec.
    { intros d lid'. rewrite centry_with, Em. case_decide; [by subst|done]. }
    split; [|intros b0 Hb0; by apply (H4 c lid)].
    split; simpl; try setoid_rewrite Ec; try setoid_rewrite latest_read; by rewrite ?Ed.
  - assert (∀ d, centry s d lid = None) as Hno.
    { intros d. destruct (centry s d lid) as [e0|] eqn:E0; [|done]. pose proof (Hone d e0 E0) as ->.
      unfold centry in E0. congruence. }
    assert (∀ b0, latest f evs lid = Some b0 → b = b0) as Hlat.
    { intros b0 Hb0. pose proof (H6 lid b0 Hl Hb0 Hno). congruence. }
    split; [|done].
    assert (∀ d lid' e0, centry (with_ecache (locks s) s c e) d lid' = Some e0 →
      d = c ∧ lid' = lid ∧ e0 = MkCache b a true x false ∨ centry s d lid' = Some e0) as Hent.
    { intros d lid' e0. rewrite centry_with, Em. case_decide as E; [|by right]. subst d.
      rewrite lookup_insert_Some. naive_solver. }
    split; simpl; try setoid_rewrite latest_read; rewrite ?Ed; [done|done|..].
    + intros d lid' e0 [(-> & -> & ->)|He]%Hent; [|by apply H3]. simpl. split_and!; [done|done| |done].
      by apply (file_view_block (cdisk s) lid); [|apply small_id_ok|].
    + intros d lid' e0 b0 [(-> & -> & ->)|He]%Hent Hb0; [by apply Hlat|by apply (H4 d lid')].
    + intros d lid' e0 [(-> & -> & ->)|He]%Hent Hcl; [done|by apply (H5 d lid')].
    + intros lid' b0 Hl' Hb0 Hno'. apply H6; [done|done|]. intros d. specialize (Hno' d).
      rewrite centry_with, Em in Hno'. case_decide as E; [|done]. subst d.
      by apply lookup_insert_None in Hno' as [? _].
Qed.

Lemma CInv_write g f evs s c lid buf ret e :
  CInv f evs s → THold c lid ∈ tasks (locks s) → is_block buf → cache_put g lid buf (ecache_of s c) = Ret (ret, e) →
  CInv f (evs ++ [EWrite c lid buf]) (with_ecache (locks s) s c e).
Proof.
  intros HI Hh Hb Hput. pose proof HI as [H1 H2 H3 H4 H5 H6]. destruct (hold_tok _ _ _ H1 Hh) as [Hl Ht].
  assert (∀ d e0, centry s d lid = Some e0 → d = c) as Hone by (intros d e0; by apply (cached_by_holder f evs)).
  unfold cache_put in Hput. pose proof Hb as [Hlen _]. rewrite Hlen in Hput. simpl in Hput.
  injection Hput as _ <-. rewrite take_ge by (rewrite Hlen; done).
  set (e1 := MkCache _ _ _ _ _).
  assert (∀ d lid' e0, centry (with_ecache (locks s) s c (ECache (<[lid := e1]> (mget ∅ (caches s) c)) (cdisk s))) d lid'
      = Some e0 → d = c ∧ lid' = lid ∧ e0 = e1 ∨ centry s d lid' = Some e0 ∧ lid' ≠ lid) as Hent.
  { intros d lid' e0. rewrite centry_with. simpl. case_decide as E.
    - subst d. rewrite lookup_insert_Some. naive_solver.
    - intros He. right. split; [done|]. intros ->. by apply E, (Hone d e0). }
  split; simpl; try setoid_rewrite latest_write; [done|done|..].
  - intros d lid' e0 [(-> & -> & ->)|[He _]]%Hent; [done|by apply H3].
  - intros d lid' e0 b0 [(-> & -> & ->)|[He Hne]]%Hent.
    + rewrite decide_True by done. by intros [= <-].
    + rewrite decide_False by done. by apply (H4 d lid').
  - intros d lid' e0 [(-> & -> & ->)|[He _]]%Hent Hcl; [done|by apply (H5 d lid')].
  - intros lid' b0 Hl' Hb0 Hno. case_decide as E.
    + specialize (Hno c). subst lid'. rewrite centry_with, decide_True in Hno by done. simpl in Hno.
      by rewrite lookup_insert_eq in Hno.
    + apply H6; [done|done|]. intros d. specialize (Hno d). rewrite centry_with in Hno. simpl in Hno.
      case_decide as E2; [|done]. subst d. by rewrite lookup_insert_ne in Hno.
Qed.
Lemma gives_back_small x y c lid : gives_back x y c lid → lids_small (tasks y) → small lid.
Proof.
  intros Hg Hs. specialize (Hg c lid). rewrite b2n_true in Hg by done.
  destruct (decide (small lid)) as [|Hns]; [done|exfalso].
  assert (∀ ts, lids_small ts → total (mrel_t c lid) ts = 0%nat) as E; [|rewrite (E _ Hs) in Hg; lia].
  clear Hs Hg. induction 1 as [|t ts Ht _ IH]; [done|]. simpl. rewrite IH, Nat.add_0_r.
  destruct t; try done. simpl in *. rewrite b2n_false; [done|]. intros [_ ->]. done.
Qed.

Lemma CInv_run f n evs s :
  Forall is_byte f → cruns (csys_new n f) evs s →
  CInv f evs s ∧
  ∀ evs1 c lid b evs2 b0, evs = evs1 ++ ERead c lid b :: evs2 → latest f evs1 lid = Some b0 → b = b0.
Proof.
  intros Hf Hr. induction Hr as [|evs s1 ev s2 _ [HI Hreads] Hs].
  { split; [by apply CInv_init|]. by intros []. }
  assert (∀ x, (∀ c lid b b0, x = ERead c lid b → latest f evs lid = Some b0 → b = b0) →
    ∀ evs1 c lid b evs2 b0, evs ++ [x] = evs1 ++ ERead c lid b :: evs2 → latest f evs1 lid = Some b0 → b = b0) as Hlast.
  { intros x Hx evs1 c lid b evs2 b0. induction evs2 as [|y evs2 _] using rev_ind.
    - intros [-> ->]%app_inj_tail. by apply Hx with c.
    - rewrite app_comm_cons, app_assoc. intros [-> _]%app_inj_tail. by apply (Hreads evs1 c lid b evs2 b0). }
  destruct Hs as [y H1 H2 H3|g y c lid ret e H1 H2 H3 Hg H4|g c lid ret b e H1 H2|g c lid buf ret e H1 H2 H3].
  - rewrite app_nil_r. split; [by apply CInv_lock|done].
  - split.
    + apply (CInv_give_back g f evs s1 y c lid ret e); try done. by apply (gives_back_small _ _ _ _ H3).
    + unfold flushed_garbage. destruct (_ !! lid); [by rewrite app_nil_r|].
      destruct (g_dirty g); [by apply Hlast|by rewrite app_nil_r].
  - destruct (CInv_read g f evs s1 c lid ret b e HI H1 H2) as [HI' Hb]. split; [done|].
    apply Hlast. intros ? ? ? ? [= <- <- <-]. apply Hb.
  - split; [by apply (CInv_write g f evs s1 c lid buf ret e)|]. by apply Hlast.
Qed.

(** * Theorems *)


(** ** A run: what client 1 wrote is read by client 2 *)
Inductive cact := ALock (a : act) | AGive (a : act) (c lid : Z) | ARead (c lid : Z) | AWrite (c lid : Z) (b : list Z).

Definition mrels (ts : list task) : list (Z * Z) :=
  omap (λ t, match t with MRel c lid _ => Some (c, lid) | _ => None end) ts.

Lemma total_mrels c lid ts :
  total (mrel_t c lid) ts = sum_list_with (λ p, b2n (p.1 = c ∧ p.2 = lid)) (mrels ts).
Proof. induction ts as [|t ts IH]; [done|]. simpl. rewrite IH. by destruct t. Qed.

Definition small_tasks (ts : list task) : bool :=
  forallb (λ t, (0 <=? task_lid t) && (task_lid t <? 2 ^ 31)) ts.

Lemma small_tasks_spec ts : small_tasks ts = true → lids_small ts.
Proof.
  intros Hl. apply Forall_forall. intros t Ht. unfold small_tasks in Hl. rewrite forallb_forall in Hl.
  apply list_elem_of_In in Ht. apply Hl, andb_true_iff in Ht as [? ?]. zbool. split; lia.
Qed.

Section runs.
Context (g : garbage).

Definition run_cact (a : cact) (s : csys) : option (list cevent * csys) :=
  match a with
  | ALock a =>
      y ← run_act a (locks s);
      guard (small_tasks (tasks y) = true);;
      guard (mrels (tasks y) = mrels (tasks (locks s)) ∨ mrels (tasks y) = []);;
      Some ([], CSys y (caches s) (cdisk s))
  | AGive a c lid =>
      y ← run_act a (locks s);
      guard (small_tasks (tasks y) = true);;
      guard (mrels (tasks y) = (c, lid) :: mrels (tasks (locks s)));;
      guard (is_block (g_data g));;
      '(_, e) ← res_opt (dorelease g lid (ecache_of s c));
      Some (flushed_garbage g s c lid, with_ecache y s c e)
  | ARead c lid =>
      guard (existsb (λ t, match t with THold c' lid' => (c' =? c) && (lid' =? lid) | _ => false end)
               (tasks (locks s)) = true);;
      '(_, b, e) ← res_opt (cache_get g Answered lid (ecache_of s c));
      Some ([ERead c lid b], with_ecache (locks s) s c e)
  | AWrite c lid b =>
      guard (existsb (λ t, match t with THold c' lid' => (c' =? c) && (lid' =? lid) | _ => false end)
               (tasks (locks s)) = true);;
      guard (is_block b);;
      '(_, e) ← res_opt (cache_put g lid b (ecache_of s c));
      Some ([EWrite c lid b], with_ecache (locks s) s c e)
  end.

Fixpoint run_cacts (acts : list cact) (s : csys) : option (list cevent * csys) :=
  match acts with
  | [] => Some ([], s)
  | a :: acts => '(ev, s1) ← run_cact a s; '(evs, s2) ← run_cacts acts s1; Some (ev ++ evs, s2)
  end.

Lemma holds_spec c lid ts :
  existsb (λ t, match t with THold c' lid' => (c' =? c) && (lid' =? lid) | _ => false end) ts = true →
  THold c lid ∈ ts.
Proof.
  intros (t & Ht & E)%existsb_exists. destruct t; try done. apply andb_true_iff in E as [E1 E2]. zbool. subst.
  by apply list_elem_of_In.
Qed.

Lemma run_cact_sound a s ev s' : run_cact a s = Some (ev, s') → cstep s ev s'.
Proof.
  destruct a as [a|a c lid|c lid|c lid b]; simpl; intros H.
  - apply bind_Some in H as (y & Hy%run_act_sound & H). apply bind_Some in H as (Hs & _ & H).
    apply bind_Some in H as (Hm & _ & [= <- <-]). apply CLock; [done|by apply small_tasks_spec|].
    intros c lid. rewrite !total_mrels. destruct Hm as [-> | ->]; simpl; lia.
  - apply bind_Some in H as (y & Hy%run_act_sound & H). apply bind_Some in H as (Hs & _ & H).
    apply bind_Some in H as (Hm & _ & H). apply bind_Some in H as (Hb & _ & H).
    destruct (dorelease g lid (ecache_of s c)) as [[ret e]| | | |] eqn:E; try done.
    injection H as <- <-. apply (CGiveBack s g y c lid ret e); [done|by apply small_tasks_spec| |done|done].
    intros c' lid'. rewrite !total_mrels, Hm. simpl. lia.
  - apply bind_Some in H as (Hh & _ & H). pose proof (holds_spec _ _ _ Hh) as Hin.
    destruct (cache_get g Answered lid (ecache_of s c)) as [[[ret b] e]| | | |] eqn:E; try done.
    injection H as <- <-. by apply (CRead s g c lid ret).
  - apply bind_Some in H as (Hh & _ & H). pose proof (holds_spec _ _ _ Hh) as Hin. apply bind_Some in H as (Hb & _ & H).
    destruct (cache_put g lid b (ecache_of s c)) as [[ret e]| | | |] eqn:E; try done.
    injection H as <- <-. by apply (CWrite s g c lid b ret).
Qed.

Lemma cruns_l s ev s1 evs s2 : cstep s ev s1 → cruns s1 evs s2 → cruns s (ev ++ evs) s2.
Proof.
  intros Hs. induction 1 as [|evs s2 ev' s3 _ IH Hs']; [rewrite app_nil_r; apply (cr_step s [] s); [constructor|done]|].
  rewrite app_assoc. by apply (cr_step s _ s2).
Qed.

Lemma run_cacts_sound acts s evs s' : run_cacts acts s = Some (evs, s') → cruns s evs s'.
Proof.
  revert s evs. induction acts as [|a acts IH]; simpl; intros s evs H; [injection H as <- <-; constructor|].
  apply bind_Some in H as ([ev s1] & H1 & H). apply bind_Some in H as ([evs1 s2] & H2 & [= <- <-]).
  eapply cruns_l; [by apply (run_cact_sound a)|by apply IH].
Qed.
End runs.

Definition ex_garbage : garbage := Garbage (replicate 512 170) (Attr 0 0 0 0) true.

(** Client 1 locks block 5, writes it and unlocks it; client 2 asks for the lock,
    which makes client 1 flush the block, and gets it. *)
Definition ex_cacts : list cact :=
  [ALock (New 1 5); ALock (Run 0); ALock (Run 0); ALock (Run 0); AWrite 1 5 (replicate 512 7);
   ALock (Run 0); ALock (Run 0);
   ALock (New 2 5); ALock (Run 0); ALock (Run 0); ALock (Run 0); AGive (Run 0) 1 5] ++
  replicate 7 (ALock (Run 0)).

Definition ex_coherent : option (list cevent * csys) := run_cacts ex_garbage ex_cacts (csys_new 0 []).

