(* ===== verification/LockTester.v ===== *)
(** lock_tester.cc over the lock protocol: the counters that check_grant and
    check_release keep, the five tests as programs of their threads, and main,
    which runs the tests one after the other.

    A thread inside acquire has a task of LockProtocol.v under way; its acquire
    returns when there is a task that holds the lock and that no thread has
    claimed.  A thread keeps the lock it was granted until it calls release. *)
From S2P Require Import Prelude LockServer LockCache LockProtocol.
Local Open Scope Z_scope.

(** ** The source *)
Definition nt : nat := 6.
Definition lock_a : Z := 1.
Definition lock_b : Z := 2.

(** [None]: the process reports an error and exits. *)
Definition check_grant (lid : Z) (ct : gmap Z Z) : option (gmap Z Z) :=
  let x := Z.land lid 255 in
  if mget 0 ct x =? 0 then Some (<[x := mget 0 ct x + 1]> ct) else None.

Definition check_release (lid : Z) (ct : gmap Z Z) : option (gmap Z Z) :=
  let x := Z.land lid 255 in
  if mget 0 ct x =? 1 then Some (<[x := mget 0 ct x - 1]> ct) else None.

(** The calls of a test: lc[i]->acquire, check_grant, check_release, lc[i]->release. *)
Inductive top := OAcq (i lid : Z) | OGrant (lid : Z) | OCheck (lid : Z) | ORel (i lid : Z).

Definition test1 : list top :=
  [OAcq 0 lock_a; OGrant lock_a; ORel 0 lock_a; OCheck lock_a;
   OAcq 0 lock_a; OGrant lock_a; ORel 0 lock_a; OCheck lock_a;
   OAcq 0 lock_a; OGrant lock_a; OAcq 0 lock_b; OGrant lock_b;
   ORel 0 lock_b; OCheck lock_b; ORel 0 lock_a; OCheck lock_a].

(** One round of tests 2 to 5 on client [i]. *)
Definition round (i : Z) : list top := [OAcq i lock_a; OGrant lock_a; OCheck lock_a; ORel i lock_a].

Definition rounds (i : Z) (n : nat) : list top := concat (replicate n (round i)).

Definition test2 (i : Z) : list top := round i.
Definition test3 (i : Z) : list top := rounds i 10.
Definition test4 (i : Z) : list top := rounds 0 10.
Definition test5 (i : Z) : list top := if i <? 5 then rounds 0 10 else rounds 1 10.

(** The threads main creates for a test. *)
Definition each (n : nat) (f : Z → list top) : list (list top) := (λ i, f (Z.of_nat i)) <$> seq 0 n.

Definition wants (test k : Z) : bool := (test =? 0) || (test =? k).

(** main: [test] is the number given, or 0. *)
Definition main_tests (test : Z) : list (list (list top)) :=
  (if wants test 1 then [[test1]] else []) ++
  (if wants test 2 then [each nt test2] else []) ++
  (if wants test 3 then [each nt test3] else []) ++
  (if wants test 4 then [each 2 test4] else []) ++
  (if wants test 5 then [each nt test5] else []).

(** ** The running process

    [t_wait]: the acquire the thread is in; [t_own]: the locks it was granted
    and has not released; [t_gr]: the locks between its check_grant and
    check_release. *)
Record thr := Thr { t_prog : list top; t_wait : option (Z * Z); t_own : list (Z * Z); t_gr : list Z }.

Definition thr_new (p : list top) : thr := Thr p None [] [].

Record tsys := TSys { tl : lsys; ct : gmap Z Z; threads : list thr; todo : list (list (list top)) }.

Definition tsys_new (n test : Z) : tsys := TSys (lsys_new n) ∅ [] (main_tests test).

(** The locks that tasks hold, and those the threads were granted. *)
Definition holds (x : lsys) : list (Z * Z) := omap (λ t, match t with THold c l => Some (c, l) | _ => None end) (tasks x).

Definition claims (ts : list thr) : list (Z * Z) := ts ≫= t_own.

Definition without {A} `{EqDecision A} (y : A) (l : list A) : list A := filter (λ z, z ≠ y) l.

Definition done_thr (t : thr) : bool := match t_prog t, t_wait t with [], None => true | _, _ => false end.

Definition with_tasks (ts : list task) (x : lsys) : lsys := LSys (clients x) (server x) (cheld x) (sheld x) ts.

Inductive tstep (x : tsys) : tsys → Prop :=
  | TLock y :
      lstep (tl x) y → lids_small (tasks y) → claims (threads x) ⊆+ holds y →
      tstep x (TSys y (ct x) (threads x) (todo x))
  | TStart t1 i l p own gr t2 :
      threads x = t1 ++ Thr (OAcq i l :: p) None own gr :: t2 →
      tstep x (TSys (with_tasks (TAcq i l :: tasks (tl x)) (tl x)) (ct x) (t1 ++ Thr p (Some (i, l)) own gr :: t2) (todo x))
  | TReturn t1 i l p own gr t2 :
      threads x = t1 ++ Thr p (Some (i, l)) own gr :: t2 →
      (i, l) :: claims (threads x) ⊆+ holds (tl x) →
      tstep x (TSys (tl x) (ct x) (t1 ++ Thr p None ((i, l) :: own) gr :: t2) (todo x))
  | TGrant t1 l p own gr t2 m :
      threads x = t1 ++ Thr (OGrant l :: p) None own gr :: t2 → check_grant l (ct x) = Some m →
      tstep x (TSys (tl x) m (t1 ++ Thr p None own (l :: gr) :: t2) (todo x))
  | TCheck t1 l p own gr t2 m :
      threads x = t1 ++ Thr (OCheck l :: p) None own gr :: t2 → check_release l (ct x) = Some m →
      tstep x (TSys (tl x) m (t1 ++ Thr p None own (without l gr) :: t2) (todo x))
  | TRelease t1 i l p own gr t2 k1 k2 :
      threads x = t1 ++ Thr (ORel i l :: p) None own gr :: t2 → tasks (tl x) = k1 ++ THold i l :: k2 →
      tstep x (TSys (with_tasks (k1 ++ TRel i l :: k2) (tl x)) (ct x) (t1 ++ Thr p None (without (i, l) own) gr :: t2) (todo x))
  | TNext ts rest :
      forallb done_thr (threads x) = true → todo x = ts :: rest →
      tstep x (TSys (tl x) (ct x) (thr_new <$> ts) rest).

(** ** Programs that pair their calls

    With [multi], as in the tests of several threads, a lock is checked while it
    is held. *)
Fixpoint ok (multi : bool) (own : list (Z * Z)) (gr : list Z) (p : list top) : bool :=
  match p with
  | [] => bool_decide (own = []) && bool_decide (gr = [])
  | OAcq i l :: p => (0 <=? l) && (l <? 256) && ok multi ((i, l) :: own) gr p
  | OGrant l :: p =>
      (0 <=? l) && (l <? 256) && bool_decide (l ∉ gr) && (negb multi || bool_decide (l ∈ own.*2)) && ok multi own (l :: gr) p
  | OCheck l :: p => bool_decide (l ∈ gr) && ok multi own (without l gr) p
  | ORel i l :: p =>
      bool_decide ((i, l) ∈ own) && (negb multi || bool_decide (l ∉ gr)) && ok multi (without (i, l) own) gr p
  end.

Definition thr_ok (multi : bool) (t : thr) : Prop :=
  ok multi (option_list (t_wait t) ++ t_own t) (t_gr t) (t_prog t) = true ∧ NoDup (t_gr t) ∧ Forall (λ l, 0 ≤ l < 256) (t_gr t) ∧
  (multi = true → t_gr t ⊆ (t_own t).*2) ∧ Forall (λ il : Z * Z, 0 ≤ il.2 < 256) (option_list (t_wait t) ++ t_own t).

(** The test programs qualify. *)
Definition threads_ok (ts : list thr) : Prop := Forall (thr_ok true) ts ∨ ∃ t, ts = [t] ∧ thr_ok false t.

Lemma new_ok_iff multi p : ok multi [] [] p = true → thr_ok multi (thr_new p).
Proof. intros H. split_and!; [done|constructor|constructor| |constructor]. intros _ c Hc. by apply elem_of_nil in Hc. Qed.

Lemma main_tests_ok test : Forall (λ ps, threads_ok (thr_new <$> ps)) (main_tests test).
Proof.
  assert (∀ ps, forallb (ok true [] []) ps = true → threads_ok (thr_new <$> ps)) as Hm.
  { intros ps H. left. apply Forall_fmap, Forall_forall. intros p Hp. apply new_ok_iff. rewrite forallb_forall in H.
    by apply H, list_elem_of_In. }
  unfold main_tests. rewrite !Forall_app. split_and!; (destruct (wants _ _); [apply Forall_singleton|by apply Forall_nil]);
    [|apply Hm; by_vm..]. right. eexists. split; [done|]. apply new_ok_iff. by_vm.
Qed.

(** ** The invariant *)
Record TInv (n : Z) (x : tsys) : Prop := {
  ti_lock : lreach n (tl x);
  ti_claims : claims (threads x) ⊆+ holds (tl x);
  ti_thr : threads_ok (threads x);
  ti_ct : ∀ k, mget 0 (ct x) k = Z.of_nat (count k (threads x ≫= t_gr));
  ti_todo : Forall (λ ps, threads_ok (thr_new <$> ps)) (todo x) }.

(** The locks held at a time are all different. *)
Lemma holds_lookup x k c l : holds x !! k = Some (c, l) → ∃ i, tasks x !! i = Some (THold c l).
Proof.
  intros H%list_elem_of_lookup_2. apply list_elem_of_omap in H as (t & Ht & E). destruct t; try done. injection E as -> ->.
  by apply list_elem_of_lookup in Ht.
Qed.

Lemma holds_nodup n x : lreach n x → NoDup (holds x).*2.
Proof.
  intros Hr. pose proof (lreach_inv n x Hr) as [Hs _]. unfold holds.
  assert (∀ l i j c d, tasks x !! i = Some (THold c l) → tasks x !! j = Some (THold d l) → i = j) as Hu.
  { intros l i j c d Hi Hj. destruct (hold_unique n x l i j c d Hr) as [-> _]; try done.
    unfold lids_small in Hs. rewrite Forall_lookup in Hs. by apply (Hs i _ Hi). }
  clear Hs Hr. induction (tasks x) as [|t ts IH]; simpl; [constructor|].
  assert (NoDup (omap (λ t, match t with THold c l => Some (c, l) | _ => None end) ts).*2) as Hn.
  { apply IH. intros l i j c d Hi Hj. by injection (Hu l (S i) (S j) c d Hi Hj). }
  destruct t; try done. simpl. apply NoDup_cons. split; [|done].
  intros ([c' l'] & -> & (t & Ht & E)%list_elem_of_omap)%list_elem_of_fmap. destruct t; try done. injection E as -> ->.
  apply list_elem_of_lookup in Ht as [j Hj]. by specialize (Hu l' 0%nat (S j) c c' eq_refl Hj).
Qed.

Lemma NoDup_submset {A} (l k : list A) : l ⊆+ k → NoDup k → NoDup l.
Proof. intros (k' & Hp)%submseteq_Permutation. rewrite Hp. by intros [? _]%NoDup_app. Qed.

Lemma claims_nodup n x : TInv n x → NoDup (claims (threads x)).*2.
Proof. intros H. eapply NoDup_submset; [apply fmap_submseteq, H|]. eapply holds_nodup, H. Qed.

Lemma claims_mid t1 t t2 : claims (t1 ++ t :: t2) ≡ₚ t_own t ++ claims (t1 ++ t2).
Proof. unfold claims. rewrite !bind_app. simpl. by rewrite !(assoc_L (++)), (comm (++) (_ t1 : list (Z * Z))). Qed.

Lemma grants_mid t1 t t2 : (t1 ++ t :: t2) ≫= t_gr ≡ₚ t_gr t ++ ((t1 ++ t2) ≫= t_gr).
Proof. rewrite !bind_app. simpl. by rewrite !(assoc_L (++)), (comm (++) (_ t1 : list Z)). Qed.

(** Nobody else is between the checks of a lock that a thread has. *)
Lemma alone n x t1 t t2 l :
  TInv n x → threads x = t1 ++ t :: t2 → thr_ok false t ∧ t1 ++ t2 = [] ∨ Forall (thr_ok true) (threads x) ∧ l ∈ (t_own t).*2 →
  l ∉ (t1 ++ t2) ≫= t_gr.
Proof.
  intros HT E [[_ ->]|[Hf Hl]]; [apply not_elem_of_nil|].
  intros (t' & Hg & Ht')%list_elem_of_bind. pose proof (claims_nodup n x HT) as Hn. rewrite E in Hn. rewrite claims_mid, fmap_app in Hn.
  apply NoDup_app in Hn as (_ & Hd & _). apply (Hd l Hl). rewrite Forall_forall in Hf.
  destruct (Hf t') as (_ & _ & _ & Hs & _); [rewrite E, elem_of_app, elem_of_cons; apply elem_of_app in Ht'; naive_solver|].
  specialize (Hs eq_refl l Hg). apply list_elem_of_fmap in Hs as (il & -> & Hil). apply list_elem_of_fmap. exists il. split; [done|].
  apply list_elem_of_bind. by exists t'.
Qed.

Lemma land_small l : 0 ≤ l < 256 → Z.land l 255 = l.
Proof. intros. rewrite land_255. by apply Z.mod_small. Qed.

Lemma ok_thread n x t1 t t2 :
  TInv n x → threads x = t1 ++ t :: t2 →
  ∃ multi, thr_ok multi t ∧ (if multi then Forall (thr_ok true) (threads x) ∧ Forall (thr_ok true) (t1 ++ t2) else t1 ++ t2 = []).
Proof.
  intros HT E. destruct (ti_thr _ _ HT) as [Hf|(u & Eu & Hu)].
  - exists true. pose proof Hf as Hf'. rewrite E, Forall_app, Forall_cons in Hf'. rewrite Forall_app. naive_solver.
  - exists false. rewrite E in Eu. destruct t1 as [|? [|]]; simplify_list_eq. done.
Qed.

Lemma threads_ok_mid (multi : bool) t1 t t2 :
  thr_ok multi t → (if multi then Forall (thr_ok true) (t1 ++ t2) else t1 ++ t2 = []) → threads_ok (t1 ++ t :: t2).
Proof.
  intros Ht. destruct multi.
  - intros Hf. left. rewrite Forall_app in Hf. rewrite Forall_app, Forall_cons. naive_solver.
  - intros [-> ->]%app_nil. right. by exists t.
Qed.

Ltac ok_split H :=
  cbn [ok option_list app t_prog t_wait t_own t_gr] in H; rewrite ?andb_true_iff, ?orb_true_iff, ?negb_true_iff, ?bool_decide_eq_true in H.

Lemma mult_cases multi (P : Prop) : multi = false ∨ P → multi = true → P.
Proof. intros [-> |?]; done. Qed.

(** The two checks succeed, and by how much the counters change. *)
Lemma grant_ok n x t1 l p own gr t2 :
  TInv n x → threads x = t1 ++ Thr (OGrant l :: p) None own gr :: t2 →
  0 ≤ l < 256 ∧ l ∉ gr ∧ check_grant l (ct x) = Some (<[l := 1]> (ct x)) ∧ mget 0 (ct x) l = 0.
Proof.
  intros HT E. destruct (ok_thread n x _ _ _ HT E) as (multi & Ht & Hm). pose proof Ht as (Hok & _). ok_split Hok.
  destruct Hok as ((((L1 & L2) & Hg) & Ho) & _). zbool. assert (0 ≤ l < 256) as Hl by lia.
  assert (mget 0 (ct x) l = 0) as E0.
  { rewrite (ti_ct _ _ HT), E, grants_mid, count_app. rewrite !count_zero; [done| |done].
    eapply alone; [done|done|]. destruct multi; [right|by left]. split; [apply Hm|]. by destruct Ho. }
  split_and!; try done. unfold check_grant. by rewrite land_small, E0.
Qed.

Lemma check_ok n x t1 l p own gr t2 :
  TInv n x → threads x = t1 ++ Thr (OCheck l :: p) None own gr :: t2 →
  l ∈ gr ∧ check_release l (ct x) = Some (<[l := 0]> (ct x)) ∧ mget 0 (ct x) l = 1.
Proof.
  intros HT E. destruct (ok_thread n x _ _ _ HT E) as (multi & Ht & Hm). pose proof Ht as (Hok & Hnd & Hgl & Hs & _). ok_split Hok.
  destruct Hok as (Hg & _). simpl in *. rewrite Forall_forall in Hgl. specialize (Hgl l Hg).
  assert (mget 0 (ct x) l = 1) as E1.
  { rewrite (ti_ct _ _ HT), E, grants_mid, count_app. rewrite (count_zero l (_ ≫= _)).
    - simpl. apply list_elem_of_split in Hg as (g1 & g2 & ->). apply NoDup_app in Hnd as (_ & Hd & Hn2). apply NoDup_cons in Hn2 as [Hn2 _].
      rewrite count_app, count_eq, !count_zero; [done|done|]. intros Hin. apply (Hd l Hin). by left.
    - eapply alone; [done|done|]. destruct multi; [right|by left]. split; [apply Hm|]. by apply Hs. }
  split_and!; try done. unfold check_release. by rewrite land_small, E1.
Qed.

Lemma without_perm {A} `{EqDecision A} (y : A) l : NoDup l → y ∈ l → l ≡ₚ y :: without y l.
Proof.
  intros Hnd Hin. apply NoDup_Permutation; [done| |].
  - apply NoDup_cons. split; [|by apply NoDup_filter]. unfold without. rewrite list_elem_of_filter. naive_solver.
  - intros z. unfold without. rewrite elem_of_cons, list_elem_of_filter. destruct (decide (z = y)); naive_solver.
Qed.

(** ** Steps *)
Lemma TInv_grant n x t1 l p own gr t2 m :
  TInv n x → threads x = t1 ++ Thr (OGrant l :: p) None own gr :: t2 → check_grant l (ct x) = Some m →
  TInv n (TSys (tl x) m (t1 ++ Thr p None own (l :: gr) :: t2) (todo x)).
Proof.
  intros HT E Em. destruct (grant_ok n x _ _ _ _ _ _ HT E) as (Hl & Hg & Eg & E0). rewrite Eg in Em. injection Em as <-.
  destruct (ok_thread n x _ _ _ HT E) as (multi & (Hok & Hnd & Hgl & Hs & Hw) & Hm). ok_split Hok.
  destruct Hok as ((_ & Ho) & Hok). split; simpl; [apply HT| | |  |apply HT].
  - pose proof (ti_claims _ _ HT) as Hc. rewrite E in Hc. by rewrite claims_mid in Hc |- *.
  - apply (threads_ok_mid multi); [|destruct multi; [apply Hm|done]].
    split_and!; simpl; [done|by constructor|by constructor| |done].
    intros Hmt c [->|Hc]%elem_of_cons; [by eapply mult_cases|by apply Hs].
  - intros k. rewrite grants_mid. simpl. pose proof (ti_ct _ _ HT k) as Hk. rewrite E, grants_mid in Hk. simpl in Hk.
    destruct (decide (l = k)) as [->|Hne].
    + rewrite mget_insert_eq, count_eq. lia.
    + by rewrite mget_insert_ne, count_ne.
Qed.

Lemma TInv_check n x t1 l p own gr t2 m :
  TInv n x → threads x = t1 ++ Thr (OCheck l :: p) None own gr :: t2 → check_release l (ct x) = Some m →
  TInv n (TSys (tl x) m (t1 ++ Thr p None own (without l gr) :: t2) (todo x)).
Proof.
  intros HT E Em. destruct (check_ok n x _ _ _ _ _ _ HT E) as (Hg & Eg & E1). rewrite Eg in Em. injection Em as <-.
  destruct (ok_thread n x _ _ _ HT E) as (multi & (Hok & Hnd & Hgl & Hs & Hw) & Hm). ok_split Hok. simpl in *.
  destruct Hok as (_ & Hok). assert (without l gr ⊆ gr) as Hsub by (intros c Hc; by apply list_elem_of_filter in Hc as [_ ?]).
  split; simpl; [apply HT| | |  |apply HT].
  - pose proof (ti_claims _ _ HT) as Hc. rewrite E in Hc. by rewrite claims_mid in Hc |- *.
  - apply (threads_ok_mid multi); [|destruct multi; [apply Hm|done]].
    split_and!; simpl; [done|by apply NoDup_filter| | |done].
    + rewrite Forall_forall in *. auto.
    + intros Hmt. etrans; [done|by apply Hs].
  - intros k. rewrite grants_mid. simpl. pose proof (ti_ct _ _ HT k) as Hk. rewrite E, grants_mid in Hk. simpl in Hk.
    rewrite (without_perm l gr) in Hk by done. simpl in Hk. destruct (decide (l = k)) as [->|Hne].
    + rewrite mget_insert_eq. rewrite count_eq in Hk. lia.
    + by rewrite mget_insert_ne, Hk, count_ne.
Qed.

Lemma TInv_start n x t1 i l p own gr t2 :
  TInv n x → threads x = t1 ++ Thr (OAcq i l :: p) None own gr :: t2 →
  TInv n (TSys (with_tasks (TAcq i l :: tasks (tl x)) (tl x)) (ct x) (t1 ++ Thr p (Some (i, l)) own gr :: t2) (todo x)).
Proof.
  intros HT E. destruct (ok_thread n x _ _ _ HT E) as (multi & (Hok & Hnd & Hgl & Hsub & Hw) & Hm). ok_split Hok.
  destruct Hok as ((L1 & L2) & Hok). zbool. simpl in *. split; simpl; [| | | |apply HT].
  - eapply rtc_r; [apply HT|]. split; [apply LNew|]. constructor; [split; simpl; lia|]. by eapply lreach_inv, HT.
  - pose proof (ti_claims _ _ HT) as Hc. rewrite E in Hc. by rewrite claims_mid in Hc |- *.
  - apply (threads_ok_mid multi); [|destruct multi; [apply Hm|done]]. split_and!; simpl; try done. by constructor.
  - intros k. pose proof (ti_ct _ _ HT k) as Hk. rewrite E, grants_mid in Hk. by rewrite grants_mid.
Qed.

Lemma TInv_return n x t1 i l p own gr t2 :
  TInv n x → threads x = t1 ++ Thr p (Some (i, l)) own gr :: t2 → (i, l) :: claims (threads x) ⊆+ holds (tl x) →
  TInv n (TSys (tl x) (ct x) (t1 ++ Thr p None ((i, l) :: own) gr :: t2) (todo x)).
Proof.
  intros HT E Hc. destruct (ok_thread n x _ _ _ HT E) as (multi & (Hok & Hnd & Hgl & Hs & Hw) & Hm). simpl in *.
  split; simpl; [apply HT| | | |apply HT].
  - rewrite E in Hc. by rewrite claims_mid in Hc |- *.
  - apply (threads_ok_mid multi); [|destruct multi; [apply Hm|done]]. split_and!; simpl; try done.
    intros Hmt. apply list_subseteq_cons. by apply Hs.
  - intros k. pose proof (ti_ct _ _ HT k) as Hk. rewrite E, grants_mid in Hk. by rewrite grants_mid.
Qed.

(** A release gives the claim up with the lock. *)
Lemma TInv_release n x t1 i l p own gr t2 k1 k2 :
  TInv n x → threads x = t1 ++ Thr (ORel i l :: p) None own gr :: t2 → tasks (tl x) = k1 ++ THold i l :: k2 →
  TInv n (TSys (with_tasks (k1 ++ TRel i l :: k2) (tl x)) (ct x) (t1 ++ Thr p None (without (i, l) own) gr :: t2) (todo x)).
Proof.
  intros HT E Ek. destruct (ok_thread n x _ _ _ HT E) as (multi & (Hok & Hnd & Hgl & Hs & Hw) & Hm). ok_split Hok.
  destruct Hok as ((Hin & Hg) & Hok). simpl in *.
  pose proof (claims_nodup n x HT) as Hn. rewrite E in Hn. rewrite claims_mid, fmap_app in Hn. apply NoDup_app in Hn as [Hn _]. simpl in Hn.
  pose proof (without_perm (i, l) own (NoDup_fmap_1 _ _ Hn) Hin) as Hp. split; simpl; [| | | |apply HT].
  - eapply rtc_r; [apply HT|]. split; [by apply LUser|]. pose proof (lreach_inv _ _ (ti_lock _ _ HT)) as [Hsm _]. unfold lids_small in *.
    simpl. rewrite Ek, Forall_app, Forall_cons in Hsm. rewrite Forall_app, Forall_cons. naive_solver.
  - pose proof (ti_claims _ _ HT) as Hc. rewrite E in Hc. rewrite claims_mid in Hc |- *. simpl in *. unfold holds in *.
    rewrite Ek, omap_app in Hc. simpl. rewrite omap_app. simpl in *. rewrite Hp, <- Permutation_middle in Hc. simpl in Hc.
    by apply (submseteq_app_inv_l _ _ [(i, l)]) in Hc.
  - apply (threads_ok_mid multi); [|destruct multi; [apply Hm|done]]. split_and!; simpl; try done.
    + intros Hmt c Hc. specialize (Hs Hmt c Hc). apply (mult_cases _ _ Hg) in Hmt. rewrite Hp in Hs. simpl in Hs.
      apply elem_of_cons in Hs as [->|?]; done.
    + rewrite Hp in Hw. by apply Forall_cons in Hw as [_ ?].
  - intros k. pose proof (ti_ct _ _ HT k) as Hk. rewrite E, grants_mid in Hk. by rewrite grants_mid.
Qed.

(** When all threads are done, nothing is held and all counters are 0. *)
Lemma done_empty n x : TInv n x → forallb done_thr (threads x) = true → claims (threads x) = [] ∧ threads x ≫= t_gr = [].
Proof.
  intros HT Hd. assert (Forall (λ t, t_own t = [] ∧ t_gr t = []) (threads x)) as Hf.
  { apply Forall_forall. intros t Ht. rewrite forallb_forall in Hd. pose proof (Hd t (proj1 (list_elem_of_In _ _) Ht)) as Hdt.
    apply list_elem_of_split in Ht as (t1 & t2 & E). destruct (ok_thread n x _ _ _ HT E) as (multi & (Hok & _) & _).
    destruct t as [[|] [|] own gr]; try done. ok_split Hok. done. }
  unfold claims. clear -Hf. induction Hf as [|t ts [E1 E2] _ [IH1 IH2]]; [done|].
  split; [change (t_own t ++ (ts ≫= t_own) = [])|change (t_gr t ++ (ts ≫= t_gr) = [])]; [by rewrite E1, IH1|by rewrite E2, IH2].
Qed.

Lemma new_threads_empty ps : claims (thr_new <$> ps) = [] ∧ (thr_new <$> ps) ≫= t_gr = [].
Proof. induction ps as [|p ps [IH1 IH2]]; [done|]. done. Qed.

Lemma TInv_step n x y : TInv n x → tstep x y → TInv n y.
Proof.
  intros HT Hs. destruct Hs as [y Hs Hsm Hc| | | | | |ts rest Hd Et];
    [|by apply TInv_start|by eapply TInv_return|by eapply TInv_grant|by eapply TInv_check|by apply TInv_release|].
  - split; simpl; [|done|apply HT..]. eapply rtc_r; [apply HT|]. done.
  - destruct (done_empty n x HT Hd) as [_ E2]. destruct (new_threads_empty ts) as [E3 E4].
    pose proof (ti_todo _ _ HT) as Ht. rewrite Et in Ht. apply Forall_cons in Ht as [Ht Hr].
    split; simpl; [apply HT|rewrite E3; apply submseteq_nil_l|done| |done].
    intros k. pose proof (ti_ct _ _ HT k) as Hk. by rewrite E4, <- E2.
Qed.

Lemma TInv_reachable n test x : rtc tstep (tsys_new n test) x → TInv n x.
Proof.
  intros Hr. revert x Hr. apply rtc_ind_r; [|intros x y _ Hs H; by eapply TInv_step].
  split; simpl; [apply rtc_refl|apply submseteq_nil_l|by left|done|apply main_tests_ok].
Qed.

(** C20.  lock_tester passes: whatever the caching server, the clients and the threads
    of the tests do, check_grant and check_release never report an error, and
    every release is of a lock the thread was granted. *)
Theorem tester_passes (n test : Z) (x : tsys) (t : thr) :
  rtc tstep (tsys_new n test) x → t ∈ threads x → t_wait t = None →
  match t_prog t with
  | OGrant l :: _ => is_Some (check_grant l (ct x))
  | OCheck l :: _ => is_Some (check_release l (ct x))
  | ORel i l :: _ => (i, l) ∈ t_own t ∧ THold i l ∈ tasks (tl x)
  | _ => True
  end.
Proof.
  intros HT%TInv_reachable Ht Hw. apply list_elem_of_split in Ht as (t1 & t2 & E). destruct t as [[|[i l|l|l|i l] p] w own gr]; try done;
    simpl in Hw; subst w; simpl.
  - destruct (grant_ok n x _ _ _ _ _ _ HT E) as (_ & _ & -> & _). by eexists.
  - destruct (check_ok n x _ _ _ _ _ _ HT E) as (_ & -> & _). by eexists.
  - destruct (ok_thread n x _ _ _ HT E) as (multi & (Hok & _) & _). ok_split Hok. destruct Hok as ((Hin & _) & _). split; [done|].
    assert ((i, l) ∈ holds (tl x)) as Hh.
    { eapply elem_of_submseteq; [|apply HT]. rewrite E, claims_mid. apply elem_of_app. by left. }
    apply list_elem_of_omap in Hh as (u & Hu & Eu). destruct u; try done. by injection Eu as -> ->.
Qed.

(** ** A run of test 2: the first thread was granted the lock *)
Lemma lock_run x acts y :
  claims (threads x) = [] → small_run acts (tl x) = true → run_acts acts (tl x) = Some y →
  rtc tstep x (TSys y (ct x) (threads x) (todo x)).
Proof.
  intros Hc Hs Hr. pose proof (small_run_lreach _ _ _ Hs Hr) as H. destruct x as [s m ts td]. simpl in *.
  clear Hs Hr. induction H as [s|s1 s2 s3 [Hst Hsm] _ IH]; [constructor|]. eapply rtc_l; [|exact IH].
  apply (TLock (TSys s1 m ts td) s2); [done|done|]. simpl. rewrite Hc. apply submseteq_nil_l.
Qed.

Definition ex_start : lsys := with_tasks [TAcq 0 lock_a] (lsys_new 0).

Definition ex_held : lsys := default (lsys_new 0) (run_acts [Run 0; Run 0; Run 0] ex_start).

Definition ex_others : list thr := thr_new <$> (test2 ∘ Z.of_nat <$> seq 1 5).

Definition ex_granted : thr := Thr [OGrant lock_a; OCheck lock_a; ORel 0 lock_a] None [(0, lock_a)] [].

Definition ex_test2 : tsys := TSys ex_held ∅ (ex_granted :: ex_others) [].

Lemma ex_test2_reached : rtc tstep (tsys_new 0 2) ex_test2.
Proof.
  set (p := [OGrant lock_a; OCheck lock_a; ORel 0 lock_a]).
  apply (rtc_l _ _ (TSys (lsys_new 0) ∅ (thr_new <$> each nt test2) [])); [by apply TNext|].
  apply (rtc_l _ _ (TSys ex_start ∅ (Thr p (Some (0, lock_a)) [] [] :: ex_others) [])); 
    [by apply (TStart (TSys (lsys_new 0) ∅ (thr_new <$> each nt test2) []) [] 0 lock_a p [] [] ex_others)|].
  etrans; [by apply (lock_run _ [Run 0; Run 0; Run 0] ex_held); vm_compute|].
  apply rtc_once.
  apply (TReturn (TSys ex_held ∅ (Thr p (Some (0, lock_a)) [] [] :: ex_others) []) [] 0 lock_a p [] [] ex_others); [done|by_vm].
Qed.

Lemma tester_passes_witness :
  rtc tstep (tsys_new 0 2) ex_test2 ∧ is_Some (check_grant lock_a (ct ex_test2)).
Proof.
  split; [exact ex_test2_reached|].
  apply (tester_passes 0 2 ex_test2 ex_granted ex_test2_reached); [by left|reflexivity].
Defined.
