(* ===== verification/YfsBlock.v ===== *)
(** The block layer of yfs_client.cc: the inode layout inside a block, the block
    bitmap in blocks 10 to 200, and the operations get, put, remove, safe_get
    and safe_put, over any block store (ExtentCache.v).

    The state is that of one thread of the client: the store, the locks the
    thread holds and the clock.  Acquiring a lock that the thread already holds
    waits for ever, releasing one it does not hold fails the assertion of
    lock_client_cache::release. *)
From S2P Require Import Prelude ExtentServer ExtentCache.
Local Open Scope Z_scope.

(** ** Constants of yfs_client.h *)
Definition y_OK : Z := 0.
Definition y_NOENT : Z := 2.
Definition y_IOERR : Z := 3.
Definition y_EXIST : Z := 4.
Definition INODE_DIRECT_BLOCK_NUM : Z := 16.
Definition INODE_DIR_ENTRY_NUM : Z := 5.
Definition INODE_FILE_NAME_LEN : Z := 64.
Definition BLOCK_BITMAP_BEGIN_BLOCK : Z := 10.
Definition BLOCK_BITMAP_END_BLOCK : Z := 200.
Definition BITMAP_PER_BLOCK : Z := 4096.

(** ** struct inode: fields of a block, little endian at their offsets *)
Definition rd (off n : nat) (b : list Z) : Z := le_val (slice off n b).
Definition wr (off n : nat) (v : Z) (b : list Z) : list Z := splice off (le_bytes n v) b.

Definition i_mode (b : list Z) : Z := s8 (rd 0 1 b).
Definition i_size (b : list Z) : Z := rd 8 8 b.
Definition i_atime (b : list Z) : Z := rd 16 8 b.
Definition i_mtime (b : list Z) : Z := rd 24 8 b.
Definition i_ctime (b : list Z) : Z := rd 32 8 b.
Definition i_next (b : list Z) : Z := rd 400 8 b.
Definition set_mode (v : Z) (b : list Z) : list Z := wr 0 1 v b.
Definition set_size (v : Z) (b : list Z) : list Z := wr 8 8 v b.
Definition set_atime (v : Z) (b : list Z) : list Z := wr 16 8 v b.
Definition set_mtime (v : Z) (b : list Z) : list Z := wr 24 8 v b.
Definition set_ctime (v : Z) (b : list Z) : list Z := wr 32 8 v b.
Definition set_next (v : Z) (b : list Z) : list Z := wr 400 8 v b.

(** direct_blocks[i], i < 16. *)
Definition block_off (i : Z) : nat := Z.to_nat (40 + 8 * i).
Definition direct_block (i : Z) (b : list Z) : Z := rd (block_off i) 8 b.
Definition set_direct_block (i v : Z) (b : list Z) : list Z := wr (block_off i) 8 v b.

(** dir_entries[i]: 64 bytes of name, then the inode number. *)
Definition entry_off (i : Z) : nat := Z.to_nat (40 + 72 * i).
Definition entry_inum (i : Z) (b : list Z) : Z := rd (entry_off i + 64) 8 b.
Definition set_entry_inum (i v : Z) (b : list Z) : list Z := wr (entry_off i + 64) 8 v b.

(** name.c_str(): up to the first NUL. *)
Fixpoint c_str (s : list Z) : list Z :=
  match s with [] => [] | c :: s => if c =? 0 then [] else c :: c_str s end.

(** strcmp(mem, s) == 0; [None] when it reads past the memory. *)
Fixpoint str_eq (mem s : list Z) : option bool :=
  match mem with
  | [] => None
  | c :: mem =>
      if c =? 0 then Some (match s with [] => true | _ => false end)
      else match s with
           | [] => Some false
           | d :: s => if c =? d then str_eq mem s else Some false
           end
  end.

Definition entry_is (i : Z) (name b : list Z) : res bool :=
  match str_eq (drop (entry_off i) b) (c_str name) with Some r => Ret r | None => Undef end.

(** strcpy into the name field: nothing stops it at the end of the field, only
    leaving the block is caught here. *)
Definition set_entry_name (i : Z) (name b : list Z) : res (list Z) :=
  let s := c_str name ++ [0] in
  if (length b <? entry_off i + length s)%nat then Undef else Ret (splice (entry_off i) s b).

Definition zero_block : list Z := replicate 512 0.

(** ** Bits of a bitmap block: the bytes are signed chars *)
Definition byte_of (b : list Z) (bitmap : Z) : Z := default 0 (b !! Z.to_nat (Z.shiftr bitmap 3)).

Definition bit_set (b : list Z) (bitmap : Z) : bool :=
  negb (Z.land (Z.shiftr (s8 (byte_of b bitmap)) (Z.land bitmap 7)) 1 =? 0).

Definition set_bit (b : list Z) (bitmap : Z) : list Z :=
  <[Z.to_nat (Z.shiftr bitmap 3) :=
      u8 (Z.lor (s8 (byte_of b bitmap)) (Z.shiftl 1 (Z.land bitmap 7)))]> b.

Definition clear_bit (b : list Z) (bitmap : Z) : list Z :=
  <[Z.to_nat (Z.shiftr bitmap 3) :=
      u8 (Z.land (s8 (byte_of b bitmap)) (Z.lnot (Z.shiftl 1 (Z.land bitmap 7))))]> b.

(** ** The thread's state *)
Record yfs (S : Type) := Yfs { y_store : S; y_held : gset Z; y_clk : nat }.
Arguments Yfs {S}.
Arguments y_store {S}.
Arguments y_held {S}.
Arguments y_clk {S}.

Section ops.
Context {S : Type} `{BlockStore S}.
(** What the successive calls of time(0) return, and what uninitialised
    buffers hold. *)
Context (time : nat → Z) (junk : list Z).

Abbreviation Y := (ST (yfs S)).

Definition lc_acquire (lid : Z) : Y unit := λ s,
  if decide (lid ∈ y_held s) then Blocked
  else Ret (tt, Yfs (y_store s) ({[lid]} ∪ y_held s) (y_clk s)).

Definition lc_release (lid : Z) : Y unit := λ s,
  if decide (lid ∈ y_held s) then Ret (tt, Yfs (y_store s) (y_held s ∖ {[lid]}) (y_clk s))
  else VerifyFailed.

Definition time0 : Y Z := λ s, Ret (u64 (time (y_clk s)), Yfs (y_store s) (y_held s) (Datatypes.S (y_clk s))).

Definition ec_get (id : Z) : Y (Z * list Z) := λ s,
  '(ret, b, st) ← bs_get id (y_store s); Ret (ret, b, Yfs st (y_held s) (y_clk s)).

Definition ec_put (id : Z) (b : list Z) : Y Z := λ s,
  '(ret, st) ← bs_put id b (y_store s); Ret (ret, Yfs st (y_held s) (y_clk s)).

(** The bitmap check that get and put share. *)
Definition in_bitmap_area (ino : Z) : bool :=
  (BLOCK_BITMAP_BEGIN_BLOCK <=? ino) && (ino <=? BLOCK_BITMAP_END_BLOCK).

Definition bitmap_block (ino : Z) : Z := BLOCK_BITMAP_BEGIN_BLOCK + ino `div` BITMAP_PER_BLOCK.

Definition check_bit (ino : Z) : Y bool :=
  if in_bitmap_area ino then mret true
  else
    lc_acquire (bitmap_block ino);;
    '(_, bm) ← ec_get (bitmap_block ino);
    lc_release (bitmap_block ino);;
    mret (bit_set bm (ino `mod` BITMAP_PER_BLOCK)).

(** get(ino, buf): [buf] is left as it was when the block is not allocated. *)
Definition y_get (ino : Z) (buf : list Z) : Y (Z * list Z) :=
  used ← check_bit ino;
  if negb used then mret (y_NOENT, buf) else ec_get ino.

(** put(ino, buf, false) *)
Definition y_put (ino : Z) (buf : list Z) : Y Z :=
  used ← check_bit ino;
  if negb used then mret y_NOENT else ec_put ino buf;; mret y_OK.

(** put(ino, buf, true): the loop over the bits.  [ino] keeps its value when the
    block cannot be written. *)
Fixpoint alloc_loop (fuel : nat) (i last ino : Z) (buf : list Z) : Y (Z * Z * Z) :=
  match fuel with
  | O => st_fuel
  | Datatypes.S fuel =>
      let bb := bitmap_block i in
      (if bb =? last then mret tt else lc_acquire bb);;
      let bitmap := i `mod` BITMAP_PER_BLOCK in
      '(_, bm) ← ec_get bb;
      if negb (bit_set bm bitmap) then
        lc_acquire i;;
        ret ← ec_put i buf;
        lc_release i;;
        if negb (ret =? y_OK) then mret (y_IOERR, ino, bb)
        else
          ret ← ec_put bb (set_bit bm bitmap);
          if negb (ret =? y_OK) then mret (y_IOERR, ino, bb) else mret (y_OK, i, bb)
      else alloc_loop fuel (i + 1) bb ino buf
  end.

(** over: while (last_bitmap_block >= BLOCK_BITMAP_BEGIN_BLOCK) release. *)
Fixpoint release_down (n : nat) (last : Z) : Y unit :=
  match n with
  | O => mret tt
  | Datatypes.S n =>
      if BLOCK_BITMAP_BEGIN_BLOCK <=? last then lc_release last;; release_down n (last - 1)
      else mret tt
  end.

Definition y_put_add (fuel : nat) (ino : Z) (buf : list Z) : Y (Z * Z) :=
  '(ret, ino, last) ← alloc_loop fuel 0 (2 ^ 64 - 1) ino buf;
  release_down (Z.to_nat (last - 9)) last;;
  mret (ret, ino).

(** remove(ino) *)
Definition y_remove (ino : Z) : Y Z :=
  let bb := bitmap_block ino in
  lc_acquire bb;;
  '(_, bm) ← ec_get bb;
  ret ← ec_put bb (clear_bit bm (ino `mod` BITMAP_PER_BLOCK));
  lc_release bb;;
  mret (if negb (ret =? y_OK) then y_IOERR else y_OK).

(** safe_get and safe_put take the lock of the block unless the caller has it. *)
Definition safe_get (ino : Z) (buf : list Z) (ignore : Z) : Y (Z * list Z) :=
  if ino =? ignore then y_get ino buf
  else
    lc_acquire ino;;
    r ← y_get ino buf;
    lc_release ino;;
    mret r.

Definition safe_put (ino : Z) (buf : list Z) (ignore : Z) : Y Z :=
  if ino =? ignore then y_put ino buf
  else
    lc_acquire ino;;
    r ← y_put ino buf;
    lc_release ino;;
    mret r.

(** The constructor formats the disk. *)
Definition put_locked (id : Z) (b : list Z) : Y unit :=
  lc_acquire id;; ec_put id b;; lc_release id.

Definition super_block : list Z :=
  let b := splice 0 [84; 104; 105; 115; 32; 105; 115; 32; 115; 117; 112; 101; 114; 32;
                     98; 108; 111; 99; 107; 33; 0] zero_block in
  let b := wr 32 8 1024 b in
  let b := wr 64 8 0 b in
  let b := <[80%nat := 1]> b in
  <[80%nat := u8 (Z.lor (s8 (default 0 (b !! 80%nat))) 2)]> b.

Definition first_bitmap : list Z :=
  let b := <[0%nat := 1]> zero_block in
  let b := <[0%nat := u8 (Z.lor (s8 (default 0 (b !! 0%nat))) 2)]> b in
  foldl set_bit b ((λ k, BLOCK_BITMAP_BEGIN_BLOCK + Z.of_nat k) <$> seq 0 191).

Definition root_block : list Z :=
  set_ctime 0 (set_mtime 0 (set_atime 0 (set_size 0 (set_mode 0 zero_block)))).

Definition yfs_client_new : Y unit :=
  put_locked 0 super_block;;
  put_locked BLOCK_BITMAP_END_BLOCK zero_block;;
  put_locked BLOCK_BITMAP_BEGIN_BLOCK first_bitmap;;
  put_locked 1 root_block.
End ops.
