(* ===== verification/YfsFile.v ===== *)
(** Files in yfs_client.cc: reading and writing through the chain of inodes,
    attributes and the type tests. *)
From S2P Require Import Prelude ExtentServer ExtentCache YfsBlock.
Local Open Scope Z_scope.

(** struct fileinfo (struct dirinfo has its last three fields). *)
Record fileinfo := FileInfo { f_size : Z; f_atime : Z; f_mtime : Z; f_ctime : Z }.

(** buf.append(data + off, n), within a block. *)
Definition block_part (data : list Z) (off n : Z) : res (list Z) :=
  if (off <? 0) || (512 <? off + n) then Undef
  else Ret (slice (Z.to_nat off) (Z.to_nat n) data).

(** memcpy(data + off, src, n), within a block. *)
Definition block_copy (data : list Z) (off : Z) (src : list Z) (n : Z) : res (list Z) :=
  if (off <? 0) || (512 <? off + n) || (Z.of_nat (length src) <? n) then Undef
  else Ret (splice (Z.to_nat off) (take (Z.to_nat n) src) data).

Section ops.
Context {S : Type} `{BlockStore S}.
Context (time : nat → Z) (junk : list Z).
(** Fuel for each loop: the search for a free block, the blocks skipped, the
    blocks transferred, the inodes of a directory. *)
Context (fuel : nat).

Abbreviation Y := (ST (yfs S)).
Abbreviation time0 := (time0 time).
Abbreviation y_put_add := (y_put_add fuel).

(** ** Type tests and attributes *)
Definition has_mode (m : Z) (ino : Z) : Y bool :=
  lc_acquire ino;;
  '(ret, buf) ← safe_get ino junk ino;
  lc_release ino;;
  mret (if negb (ret =? y_OK) then false else i_mode buf =? m).

Definition isfile (ino : Z) : Y bool := has_mode 1 ino.
Definition isdir (ino : Z) : Y bool := has_mode 0 ino.

(** issym returns early without giving the lock back. *)
Definition issym (ino : Z) : Y bool :=
  lc_acquire ino;;
  '(ret, buf) ← y_get ino junk;
  if negb (ret =? y_OK) then mret false
  else lc_release ino;; mret (i_mode buf =? 2).

Definition info_of (buf : list Z) : fileinfo :=
  FileInfo (i_size buf) (i_atime buf) (i_mtime buf) (i_ctime buf).

Definition getfile (ino : Z) (fin : fileinfo) : Y (Z * fileinfo) :=
  lc_acquire ino;;
  '(ret, buf) ← safe_get ino junk ino;
  lc_release ino;;
  mret (if ret =? y_NOENT then (y_NOENT, fin)
        else if negb (ret =? y_OK) then (y_IOERR, fin) else (y_OK, info_of buf)).

Definition getdir (ino : Z) (din : Z * Z * Z) : Y (Z * (Z * Z * Z)) :=
  lc_acquire ino;;
  '(ret, buf) ← safe_get ino junk ino;
  lc_release ino;;
  mret (if ret =? y_NOENT then (y_NOENT, din)
        else if negb (ret =? y_OK) then (y_IOERR, din)
        else (y_OK, (i_atime buf, i_mtime buf, i_ctime buf))).

(** ** Reading *)

(** "touch the data block": the inode and the index of the block to read, after
    following the chain past the sixteenth; [None] at the end of the file. *)
Definition touch_read (ino : Z) (inode_buf : list Z) (index : Z) : Y (option (list Z * Z)) :=
  r ← (if INODE_DIRECT_BLOCK_NUM <=? index then
         if negb (i_next inode_buf =? 0) then
           '(_, b) ← safe_get (i_next inode_buf) inode_buf ino; mret (Some (b, 0))
         else mret None
       else mret (Some (inode_buf, index)));
  match r with
  | None => mret None
  | Some (inode_buf, index) =>
      if direct_block index inode_buf =? 0 then mret None else mret (Some (inode_buf, index))
  end.

(** The first loop: skip whole blocks.  [None] is a return with OK and no data. *)
Fixpoint read_skip (n : nat) (ino : Z) (inode_buf : list Z) (index off filesize : Z)
    : Y (option (list Z * Z * Z * Z)) :=
  match n with
  | O => st_fuel
  | Datatypes.S n =>
      r ← touch_read ino inode_buf index;
      match r with
      | None => mret None
      | Some (inode_buf, index) =>
          if BSIZE <=? off then
            if BSIZE <=? filesize
            then read_skip n ino inode_buf (index + 1) (off - BSIZE) (filesize - BSIZE)
            else mret None
          else mret (Some (inode_buf, index, off, filesize))
      end
  end.

(** The second loop: append the data.  The two branches of the source differ
    only in which of [size] and [filesize] ends the transfer. *)
Fixpoint read_loop (n : nat) (ino : Z) (inode_buf : list Z) (index off filesize size : Z)
    (data_buf buf : list Z) : Y (list Z) :=
  match n with
  | O => st_fuel
  | Datatypes.S n =>
      r ← touch_read ino inode_buf index;
      match r with
      | None => mret buf
      | Some (inode_buf, index) =>
          let left := if size <=? filesize then size else filesize in
          '(_, data_buf) ← safe_get (direct_block index inode_buf) data_buf ino;
          if left <=? u64 (BSIZE - off) then
            part ← st_lift (block_part data_buf off left);
            mret (buf ++ part)
          else
            part ← st_lift (block_part data_buf off (BSIZE - off));
            read_loop n ino inode_buf (index + 1) 0 (u64 (filesize - (BSIZE - off)))
              (u64 (size - (BSIZE - off))) data_buf (buf ++ part)
      end
  end.

Definition inner_read (ino size off : Z) : Y (Z * list Z) :=
  if size =? 0 then mret (y_OK, [])
  else
    '(ret, inode_buf) ← safe_get ino junk ino;
    if ret =? y_NOENT then mret (y_NOENT, [])
    else
      t ← time0;
      let inode_buf := set_atime t inode_buf in
      ret ← safe_put ino inode_buf ino;
      if negb (ret =? y_OK) then mret (y_IOERR, [])
      else
        r ← read_skip fuel ino inode_buf 0 off (i_size inode_buf);
        match r with
        | None => mret (y_OK, [])
        | Some (inode_buf, index, off, filesize) =>
            buf ← read_loop fuel ino inode_buf index off filesize size junk [];
            mret (y_OK, buf)
        end.

(** ** Writing *)

(** The next inode of the chain, created when it is missing.  The first loop of
    inner_write checks the results of the two puts, the second does not. *)
Definition next_inode_block (checked : bool) (ino target : Z) (inode_buf : list Z)
    : Y (option (Z * list Z)) :=
  r ← (if i_next inode_buf =? 0 then
         '(ret, tmp) ← y_put_add 0 (set_mode 1 zero_block);
         if checked && negb (ret =? y_OK) then mret None
         else
           let inode_buf := set_next tmp inode_buf in
           ret ← safe_put target inode_buf ino;
           if checked && negb (ret =? y_OK) then mret None else mret (Some inode_buf)
       else mret (Some inode_buf));
  match r with
  | None => mret None
  | Some inode_buf =>
      let target := i_next inode_buf in
      '(_, inode_buf) ← safe_get target inode_buf ino;
      mret (Some (target, inode_buf))
  end.

(** A missing direct block is created; a block past the old end is zeroed. *)
Definition touch_block (ino target : Z) (inode_buf : list Z) (index filesize : Z) : Y (list Z) :=
  inode_buf ← (if direct_block index inode_buf =? 0 then
                 '(_, tmp) ← y_put_add 0 zero_block;
                 let inode_buf := set_direct_block index tmp inode_buf in
                 safe_put target inode_buf ino;;
                 mret inode_buf
               else mret inode_buf);
  (if filesize <? 0 then
     safe_put (direct_block index inode_buf) zero_block ino;; mret tt
   else mret tt);;
  mret inode_buf.

(** "touch the data block" of inner_write: inode number, inode and index of the
    block to write. *)
Definition touch_write (checked : bool) (ino target : Z) (inode_buf : list Z) (index filesize : Z)
    : Y (option (Z * list Z * Z)) :=
  r ← (if INODE_DIRECT_BLOCK_NUM <=? index then
         r ← next_inode_block checked ino target inode_buf;
         mret ((λ p, (p, 0)) <$> r)
       else mret (Some (target, inode_buf, index)));
  match r with
  | None => mret None
  | Some (target, inode_buf, index) =>
      inode_buf ← touch_block ino target inode_buf index filesize;
      mret (Some (target, inode_buf, index))
  end.

Fixpoint write_skip (n : nat) (ino target : Z) (inode_buf : list Z) (index off filesize : Z)
    : Y (option (Z * list Z * Z * Z * Z)) :=
  match n with
  | O => st_fuel
  | Datatypes.S n =>
      r ← touch_write true ino target inode_buf index filesize;
      match r with
      | None => mret None
      | Some (target, inode_buf, index) =>
          if BSIZE <=? off
          then write_skip n ino target inode_buf (index + 1) (off - BSIZE) (s64 (filesize - BSIZE))
          else mret (Some (target, inode_buf, index, off, filesize))
      end
  end.

Fixpoint write_loop (n : nat) (ino target : Z) (inode_buf : list Z) (index off filesize : Z)
    (data_buf buf : list Z) (size : Z) : Y unit :=
  match n with
  | O => st_fuel
  | Datatypes.S n =>
      r ← touch_write false ino target inode_buf index filesize;
      match r with
      | None => mret tt
      | Some (target, inode_buf, index) =>
          '(_, data_buf) ← safe_get (direct_block index inode_buf) data_buf ino;
          let n' := if size <=? u64 (BSIZE - off) then size else BSIZE - off in
          data_buf ← st_lift (block_copy data_buf off buf n');
          safe_put (direct_block index inode_buf) data_buf ino;;
          if size <=? u64 (BSIZE - off) then mret tt
          else write_loop n ino target inode_buf (index + 1) 0 (s64 (filesize - (BSIZE - off)))
                 data_buf (drop (Z.to_nat (BSIZE - off)) buf) (size - (BSIZE - off))
      end
  end.

(** The size is given back unchanged, so it is not part of the result. *)
Definition inner_write (ino : Z) (buf : list Z) (size off : Z) : Y Z :=
  '(ret, inode_buf) ← safe_get ino junk ino;
  if ret =? y_NOENT then mret y_NOENT
  else
    t1 ← time0;
    t2 ← time0;
    let inode_buf := set_mtime t2 (set_atime t1 inode_buf) in
    ret ← safe_put ino inode_buf ino;
    if negb (ret =? y_OK) then mret y_IOERR
    else
      let filesize := s64 (i_size inode_buf) in
      let end_ := u64 (off + size) in
      let new_filesize := if end_ <? u64 filesize then u64 filesize else end_ in
      r ← write_skip fuel ino ino inode_buf 0 off filesize;
      match r with
      | None => mret y_IOERR
      | Some (target, inode_buf, index, off, filesize) =>
          write_loop fuel ino target inode_buf index off filesize junk buf size;;
          '(_, inode_buf) ← safe_get ino inode_buf ino;
          safe_put ino (set_size new_filesize inode_buf) ino;;
          mret y_OK
      end.

(** ** The operations with the lock of the file *)
Definition read (ino size off : Z) : Y (Z * list Z) :=
  lc_acquire ino;; r ← inner_read ino size off; lc_release ino;; mret r.

Definition write (ino : Z) (buf : list Z) (size off : Z) : Y Z :=
  lc_acquire ino;; r ← inner_write ino buf size off; lc_release ino;; mret r.

(** setattr writes the inode it read before the resize, with the new times and
    size. *)
Definition setattr (ino to_set : Z) (info : fileinfo) : Y Z :=
  lc_acquire ino;;
  '(_, buf) ← safe_get ino junk ino;
  let buf := set_ctime (f_ctime info) (set_mtime (f_mtime info) (set_atime (f_atime info) buf)) in
  buf ← (if negb (to_set =? 0) then
           inner_write ino buf 0 (s64 (f_size info));;
           mret (set_size (f_size info) buf)
         else mret buf);
  ret ← safe_put ino buf ino;
  lc_release ino;;
  mret (if negb (ret =? y_OK) then y_IOERR else y_OK).

Definition readlink (ino : Z) : Y (Z * list Z) :=
  lc_acquire ino;;
  '(ret, buf) ← safe_get ino junk ino;
  r ← (if ret =? y_NOENT then mret (y_NOENT, [])
       else if negb (ret =? y_OK) then mret (y_IOERR, [])
       else inner_read ino (i_size buf) 0);
  lc_release ino;;
  mret r.
End ops.
