(* ===== verification/YfsDir.v ===== *)
(** Directories in yfs_client.cc: entries in a chain of inodes, five to a block;
    create, lookup, readdir, mkdir, unlink, symlink. *)
From S2P Require Import Prelude ExtentServer ExtentCache YfsBlock YfsFile.
Local Open Scope Z_scope.

(** std::string(dir_entries[i].name): up to the first NUL. *)
Fixpoint str_read (mem : list Z) : option (list Z) :=
  match mem with
  | [] => None
  | c :: mem => if c =? 0 then Some [] else (c ::.) <$> str_read mem
  end.

Definition entry_name (i : Z) (b : list Z) : res (list Z) :=
  match str_read (drop (entry_off i) b) with Some s => Ret s | None => Undef end.

(** for (i = 0; i < size; ++i) if (!strcmp(dir_entries[i].name, name)).  The
    seventh entry would lie outside the block, so that eight rounds always
    reach the end or leave the block. *)
Fixpoint find_loop (n : nat) (i : Z) (name b : list Z) : res (option Z) :=
  match n with
  | O => OutOfFuel
  | S n =>
      if i <? i_size b then
        r ← entry_is i name b;
        if r : bool then Ret (Some i) else find_loop n (i + 1) name b
      else Ret None
  end.

Definition find_entry (name b : list Z) : res (option Z) := find_loop 8 0 name b.

(** The entries of one block, added to the map of inode numbers to names. *)
Fixpoint collect_loop (n : nat) (i : Z) (b : list Z) (items : gmap Z (list Z))
    : res (gmap Z (list Z)) :=
  match n with
  | O => OutOfFuel
  | S n =>
      if i <? i_size b then
        name ← entry_name i b;
        collect_loop n (i + 1) b (<[entry_inum i b := name]> items)
      else Ret items
  end.

(** Copying all entries but one into a fresh block, in unlink. *)
Fixpoint copy_loop (n : nat) (i index : Z) (b new_buf : list Z) : res (list Z) :=
  match n with
  | O => OutOfFuel
  | S n =>
      if i <? i_size b then
        if i =? index then copy_loop n (i + 1) index b new_buf
        else if (512 <? entry_off i + 72)%nat || (512 <? entry_off (i_size new_buf) + 72)%nat
        then Undef
        else
          let new_buf := splice (entry_off (i_size new_buf)) (slice (entry_off i) 72 b) new_buf in
          copy_loop n (i + 1) index b (set_size (i_size new_buf + 1) new_buf)
      else Ret new_buf
  end.

Definition without_entry (index : Z) (b : list Z) : res (list Z) :=
  let n := set_mode (i_mode b) zero_block in
  let n := set_atime (i_atime b) n in
  let n := set_mtime (i_mtime b) n in
  let n := set_ctime (i_ctime b) n in
  let n := set_next (i_next b) n in
  copy_loop 8 0 index b (set_size 0 n).

(** Filling in the entry after the last one. *)
Definition add_entry (name : list Z) (inum : Z) (b : list Z) : res (list Z) :=
  b ← set_entry_name (i_size b) name b;
  let b := set_entry_inum (i_size b) inum b in
  Ret (set_size (u64 (i_size b + 1)) b).

Section ops.
Context {S : Type} `{BlockStore S}.
Context (time : nat → Z) (junk : list Z) (fuel : nat).

Abbreviation Y := (ST (yfs S)).
Abbreviation time0 := (time0 time).
Abbreviation y_put_add := (y_put_add fuel).

(** ** create *)

(** The loop while the block is full: the block with room, or the inode of an
    entry of this name, or an error.  [check]: create looks for the name in the
    full blocks, mkdir does not. *)
Inductive slot := Room (target tmp : Z) (buf : list Z) | Found (inum : Z) | Failure.

Fixpoint find_slot (n : nat) (check : bool) (parent target tmp : Z) (name buf : list Z) : Y slot :=
  match n with
  | O => st_fuel
  | Datatypes.S n =>
      if INODE_DIR_ENTRY_NUM <=? i_size buf then
        dup ← (if check then st_lift (find_entry name buf) else mret None);
        match dup with
        | Some i => mret (Found (entry_inum i buf))
        | None =>
            if negb (i_next buf =? 0) then
              let target := i_next buf in
              '(_, buf) ← safe_get target buf parent;
              find_slot n check parent target tmp name buf
            else
              '(ret, tmp) ← y_put_add tmp zero_block;
              if check && negb (ret =? y_OK) then mret Failure
              else
                let buf := set_next tmp buf in
                ret ← safe_put target buf parent;
                if check && negb (ret =? y_OK) then mret Failure
                else find_slot n check parent target tmp name buf
        end
      else mret (Room target tmp buf)
  end.

(** inner_create; create is the same with the lock of the parent.  The result
    is the status and the value left in [ino]. *)
Definition inner_create (parent : Z) (name : list Z) (ino : Z) : Y (Z * Z) :=
  '(_, buf) ← safe_get parent junk parent;
  t ← time0;
  let buf := set_ctime t (set_mtime t buf) in
  ret ← safe_put parent buf parent;
  if negb (ret =? y_OK) then mret (y_IOERR, ino)
  else
    r ← find_slot fuel true parent parent 0 name buf;
    match r with
    | Failure => mret (y_IOERR, ino)
    | Found i => mret (y_OK, i)
    | Room target tmp buf =>
        dup ← st_lift (find_entry name buf);
        match dup with
        | Some i => mret (y_OK, entry_inum i buf)
        | None =>
            t1 ← time0;
            t2 ← time0;
            let tmp_buf := set_ctime t2 (set_mtime t1 (set_atime 0 (set_mode 1 zero_block))) in
            '(ret, tmp) ← y_put_add tmp tmp_buf;
            if negb (ret =? y_OK) then mret (y_IOERR, ino)
            else
              buf ← st_lift (add_entry name tmp buf);
              ret ← safe_put target buf parent;
              if negb (ret =? y_OK) then mret (y_IOERR, ino) else mret (y_OK, tmp)
        end
    end.

Definition create (parent : Z) (name : list Z) (ino : Z) : Y (Z * Z) :=
  lc_acquire parent;; r ← inner_create parent name ino; lc_release parent;; mret r.

(** ** mkdir: no test for an existing name, no test of the results *)
Definition mkdir (parent : Z) (name : list Z) : Y (Z * Z) :=
  lc_acquire parent;;
  '(_, buf) ← safe_get parent junk parent;
  t1 ← time0;
  t2 ← time0;
  let buf := set_mtime t2 (set_ctime t1 buf) in
  safe_put parent buf parent;;
  r ← find_slot fuel false parent parent 0 name buf;
  match r with
  | Room target tmp buf =>
      t1 ← time0;
      t2 ← time0;
      let tmp_buf := set_ctime t2 (set_mtime t1 (set_atime 0 zero_block)) in
      '(_, tmp) ← y_put_add tmp tmp_buf;
      buf ← st_lift (add_entry name tmp buf);
      safe_put target buf parent;;
      lc_release parent;;
      mret (y_OK, tmp)
  | _ => st_undef
  end.

(** ** lookup and readdir *)
Fixpoint lookup_loop (n : nat) (parent : Z) (name buf : list Z) : Y Z :=
  match n with
  | O => st_fuel
  | Datatypes.S n =>
      r ← st_lift (find_entry name buf);
      match r with
      | Some i => mret (entry_inum i buf)
      | None =>
          if i_next buf =? 0 then mret 0
          else '(_, buf) ← safe_get (i_next buf) buf parent; lookup_loop n parent name buf
      end
  end.

(** A failed put of the parent makes lookup return IOERR as an inode number. *)
Definition lookup (parent : Z) (name : list Z) : Y Z :=
  lc_acquire parent;;
  '(_, buf) ← safe_get parent junk parent;
  t ← time0;
  let buf := set_atime t buf in
  ret ← safe_put parent buf parent;
  r ← (if negb (ret =? y_OK) then mret y_IOERR else lookup_loop fuel parent name buf);
  lc_release parent;;
  mret r.

Fixpoint readdir_loop (n : nat) (ino : Z) (buf : list Z) (items : gmap Z (list Z))
    : Y (gmap Z (list Z)) :=
  match n with
  | O => st_fuel
  | Datatypes.S n =>
      items ← st_lift (collect_loop 8 0 buf items);
      if i_next buf =? 0 then mret items
      else '(_, buf) ← safe_get (i_next buf) buf ino; readdir_loop n ino buf items
  end.

Definition readdir (ino : Z) : Y (Z * gmap Z (list Z)) :=
  lc_acquire ino;;
  '(_, buf) ← safe_get ino junk ino;
  t ← time0;
  let buf := set_atime t buf in
  ret ← safe_put ino buf ino;
  r ← (if negb (ret =? y_OK) then mret (y_IOERR, ∅)
       else items ← readdir_loop fuel ino buf ∅; mret (y_OK, items));
  lc_release ino;;
  mret r.

(** ** unlink *)
Fixpoint remove_blocks (n : nat) (i : Z) (buf : list Z) : Y unit :=
  match n with
  | O => mret tt
  | Datatypes.S n =>
      if direct_block i buf =? 0 then mret tt
      else y_remove (direct_block i buf);; remove_blocks n (i + 1) buf
  end.

Fixpoint recursive_unlink (n : nat) (ino : Z) : Y unit :=
  match n with
  | O => st_fuel
  | Datatypes.S n =>
      if ino =? 0 then mret tt
      else
        '(_, buf) ← safe_get ino junk 0;
        remove_blocks 16 0 buf;;
        (if negb (i_next buf =? 0) then recursive_unlink n (i_next buf) else mret tt);;
        y_remove ino;;
        mret tt
  end.

Fixpoint unlink_loop (n : nat) (parent buf_inum : Z) (name buf : list Z)
    : Y (option (Z * Z * list Z)) :=
  match n with
  | O => st_fuel
  | Datatypes.S n =>
      r ← st_lift (find_entry name buf);
      match r with
      | Some index => mret (Some (buf_inum, index, buf))
      | None =>
          if i_next buf =? 0 then mret None
          else
            let buf_inum := i_next buf in
            '(_, buf) ← safe_get buf_inum buf parent;
            unlink_loop n parent buf_inum name buf
      end
  end.

Definition unlink (parent : Z) (name : list Z) : Y Z :=
  lc_acquire parent;;
  '(_, buf) ← safe_get parent junk parent;
  t1 ← time0;
  t2 ← time0;
  let buf := set_ctime t2 (set_mtime t1 buf) in
  safe_put parent buf parent;;
  r ← unlink_loop fuel parent parent name buf;
  ret ← match r with
        | None => mret y_NOENT
        | Some (buf_inum, index, buf) =>
            new_buf ← st_lift (without_entry index buf);
            safe_put buf_inum new_buf parent;;
            recursive_unlink fuel (entry_inum index buf);;
            mret y_OK
        end;
  lc_release parent;;
  mret ret.

(** ** symlink: a file of mode 2 whose contents is the target *)
Definition symlink (parent : Z) (name link : list Z) (tmp ino : Z) : Y (Z * Z) :=
  lc_acquire parent;;
  '(ret, tmp) ← inner_create parent name tmp;
  r ← (if negb (ret =? y_OK) then mret (ret, ino)
       else
         ret ← inner_write time junk fuel tmp link (Z.of_nat (length link)) 0;
         if negb (ret =? y_OK) then mret (ret, ino)
         else
           '(r1, buf) ← safe_get tmp junk parent;
           if negb (r1 =? y_OK) then mret (ret, ino)
           else
             r2 ← safe_put tmp (set_mode 2 buf) parent;
             if negb (r2 =? y_OK) then mret (ret, ino) else mret (ret, tmp));
  lc_release parent;;
  mret r.
End ops.
