(* ===== verification/YfsOps.v ===== *)
(** The public operations of class yfs_client (yfs_client.h) as one type, so that
    properties of all of them, and of sequences of them, can be stated once. *)
From S2P Require Import Prelude ExtentServer ExtentCache YfsBlock YfsFile YfsDir.
Local Open Scope Z_scope.

Inductive fsop :=
  | OIsfile (ino : Z)
  | OIsdir (ino : Z)
  | OIssym (ino : Z)
  | OGetfile (ino : Z) (fin : fileinfo)
  | OGetdir (ino : Z) (din : Z * Z * Z)
  | OCreate (parent : Z) (name : list Z) (ino : Z)
  | OReaddir (ino : Z)
  | OSetattr (ino to_set : Z) (info : fileinfo)
  | ORead (ino size off : Z)
  | OWrite (ino : Z) (buf : list Z) (size off : Z)
  | OLookup (parent : Z) (name : list Z)
  | OMkdir (parent : Z) (name : list Z)
  | OUnlink (parent : Z) (name : list Z)
  | OSymlink (parent : Z) (name link : list Z) (tmp ino : Z)
  | OReadlink (ino : Z).

Inductive fsres :=
  | RBool (b : bool)
  | RStatus (ret : Z)
  | RInum (ino : Z)
  | RNew (ret ino : Z)
  | RData (ret : Z) (data : list Z)
  | RItems (ret : Z) (items : gmap Z (list Z))
  | RFile (ret : Z) (fin : fileinfo)
  | RDir (ret : Z) (din : Z * Z * Z).

Section ops.
Context {S : Type} `{BlockStore S}.
Context (time : nat → Z) (junk : list Z) (fuel : nat).

Abbreviation Y := (ST (yfs S)).

Definition exec_op (o : fsop) : Y fsres :=
  match o with
  | OIsfile ino => b ← isfile junk ino; mret (RBool b)
  | OIsdir ino => b ← isdir junk ino; mret (RBool b)
  | OIssym ino => b ← issym junk ino; mret (RBool b)
  | OGetfile ino fin => '(ret, fin) ← getfile junk ino fin; mret (RFile ret fin)
  | OGetdir ino din => '(ret, din) ← getdir junk ino din; mret (RDir ret din)
  | OCreate parent name ino => '(ret, ino) ← create time junk fuel parent name ino; mret (RNew ret ino)
  | OReaddir ino => '(ret, items) ← readdir time junk fuel ino; mret (RItems ret items)
  | OSetattr ino to_set info => ret ← setattr time junk fuel ino to_set info; mret (RStatus ret)
  | ORead ino size off => '(ret, d) ← read time junk fuel ino size off; mret (RData ret d)
  | OWrite ino buf size off => ret ← write time junk fuel ino buf size off; mret (RStatus ret)
  | OLookup parent name => ino ← lookup time junk fuel parent name; mret (RInum ino)
  | OMkdir parent name => '(ret, ino) ← mkdir time junk fuel parent name; mret (RNew ret ino)
  | OUnlink parent name => ret ← unlink time junk fuel parent name; mret (RStatus ret)
  | OSymlink parent name link tmp ino =>
      '(ret, ino) ← symlink time junk fuel parent name link tmp ino; mret (RNew ret ino)
  | OReadlink ino => '(ret, d) ← readlink time junk fuel ino; mret (RData ret d)
  end.

Fixpoint exec_ops (os : list fsop) : Y (list fsres) :=
  match os with
  | [] => mret []
  | o :: os => r ← exec_op o; rs ← exec_ops os; mret (r :: rs)
  end.
End ops.
