(* ===== verification/YfsNames.v ===== *)
(** n2i and filename of yfs_client.cc: inode numbers as decimal strings, through
    the standard streams. *)
From S2P Require Import Prelude.
Local Open Scope Z_scope.

(** ost << inum: the digits, no leading zeroes.  Twenty digits are enough for 64
    bits. *)
Fixpoint put_digits (n : nat) (x : Z) (acc : list Z) : list Z :=
  match n with
  | O => acc
  | S n =>
      let acc := 48 + x `mod` 10 :: acc in
      if x `div` 10 =? 0 then acc else put_digits n (x `div` 10) acc
  end.

Definition filename (inum : Z) : list Z := put_digits 20 (u64 inum) [].

(** ist >> finum: white space is skipped, then a sign and digits are read; a
    value that does not fit becomes the largest, a negative one wraps.  [fail] is
    what the variable holds when there are no digits (0 since C++11). *)
Definition is_space (c : Z) : bool := (c =? 32) || ((9 <=? c) && (c <=? 13)).
Definition is_digit (c : Z) : bool := (48 <=? c) && (c <=? 57).

Fixpoint skip_space (s : list Z) : list Z :=
  match s with [] => [] | c :: s' => if is_space c then skip_space s' else s end.

Fixpoint get_digits (s : list Z) (acc : option Z) : option Z :=
  match s with
  | [] => acc
  | c :: s => if is_digit c then get_digits s (Some (10 * default 0 acc + (c - 48))) else acc
  end.

Definition n2i (fail : Z) (n : list Z) : Z :=
  let s := skip_space n in
  let '(neg, s) := match s with
                   | c :: s' => if c =? 45 then (true, s') else if c =? 43 then (false, s') else (false, s)
                   | [] => (false, [])
                   end in
  match get_digits s None with
  | None => fail
  | Some x => if 2 ^ 64 <=? x then 2 ^ 64 - 1 else if neg : bool then u64 (- x) else x
  end.

(** ** Reading back what was written *)

(** Reading the digits of [x] in front of [acc], with [v] read before. *)
Lemma get_put_digits n x acc v :
  0 ≤ x < 10 ^ Z.of_nat n → (0 < n)%nat →
  ∃ k, get_digits (put_digits n x acc) v = get_digits acc (Some (default 0 v * 10 ^ Z.of_nat k + x)).
Proof.
  revert x acc v. induction n as [|n IH]; intros x acc v Hx Hn; [lia|]. cbn [put_digits].
  pose proof (Z.div_mod x 10 ltac:(lia)) as Edm. pose proof (Z.mod_pos_bound x 10 ltac:(lia)) as Hm.
  pose proof (Z.div_pos x 10 ltac:(lia) ltac:(lia)) as Hq.
  assert (is_digit (48 + x `mod` 10) = true) as Hd.
  { unfold is_digit. apply andb_true_iff. split; apply Z.leb_le; lia. }
  destruct (Z.eqb_spec (x `div` 10) 0) as [E|E].
  - exists 1%nat. cbn [get_digits]. rewrite Hd. do 2 f_equal. lia.
  - destruct n as [|n]; [change (10 ^ Z.of_nat 1) with 10 in Hx; rewrite Z.div_small in E by lia; lia|].
    destruct (IH (x `div` 10) (48 + x `mod` 10 :: acc) v) as [k Hk]; [|lia|].
    { split; [lia|]. apply Z.div_lt_upper_bound; [lia|]. rewrite <- Z.pow_succ_r, <- Nat2Z.inj_succ by lia. lia. }
    exists (S k). rewrite Hk. cbn [get_digits]. rewrite Hd. do 2 f_equal.
    rewrite Nat2Z.inj_succ, Z.pow_succ_r by lia. simpl. lia.
Qed.

Lemma put_digits_head n x acc :
  0 ≤ x → (0 < n)%nat → ∃ d s, put_digits n x acc = d :: s ∧ 48 ≤ d ≤ 57.
Proof.
  revert x acc. induction n as [|n IH]; intros x acc Hx Hn; [lia|]. cbn [put_digits].
  pose proof (Z.mod_pos_bound x 10 ltac:(lia)) as Hm. pose proof (Z.div_pos x 10 ltac:(lia) ltac:(lia)) as Hq.
  destruct (x `div` 10 =? 0); [eexists _, _; split; [done|lia]|].
  destruct n as [|n]; [eexists _, _; split; [done|lia]|]. apply IH; lia.
Qed.

(** The name of an inode gives its number back, also in front of other characters
    than digits. *)
Theorem filename_n2i (fail inum : Z) (rest : list Z) :
  0 ≤ inum < 2 ^ 64 → head rest ≫= (λ c, if is_digit c then Some c else None) = None →
  n2i fail (filename inum) = inum ∧
  n2i fail (put_digits 20 inum rest) = inum.
Proof.
  intros Hi Hr. unfold filename. rewrite (uwrap_small 64) by lia.
  assert (∀ acc, head acc ≫= (λ c, if is_digit c then Some c else None) = None → n2i fail (put_digits 20 inum acc) = inum) as H.
  { intros acc Ha. destruct (put_digits_head 20 inum acc) as (d & s & E & Hd); [lia|lia|].
    destruct (get_put_digits 20 inum acc None) as [k Hk]; [|lia|].
    { assert (2 ^ 64 < 10 ^ Z.of_nat 20) by reflexivity. lia. }
    assert (skip_space (put_digits 20 inum acc) = put_digits 20 inum acc) as Hs.
    { rewrite E. cbn [skip_space]. unfold is_space. destruct (Z.eqb_spec d 32), (Z.leb_spec 9 d), (Z.leb_spec d 13); simpl; (done || lia). }
    unfold n2i. rewrite Hs, E. destruct (Z.eqb_spec d 45), (Z.eqb_spec d 43); [lia..|]. rewrite <- E, Hk. cbn [default from_option].
    assert (get_digits acc (Some (0 * 10 ^ Z.of_nat k + inum)) = Some inum) as ->.
    { destruct acc as [|c acc]; cbn [get_digits]; [f_equal; lia|]. destruct (is_digit c) eqn:Ed; [|f_equal; lia].
      exfalso. clear -Ha Ed. simpl in Ha. by rewrite Ed in Ha. }
    by destruct (Z.leb_spec (2 ^ 64) inum); [lia|]. }
  split; by apply H.
Qed.

Lemma filename_n2i_witness : n2i 0 (filename 18446744073709551615) = 18446744073709551615.
Proof. apply (filename_n2i 0 18446744073709551615 []); [lia|reflexivity]. Defined.
