(* ===== verification/YfsLocks.v ===== *)
(** Every operation of yfs_client.cc gives back the locks it took, with the
    exception of issym. *)
From S2P Require Import Prelude ExtentServer ExtentCache YfsBlock YfsFile YfsDir YfsOps.
Local Open Scope Z_scope.

(** The locks a thread holds before and after a piece of code that returns. *)
Definition held_to {S A} (h h' : gset Z) (p : ST (yfs S) A) : Prop :=
  ∀ s a s', y_held s = h → p s = Ret (a, s') → y_held s' = h'.

Definition balanced {S A} (p : ST (yfs S) A) : Prop := ∀ h, held_to h h p.

Lemma st_bind_ret {S A B} (p : ST S A) (f : A → ST S B) s b s2 :
  (p ≫= f) s = Ret (b, s2) → ∃ a s1, p s = Ret (a, s1) ∧ f a s1 = Ret (b, s2).
Proof.
  unfold mbind, st_bind. destruct (p s) as [[a s1]| | | |] eqn:E; try done. eauto.
Qed.

Section rules.
Context {S : Type}.

Lemma held_bind {A B} h h1 h2 (p : ST (yfs S) A) (f : A → ST (yfs S) B) :
  held_to h h1 p → (∀ a, held_to h1 h2 (f a)) → held_to h h2 (p ≫= f).
Proof. intros Hp Hf s b s2 Hs (a & s1 & E1 & E2)%st_bind_ret. eapply Hf; eauto. Qed.

Lemma held_balanced {A B} h h2 (p : ST (yfs S) A) (f : A → ST (yfs S) B) :
  balanced p → (∀ a, held_to h h2 (f a)) → held_to h h2 (p ≫= f).
Proof. intros Hp. apply held_bind, Hp. Qed.

Lemma held_acquire {B} h h2 lid (f : unit → ST (yfs S) B) :
  (lid ∉ h → held_to ({[lid]} ∪ h) h2 (f tt)) → held_to h h2 (lc_acquire lid ≫= f).
Proof.
  intros Hf s b s2 <- ([] & s1 & E1 & E2)%st_bind_ret. unfold lc_acquire in E1.
  case_decide as Hd; [done|]. injection E1 as <-. eapply (Hf Hd); [|exact E2]. done.
Qed.

Lemma held_release {B} h h2 lid (f : unit → ST (yfs S) B) :
  lid ∉ h → held_to h h2 (f tt) → held_to ({[lid]} ∪ h) h2 (lc_release lid ≫= f).
Proof.
  intros Hn Hf s b s2 Hs ([] & s1 & E1 & E2)%st_bind_ret. unfold lc_release in E1.
  case_decide as Hd; [|done]. injection E1 as <-. eapply Hf; [|exact E2]. simpl. rewrite Hs. set_solver.
Qed.

Lemma held_of_balanced {A} h (p : ST (yfs S) A) : balanced p → held_to h h p.
Proof. intros Hp. apply Hp. Qed.

Lemma balanced_ret {A} (a : A) : balanced (mret a : ST (yfs S) A).
Proof. by intros h s a' s' Hs [= _ <-]. Qed.
Lemma balanced_fuel {A} : balanced (st_fuel : ST (yfs S) A).
Proof. by intros h s a' s' Hs. Qed.
Lemma balanced_undef {A} : balanced (st_undef : ST (yfs S) A).
Proof. by intros h s a' s' Hs. Qed.
Lemma held_undef {A} h h' : held_to h h' (st_undef : ST (yfs S) A).
Proof. by intros s a s' Hs. Qed.
Lemma balanced_lift {A} (r : res A) : balanced (st_lift r : ST (yfs S) A).
Proof. intros h s a s' Hs. unfold st_lift. destruct r; simpl; [|done..]. by intros [= _ <-]. Qed.
Lemma balanced_release_end h lid : lid ∉ h → held_to ({[lid]} ∪ h) h (lc_release (S := S) lid).
Proof.
  intros Hn s a s' Hs. unfold lc_release. case_decide; [|done]. intros E. injection E as _ <-. simpl.
  rewrite Hs. set_solver.
Qed.
End rules.

Create HintDb balance.
#[export] Hint Resolve balanced_ret balanced_fuel balanced_undef balanced_lift : balance.

(** One step of a balance proof. *)
Ltac balance1 :=
  match goal with
  | |- balanced _ => intros ?
  | |- held_to _ _ (lc_acquire _ ≫= _) => apply held_acquire; intros ?
  | |- held_to ({[?l]} ∪ _) _ (lc_release ?l ≫= _) => apply held_release; [assumption|]
  | |- held_to ({[?l]} ∪ _) _ (lc_release ?l) => apply balanced_release_end; assumption
  | |- held_to _ _ st_undef => apply held_undef
  | |- held_to _ _ (match ?x with _ => _ end) => destruct x
  | |- held_to _ _ (_ ≫= _) =>
      apply held_balanced; [solve [eauto with balance] || (intros ?)|intros ?]
  | |- held_to _ _ _ => apply held_of_balanced; solve [eauto with balance]
  end.
Ltac balance := repeat (balance1; cbv zeta beta).

(** * Block layer *)
Section block.
Context {S : Type} `{BlockStore S} (time : nat → Z).

Lemma balanced_time0 : balanced (time0 (S := S) time).
Proof. intros h s a s' Hs. by intros [= _ <-]. Qed.

Lemma balanced_ec_get id : balanced (ec_get (S := S) id).
Proof.
  intros h s a s' Hs. unfold ec_get. destruct (bs_get id (y_store s)) as [[[r b] st]| | | |]; try done.
  by intros [= _ <-].
Qed.

Lemma balanced_ec_put id b : balanced (ec_put (S := S) id b).
Proof.
  intros h s a s' Hs. unfold ec_put. destruct (bs_put id b (y_store s)) as [[r st]| | | |]; try done.
  by intros [= _ <-].
Qed.

#[local] Hint Resolve balanced_time0 balanced_ec_get balanced_ec_put : balance.

Lemma balanced_check_bit ino : balanced (check_bit (S := S) ino).
Proof. unfold check_bit. balance. Qed.
#[local] Hint Resolve balanced_check_bit : balance.

Lemma balanced_y_get ino buf : balanced (y_get (S := S) ino buf).
Proof. unfold y_get. balance. Qed.
Lemma balanced_y_put ino buf : balanced (y_put (S := S) ino buf).
Proof. unfold y_put. balance. Qed.
Lemma balanced_y_remove ino : balanced (y_remove (S := S) ino).
Proof. unfold y_remove. balance. Qed.
#[local] Hint Resolve balanced_y_get balanced_y_put balanced_y_remove : balance.

Lemma balanced_safe_get ino buf ig : balanced (safe_get (S := S) ino buf ig).
Proof. unfold safe_get. balance. Qed.
Lemma balanced_safe_put ino buf ig : balanced (safe_put (S := S) ino buf ig).
Proof. unfold safe_put. balance. Qed.

(** ** The allocator keeps the bitmap blocks it passed locked until the end *)
Definition range (lo hi : Z) : gset Z := list_to_set (seqZ lo (hi - lo + 1)).

Lemma elem_of_range x lo hi : x ∈ range lo hi ↔ lo ≤ x ≤ hi.
Proof. unfold range. rewrite elem_of_list_to_set, elem_of_seqZ. lia. Qed.

Lemma bitmap_block_succ i :
  0 ≤ i → bitmap_block (i + 1) = bitmap_block i ∨ bitmap_block (i + 1) = bitmap_block i + 1.
Proof.
  unfold bitmap_block, BITMAP_PER_BLOCK, BLOCK_BITMAP_BEGIN_BLOCK. intros Hi.
  pose proof (Z.div_mod i 4096 ltac:(lia)). pose proof (Z.mod_pos_bound i 4096 ltac:(lia)).
  pose proof (Z.div_mod (i + 1) 4096 ltac:(lia)). pose proof (Z.mod_pos_bound (i + 1) 4096 ltac:(lia)).
  lia.
Qed.

(** What a successful run of the loop does to the locks. *)
Lemma alloc_loop_held n i last ino buf s ret ino' last' s' :
  0 ≤ i → last = bitmap_block i ∨ last = bitmap_block i - 1 →
  alloc_loop (S := S) n i last ino buf s = Ret ((ret, ino', last'), s') →
  last ≤ last' ∧ bitmap_block i ≤ last' ∧
  y_held s' = range (last + 1) last' ∪ y_held s ∧
  (∀ x, last < x ≤ last' → x ∉ y_held s).
Proof.
  revert i last s. induction n as [|n IH]; intros i last s Hi Hl; [done|]. cbn [alloc_loop].
  set (bb := bitmap_block i) in *. intros (u & s1 & E1 & E2)%st_bind_ret.
  assert (y_held s1 = range (last + 1) bb ∪ y_held s ∧ ∀ x, last < x ≤ bb → x ∉ y_held s) as [H1 Hn1].
  { destruct (Z.eqb_spec bb last) as [Heq|Hne].
    - injection E1 as _ <-. split; [|intros; lia]. apply set_eq. intros x.
      rewrite elem_of_union, elem_of_range. split; [tauto|]. intros [?|?]; [lia|done].
    - destruct Hl as [->|Hl]; [done|]. unfold lc_acquire in E1. case_decide as Hd; [done|].
      injection E1 as _ <-. simpl. split.
      + apply set_eq. intros x. rewrite !elem_of_union, elem_of_range, elem_of_singleton.
        split; (intros [?|?]; [left; lia|by right]).
      + intros x Hx. by replace x with bb by lia. }
  clear E1. apply st_bind_ret in E2 as ([r0 bm] & s2 & E1 & E2).
  assert (y_held s2 = y_held s1) as H2 by (eapply balanced_ec_get; [|exact E1]; done). clear E1.
  destruct (negb (bit_set bm (i `mod` BITMAP_PER_BLOCK))).
  - assert (balanced (lc_acquire (S := S) i;;
        ret ← ec_put i buf;
        lc_release i;;
        if negb (ret =? y_OK) then mret (y_IOERR, ino, bb)
        else
          ret ← ec_put bb (set_bit bm (i `mod` BITMAP_PER_BLOCK));
          if negb (ret =? y_OK) then mret (y_IOERR, ino, bb) else mret (y_OK, i, bb))) as Hb
      by balance.
    assert (last' = bb ∧ y_held s' = y_held s2) as [-> ->].
    { split; [|exact (Hb _ _ _ _ eq_refl E2)].
      apply st_bind_ret in E2 as (? & ? & _ & E2). apply st_bind_ret in E2 as (r1 & ? & _ & E2).
      apply st_bind_ret in E2 as (? & ? & _ & E2). destruct (negb (r1 =? y_OK)).
      - by injection E2 as _ _ <- _.
      - apply st_bind_ret in E2 as (r2 & ? & _ & E2). destruct (negb (r2 =? y_OK));
          by injection E2 as _ _ <- _. }
    rewrite H2, H1. split; [lia|]. split; [lia|]. done.
  - apply IH in E2 as (Hle & Hbi & -> & Hn2); [|lia|].
    + rewrite H2, H1. split; [destruct Hl; lia|]. split; [lia|]. split.
      * apply set_eq. intros x. rewrite !elem_of_union, !elem_of_range.
        assert (last ≤ bb) by (destruct Hl; lia). split; [intros [?|[?|?]]|intros [?|?]]; try tauto; try (left; lia).
        destruct (decide (x ≤ bb)); [right; left|left]; lia.
      * intros x Hx. destruct (decide (x ≤ bb)); [apply Hn1; lia|].
        specialize (Hn2 x ltac:(lia)). rewrite H2, H1 in Hn2. set_solver.
    + destruct (bitmap_block_succ i Hi) as [->| ->]; fold bb; [left; done|right; lia].
Qed.

Lemma release_down_held n last h s s' a :
  n = Z.to_nat (last - 9) → (∀ x, 10 ≤ x ≤ last → x ∉ h) → y_held s = range 10 last ∪ h →
  release_down (S := S) n last s = Ret (a, s') → y_held s' = h.
Proof.
  revert last s. induction n as [|n IH]; intros last s Hn Hd Hs; cbn [release_down].
  - intros E. injection E as _ <-. rewrite Hs. apply set_eq. intros x.
    rewrite elem_of_union, elem_of_range. split; [intros [?|?]; [lia|done]|tauto].
  - unfold BLOCK_BITMAP_BEGIN_BLOCK. destruct (Z.leb_spec 10 last) as [Hl|Hl]; [|lia].
    intros ([] & s1 & E1 & E2)%st_bind_ret. unfold lc_release in E1. case_decide; [|done].
    injection E1 as <-. eapply IH; [| | |exact E2].
    + lia.
    + intros x Hx. apply Hd. lia.
    + simpl. rewrite Hs. apply set_eq. intros x.
      rewrite elem_of_difference, !elem_of_union, !elem_of_range, elem_of_singleton.
      specialize (Hd x). split.
      * intros [[?|?] ?]; [left; lia|by right].
      * intros [?|Hx]; [split; [left|]; lia|]. split; [by right|]. intros ->. apply Hd; [lia|done].
Qed.

Lemma balanced_y_put_add n ino buf : balanced (y_put_add (S := S) n ino buf).
Proof.
  intros h s [ret ino'] s' Hs. unfold y_put_add.
  intros ([[r i] last] & s1 & E1 & E2)%st_bind_ret.
  assert (alloc_loop n 0 9 ino buf s = Ret ((r, i, last), s1)) as E1'
    by (destruct n; [done|]; exact E1).
  apply alloc_loop_held in E1' as (_ & _ & Hh & Hn); [|lia|right; reflexivity].
  apply st_bind_ret in E2 as (u & s2 & E2 & E3). injection E3 as _ _ <-.
  rewrite Hs in Hh, Hn. eapply release_down_held; [reflexivity| |exact Hh|exact E2].
  intros x Hx. apply Hn. lia.
Qed.
End block.

#[export] Hint Resolve balanced_time0 balanced_ec_get balanced_ec_put balanced_y_get balanced_y_put
  balanced_y_remove balanced_safe_get balanced_safe_put balanced_y_put_add : balance.

(** * Files and directories *)
Section fs.
Context {S : Type} `{BlockStore S} (time : nat → Z) (junk : list Z) (fuel : nat).

Lemma balanced_has_mode m ino : balanced (has_mode (S := S) junk m ino).
Proof. unfold has_mode. balance. Qed.
Lemma balanced_getfile ino fin : balanced (getfile (S := S) junk ino fin).
Proof. unfold getfile. balance. Qed.
Lemma balanced_getdir ino din : balanced (getdir (S := S) junk ino din).
Proof. unfold getdir. balance. Qed.

Lemma balanced_touch_read ino b index : balanced (touch_read (S := S) ino b index).
Proof. unfold touch_read. balance. Qed.
#[local] Hint Resolve balanced_touch_read : balance.
Lemma balanced_read_skip n ino b index off fs : balanced (read_skip (S := S) n ino b index off fs).
Proof. revert b index off fs. induction n; intros; cbn [read_skip]; balance. Qed.
Lemma balanced_read_loop n ino b index off fs size d buf :
  balanced (read_loop (S := S) n ino b index off fs size d buf).
Proof. revert b index off fs size d buf. induction n; intros; cbn [read_loop]; balance. Qed.
#[local] Hint Resolve balanced_read_skip balanced_read_loop : balance.
Lemma balanced_inner_read ino size off : balanced (inner_read (S := S) time junk fuel ino size off).
Proof. unfold inner_read. balance. Qed.

Lemma balanced_next_inode_block c ino target b :
  balanced (next_inode_block (S := S) fuel c ino target b).
Proof. unfold next_inode_block. balance. Qed.
Lemma balanced_touch_block ino target b index fs :
  balanced (touch_block (S := S) fuel ino target b index fs).
Proof. unfold touch_block. balance. Qed.
#[local] Hint Resolve balanced_inner_read balanced_next_inode_block balanced_touch_block : balance.
Lemma balanced_touch_write checked ino target b index fs :
  balanced (touch_write (S := S) fuel checked ino target b index fs).
Proof. unfold touch_write. balance. Qed.
#[local] Hint Resolve balanced_touch_write : balance.
Lemma balanced_write_skip n ino target b index off fs :
  balanced (write_skip (S := S) fuel n ino target b index off fs).
Proof. revert target b index off fs. induction n; intros; cbn [write_skip]; balance. Qed.
Lemma balanced_write_loop n ino target b index off fs d buf size :
  balanced (write_loop (S := S) fuel n ino target b index off fs d buf size).
Proof. revert target b index off fs d buf size. induction n; intros; cbn [write_loop]; balance. Qed.
#[local] Hint Resolve balanced_write_skip balanced_write_loop : balance.
Lemma balanced_inner_write ino buf size off :
  balanced (inner_write (S := S) time junk fuel ino buf size off).
Proof. unfold inner_write. balance. Qed.
#[local] Hint Resolve balanced_inner_write : balance.

Lemma balanced_read ino size off : balanced (read (S := S) time junk fuel ino size off).
Proof. unfold read. balance. Qed.
Lemma balanced_write ino buf size off : balanced (write (S := S) time junk fuel ino buf size off).
Proof. unfold write. balance. Qed.
Lemma balanced_setattr ino to_set info : balanced (setattr (S := S) time junk fuel ino to_set info).
Proof. unfold setattr. balance. Qed.
Lemma balanced_readlink ino : balanced (readlink (S := S) time junk fuel ino).
Proof. unfold readlink. balance. Qed.

Lemma balanced_find_slot n c parent target tmp name b :
  balanced (find_slot (S := S) fuel n c parent target tmp name b).
Proof. revert target tmp b. induction n; intros; cbn [find_slot]; balance. Qed.
#[local] Hint Resolve balanced_find_slot : balance.
Lemma balanced_inner_create parent name ino :
  balanced (inner_create (S := S) time junk fuel parent name ino).
Proof. unfold inner_create. balance. Qed.
#[local] Hint Resolve balanced_inner_create : balance.
Lemma balanced_create parent name ino : balanced (create (S := S) time junk fuel parent name ino).
Proof. unfold create. balance. Qed.
Lemma balanced_mkdir parent name : balanced (mkdir (S := S) time junk fuel parent name).
Proof. unfold mkdir. balance. Qed.
Lemma balanced_lookup_loop n parent name b : balanced (lookup_loop (S := S) n parent name b).
Proof. revert b. induction n; intros; cbn [lookup_loop]; balance. Qed.
Lemma balanced_readdir_loop n ino b items : balanced (readdir_loop (S := S) n ino b items).
Proof. revert b items. induction n; intros; cbn [readdir_loop]; balance. Qed.
Lemma balanced_remove_blocks n i b : balanced (remove_blocks (S := S) n i b).
Proof. revert i. induction n; intros; cbn [remove_blocks]; balance. Qed.
#[local] Hint Resolve balanced_lookup_loop balanced_readdir_loop balanced_remove_blocks : balance.
Lemma balanced_recursive_unlink n ino : balanced (recursive_unlink (S := S) junk n ino).
Proof. revert ino. induction n; intros; cbn [recursive_unlink]; balance. Qed.
Lemma balanced_unlink_loop n parent bi name b : balanced (unlink_loop (S := S) n parent bi name b).
Proof. revert bi b. induction n; intros; cbn [unlink_loop]; balance. Qed.
#[local] Hint Resolve balanced_recursive_unlink balanced_unlink_loop : balance.
Lemma balanced_lookup parent name : balanced (lookup (S := S) time junk fuel parent name).
Proof. unfold lookup. balance. Qed.
Lemma balanced_readdir ino : balanced (readdir (S := S) time junk fuel ino).
Proof. unfold readdir. balance. Qed.
Lemma balanced_unlink parent name : balanced (unlink (S := S) time junk fuel parent name).
Proof. unfold unlink. balance. Qed.
Lemma balanced_symlink parent name link tmp ino :
  balanced (symlink (S := S) time junk fuel parent name link tmp ino).
Proof. unfold symlink. balance. Qed.

#[local] Hint Resolve balanced_has_mode balanced_getfile balanced_getdir balanced_create
  balanced_readdir balanced_setattr balanced_read balanced_write balanced_lookup balanced_mkdir
  balanced_unlink balanced_symlink balanced_readlink : balance.

(** issym without its lock: the part that may end early. *)
Definition is_issym (o : fsop) : bool := match o with OIssym _ => true | _ => false end.

Lemma balanced_exec_op o : is_issym o = false → balanced (exec_op (S := S) time junk fuel o).
Proof. destruct o; intros; simpl; unfold isfile, isdir; try done; balance. Qed.
End fs.

(** * Theorems *)

(** C24.  Locks are given back: whatever an operation meets on its way, errors
    included, if it returns then the thread holds the locks it held before,
    those of the bitmap blocks that the allocator walks through too; issym is
    the exception. *)
Theorem locks_given_back {S : Type} `{BlockStore S} (time : nat → Z) (junk : list Z) (fuel : nat)
    (o : fsop) (s s' : yfs S) (r : fsres) :
  is_issym o = false → exec_op time junk fuel o s = Ret (r, s') → y_held s' = y_held s.
Proof. intros Ho E. by eapply (balanced_exec_op time junk fuel o Ho). Qed.

(** issym keeps the lock when the block is not allocated: it answers false
    and the thread still holds the lock of the inode, so that the next operation
    of the client on this inode waits for ever. *)
Theorem issym_keeps_lock (time : nat → Z) (junk : list Z) (fuel : nat) (ino : Z)
    (s : yfs (gmap Z (list Z))) (bm : list Z) :
  in_bitmap_area ino = false → ino ∉ y_held s → bitmap_block ino ∉ y_held s → bitmap_block ino ≠ ino →
  y_store s !! bitmap_block ino = Some bm → bit_set bm (ino `mod` BITMAP_PER_BLOCK) = false →
  ∃ s', exec_op time junk fuel (OIssym ino) s = Ret (RBool false, s') ∧
    y_held s' = {[ino]} ∪ y_held s ∧
    exec_op time junk fuel (OIsfile ino) s' = Blocked.
Proof.
  intros Ha Hn Hb Hne Hv Hbit. simpl. unfold issym, y_get, check_bit, isfile, has_mode.
  rewrite Ha. destruct s as [m h clk]. simpl in *.
  unfold mbind, st_bind, mret, st_ret, lc_acquire, lc_release, ec_get. simpl.
  rewrite decide_False by done. simpl. rewrite decide_False by set_solver. simpl.
  rewrite Hv. simpl. rewrite decide_True by set_solver. simpl. rewrite Hbit. simpl.
  eexists. split; [done|]. simpl. split; [set_solver|]. rewrite decide_True by set_solver. done.
Qed.

(** ** Concrete runs *)
Definition ex_time (n : nat) : Z := 1000 + Z.of_nat n.
Definition ex_junk : list Z := replicate 512 170.
Definition ex_fs : yfs (gmap Z (list Z)) :=
  match yfs_client_new (Yfs ∅ ∅ 0) with Ret (_, s) => s | _ => Yfs ∅ ∅ 0 end.

Lemma locks_given_back_witness :
  ∃ r s', exec_op ex_time ex_junk 300 (OCreate 1 [97] 0) ex_fs = Ret (r, s') ∧
    r = RNew 0 2 ∧ y_held s' = ∅.
Proof.
  destruct (exec_op ex_time ex_junk 300 (OCreate 1 [97] 0) ex_fs) as [[r s']| | | |] eqn:E;
    [|by vm_compute in E..].
  exists r, s'. split; [reflexivity|]. split; [vm_compute in E; by injection E as <- _|].
  exact (locks_given_back ex_time ex_junk 300 (OCreate 1 [97] 0) ex_fs s' r eq_refl E).
Defined.

Lemma issym_keeps_lock_witness :
  ∃ s', exec_op ex_time ex_junk 300 (OIssym 5) ex_fs = Ret (RBool false, s') ∧
    exec_op ex_time ex_junk 300 (OIsfile 5) s' = Blocked.
Proof.
  destruct (issym_keeps_lock ex_time ex_junk 300 5 ex_fs first_bitmap) as (s' & E & _ & B);
    [reflexivity|vm_compute; discriminate|vm_compute; discriminate|discriminate|vm_compute; reflexivity
    |vm_compute; reflexivity|].
  exists s'. split; [exact E|exact B].
Defined.
