(* ===== verification/YfsRefine.v ===== *)
(** The file system over any block store that keeps the promises of [BlockStore]
    (the caching extent client in particular) behaves as over the reference
    store, a plain map of blocks: whatever an operation returns there, it
    returns here, and the two states stay related. *)
From S2P Require Import Prelude ExtentServer ExtentCache YfsBlock YfsFile YfsDir YfsOps YfsLocks.
Local Open Scope Z_scope.

Abbreviation mapfs := (yfs (gmap Z (list Z))).

Section refine.
Context {S : Type} `{BlockStoreLaws S}.

(** The store holds at least the blocks of the map. *)
Record abs (s : yfs S) (t : mapfs) : Prop := {
  ab_wf : bs_wf (y_store s);
  ab_view : ∀ i b, y_store t !! i = Some b → id_ok i ∧ bs_view (y_store s) i = Some b;
  ab_held : y_held s = y_held t;
  ab_clk : y_clk s = y_clk t }.

Definition refines {A} (p : ST (yfs S) A) (q : ST mapfs A) : Prop :=
  ∀ s t a t', abs s t → q t = Ret (a, t') → ∃ s', p s = Ret (a, s') ∧ abs s' t'.

Lemma refines_bind {A B} (p : ST (yfs S) A) q (f : A → ST (yfs S) B) g :
  refines p q → (∀ a, refines (f a) (g a)) → refines (p ≫= f) (q ≫= g).
Proof.
  intros Hp Hf s t b t2 Ha (a & t1 & E1 & E2)%st_bind_ret.
  destruct (Hp s t a t1 Ha E1) as (s1 & P1 & A1). destruct (Hf a s1 t1 b t2 A1 E2) as (s2 & P2 & A2).
  exists s2. split; [|done]. unfold mbind, st_bind. by rewrite P1.
Qed.

Lemma refines_ret {A} (a : A) : refines (mret a) (mret a).
Proof. intros s t b t' Ha [= <- <-]. eexists. by split. Qed.
Lemma refines_fuel {A} : refines (A := A) st_fuel st_fuel.
Proof. done. Qed.
Lemma refines_undef {A} : refines (A := A) st_undef st_undef.
Proof. done. Qed.
Lemma refines_lift {A} (r : res A) : refines (st_lift r) (st_lift r).
Proof.
  intros s t b t' Ha. unfold st_lift. destruct r; simpl; [|done..]. intros [= <- <-]. eauto.
Qed.

Lemma refines_acquire lid : refines (lc_acquire lid) (lc_acquire lid).
Proof.
  intros s t a t' [H1 H2 H3 H4]. unfold lc_acquire. rewrite H3. case_decide; [done|].
  intros [= <- <-]. eexists. split; [done|]. split; simpl; auto; by rewrite H3.
Qed.
Lemma refines_release lid : refines (lc_release lid) (lc_release lid).
Proof.
  intros s t a t' [H1 H2 H3 H4]. unfold lc_release. rewrite H3. case_decide; [|done].
  intros [= <- <-]. eexists. split; [done|]. split; simpl; auto; by rewrite H3.
Qed.
Lemma refines_time0 time : refines (time0 time) (time0 time).
Proof.
  intros s t a t' [H1 H2 H3 H4]. unfold time0. intros [= <- <-]. rewrite H4.
  eexists. split; [done|]. by split.
Qed.

Lemma refines_ec_get id : refines (ec_get id) (ec_get id).
Proof.
  intros s t a t' [H1 H2 H3 H4]. unfold ec_get. simpl.
  destruct (y_store t !! id) as [b|] eqn:E; [|done]. intros [= <- <-].
  destruct (H2 _ _ E) as [Hid Hv]. destruct (bs_get_law (y_store s) id b H1 Hid Hv) as (s1 & -> & Hw & Hs).
  eexists. split; [done|]. split; simpl; auto. intros i c Hi. rewrite Hs. auto.
Qed.

Lemma refines_ec_put id b : refines (ec_put id b) (ec_put id b).
Proof.
  intros s t a t' [H1 H2 H3 H4]. unfold ec_put. simpl.
  case_decide as Hd; [|done]. destruct Hd as [Hid Hb]. intros [= <- <-].
  destruct (bs_put_law (y_store s) id b H1 Hid Hb) as (s1 & -> & Hw & Hv & Ho).
  eexists. split; [done|]. split; simpl; auto. intros i c. rewrite lookup_insert_Some.
  intros [[<- <-]|[Hne Hi]]; [done|]. destruct (H2 _ _ Hi). auto.
Qed.
End refine.

Create HintDb refine.
#[export] Hint Resolve refines_ret refines_fuel refines_undef refines_lift refines_acquire
  refines_release refines_time0 refines_ec_get refines_ec_put : refine.

Ltac refine1 :=
  match goal with
  | |- refines (_ ≫= _) (_ ≫= _) => apply refines_bind; [|intros ?]
  | |- refines (match ?x with _ => _ end) _ => destruct x
  | |- refines _ _ => solve [eauto with refine]
  end.
Ltac refine_all := repeat (refine1; cbv zeta beta).

Section ops.
Context {S : Type} `{BlockStoreLaws S} (time : nat → Z) (junk : list Z) (fuel : nat).

Lemma refines_check_bit ino : refines (check_bit (S := S) ino) (check_bit ino).
Proof. unfold check_bit. refine_all. Qed.
#[local] Hint Resolve refines_check_bit : refine.
Lemma refines_y_get ino buf : refines (y_get (S := S) ino buf) (y_get ino buf).
Proof. unfold y_get. refine_all. Qed.
Lemma refines_y_put ino buf : refines (y_put (S := S) ino buf) (y_put ino buf).
Proof. unfold y_put. refine_all. Qed.
Lemma refines_y_remove ino : refines (y_remove (S := S) ino) (y_remove ino).
Proof. unfold y_remove. refine_all. Qed.
#[local] Hint Resolve refines_y_get refines_y_put refines_y_remove : refine.
Lemma refines_safe_get ino buf ig : refines (safe_get (S := S) ino buf ig) (safe_get ino buf ig).
Proof. unfold safe_get. refine_all. Qed.
Lemma refines_safe_put ino buf ig : refines (safe_put (S := S) ino buf ig) (safe_put ino buf ig).
Proof. unfold safe_put. refine_all. Qed.
Lemma refines_alloc_loop n i last ino buf :
  refines (alloc_loop (S := S) n i last ino buf) (alloc_loop n i last ino buf).
Proof. revert i last. induction n; intros; cbn [alloc_loop]; refine_all. Qed.
Lemma refines_release_down n last : refines (release_down (S := S) n last) (release_down n last).
Proof. revert last. induction n; intros; cbn [release_down]; refine_all. Qed.
#[local] Hint Resolve refines_safe_get refines_safe_put refines_alloc_loop refines_release_down : refine.
Lemma refines_y_put_add n ino buf : refines (y_put_add (S := S) n ino buf) (y_put_add n ino buf).
Proof. unfold y_put_add. refine_all. Qed.
Lemma refines_put_locked id b : refines (put_locked (S := S) id b) (put_locked id b).
Proof. unfold put_locked. refine_all. Qed.
#[local] Hint Resolve refines_y_put_add refines_put_locked : refine.
Lemma refines_new : refines (yfs_client_new (S := S)) yfs_client_new.
Proof. unfold yfs_client_new. refine_all. Qed.

Lemma refines_has_mode m ino : refines (has_mode (S := S) junk m ino) (has_mode junk m ino).
Proof. unfold has_mode. refine_all. Qed.
Lemma refines_issym ino : refines (issym (S := S) junk ino) (issym junk ino).
Proof. unfold issym. refine_all. Qed.
Lemma refines_getfile ino fin : refines (getfile (S := S) junk ino fin) (getfile junk ino fin).
Proof. unfold getfile. refine_all. Qed.
Lemma refines_getdir ino din : refines (getdir (S := S) junk ino din) (getdir junk ino din).
Proof. unfold getdir. refine_all. Qed.
#[local] Hint Resolve refines_has_mode refines_issym refines_getfile refines_getdir : refine.

Lemma refines_touch_read ino b index :
  refines (touch_read (S := S) ino b index) (touch_read ino b index).
Proof. unfold touch_read. refine_all. Qed.
#[local] Hint Resolve refines_touch_read : refine.
Lemma refines_read_skip n ino b index off fs :
  refines (read_skip (S := S) n ino b index off fs) (read_skip n ino b index off fs).
Proof. revert b index off fs. induction n; intros; cbn [read_skip]; refine_all. Qed.
Lemma refines_read_loop n ino b index off fs size d buf :
  refines (read_loop (S := S) n ino b index off fs size d buf) (read_loop n ino b index off fs size d buf).
Proof. revert b index off fs size d buf. induction n; intros; cbn [read_loop]; refine_all. Qed.
#[local] Hint Resolve refines_read_skip refines_read_loop : refine.
Lemma refines_inner_read ino size off :
  refines (inner_read (S := S) time junk fuel ino size off) (inner_read time junk fuel ino size off).
Proof. unfold inner_read. refine_all. Qed.
Lemma refines_next_inode_block c ino target b :
  refines (next_inode_block (S := S) fuel c ino target b) (next_inode_block fuel c ino target b).
Proof. unfold next_inode_block. refine_all. Qed.
Lemma refines_touch_block ino target b index fs :
  refines (touch_block (S := S) fuel ino target b index fs) (touch_block fuel ino target b index fs).
Proof. unfold touch_block. refine_all. Qed.
#[local] Hint Resolve refines_inner_read refines_next_inode_block refines_touch_block : refine.
Lemma refines_touch_write checked ino target b index fs :
  refines (touch_write (S := S) fuel checked ino target b index fs)
    (touch_write fuel checked ino target b index fs).
Proof. unfold touch_write. refine_all. Qed.
#[local] Hint Resolve refines_touch_write : refine.
Lemma refines_write_skip n ino target b index off fs :
  refines (write_skip (S := S) fuel n ino target b index off fs)
    (write_skip fuel n ino target b index off fs).
Proof. revert target b index off fs. induction n; intros; cbn [write_skip]; refine_all. Qed.
Lemma refines_write_loop n ino target b index off fs d buf size :
  refines (write_loop (S := S) fuel n ino target b index off fs d buf size)
    (write_loop fuel n ino target b index off fs d buf size).
Proof. revert target b index off fs d buf size. induction n; intros; cbn [write_loop]; refine_all. Qed.
#[local] Hint Resolve refines_write_skip refines_write_loop : refine.
Lemma refines_inner_write ino buf size off :
  refines (inner_write (S := S) time junk fuel ino buf size off)
    (inner_write time junk fuel ino buf size off).
Proof. unfold inner_write. refine_all. Qed.
#[local] Hint Resolve refines_inner_write : refine.

Lemma refines_find_slot n c parent target tmp name b :
  refines (find_slot (S := S) fuel n c parent target tmp name b)
    (find_slot fuel n c parent target tmp name b).
Proof. revert target tmp b. induction n; intros; cbn [find_slot]; refine_all. Qed.
#[local] Hint Resolve refines_find_slot : refine.
Lemma refines_inner_create parent name ino :
  refines (inner_create (S := S) time junk fuel parent name ino)
    (inner_create time junk fuel parent name ino).
Proof. unfold inner_create. refine_all. Qed.
Lemma refines_lookup_loop n parent name b :
  refines (lookup_loop (S := S) n parent name b) (lookup_loop n parent name b).
Proof. revert b. induction n; intros; cbn [lookup_loop]; refine_all. Qed.
Lemma refines_readdir_loop n ino b items :
  refines (readdir_loop (S := S) n ino b items) (readdir_loop n ino b items).
Proof. revert b items. induction n; intros; cbn [readdir_loop]; refine_all. Qed.
Lemma refines_remove_blocks n i b :
  refines (remove_blocks (S := S) n i b) (remove_blocks n i b).
Proof. revert i. induction n; intros; cbn [remove_blocks]; refine_all. Qed.
#[local] Hint Resolve refines_inner_create refines_lookup_loop refines_readdir_loop
  refines_remove_blocks : refine.
Lemma refines_recursive_unlink n ino :
  refines (recursive_unlink (S := S) junk n ino) (recursive_unlink junk n ino).
Proof. revert ino. induction n; intros; cbn [recursive_unlink]; refine_all. Qed.
Lemma refines_unlink_loop n parent bi name b :
  refines (unlink_loop (S := S) n parent bi name b) (unlink_loop n parent bi name b).
Proof. revert bi b. induction n; intros; cbn [unlink_loop]; refine_all. Qed.
#[local] Hint Resolve refines_recursive_unlink refines_unlink_loop : refine.

Lemma refines_create parent name ino :
  refines (create (S := S) time junk fuel parent name ino) (create time junk fuel parent name ino).
Proof. unfold create. refine_all. Qed.
Lemma refines_readdir ino : refines (readdir (S := S) time junk fuel ino) (readdir time junk fuel ino).
Proof. unfold readdir. refine_all. Qed.
Lemma refines_read ino size off : refines (read (S := S) time junk fuel ino size off) (read time junk fuel ino size off).
Proof. unfold read. refine_all. Qed.
Lemma refines_write ino buf size off :
  refines (write (S := S) time junk fuel ino buf size off) (write time junk fuel ino buf size off).
Proof. unfold write. refine_all. Qed.
Lemma refines_lookup parent name : refines (lookup (S := S) time junk fuel parent name) (lookup time junk fuel parent name).
Proof. unfold lookup. refine_all. Qed.
Lemma refines_unlink parent name : refines (unlink (S := S) time junk fuel parent name) (unlink time junk fuel parent name).
Proof. unfold unlink. refine_all. Qed.
#[local] Hint Resolve refines_create refines_readdir refines_read refines_write refines_lookup refines_unlink : refine.

Lemma refines_exec_op o : refines (exec_op (S := S) time junk fuel o) (exec_op time junk fuel o).
Proof.
  destruct o; simpl; unfold isfile, isdir, setattr, mkdir, symlink, readlink; refine_all.
Qed.
#[local] Hint Resolve refines_exec_op : refine.
Lemma refines_exec_ops os : refines (exec_ops (S := S) time junk fuel os) (exec_ops time junk fuel os).
Proof. induction os; simpl; refine_all. Qed.
End ops.

(** * Theorems *)

(** The file system does not see what is below it: any sequence of
    operations on a freshly formatted file system gives, over any lawful block
    store, the results it gives over a plain map of blocks. *)
Theorem file_system_over_any_store {S : Type} `{BlockStoreLaws S} (time : nat → Z) (junk : list Z)
    (fuel : nat) (os : list fsop) (st : S) (rs : list fsres) (t : mapfs) :
  bs_wf st →
  (yfs_client_new;; exec_ops time junk fuel os) (Yfs ∅ ∅ 0) = Ret (rs, t) →
  ∃ s, (yfs_client_new;; exec_ops time junk fuel os) (Yfs st ∅ 0) = Ret (rs, s) ∧ abs s t.
Proof.
  intros Hw. assert (refines (yfs_client_new (S := S);; exec_ops time junk fuel os)
    (yfs_client_new;; exec_ops time junk fuel os)) as Hr.
  { apply refines_bind; [apply refines_new|intros _; apply refines_exec_ops]. }
  apply Hr. by split.
Qed.

(** A session over the caching extent client, on the empty disk file of a fresh
    extent server. *)
Definition ex_session : list fsop :=
  [OCreate 1 [97] 0; OWrite 2 [1; 2; 3] 3 0; ORead 2 10 0; OLookup 1 [97]; OUnlink 1 [97]; OLookup 1 [97]].

Lemma file_system_over_any_store_witness :
  ∃ s, (yfs_client_new (H := cache_store (ex_g false));;
        exec_ops (H := cache_store (ex_g false)) ex_time ex_junk 300 ex_session)
         (Yfs (ecache_new extent_server_new) ∅ 0)
       = Ret ([RNew 0 2; RStatus 0; RData 0 [1; 2; 3]; RInum 2; RStatus 0; RInum 0], s).
Proof.
  destruct ((yfs_client_new;; exec_ops ex_time ex_junk 300 ex_session) (Yfs ∅ ∅ 0 : mapfs))
    as [[rs t]| | | |] eqn:E; [|by vm_compute in E..].
  destruct (@file_system_over_any_store ecache (cache_store (ex_g false)) (cache_store_laws (ex_g false))
    ex_time ex_junk 300 ex_session (ecache_new extent_server_new) rs t) as (s & Es & _).
  - split; [constructor|]. by intros ? ?.
  - exact E.
  - exists s. vm_compute in E. injection E as <- _. exact Es.
Defined.
