(* ===== verification/YfsAlloc.v ===== *)
(** The block bitmap of yfs_client.cc as a set of used blocks: put(add) takes
    the smallest free block, get and put see exactly the used ones, remove frees
    exactly one.  Stated over the reference store; YfsRefine.v carries the
    results over to every block store. *)
From S2P Require Import Prelude ExtentServer ExtentCache YfsBlock YfsFile YfsDir YfsOps YfsLocks YfsRefine.
Local Open Scope Z_scope.

(** * Bits *)
Lemma testbit_s8 x k : 0 ≤ k < 8 → Z.testbit (s8 x) k = Z.testbit x k.
Proof.
  intros Hk. rewrite <- (Z.mod_pow2_bits_low (s8 x) 8), <- (Z.mod_pow2_bits_low x 8) by lia.
  f_equal. apply (uwrap_swrap 8). lia.
Qed.

Lemma testbit_u8 x k : 0 ≤ k < 8 → Z.testbit (u8 x) k = Z.testbit x k.
Proof. intros Hk. unfold uwrap. by rewrite Z.mod_pow2_bits_low by lia. Qed.

Lemma land_7 n : Z.land n 7 = n `mod` 8.
Proof. apply (Z.land_ones n 3). lia. Qed.

Lemma shiftr_3 n : Z.shiftr n 3 = n `div` 8.
Proof. apply (Z.shiftr_div_pow2 n 3). lia. Qed.

Lemma bit_set_testbit b n : bit_set b n = Z.testbit (byte_of b n) (n `mod` 8).
Proof.
  unfold bit_set. rewrite land_7. pose proof (Z.mod_pos_bound n 8 ltac:(lia)).
  rewrite <- testbit_s8 by lia. set (x := s8 (byte_of b n)).
  change 1 with (Z.ones 1) at 1. rewrite Z.land_ones by lia. change (2 ^ 1) with 2.
  replace (Z.testbit x (n `mod` 8)) with (Z.odd (Z.shiftr x (n `mod` 8))).
  - rewrite Zmod_odd. by destruct (Z.odd _).
  - rewrite <- Z.bit0_odd, Z.shiftr_spec by lia. done.
Qed.

Lemma byte_index n : 0 ≤ n < 4096 → (Z.to_nat (Z.shiftr n 3) < 512)%nat.
Proof.
  intros. rewrite shiftr_3. pose proof (Z.div_mod n 8 ltac:(lia)).
  pose proof (Z.mod_pos_bound n 8 ltac:(lia)). lia.
Qed.

Lemma bit_set_other_byte b n m x :
  0 ≤ n → 0 ≤ m → n `div` 8 ≠ m `div` 8 →
  byte_of (<[Z.to_nat (Z.shiftr n 3) := x]> b) m = byte_of b m.
Proof.
  intros Hn Hm Hne. unfold byte_of. rewrite !shiftr_3, list_lookup_insert_ne; [done|].
  assert (0 ≤ n `div` 8) by (apply Z.div_pos; lia). assert (0 ≤ m `div` 8) by (apply Z.div_pos; lia). lia.
Qed.

Lemma byte_of_same b n m x :
  is_block b → 0 ≤ n < 4096 → n `div` 8 = m `div` 8 →
  byte_of (<[Z.to_nat (Z.shiftr n 3) := x]> b) m = x.
Proof.
  intros [Hl _] Hn He. unfold byte_of. rewrite (shiftr_3 m), <- He, <- shiftr_3.
  rewrite list_lookup_insert_eq; [done|]. rewrite Hl. by apply byte_index.
Qed.

Lemma bit_set_set_bit b n m :
  is_block b → 0 ≤ n < 4096 → 0 ≤ m < 4096 →
  bit_set (set_bit b n) m = (n =? m) || bit_set b m.
Proof.
  intros Hb Hn Hm. rewrite !bit_set_testbit. unfold set_bit.
  pose proof (Z.mod_pos_bound m 8 ltac:(lia)). pose proof (Z.mod_pos_bound n 8 ltac:(lia)).
  destruct (decide (n `div` 8 = m `div` 8)) as [He|He].
  - rewrite byte_of_same by done. rewrite testbit_u8, Z.lor_spec, testbit_s8, land_7 by lia.
    rewrite Z.shiftl_1_l, Z.pow2_bits_eqb by lia.
    replace (byte_of b n) with (byte_of b m) by (unfold byte_of; by rewrite !shiftr_3, He).
    rewrite orb_comm. f_equal. pose proof (Z.div_mod n 8 ltac:(lia)). pose proof (Z.div_mod m 8 ltac:(lia)).
    destruct (Z.eqb_spec (n `mod` 8) (m `mod` 8)), (Z.eqb_spec n m); try done; lia.
  - rewrite bit_set_other_byte by lia. destruct (Z.eqb_spec n m) as [->|]; [done|done].
Qed.

Lemma bit_set_clear_bit b n m :
  is_block b → 0 ≤ n < 4096 → 0 ≤ m < 4096 →
  bit_set (clear_bit b n) m = negb (n =? m) && bit_set b m.
Proof.
  intros Hb Hn Hm. rewrite !bit_set_testbit. unfold clear_bit.
  pose proof (Z.mod_pos_bound m 8 ltac:(lia)). pose proof (Z.mod_pos_bound n 8 ltac:(lia)).
  destruct (decide (n `div` 8 = m `div` 8)) as [He|He].
  - rewrite byte_of_same by done. rewrite testbit_u8, Z.land_spec, Z.lnot_spec, testbit_s8, land_7 by lia.
    rewrite Z.shiftl_1_l, Z.pow2_bits_eqb by lia.
    replace (byte_of b n) with (byte_of b m) by (unfold byte_of; by rewrite !shiftr_3, He).
    rewrite andb_comm. f_equal. f_equal. pose proof (Z.div_mod n 8 ltac:(lia)). pose proof (Z.div_mod m 8 ltac:(lia)).
    destruct (Z.eqb_spec (n `mod` 8) (m `mod` 8)), (Z.eqb_spec n m); try done; lia.
  - rewrite bit_set_other_byte by lia. destruct (Z.eqb_spec n m) as [->|]; [done|done].
Qed.

Lemma insert_block b n x : is_block b → is_byte x → is_block (<[n := x]> b).
Proof. intros [Hl Hb] Hx. split; [by rewrite length_insert|]. by apply Forall_insert. Qed.

Lemma u8_byte x : is_byte (u8 x).
Proof. unfold is_byte. apply (uwrap_range 8). lia. Qed.

Lemma set_bit_block b n : is_block b → is_block (set_bit b n).
Proof. intros. apply insert_block; [done|apply u8_byte]. Qed.
Lemma clear_bit_block b n : is_block b → is_block (clear_bit b n).
Proof. intros. apply insert_block; [done|apply u8_byte]. Qed.

(** * Running the block layer on the reference store *)
Lemma acquire_run (m : gmap Z (list Z)) h c lid :
  lid ∉ h → lc_acquire lid (Yfs m h c) = Ret (tt, Yfs m ({[lid]} ∪ h) c).
Proof. intros. unfold lc_acquire. simpl. by rewrite decide_False. Qed.

Lemma release_run (m : gmap Z (list Z)) h c lid :
  lid ∉ h → lc_release lid (Yfs m ({[lid]} ∪ h) c) = Ret (tt, Yfs m h c).
Proof.
  intros. unfold lc_release. simpl. rewrite decide_True by set_solver.
  do 3 f_equal. set_solver.
Qed.

Lemma get_run (m : gmap Z (list Z)) h c id b :
  m !! id = Some b → ec_get id (Yfs m h c) = Ret ((OK, b), Yfs m h c).
Proof. intros E. unfold ec_get. simpl. by rewrite E. Qed.

Lemma put_run (m : gmap Z (list Z)) h c id b :
  id_ok id → is_block b → ec_put id b (Yfs m h c) = Ret (OK, Yfs (<[id := b]> m) h c).
Proof. intros. unfold ec_put. simpl. by rewrite decide_True. Qed.

(** Block [i] is used: its bit is set in its bitmap block. *)
Definition bit_of (m : gmap Z (list Z)) (i : Z) : option bool :=
  (λ bm, bit_set bm (i `mod` BITMAP_PER_BLOCK)) <$> m !! bitmap_block i.

Lemma bitmap_block_mono i j : 0 ≤ i ≤ j → 10 ≤ bitmap_block i ≤ bitmap_block j.
Proof.
  unfold bitmap_block, BITMAP_PER_BLOCK, BLOCK_BITMAP_BEGIN_BLOCK. intros.
  pose proof (Z.div_le_mono i j 4096 ltac:(lia) ltac:(lia)).
  pose proof (Z.div_pos i 4096 ltac:(lia) ltac:(lia)). lia.
Qed.

Lemma bitmap_block_ok i : id_ok i → id_ok (bitmap_block i).
Proof.
  unfold id_ok, bitmap_block, BITMAP_PER_BLOCK, BLOCK_BITMAP_BEGIN_BLOCK. intros.
  pose proof (Z.div_le_upper_bound i 4096 (2 ^ 42) ltac:(lia) ltac:(lia)).
  pose proof (Z.div_pos i 4096 ltac:(lia) ltac:(lia)). lia.
Qed.

(** The smallest free block, and what the allocator needs to reach it. *)
Record first_free (m : gmap Z (list Z)) (h : gset Z) (i0 : Z) : Prop := {
  ff_ok : id_ok i0;
  ff_wf : bs_wf m;
  ff_used : ∀ j, 0 ≤ j < i0 → bit_of m j = Some true;
  ff_free : bit_of m i0 = Some false;
  ff_area : ∀ x, 10 ≤ x ≤ bitmap_block i0 → x ∉ h ∧ x ≠ i0;
  ff_held : i0 ∉ h }.

Definition allocated (m : gmap Z (list Z)) (i0 : Z) (buf : list Z) : gmap Z (list Z) :=
  <[bitmap_block i0 := set_bit (default [] (m !! bitmap_block i0)) (i0 `mod` BITMAP_PER_BLOCK)]>
    (<[i0 := buf]> m).

Lemma bit_of_Some m i r :
  bit_of m i = Some r → ∃ bm, m !! bitmap_block i = Some bm ∧ bit_set bm (i `mod` BITMAP_PER_BLOCK) = r.
Proof. unfold bit_of. destruct (m !! bitmap_block i) as [bm|]; [|done]. intros [= <-]. eauto. Qed.

Lemma range_snoc last : 9 ≤ last → range 10 (last + 1) = {[last + 1]} ∪ range 10 last.
Proof.
  intros. apply set_eq. intros x. rewrite elem_of_union, !elem_of_range, elem_of_singleton. lia.
Qed.

Lemma alloc_loop_run m h c i0 ino buf n i last :
  first_free m h i0 → is_block buf → 0 ≤ i ≤ i0 → (Z.to_nat (i0 - i) < n)%nat →
  last = bitmap_block i ∨ last = bitmap_block i - 1 →
  alloc_loop n i last ino buf (Yfs m (range 10 last ∪ h) c)
  = Ret ((y_OK, i0, bitmap_block i0),
         Yfs (allocated m i0 buf) (range 10 (bitmap_block i0) ∪ h) c).
Proof.
  intros [Hok Hwf Hu Hf Ha Hh] Hb. revert i last.
  induction n as [|n IH]; intros i last Hi Hn Hl; [lia|]. cbn [alloc_loop].
  pose proof (bitmap_block_mono i i0 Hi) as Hm. set (bb := bitmap_block i) in *.
  assert ((if bb =? last then mret tt else lc_acquire bb) (Yfs m (range 10 last ∪ h) c)
          = Ret (tt, Yfs m (range 10 bb ∪ h) c)) as E1.
  { destruct (Z.eqb_spec bb last) as [<-|Hne]; [done|]. destruct Hl as [->|Hl]; [done|].
    rewrite acquire_run.
    - do 3 f_equal. replace bb with (last + 1) by lia. rewrite range_snoc by lia. set_solver.
    - rewrite elem_of_union, elem_of_range. intros [?|?]; [lia|]. by destruct (Ha bb). }
  run E1. cbv zeta. clear E1.
  destruct (decide (i = i0)) as [->|Hne].
  - destruct (bit_of_Some _ _ _ Hf) as (bm & Hbm & Hbit). fold bb in Hbm.
    run (get_run _ _ _ _ _ Hbm). cbv beta iota. rewrite Hbit. cbn [negb].
    assert (i0 ∉ range 10 bb ∪ h) as Hni.
    { rewrite elem_of_union, elem_of_range. intros [?|?]; [|done]. by destruct (Ha i0). }
    destruct (Hwf _ _ Hbm) as [Hbbok Hbmb].
    run (acquire_run _ _ _ _ Hni).
    run (put_run _ _ _ _ _ Hok Hb).
    run (release_run _ _ _ _ Hni). change (OK =? y_OK) with true. cbn [negb].
    run (put_run _ _ _ bb (set_bit bm (i0 `mod` BITMAP_PER_BLOCK)) Hbbok
               (set_bit_block _ _ Hbmb)).
    simpl. unfold allocated. fold bb. by rewrite Hbm.
  - destruct (bit_of_Some m i true (Hu i ltac:(lia))) as (bm & Hbm & Hbit). fold bb in Hbm.
    run (get_run _ _ _ _ _ Hbm). cbv beta iota. rewrite Hbit. cbn [negb].
    apply IH; [lia|lia|]. destruct (bitmap_block_succ i ltac:(lia)) as [->| ->]; fold bb; lia.
Qed.

Lemma release_down_run (m : gmap Z (list Z)) h c last n :
  n = Z.to_nat (last - 9) → 9 ≤ last → (∀ x, 10 ≤ x ≤ last → x ∉ h) →
  release_down n last (Yfs m (range 10 last ∪ h) c) = Ret (tt, Yfs m h c).
Proof.
  revert last. induction n as [|n IH]; intros last Hn Hl Hd; cbn [release_down].
  - assert (last = 9) as -> by lia. unfold mret, st_ret. do 3 f_equal. apply set_eq. intros x.
    rewrite elem_of_union, elem_of_range. split; [intros [?|?]; [lia|done]|tauto].
  - unfold BLOCK_BITMAP_BEGIN_BLOCK. destruct (Z.leb_spec 10 last); [|lia].
    replace (range 10 last ∪ h) with ({[last]} ∪ (range 10 (last - 1) ∪ h)).
    + rewrite (bind_run _ _ _ tt (Yfs m (range 10 (last - 1) ∪ h) c)).
      * apply IH; [lia|lia|]. intros x Hx. apply Hd. lia.
      * apply release_run. rewrite elem_of_union, elem_of_range. intros [?|Hx]; [lia|].
        by apply (Hd last); [lia|].
    + replace last with ((last - 1) + 1) at 3 by lia. rewrite range_snoc by lia.
      replace (last - 1 + 1) with last by lia. set_solver.
Qed.

Lemma y_put_add_run m h c i0 ino buf n :
  first_free m h i0 → is_block buf → (Z.to_nat i0 < n)%nat →
  y_put_add n ino buf (Yfs m h c) = Ret ((y_OK, i0), Yfs (allocated m i0 buf) h c).
Proof.
  intros Hff Hb Hn. unfold y_put_add. pose proof (ff_ok _ _ _ Hff) as Hok. unfold id_ok in Hok.
  assert (10 ≤ bitmap_block 0 ≤ bitmap_block i0) as Hm by (apply bitmap_block_mono; lia).
  assert (alloc_loop n 0 (2 ^ 64 - 1) ino buf (Yfs m h c)
    = Ret ((y_OK, i0, bitmap_block i0), Yfs (allocated m i0 buf) (range 10 (bitmap_block i0) ∪ h) c)) as E.
  { transitivity (alloc_loop n 0 9 ino buf (Yfs m (range 10 9 ∪ h) c)).
    - replace (range 10 9 ∪ h) with h; [by destruct n|]. apply set_eq. intros x.
      rewrite elem_of_union, elem_of_range. split; [tauto|]. intros [?|?]; [lia|done].
    - apply alloc_loop_run; try done; [lia|lia|by right]. }
  run E.
  assert (9 ≤ bitmap_block i0) as H9 by lia.
  run (release_down_run _ _ _ _ _ eq_refl H9
             (λ x Hx, proj1 (ff_area _ _ _ Hff x Hx))). done.
Qed.

(** Blocks the bitmap has a bit for: 191 bitmap blocks of 4096 bits. *)
Definition has_bit (j : Z) : Prop := 0 ≤ j < 191 * 4096.

Lemma has_bit_block j : has_bit j → 10 ≤ bitmap_block j ≤ 200.
Proof.
  unfold has_bit, bitmap_block, BITMAP_PER_BLOCK, BLOCK_BITMAP_BEGIN_BLOCK. intros.
  pose proof (Z.div_lt_upper_bound j 4096 191 ltac:(lia) ltac:(lia)).
  pose proof (Z.div_pos j 4096 ltac:(lia) ltac:(lia)). lia.
Qed.

Lemma bit_index j : 0 ≤ j `mod` BITMAP_PER_BLOCK < 4096.
Proof. apply Z.mod_pos_bound. unfold BITMAP_PER_BLOCK. lia. Qed.

Lemma same_bit i j :
  bitmap_block i = bitmap_block j → i `mod` BITMAP_PER_BLOCK = j `mod` BITMAP_PER_BLOCK → i = j.
Proof.
  unfold bitmap_block, BITMAP_PER_BLOCK. intros.
  rewrite (Z.div_mod i 4096), (Z.div_mod j 4096) by lia. lia.
Qed.

(** Replacing the bitmap block of [i] by one in which only bit [i] differs. *)
Lemma bit_of_update m i bm bm' r j :
  m !! bitmap_block i = Some bm →
  (∀ n, 0 ≤ n < 4096 → bit_set bm' n = if decide (i `mod` BITMAP_PER_BLOCK = n) then r else bit_set bm n) →
  bit_of (<[bitmap_block i := bm']> m) j = if decide (j = i) then Some r else bit_of m j.
Proof.
  intros Hm Hb. unfold bit_of. destruct (decide (bitmap_block j = bitmap_block i)) as [He|He].
  - rewrite He, lookup_insert_eq. simpl. rewrite (Hb _ (bit_index j)), Hm. simpl.
    destruct (decide (j = i)) as [->|Hne]; [by rewrite decide_True|].
    rewrite decide_False; [done|]. intros Hx. apply Hne. by apply same_bit.
  - rewrite lookup_insert_ne by done. rewrite decide_False; [done|]. by intros ->.
Qed.

(** A block outside the bitmap is never a bitmap block. *)
Lemma not_bitmap i j : in_bitmap_area i = false → has_bit j → bitmap_block j ≠ i.
Proof.
  intros Ha Hj%has_bit_block E. unfold in_bitmap_area in Ha. rewrite E in Hj.
  unfold BLOCK_BITMAP_BEGIN_BLOCK, BLOCK_BITMAP_END_BLOCK in Ha.
  destruct (Z.leb_spec 10 i), (Z.leb_spec i 200); simpl in Ha; (lia || done).
Qed.

(** Overwriting a block outside the bitmap keeps the bits. *)
Lemma bit_of_insert m i b j : in_bitmap_area i = false → has_bit j → bit_of (<[i := b]> m) j = bit_of m j.
Proof. intros Ha Hj. unfold bit_of. by rewrite lookup_insert_ne by (by apply not_eq_sym, not_bitmap). Qed.

(** What allocation changes. *)
Lemma allocated_spec m h i0 buf :
  first_free m h i0 → in_bitmap_area i0 = false →
  (∀ j, has_bit j → bit_of (allocated m i0 buf) j = if decide (j = i0) then Some true else bit_of m j) ∧
  (∀ k, k ≠ i0 → k ≠ bitmap_block i0 → allocated m i0 buf !! k = m !! k) ∧
  allocated m i0 buf !! i0 = Some buf.
Proof.
  intros Hff Har. unfold allocated.
  assert (bitmap_block i0 ≠ i0) as Hne.
  { pose proof (ff_ok _ _ _ Hff) as Hok. unfold id_ok in Hok.
    pose proof (bitmap_block_mono i0 i0 ltac:(lia)). intros He.
    by destruct (ff_area _ _ _ Hff (bitmap_block i0)); [lia|]. }
  destruct (bit_of_Some _ _ _ (ff_free _ _ _ Hff)) as (bm & Hbm & _). rewrite Hbm. simpl.
  destruct (ff_wf _ _ _ Hff _ _ Hbm) as [_ Hbmb]. split_and!.
  - intros j Hj. rewrite (bit_of_update _ i0 bm _ true).
    + case_decide; [done|]. by apply bit_of_insert.
    + by rewrite lookup_insert_ne.
    + intros k Hk. rewrite bit_set_set_bit by (done || apply bit_index).
      destruct (Z.eqb_spec (i0 `mod` BITMAP_PER_BLOCK) k); [by rewrite decide_True|by rewrite decide_False].
  - intros k H1 H2. by rewrite !lookup_insert_ne.
  - by rewrite lookup_insert_ne, lookup_insert_eq.
Qed.

(** * Theorems *)

(** Allocation takes the smallest free block: the block gets the given
    contents, its bit and no other changes, no other block is written, and the
    locks are as before. *)
Theorem alloc_takes_smallest_free (m : gmap Z (list Z)) (h : gset Z) (c n : nat) (i0 ino : Z)
    (buf : list Z) :
  first_free m h i0 → in_bitmap_area i0 = false → is_block buf → (Z.to_nat i0 < n)%nat →
  ∃ m', y_put_add n ino buf (Yfs m h c) = Ret ((y_OK, i0), Yfs m' h c) ∧
    m' !! i0 = Some buf ∧
    (∀ j, has_bit j → bit_of m' j = if decide (j = i0) then Some true else bit_of m j) ∧
    (∀ k, k ≠ i0 → k ≠ bitmap_block i0 → m' !! k = m !! k).
Proof.
  intros Hff Har Hb Hn. rewrite (y_put_add_run m h c i0 ino buf n) by done.
  destruct (allocated_spec m h i0 buf Hff Har) as (H1 & H2 & H3). eauto.
Qed.

Lemma check_bit_run m h c ino u :
  in_bitmap_area ino = false → bit_of m ino = Some u → bitmap_block ino ∉ h →
  check_bit ino (Yfs m h c) = Ret (u, Yfs m h c).
Proof.
  intros Ha Hu Hh. destruct (bit_of_Some _ _ _ Hu) as (bm & Hbm & <-).
  unfold check_bit. rewrite Ha.
  run (acquire_run _ _ _ _ Hh).
  run (get_run _ _ _ _ _ Hbm). cbv beta iota.
  by run (release_run _ _ _ _ Hh).
Qed.

(** Reading and overwriting see exactly the used blocks: for a block whose
    bit is clear both answer NOENT and change nothing, for a used block get
    gives its contents and put replaces it. *)
Theorem access_used_blocks (m : gmap Z (list Z)) (h : gset Z) (c : nat) (ino : Z) (u : bool)
    (buf : list Z) :
  in_bitmap_area ino = false → id_ok ino → bit_of m ino = Some u → bitmap_block ino ∉ h → is_block buf →
  (u = false → y_get ino buf (Yfs m h c) = Ret ((y_NOENT, buf), Yfs m h c) ∧
               y_put ino buf (Yfs m h c) = Ret (y_NOENT, Yfs m h c)) ∧
  (u = true → (∀ b, m !! ino = Some b → y_get ino buf (Yfs m h c) = Ret ((y_OK, b), Yfs m h c)) ∧
              y_put ino buf (Yfs m h c) = Ret (y_OK, Yfs (<[ino := buf]> m) h c)).
Proof.
  intros Ha Hid Hu Hh Hb. unfold y_get, y_put.
  rewrite !(bind_run _ _ _ _ _ (check_bit_run m h c ino u Ha Hu Hh)).
  split; intros ->; cbn [negb]; split; try done.
  - intros b Hl. by apply get_run.
  - by run (put_run _ _ _ _ _ Hid Hb).
Qed.

(** remove frees exactly one block: its bit is cleared, no other bit and
    no other block changes. *)
Theorem remove_frees_one (m : gmap Z (list Z)) (h : gset Z) (c : nat) (ino : Z) (u : bool) :
  bs_wf m → bit_of m ino = Some u → bitmap_block ino ∉ h →
  ∃ m', y_remove ino (Yfs m h c) = Ret (y_OK, Yfs m' h c) ∧
    (∀ j, bit_of m' j = if decide (j = ino) then Some false else bit_of m j) ∧
    (∀ k, k ≠ bitmap_block ino → m' !! k = m !! k) ∧ bs_wf m'.
Proof.
  intros Hwf Hu Hh. destruct (bit_of_Some _ _ _ Hu) as (bm & Hbm & _).
  destruct (Hwf _ _ Hbm) as [Hid Hb]. unfold y_remove.
  run (acquire_run _ _ _ _ Hh).
  run (get_run _ _ _ _ _ Hbm). cbv beta iota.
  run (put_run _ _ _ _ (clear_bit bm (ino `mod` BITMAP_PER_BLOCK)) Hid
             (clear_bit_block _ _ Hb)).
  run (release_run _ _ _ _ Hh).
  eexists. split; [done|]. split.
  - intros j. apply (bit_of_update m ino bm _ false j Hbm). intros k Hk.
    rewrite bit_set_clear_bit by (done || apply bit_index).
    destruct (Z.eqb_spec (ino `mod` BITMAP_PER_BLOCK) k); [by rewrite decide_True|by rewrite decide_False].
  - split; [intros k Hk; by rewrite lookup_insert_ne|].
    apply map_Forall_insert_2; [split; [done|by apply clear_bit_block]|done].
Qed.

(** ** Concrete runs: on the freshly formatted file system block 2 is free *)
Lemma zero_block_ok : is_block zero_block.
Proof. by_vm. Qed.

Lemma ex_fs_wf : bs_wf (y_store ex_fs).
Proof. by_vm. Qed.

Lemma ex_first_free : first_free (y_store ex_fs) ∅ 2.
Proof.
  split.
  - unfold id_ok. lia.
  - exact ex_fs_wf.
  - intros j Hj. assert (j = 0 ∨ j = 1) as [->| ->] by lia; vm_compute; reflexivity.
  - vm_compute. reflexivity.
  - change (bitmap_block 2) with 10. intros x Hx. split; [set_solver|lia].
  - set_solver.
Qed.

Lemma alloc_takes_smallest_free_witness :
  ∃ m', y_put_add 3 0 zero_block (Yfs (y_store ex_fs) ∅ 0) = Ret ((y_OK, 2), Yfs m' ∅ 0) ∧
    m' !! 2 = Some zero_block.
Proof.
  destruct (alloc_takes_smallest_free (y_store ex_fs) ∅ 0 3 2 0 zero_block) as (m' & E & L & _);
    [exact ex_first_free|reflexivity|exact zero_block_ok|change (Z.to_nat 2) with 2%nat; lia|].
  exists m'. auto.
Defined.

Lemma access_used_blocks_witness :
  y_get 2 zero_block (Yfs (y_store ex_fs) ∅ 0) = Ret ((y_NOENT, zero_block), Yfs (y_store ex_fs) ∅ 0) ∧
  y_get 1 zero_block (Yfs (y_store ex_fs) ∅ 0) = Ret ((y_OK, root_block), Yfs (y_store ex_fs) ∅ 0).
Proof.
  split.
  - apply (access_used_blocks (y_store ex_fs) ∅ 0 2 false zero_block);
      [reflexivity|unfold id_ok; lia|vm_compute; reflexivity|set_solver|exact zero_block_ok|reflexivity].
  - apply (access_used_blocks (y_store ex_fs) ∅ 0 1 true zero_block);
      [reflexivity|unfold id_ok; lia|vm_compute; reflexivity|set_solver|exact zero_block_ok|reflexivity
      |vm_compute; reflexivity].
Defined.

Lemma remove_frees_one_witness :
  ∃ m', y_remove 1 (Yfs (y_store ex_fs) ∅ 0) = Ret (y_OK, Yfs m' ∅ 0) ∧ bit_of m' 1 = Some false.
Proof.
  destruct (remove_frees_one (y_store ex_fs) ∅ 0 1 true) as (m' & E & B & _);
    [exact ex_fs_wf|vm_compute; reflexivity|set_solver|].
  exists m'. split; [exact E|]. exact (B 1).
Defined.
