(* ===== verification/YfsDirSpec.v ===== *)
(** Directory blocks of yfs_client.cc as lists of entries: what the search, the
    insertion and the removal of an entry do to the list, and what lookup and
    create return on directories that span a chain of blocks.  Stated over the
    reference store; YfsRefine.v carries the results over to every store. *)
From S2P Require Import Prelude ExtentServer ExtentCache YfsBlock YfsFile YfsDir YfsOps YfsLocks.
From S2P Require Import YfsRefine YfsAlloc.
Local Open Scope Z_scope.

(** * Fields of a block *)
Lemma length_wr off n v b : (off + n ≤ length b)%nat → length (wr off n v b) = length b.
Proof. intros. unfold wr. apply length_splice. by rewrite length_le_bytes. Qed.

Lemma wr_block off n v b : (off + n ≤ 512)%nat → is_block b → is_block (wr off n v b).
Proof.
  intros Hn [Hl Hb]. split; [rewrite length_wr; lia|]. unfold wr.
  apply splice_Forall; [done|apply le_bytes_is_byte].
Qed.

Lemma rd_wr_eq off n v b :
  (off ≤ length b)%nat → rd off n (wr off n v b) = v `mod` 2 ^ (8 * Z.of_nat n).
Proof.
  intros. unfold rd, wr. rewrite <- (length_le_bytes n v) at 1.
  rewrite slice_splice_eq by done. apply le_val_bytes.
Qed.

Lemma slice_wr_ne off n off' n' v b :
  (off + n ≤ off' ∨ off' + n' ≤ off)%nat → (off' + n' ≤ length b)%nat →
  slice off n (wr off' n' v b) = slice off n b.
Proof.
  intros Hd Hl. unfold wr. destruct Hd.
  - apply slice_splice_before; lia.
  - apply slice_splice_after; rewrite length_le_bytes; lia.
Qed.

Lemma rd_wr_ne off n off' n' v b :
  (off + n ≤ off' ∨ off' + n' ≤ off)%nat → (off' + n' ≤ length b)%nat →
  rd off n (wr off' n' v b) = rd off n b.
Proof. intros. unfold rd. by rewrite slice_wr_ne. Qed.

Lemma rd_range n off b :
  (off + n ≤ 512)%nat → is_block b → 0 ≤ rd off n b < 2 ^ (8 * Z.of_nat n).
Proof.
  intros Hn [Hl Hb]. unfold rd. pose proof (le_val_range (slice off n b) (slice_Forall _ _ _ _ Hb)) as Hr.
  by rewrite length_slice in Hr by lia.
Qed.

Lemma entry_off_nat (i : nat) : entry_off (Z.of_nat i) = (40 + 72 * i)%nat.
Proof. unfold entry_off. lia. Qed.

(** * Names *)
Definition name_ok (s : list Z) : Prop := (length s < 64)%nat ∧ Forall (λ c, 0 < c < 256) s.

Lemma c_str_ok s : Forall (λ c, 0 < c < 256) s → c_str s = s.
Proof.
  induction 1 as [|c s Hc _ IH]; simpl; [done|]. destruct (Z.eqb_spec c 0); [lia|]. by rewrite IH.
Qed.

Lemma c_str_nonzero s : Forall (λ c, 0 ≤ c) s → Forall (λ c, 0 < c) (c_str s).
Proof.
  induction 1 as [|c s Hc _ IH]; simpl; [constructor|].
  destruct (Z.eqb_spec c 0); constructor; [lia|done].
Qed.

Lemma str_eq_spec nm rest s :
  Forall (λ c, 0 < c < 256) nm → Forall (λ c, 0 < c) s →
  str_eq (nm ++ 0 :: rest) s = Some (bool_decide (nm = s)).
Proof.
  intros Hn. revert s. induction Hn as [|c nm Hc _ IH]; intros s Hs; simpl.
  - destruct s; [by rewrite bool_decide_true|by rewrite bool_decide_false].
  - destruct (Z.eqb_spec c 0); [lia|]. destruct s as [|d s]; [by rewrite bool_decide_false|].
    apply Forall_cons in Hs as [Hd Hs]. destruct (Z.eqb_spec c d) as [->|Hne].
    + rewrite IH by done. f_equal. apply bool_decide_ext. split; congruence.
    + rewrite bool_decide_false; [done|congruence].
Qed.

Lemma str_read_spec nm rest :
  Forall (λ c, 0 < c < 256) nm → str_read (nm ++ 0 :: rest) = Some nm.
Proof.
  induction 1 as [|c nm Hc _ IH]; simpl; [done|]. destruct (Z.eqb_spec c 0); [lia|]. by rewrite IH.
Qed.

(** * A directory block represents a list of entries *)
Abbreviation entries := (list (list Z * Z)).

Record dir_rep (b : list Z) (es : entries) : Prop := {
  dr_block : is_block b;
  dr_size : i_size b = Z.of_nat (length es);
  dr_len : (length es ≤ 5)%nat;
  dr_ent : ∀ i nm inum, es !! i = Some (nm, inum) →
    name_ok nm ∧ (∃ rest, slice (entry_off (Z.of_nat i)) 64 b = nm ++ 0 :: rest) ∧
    entry_inum (Z.of_nat i) b = inum }.

Lemma entry_is_rep b es i nm inum name :
  dir_rep b es → es !! i = Some (nm, inum) → Forall (λ c, 0 ≤ c) name →
  entry_is (Z.of_nat i) name b = Ret (bool_decide (nm = c_str name)).
Proof.
  intros Hr Hi Hn. destruct (dr_ent _ _ Hr _ _ _ Hi) as ([_ Hok] & (rest & E) & _).
  unfold entry_is. rewrite <- (take_drop 64 (drop _ b)).
  change (take 64 (drop (entry_off (Z.of_nat i)) b)) with (slice (entry_off (Z.of_nat i)) 64 b).
  rewrite E, <- app_assoc. simpl. rewrite str_eq_spec; [done|done|by apply c_str_nonzero].
Qed.

(** The position and the inode number of the first entry of a name. *)
Fixpoint find_es (s : list Z) (es : entries) : option (nat * Z) :=
  match es with
  | [] => None
  | e :: es => if bool_decide (e.1 = s) then Some (0%nat, e.2)
               else (λ p, (S p.1, p.2)) <$> find_es s es
  end.

Lemma find_loop_rep b es name n i :
  dir_rep b es → Forall (λ c, 0 ≤ c) name → (i ≤ length es)%nat → (length es - i < n)%nat →
  find_loop n (Z.of_nat i) name b
  = Ret ((λ p, Z.of_nat (i + p.1)) <$> find_es (c_str name) (drop i es)).
Proof.
  intros Hr Hn. revert i. induction n as [|n IH]; intros i Hi Hl; [lia|]. cbn [find_loop].
  rewrite (dr_size _ _ Hr). destruct (Z.ltb_spec (Z.of_nat i) (Z.of_nat (length es))).
  - destruct (lookup_lt_is_Some_2 es i) as [[nm inum] Hi']; [lia|].
    rewrite (entry_is_rep b es i nm inum) by done. simpl.
    rewrite (drop_S es (nm, inum) i) by done. cbn [find_es fst].
    destruct (bool_decide (nm = c_str name)).
    + simpl. do 2 f_equal. lia.
    + replace (Z.of_nat i + 1) with (Z.of_nat (S i)) by lia. rewrite IH by lia.
      f_equal. destruct (find_es (c_str name) (drop (S i) es)) as [[k e]|]; [|done]. simpl. f_equal. lia.
  - assert (i = length es) as -> by lia. by rewrite drop_all.
Qed.

Lemma find_entry_rep b es name :
  dir_rep b es → Forall (λ c, 0 ≤ c) name →
  find_entry name b = Ret ((λ p, Z.of_nat p.1) <$> find_es (c_str name) es).
Proof.
  intros Hr Hn. unfold find_entry. pose proof (dr_len _ _ Hr).
  rewrite <- (drop_0 es) at 1. apply (find_loop_rep b es name 8 0); (done || lia).
Qed.

Lemma find_es_lookup s es i n : find_es s es = Some (i, n) → es !! i = Some (s, n).
Proof.
  revert i. induction es as [|e es IH]; intros i; simpl; [done|].
  destruct (bool_decide_reflect (e.1 = s)) as [<-|].
  - intros [= <- <-]. by destruct e.
  - destruct (find_es s es) as [[k m]|]; [|done]. intros [= <- <-]. simpl. by apply IH.
Qed.

Lemma find_es_app s es es' :
  find_es s (es ++ es') = match find_es s es with
                          | Some r => Some r
                          | None => (λ p, ((length es + p.1)%nat, p.2)) <$> find_es s es'
                          end.
Proof.
  induction es as [|e es IH]; simpl.
  - by destruct (find_es s es') as [[]|].
  - destruct (bool_decide _); [done|]. rewrite IH. destruct (find_es s es) as [[]|]; [done|].
    by destruct (find_es s es') as [[]|].
Qed.

(** Changing a field outside the entries. *)
Lemma dir_rep_wr b es off v :
  dir_rep b es → (16 ≤ off ∧ off + 8 ≤ 40 ∨ off = 400)%nat → dir_rep (wr off 8 v b) es.
Proof.
  intros [[Hl Hb] H2 H3 H4] Ho. split; auto.
  - apply wr_block; [lia|done].
  - rewrite <- H2. unfold i_size. apply rd_wr_ne; lia.
  - intros i nm inum Hi. destruct (H4 _ _ _ Hi) as (Hn & (rest & E) & Ei).
    apply lookup_lt_Some in Hi. split; [done|]. rewrite entry_off_nat in *. split.
    + exists rest. rewrite slice_wr_ne; [done|lia|lia].
    + rewrite <- Ei. unfold entry_inum. rewrite !entry_off_nat. apply rd_wr_ne; lia.
Qed.

(** * Adding an entry *)
Lemma add_entry_rep b es name inum :
  dir_rep b es → (length es < 5)%nat → Forall (λ c, 0 ≤ c) name → name_ok (c_str name) →
  0 ≤ inum < 2 ^ 64 →
  ∃ b', add_entry name inum b = Ret b' ∧ dir_rep b' (es ++ [(c_str name, inum)]) ∧ i_next b' = i_next b.
Proof.
  intros [[Hl Hb] H2 H3 H4] Hlt Hpos [Hn Hok] Hi. unfold add_entry, set_entry_name.
  set (k := length es) in *. rewrite H2, entry_off_nat, length_app. change (length [0]) with 1%nat.
  destruct (Nat.ltb_spec (length b) (40 + 72 * k + (length (c_str name) + 1))) as [|_]; [lia|].
  unfold mbind, res_bind. cbv zeta. set (s := c_str name ++ [0]). set (b1 := splice (40 + 72 * k) s b).
  assert (length s = length (c_str name) + 1)%nat as Hs by (unfold s; rewrite length_app; done).
  assert (length b1 = 512)%nat as L1 by (unfold b1; rewrite length_splice; lia).
  assert (i_size b1 = Z.of_nat k) as S1.
  { unfold i_size, rd, b1. rewrite slice_splice_before by lia. exact H2. }
  rewrite S1. set (b2 := set_entry_inum (Z.of_nat k) inum b1).
  assert (length b2 = 512)%nat as L2.
  { unfold b2, set_entry_inum. rewrite entry_off_nat, length_wr; lia. }
  assert (i_size b2 = Z.of_nat k) as S2.
  { rewrite <- S1. unfold i_size, b2, set_entry_inum. rewrite entry_off_nat. apply rd_wr_ne; lia. }
  rewrite S2. eexists. split; [done|]. unfold set_size.
  assert (∀ off n, (16 ≤ off)%nat → (off + n ≤ 40 + 72 * k ∨ 40 + 72 * (k + 1) ≤ off)%nat →
    slice off n (wr 8 8 (u64 (Z.of_nat k + 1)) b2) = slice off n b) as Hout.
  { intros off n Ho Hd. rewrite slice_wr_ne by lia. unfold b2, set_entry_inum. rewrite entry_off_nat.
    rewrite slice_wr_ne by lia. unfold b1. destruct Hd.
    - apply slice_splice_before; lia.
    - apply slice_splice_after; lia. }
  split; [|unfold i_next, rd; rewrite Hout by lia; done]. split.
  - apply wr_block; [lia|]. unfold b2, set_entry_inum. rewrite entry_off_nat.
    apply wr_block; [lia|]. split; [done|]. apply splice_Forall; [done|].
    unfold s. apply Forall_app. split; [|repeat constructor; unfold is_byte; lia].
    eapply Forall_impl; [exact Hok|]. unfold is_byte. simpl. lia.
  - rewrite length_app. unfold i_size. rewrite rd_wr_eq by lia. change (length [(c_str name, inum)]) with 1%nat.
    unfold uwrap. rewrite Z.mod_mod by lia. rewrite Z.mod_small; [lia|]. fold k. lia.
  - rewrite length_app. simpl. fold k. lia.
  - intros i nm num Hi'. destruct (decide (i < k)%nat) as [Hik|Hik].
    + rewrite lookup_app_l in Hi' by done. destruct (H4 _ _ _ Hi') as (Hnm & (rest & E) & Ei).
      split; [done|]. rewrite entry_off_nat in *. split.
      * exists rest. rewrite Hout by lia. done.
      * rewrite <- Ei. unfold entry_inum, rd. rewrite !entry_off_nat, Hout by lia. done.
    + rewrite lookup_app_r in Hi' by lia. destruct (i - length es)%nat as [|j] eqn:Ej; [|by destruct j].
      assert (i = k) as -> by lia. simpl in Hi'. injection Hi' as <- <-. split; [by split|].
      rewrite entry_off_nat. split.
      * exists (slice (40 + 72 * k + length s) (64 - length s) b).
        rewrite slice_wr_ne by lia. unfold b2, set_entry_inum. rewrite entry_off_nat, slice_wr_ne by lia.
        unfold b1, slice. unfold splice. rewrite drop_app_length' by (rewrite length_take; lia).
        rewrite take_app_ge by lia. unfold s at 1. rewrite <- app_assoc. done.
      * unfold entry_inum. rewrite entry_off_nat, rd_wr_ne by lia.
        unfold b2, set_entry_inum. rewrite entry_off_nat, rd_wr_eq by lia.
        apply Z.mod_small. change (8 * Z.of_nat 8) with 64. lia.
Qed.

(** * Running get and put on used blocks *)
Record used (m : gmap Z (list Z)) (h : gset Z) (i : Z) (b : list Z) : Prop := {
  us_area : in_bitmap_area i = false;
  us_has : has_bit i;
  us_bit : bit_of m i = Some true;
  us_get : m !! i = Some b;
  us_held : bitmap_block i ∉ h }.

Lemma has_bit_id i : has_bit i → id_ok i.
Proof. unfold has_bit, id_ok. lia. Qed.

Lemma used_get_run m h c i b buf :
  used m h i b → y_get i buf (Yfs m h c) = Ret ((y_OK, b), Yfs m h c).
Proof.
  intros [Ha Hi Hb Hg Hh]. unfold y_get. run (check_bit_run m h c i true Ha Hb Hh).
  cbn [negb]. by apply get_run.
Qed.

Lemma used_put_run m h c i b buf :
  used m h i b → is_block buf → y_put i buf (Yfs m h c) = Ret (y_OK, Yfs (<[i := buf]> m) h c).
Proof.
  intros [Ha Hi Hb Hg Hh] Hbuf. unfold y_put.
  run (check_bit_run m h c i true Ha Hb Hh). cbn [negb].
  by run (put_run _ _ _ _ _ (has_bit_id i Hi) Hbuf).
Qed.

Lemma used_lock m h i b : used m h i b → used m ({[i]} ∪ h) i b.
Proof.
  intros [Ha Hi Hb Hg Hh]. split; try done. pose proof (not_bitmap i i Ha Hi). set_solver.
Qed.

Lemma safe_get_own m h c i b buf :
  used m h i b → safe_get i buf i (Yfs m h c) = Ret ((y_OK, b), Yfs m h c).
Proof. intros. unfold safe_get. rewrite Z.eqb_refl. by apply used_get_run. Qed.

Lemma safe_put_own m h c i b buf :
  used m h i b → is_block buf → safe_put i buf i (Yfs m h c) = Ret (y_OK, Yfs (<[i := buf]> m) h c).
Proof. intros. unfold safe_put. rewrite Z.eqb_refl. by eapply used_put_run. Qed.

Lemma safe_get_run m h c i b buf ig :
  used m h i b → i ≠ ig → i ∉ h → safe_get i buf ig (Yfs m h c) = Ret ((y_OK, b), Yfs m h c).
Proof.
  intros Hu Hne Hh. unfold safe_get. destruct (Z.eqb_spec i ig); [done|].
  run (acquire_run _ _ _ _ Hh).
  run (used_get_run _ _ _ _ _ _ (used_lock _ _ _ _ Hu)).
  by run (release_run _ _ _ _ Hh).
Qed.

Lemma used_insert_ne m h i b k b' :
  in_bitmap_area k = false → k ≠ i → used m h i b → used (<[k := b']> m) h i b.
Proof.
  intros Hk Hne [Ha Hi Hb Hg Hh]. split; try done; [by rewrite bit_of_insert|by rewrite lookup_insert_ne].
Qed.

Lemma used_insert_eq m h i b b' : used m h i b → used (<[i := b']> m) h i b'.
Proof. intros [Ha Hi Hb Hg Hh]. split; try done; [by rewrite bit_of_insert|apply lookup_insert_eq]. Qed.

(** * Directories: a chain of blocks *)
Inductive dir_chain (m : gmap Z (list Z)) (h : gset Z) (parent : Z) : list Z → list entries → Prop :=
  | dc_end b es : dir_rep b es → i_next b = 0 → dir_chain m h parent b [es]
  | dc_next b es b' ess :
      dir_rep b es → i_next b ≠ 0 → i_next b ≠ parent → i_next b ∉ h → used m h (i_next b) b' →
      dir_chain m h parent b' ess → dir_chain m h parent b (es :: ess).

Lemma dir_chain_insert m h parent b ess pb :
  in_bitmap_area parent = false → dir_chain m h parent b ess →
  dir_chain (<[parent := pb]> m) h parent b ess.
Proof.
  intros Ha. induction 1 as [b es Hr Hn|b es b' ess Hr Hn Hp Hh Hu _ IH]; [by constructor|].
  econstructor; try done. apply used_insert_ne; auto.
Qed.

(** The first block of a chain may change outside its entries. *)
Lemma dir_chain_wr m h parent b ess off v :
  (16 ≤ off ∧ off + 8 ≤ 40)%nat → dir_chain m h parent b ess → dir_chain m h parent (wr off 8 v b) ess.
Proof.
  intros Ho Hc. assert (is_block b → i_next (wr off 8 v b) = i_next b) as E.
  { intros [Hl _]. unfold i_next. apply rd_wr_ne; lia. }
  destruct Hc as [b es Hr Hn|b es b' ess Hr Hn Hp Hh Hu Hc]; specialize (E (dr_block _ _ Hr)).
  - constructor; [apply dir_rep_wr; auto|]. by rewrite E.
  - econstructor; rewrite ?E; try done. apply dir_rep_wr; auto.
Qed.

Definition lookup_es (s : list Z) (ess : list entries) : Z :=
  default 0 (snd <$> find_es s (concat ess)).

Lemma entry_inum_rep b es i s n :
  dir_rep b es → find_es s es = Some (i, n) → entry_inum (Z.of_nat i) b = n.
Proof. intros Hr Hf%find_es_lookup. by destruct (dr_ent _ _ Hr _ _ _ Hf) as (_ & _ & ?). Qed.

Lemma lookup_loop_run m h c parent b ess name n :
  dir_chain m h parent b ess → Forall (λ c, 0 ≤ c) name → (length ess ≤ n)%nat →
  lookup_loop n parent name b (Yfs m h c) = Ret (lookup_es (c_str name) ess, Yfs m h c).
Proof.
  intros Hc Hn. revert n. induction Hc as [b es Hr Hnx|b es b' ess Hr Hnx Hp Hh Hu _ IH];
    intros [|n] Hl; simpl in Hl; try lia; cbn [lookup_loop].
  all: unfold lookup_es; simpl concat; rewrite find_es_app.
  all: rewrite (bind_run _ _ _ (((λ p, Z.of_nat p.1) <$> find_es (c_str name) es)) (Yfs m h c))
    by (unfold st_lift; by rewrite (find_entry_rep b es)).
  all: destruct (find_es (c_str name) es) as [[i num]|] eqn:Ef; simpl fmap;
    [cbv beta iota; simpl; by rewrite (entry_inum_rep b es i (c_str name) num)|].
  - rewrite Hnx. done.
  - unfold fmap, option_fmap, option_map. destruct (Z.eqb_spec (i_next b) 0); [done|].
    run (safe_get_run m h c (i_next b) b' b parent Hu Hp Hh).
    cbv beta iota. rewrite IH by lia. unfold lookup_es.
    by destruct (find_es (c_str name) (concat ess)) as [[]|].
Qed.

Lemma time0_run time (m : gmap Z (list Z)) h c :
  time0 time (Yfs m h c) = Ret (u64 (time c), Yfs m h (S c)).
Proof. done. Qed.

Lemma lookup_run time junk fuel m h c parent b ess name :
  parent ∉ h → used m ({[parent]} ∪ h) parent b → dir_chain m ({[parent]} ∪ h) parent b ess →
  Forall (λ c, 0 ≤ c) name → (length ess ≤ fuel)%nat →
  lookup time junk fuel parent name (Yfs m h c)
  = Ret (lookup_es (c_str name) ess,
         Yfs (<[parent := set_atime (u64 (time c)) b]> m) h (S c)).
Proof.
  intros Hh Hu Hc Hn Hl. unfold lookup.
  assert (is_block b) as Hb by (destruct Hc as [? ? []|? ? ? ? []]; done).
  run (acquire_run _ _ _ _ Hh).
  run (safe_get_own _ _ _ _ _ junk Hu). cbv beta iota.
  run (time0_run _ _ _ _). cbv zeta.
  set (b1 := set_atime (u64 (time c)) b).
  assert (is_block b1) as Hb1 by (apply wr_block; [lia|done]).
  run (safe_put_own _ _ _ _ _ b1 Hu Hb1).
  change (negb (y_OK =? y_OK)) with false. cbv iota.
  assert (dir_chain (<[parent := b1]> m) ({[parent]} ∪ h) parent b1 ess) as Hc1.
  { apply dir_chain_insert; [apply Hu|]. apply dir_chain_wr; [lia|done]. }
  run (lookup_loop_run _ _ (S c) _ _ _ _ _ Hc1 Hn Hl).
  by run (release_run _ _ _ _ Hh).
Qed.


(** * Allocation next to used blocks *)
Lemma first_free_insert m h i0 k b :
  first_free m h i0 → has_bit i0 → in_bitmap_area k = false → id_ok k → is_block b →
  first_free (<[k := b]> m) h i0.
Proof.
  intros [H1 H2 H3 H4 H5 H6] Hi Hk Hid Hb. split; try done.
  - by apply map_Forall_insert_2.
  - intros j Hj. rewrite bit_of_insert; [by apply H3|done|]. unfold has_bit in *. lia.
  - by rewrite bit_of_insert.
Qed.

Lemma used_allocated m h h' i b i0 buf :
  first_free m h' i0 → in_bitmap_area i0 = false → has_bit i0 → used m h i b →
  used (allocated m i0 buf) h i b.
Proof.
  intros Hff Ha0 Hb0 [Ha Hi Hb Hg Hh]. destruct (allocated_spec m h' i0 buf Hff Ha0) as (E1 & E2 & _).
  assert (i ≠ i0) as Hne by (intros ->; by rewrite (ff_free _ _ _ Hff) in Hb).
  split; try done.
  - by rewrite E1, decide_False.
  - rewrite E2; [done|done|]. by apply not_eq_sym, not_bitmap.
Qed.

Lemma dir_chain_allocated m h h' parent b ess i0 buf :
  first_free m h' i0 → in_bitmap_area i0 = false → has_bit i0 →
  dir_chain m h parent b ess → dir_chain (allocated m i0 buf) h parent b ess.
Proof.
  intros Hff Ha Hb. induction 1 as [b es Hr Hn|b es b' ess Hr Hn Hp Hh Hu _ IH]; [by constructor|].
  econstructor; try done. eapply used_allocated; eauto.
Qed.

(** The inode of a new file. *)
Definition new_inode (t1 t2 : Z) : list Z :=
  set_ctime t2 (set_mtime t1 (set_atime 0 (set_mode 1 zero_block))).

Lemma new_inode_block t1 t2 : is_block (new_inode t1 t2).
Proof. repeat (apply wr_block; [lia|]). exact zero_block_ok. Qed.

(** The first block of a directory gets one entry more. *)
Lemma dir_chain_add m h parent b es ess e b' :
  dir_chain m h parent b (es :: ess) → dir_rep b' (es ++ [e]) → i_next b' = i_next b →
  dir_chain m h parent b' ((es ++ [e]) :: ess).
Proof.
  intros Hc Hr Hn. inversion Hc as [? ? _ Hz|? ? b2 ? _ Hz Hp Hh Hu Hc']; subst.
  - apply dc_end; [done|congruence].
  - rewrite <- Hn in *. by apply (dc_next _ _ _ _ _ b2).
Qed.

(** The state after create on a directory whose first block [b] has room. *)
Definition created (time : nat → Z) (m : gmap Z (list Z)) (c : nat) (parent i0 : Z) (b' : list Z)
    (b1 : list Z) : gmap Z (list Z) :=
  <[parent := b']> (allocated (<[parent := b1]> m) i0
                      (new_inode (u64 (time (S c))) (u64 (time (S (S c)))))).

Definition touched (time : nat → Z) (c : nat) (b : list Z) : list Z :=
  set_ctime (u64 (time c)) (set_mtime (u64 (time c)) b).

Section create.
Context (time : nat → Z) (junk : list Z) (fuel : nat).
Context (m : gmap Z (list Z)) (h : gset Z) (c : nat) (parent : Z) (b : list Z).
Context (es : entries) (ess : list entries) (name : list Z) (i0 ino : Z).
Hypothesis (Hh : parent ∉ h) (Hu : used m ({[parent]} ∪ h) parent b).
Hypothesis (Hc : dir_chain m ({[parent]} ∪ h) parent b (es :: ess)).
Hypothesis (Hroom : (length es < 5)%nat) (Hn : Forall (λ c, 0 ≤ c) name).
Hypothesis (Hok : name_ok (c_str name)) (Hnew : find_es (c_str name) es = None).
Hypothesis (Hff : first_free m ({[parent]} ∪ h) i0) (Ha0 : in_bitmap_area i0 = false).
Hypothesis (Hb0 : has_bit i0) (Hfuel : (Z.to_nat i0 < fuel)%nat).

Lemma dir_chain_rep b0 es0 ess0 : dir_chain m ({[parent]} ∪ h) parent b0 (es0 :: ess0) → dir_rep b0 es0.
Proof. by inversion 1. Qed.

Lemma inner_create_run :
  ∃ b', dir_rep b' (es ++ [(c_str name, i0)]) ∧ i_next b' = i_next (touched time c b) ∧
    inner_create time junk fuel parent name ino (Yfs m ({[parent]} ∪ h) c)
    = Ret ((y_OK, i0), Yfs (created time m c parent i0 b' (touched time c b)) ({[parent]} ∪ h)
                         (S (S (S c)))).
Proof.
  set (b1 := touched time c b). set (m1 := <[parent := b1]> m).
  assert (dir_chain m ({[parent]} ∪ h) parent b1 (es :: ess)) as Hc1
    by (do 2 (apply dir_chain_wr; [lia|]); done).
  pose proof (dir_chain_rep _ _ _ Hc1) as Hr1.
  pose proof (dr_block _ _ Hr1) as Hb1. pose proof (dr_size _ _ Hr1) as Hs1.
  destruct (add_entry_rep b1 es name i0) as (b' & Eadd & Hr' & Hnx); try done.
  { unfold has_bit in Hb0. lia. }
  exists b'. split; [done|]. split; [done|]. unfold inner_create.
  run (safe_get_own _ _ _ _ _ junk Hu). cbv beta iota.
  run (time0_run _ _ _ _). cbv zeta. fold (touched time c b). fold b1.
  run (safe_put_own _ _ _ _ _ b1 Hu Hb1). fold m1.
  change (negb (y_OK =? y_OK)) with false. cbv iota.
  assert (∀ k, find_slot (S := gmap Z (list Z)) fuel fuel true parent parent 0 name b1
            (Yfs m1 ({[parent]} ∪ h) k) = Ret (Room parent 0 b1, Yfs m1 ({[parent]} ∪ h) k)) as Ef.
  { intros k. destruct fuel as [|n]; [lia|]. cbn [find_slot]. rewrite Hs1.
    destruct (Z.leb_spec INODE_DIR_ENTRY_NUM (Z.of_nat (length es))) as [H5|]; [|done].
    unfold INODE_DIR_ENTRY_NUM in H5. lia. }
  run (Ef _). cbv beta iota.
  rewrite (bind_run _ _ _ None (Yfs m1 ({[parent]} ∪ h) (S c)))
    by (unfold st_lift; rewrite (find_entry_rep b1 es) by done; by rewrite Hnew).
  rewrite !(bind_run _ _ _ _ _ (time0_run _ _ _ _)). cbv zeta.
  fold (new_inode (u64 (time (S c))) (u64 (time (S (S c))))).
  assert (first_free m1 ({[parent]} ∪ h) i0) as Hff1.
  { apply first_free_insert; try done; [apply Hu|apply has_bit_id, Hu]. }
  run (y_put_add_run m1 _ (S (S (S c))) i0 0 _ fuel Hff1 (new_inode_block _ _) Hfuel).
  cbv beta iota. change (negb (y_OK =? y_OK)) with false. cbv iota.
  rewrite (bind_run _ _ _ b' (Yfs (allocated m1 i0 (new_inode (u64 (time (S c))) (u64 (time (S (S c))))))
             ({[parent]} ∪ h) (S (S (S c))))) by (unfold st_lift; by rewrite Eadd).
  assert (used (allocated m1 i0 (new_inode (u64 (time (S c))) (u64 (time (S (S c)))))) ({[parent]} ∪ h)
            parent b1) as Hu2 by (eapply used_allocated; eauto using used_insert_eq).
  run (safe_put_own _ _ _ _ _ b' Hu2 (dr_block _ _ Hr')). done.
Qed.

Lemma create_run :
  ∃ m' b', create time junk fuel parent name ino (Yfs m h c) = Ret ((y_OK, i0), Yfs m' h (S (S (S c)))) ∧
    used m' ({[parent]} ∪ h) parent b' ∧
    dir_chain m' ({[parent]} ∪ h) parent b' ((es ++ [(c_str name, i0)]) :: ess) ∧
    bit_of m' i0 = Some true ∧
    m' !! i0 = Some (new_inode (u64 (time (S c))) (u64 (time (S (S c))))).
Proof.
  destruct inner_create_run as (b' & Hr' & Hnx & E).
  set (b1 := touched time c b) in *. set (m1 := <[parent := b1]> m).
  set (nb := new_inode (u64 (time (S c))) (u64 (time (S (S c))))).
  assert (in_bitmap_area parent = false) as Hpa by apply Hu.
  assert (is_block b1) as Hb1.
  { repeat (apply wr_block; [lia|]). apply (dir_chain_rep _ _ _ Hc). }
  assert (first_free m1 ({[parent]} ∪ h) i0) as Hff1.
  { apply first_free_insert; try done. apply has_bit_id, Hu. }
  destruct (allocated_spec m1 _ i0 nb Hff1 Ha0) as (E1 & _ & E3).
  assert (parent ≠ i0) as Hne.
  { intros ->. pose proof (us_bit _ _ _ _ Hu) as Hbit. by rewrite (ff_free _ _ _ Hff) in Hbit. }
  exists (created time m c parent i0 b' b1), b'. split_and!.
  - unfold create. run (acquire_run _ _ _ _ Hh).
    run E. by run (release_run _ _ _ _ Hh).
  - eapply used_insert_eq, used_allocated; eauto using used_insert_eq.
  - apply dir_chain_insert; [done|]. apply (dir_chain_add _ _ _ b1 es); [|done|done].
    eapply dir_chain_allocated; eauto. apply dir_chain_insert; [done|].
    do 2 (apply dir_chain_wr; [lia|]). done.
  - unfold created. rewrite bit_of_insert by done. fold m1 nb. by rewrite E1, decide_True.
  - unfold created. rewrite lookup_insert_ne by done. exact E3.
Qed.
End create.

(** * Theorems *)

(** lookup finds the right entry: over the whole chain of blocks of a
    directory it returns the inode of the first entry of the name, and 0 when
    there is none; apart from the access time it changes nothing. *)
Theorem lookup_finds (time : nat → Z) (junk : list Z) (fuel : nat) (m : gmap Z (list Z)) (h : gset Z)
    (c : nat) (parent : Z) (b : list Z) (ess : list entries) (name : list Z) :
  parent ∉ h → used m ({[parent]} ∪ h) parent b → dir_chain m ({[parent]} ∪ h) parent b ess →
  Forall (λ c, 0 ≤ c) name → (length ess ≤ fuel)%nat →
  lookup time junk fuel parent name (Yfs m h c)
  = Ret (lookup_es (c_str name) ess, Yfs (<[parent := set_atime (u64 (time c)) b]> m) h (S c)).
Proof. apply lookup_run. Qed.

(** A created file is found: creating a name that the directory's first
    block does not have and has room for allocates the smallest free block,
    looking the name up then gives that block, and every other name gives what
    it gave before. *)
Theorem create_then_lookup (time : nat → Z) (junk : list Z) (fuel : nat) (m : gmap Z (list Z))
    (h : gset Z) (c : nat) (parent : Z) (b : list Z) (es : entries) (ess : list entries)
    (name : list Z) (i0 ino : Z) :
  parent ∉ h → used m ({[parent]} ∪ h) parent b → dir_chain m ({[parent]} ∪ h) parent b (es :: ess) →
  (length es < 5)%nat → Forall (λ c, 0 ≤ c) name → name_ok (c_str name) →
  find_es (c_str name) es = None → first_free m ({[parent]} ∪ h) i0 → in_bitmap_area i0 = false →
  has_bit i0 → (Z.to_nat i0 < fuel)%nat → (length (es :: ess) ≤ fuel)%nat →
  ∃ t1, create time junk fuel parent name ino (Yfs m h c) = Ret ((y_OK, i0), t1) ∧ y_held t1 = h ∧
    bit_of (y_store t1) i0 = Some true ∧
    (∃ t2, lookup time junk fuel parent name t1 = Ret (i0, t2)) ∧
    (∀ name', Forall (λ c, 0 ≤ c) name' → c_str name' ≠ c_str name →
       ∃ t2, lookup time junk fuel parent name' t1 = Ret (lookup_es (c_str name') (es :: ess), t2)).
Proof.
  intros Hh Hu Hc Hroom Hn Hok Hnew Hff Ha0 Hb0 Hf Hl.
  destruct (create_run time junk fuel m h c parent b es ess name i0 ino) as
    (m' & b' & E & Hu' & Hc' & Hbit & _); try done.
  eexists. split; [exact E|]. split; [done|]. split; [done|]. split.
  - eexists. rewrite (lookup_run _ _ _ _ _ _ _ _ _ name Hh Hu' Hc' Hn) by done.
    unfold lookup_es. simpl. rewrite <- app_assoc, find_es_app, Hnew. simpl.
    by rewrite bool_decide_true.
  - intros name' Hn' Hne. eexists. rewrite (lookup_run _ _ _ _ _ _ _ _ _ name' Hh Hu' Hc' Hn') by done.
    unfold lookup_es. simpl. rewrite <- app_assoc, !find_es_app.
    destruct (find_es (c_str name') es) as [[]|]; [done|]. simpl.
    rewrite bool_decide_false by (simpl; congruence).
    by destruct (find_es (c_str name') (concat ess)) as [[]|].
Qed.

(** ** Concrete runs on the root directory of a fresh file system *)
Lemma ex_root_used : used (y_store ex_fs) ({[1]} ∪ ∅) 1 root_block.
Proof.
  split; [reflexivity|unfold has_bit; lia|vm_compute; reflexivity|vm_compute; reflexivity|].
  change (bitmap_block 1) with 10. set_solver.
Qed.

Lemma ex_root_chain : dir_chain (y_store ex_fs) ({[1]} ∪ ∅) 1 root_block [[]].
Proof.
  apply dc_end; [|vm_compute; reflexivity]. split.
  - by_vm.
  - vm_compute. reflexivity.
  - simpl. lia.
  - intros i nm inum. by rewrite lookup_nil.
Qed.

Lemma ex_root_held (x : Z) : x ≠ 1 → x ∉ ({[1]} ∪ ∅ : gset Z).
Proof. set_solver. Qed.

Lemma ex_root_free : first_free (y_store ex_fs) ({[1]} ∪ ∅) 2.
Proof.
  pose proof ex_first_free as F. split.
  - exact (ff_ok _ _ _ F).
  - exact (ff_wf _ _ _ F).
  - exact (ff_used _ _ _ F).
  - exact (ff_free _ _ _ F).
  - change (bitmap_block 2) with 10. intros x Hx. split; [apply ex_root_held; lia|lia].
  - apply ex_root_held. lia.
Qed.

Lemma lookup_finds_witness :
  ∃ t, lookup ex_time ex_junk 3 1 [97; 98] (Yfs (y_store ex_fs) ∅ 0)
       = Ret (lookup_es (c_str [97; 98]) [[]], t) ∧ lookup_es (c_str [97; 98]) [[]] = 0.
Proof.
  eexists. split; [|reflexivity].
  exact (lookup_finds ex_time ex_junk 3 (y_store ex_fs) ∅ 0 1 root_block [[]] [97; 98]
    (not_elem_of_empty 1) ex_root_used ex_root_chain ltac:(repeat constructor; lia) ltac:(simpl; lia)).
Defined.

Lemma create_then_lookup_witness :
  ∃ t1 t2, create ex_time ex_junk 3 1 [97; 98] 0 (Yfs (y_store ex_fs) ∅ 0) = Ret ((y_OK, 2), t1) ∧
    lookup ex_time ex_junk 3 1 [97; 98] t1 = Ret (2, t2).
Proof.
  pose proof (create_then_lookup ex_time ex_junk 3 (y_store ex_fs) ∅ 0 1 root_block [] [] [97; 98] 2 0
    (not_elem_of_empty 1) ex_root_used ex_root_chain ltac:(simpl; lia) ltac:(repeat constructor; lia)
    ltac:(split; [simpl; lia|repeat constructor; lia]) eq_refl ex_root_free eq_refl
    ltac:(unfold has_bit; lia) ltac:(change (Z.to_nat 2) with 2%nat; lia) ltac:(simpl; lia)) as W.
  destruct W as (t1 & E & _ & _ & (t2 & E2) & _).
  exists t1, t2. exact (conj E E2).
Defined.

(** create makes a second entry of a name: the search for the name stops at
    the first block with room.  With six files a to f, the sixth in a second
    block, and a removed, creating f again makes a new file, inode 2, under the
    name of the file with inode 8. *)
Theorem create_duplicates_name :
  ∃ items s', exec_ops ex_time ex_junk 300
      [OCreate 1 [97] 0; OCreate 1 [98] 0; OCreate 1 [99] 0; OCreate 1 [100] 0; OCreate 1 [101] 0;
       OCreate 1 [102] 0; OLookup 1 [102]; OUnlink 1 [97]; OCreate 1 [102] 0; OLookup 1 [102]; OReaddir 1] ex_fs
    = Ret ([RNew 0 2; RNew 0 3; RNew 0 4; RNew 0 5; RNew 0 6; RNew 0 8; RInum 8; RStatus 0; RNew 0 2;
            RInum 2; RItems 0 items], s') ∧
    items !! 2 = Some [102] ∧ items !! 8 = Some [102].
Proof. eexists _, _. vm_compute. done. Qed.
