(* ===== verification/YfsFileSpec.v ===== *)
(** Files of yfs_client.cc as sequences of bytes: the data blocks that a chain of
    inodes names, what read returns of them and what write changes in them.
    Stated over the reference store; YfsRefine.v carries the results over to
    every store. *)
From S2P Require Import Prelude ExtentServer ExtentCache YfsBlock YfsFile YfsDir YfsOps YfsLocks.
From S2P Require Import YfsRefine YfsAlloc YfsDirSpec.
Local Open Scope Z_scope.

(** * The blocks of a file *)

(** From slot [index] of the inode [b] on, the file of inode number [ino] has the
    inodes [ns] and the data blocks [ds], numbers and contents.  [h] is what the
    thread holds. *)
Inductive file_at (m : gmap Z (list Z)) (h : gset Z) (ino : Z)
    : list Z → Z → list Z → list (Z * list Z) → Prop :=
  | fa_hole b index : 0 ≤ index < 16 → direct_block index b = 0 → file_at m h ino b index [] []
  | fa_last b : i_next b = 0 → file_at m h ino b 16 [] []
  | fa_next b nb ns ds :
      i_next b ≠ 0 → i_next b ≠ ino → i_next b ∉ h → used m h (i_next b) nb →
      file_at m h ino nb 0 ns ds → file_at m h ino b 16 (i_next b :: ns) ds
  | fa_block b index db ns ds :
      0 ≤ index < 16 → direct_block index b ≠ 0 → direct_block index b ≠ ino →
      direct_block index b ∉ h → used m h (direct_block index b) db → is_block db →
      file_at m h ino b (index + 1) ns ds →
      file_at m h ino b index ns ((direct_block index b, db) :: ds).

(** The bytes of a list of blocks. *)
Definition bytes_of (ds : list (Z * list Z)) : list Z := concat (ds.*2).

Lemma bytes_of_cons p ds : bytes_of (p :: ds) = p.2 ++ bytes_of ds.
Proof. done. Qed.

Lemma file_at_blocks m h ino b index ns ds : file_at m h ino b index ns ds → Forall is_block ds.*2.
Proof. induction 1; csimpl; auto. Qed.

Lemma length_bytes_of ds : Forall is_block ds.*2 → length (bytes_of ds) = (512 * length ds)%nat.
Proof.
  induction ds as [|p ds IH]; csimpl; intros Hb; [done|].
  apply Forall_cons in Hb as [[Hl _] Hb]. rewrite bytes_of_cons, length_app, IH by done. lia.
Qed.

Lemma drop_bytes_of ds k :
  Forall is_block ds.*2 → drop (512 * k) (bytes_of ds) = bytes_of (drop k ds).
Proof.
  revert k. induction ds as [|p ds IH]; intros [|k] Hb; try done.
  csimpl in Hb. apply Forall_cons in Hb as [[Hl _] Hb]. simpl drop at 2. rewrite <- IH by done.
  rewrite bytes_of_cons, drop_app_ge by lia. f_equal. lia.
Qed.

(** ** Touching a block *)
Lemma touch_read_end m h c ino b index ns :
  file_at m h ino b index ns [] → touch_read ino b index (Yfs m h c) = Ret (None, Yfs m h c).
Proof.
  intros Hf. remember [] as ds eqn:Hds. unfold touch_read, INODE_DIRECT_BLOCK_NUM.
  destruct Hf as [b index Hi H0|b H0|b nb ns ds Hn Hino Hh Hu Hf|]; simplify_eq.
  - destruct (Z.leb_spec 16 index); [lia|]. run eq_refl. cbv beta iota.
    by rewrite H0.
  - change (16 <=? 16) with true. cbv iota. by rewrite H0.
  - change (16 <=? 16) with true. cbv iota. destruct (Z.eqb_spec (i_next b) 0); [done|]. cbn [negb].
    rewrite (bind_run _ _ _ (Some (nb, 0)) (Yfs m h c)).
    2:{ by run (safe_get_run m h c _ _ b ino Hu Hino Hh). }
    cbv beta iota. remember 0 as z. remember [] as ds.
    destruct Hf; simplify_eq. by rewrite H0.
Qed.

Lemma file_at_head m h ino b index ns d db ds :
  file_at m h ino b index ns ((d, db) :: ds) →
  ∃ b' index' ns', d = direct_block index' b' ∧ file_at m h ino b' (index' + 1) ns' ds ∧
    0 ≤ index' < 16 ∧ d ≠ 0 ∧ d ≠ ino ∧ d ∉ h ∧ used m h d db ∧ is_block db ∧
    ((b', index', ns') = (b, index, ns) ∧ 0 ≤ index < 16 ∨
     index = 16 ∧ index' = 0 ∧ i_next b ≠ 0 ∧ i_next b ≠ ino ∧ i_next b ∉ h ∧
       used m h (i_next b) b' ∧ ns = i_next b :: ns').
Proof.
  intros Hf. remember ((d, db) :: ds) as ds0 eqn:Hds.
  destruct Hf as [| |b nb ns ds1 Hn Hino Hh Hu Hf|b index db1 ns ds1]; simplify_eq.
  - remember 0 as z eqn:Hz. remember ((d, db) :: ds) as ds0 eqn:Hds.
    destruct Hf as [| | |b1 index db1 ns ds1]; simplify_eq.
    exists b1, 0, ns. do 8 (split; [done|]). right. done.
  - exists b, index, ns. do 8 (split; [done|]). by left.
Qed.

Lemma touch_read_block m h c ino b index ns d db ds :
  file_at m h ino b index ns ((d, db) :: ds) →
  ∃ b' index' ns', touch_read ino b index (Yfs m h c) = Ret (Some (b', index'), Yfs m h c) ∧
    direct_block index' b' = d ∧ d ≠ ino ∧ d ∉ h ∧ used m h d db ∧ is_block db ∧
    file_at m h ino b' index' ns' ((d, db) :: ds) ∧ file_at m h ino b' (index' + 1) ns' ds.
Proof.
  intros (b' & index' & ns' & -> & Hf & Hi & H0 & Hino & Hh & Hu & Hb & Hor)%file_at_head.
  exists b', index', ns'. split; [|split_and!; auto; by constructor].
  unfold touch_read, INODE_DIRECT_BLOCK_NUM.
  rewrite (bind_run _ _ _ (Some (b', index')) (Yfs m h c)).
  { cbv beta iota. destruct (Z.eqb_spec (direct_block index' b') 0); [done|]. done. }
  destruct Hor as [[[= <- <- <-] _]|(-> & -> & Hn & Hni & Hnh & Hnu & _)].
  - destruct (Z.leb_spec 16 index'); [lia|]. done.
  - change (16 <=? 16) with true. cbv iota. destruct (Z.eqb_spec (i_next b) 0); [done|]. cbn [negb].
    by run (safe_get_run m h c _ _ b ino Hnu Hni Hnh).
Qed.

(** ** The two loops of read *)
Lemma read_skip_run m h c ino b index ns ds n k r fs :
  file_at m h ino b index ns ds → 0 ≤ r < 512 → 0 ≤ fs → (length ds < n)%nat →
  ∃ res, read_skip n ino b index (512 * Z.of_nat k + r) fs (Yfs m h c) = Ret (res, Yfs m h c) ∧
    match res with
    | None => (length ds ≤ k)%nat ∨ fs < 512 * Z.of_nat k
    | Some (b', index', off', fs') =>
        off' = r ∧ fs' = fs - 512 * Z.of_nat k ∧ 0 ≤ fs' ∧ ∃ ns', file_at m h ino b' index' ns' (drop k ds)
    end.
Proof.
  intros Hf Hr. revert b index ns ds k fs Hf.
  induction n as [|n IH]; intros b index ns ds k fs Hf H0 Hn; [lia|]. cbn [read_skip].
  destruct ds as [|[d db] ds].
  { run (touch_read_end m h c _ _ _ _ Hf). exists None.
    split; [done|]. left. simpl. lia. }
  destruct (touch_read_block m h c _ _ _ _ _ _ _ Hf) as (b' & i' & ns' & E & _ & _ & _ & _ & _ & Hf0 & Hf1).
  run E. cbv beta iota. unfold BSIZE.
  destruct k as [|k].
  - destruct (Z.leb_spec 512 (512 * Z.of_nat 0 + r)); [lia|].
    exists (Some (b', i', r, fs)). do 2 (split; [done|]). do 2 (split; [lia|]). by exists ns'.
  - destruct (Z.leb_spec 512 (512 * Z.of_nat (S k) + r)); [|lia].
    destruct (Z.leb_spec 512 fs).
    + destruct (IH b' (i' + 1) ns' ds k (fs - 512) Hf1) as (res & E1 & Hres); [lia|simpl in Hn; lia|].
      exists res. replace (512 * Z.of_nat (S k) + r - 512) with (512 * Z.of_nat k + r) by lia.
      split; [exact E1|]. destruct res as [[[[b1 i1] off1] fs1]|]; simpl.
      * destruct Hres as (-> & -> & Hp & Hx). split; [done|]. split; [lia|]. split; [lia|done].
      * lia.
    + exists None. split; [done|]. right. lia.
Qed.

Lemma block_part_run db off n :
  0 ≤ off → off + n ≤ 512 → block_part db off n = Ret (slice (Z.to_nat off) (Z.to_nat n) db).
Proof.
  intros. unfold block_part. destruct (Z.ltb_spec off 0); [lia|].
  by destruct (Z.ltb_spec 512 (off + n)); [lia|].
Qed.

Lemma read_loop_run m h c ino b index ns ds n off fs size data buf :
  file_at m h ino b index ns ds → 0 ≤ off < 512 → 0 ≤ fs < 2 ^ 64 → 0 ≤ size < 2 ^ 64 →
  (length ds < n)%nat →
  read_loop n ino b index off fs size data buf (Yfs m h c)
  = Ret (buf ++ slice (Z.to_nat off) (Z.to_nat (size `min` fs)) (bytes_of ds), Yfs m h c).
Proof.
  intros Hf. revert b index ns ds off fs size data buf Hf.
  induction n as [|n IH]; intros b index ns ds off fs size data buf Hf Ho Hfs Hs Hn; [lia|].
  cbn [read_loop]. destruct ds as [|[d db] ds].
  { run (touch_read_end m h c _ _ _ _ Hf). unfold bytes_of, slice. simpl.
    by rewrite drop_nil, take_nil, app_nil_r. }
  destruct (touch_read_block m h c _ _ _ _ _ _ _ Hf) as
    (b' & i' & ns' & E & Hd & Hino & Hh & Hu & [Hl Hby] & _ & Hf1).
  run E. cbv beta iota zeta. rewrite Hd.
  run (safe_get_run m h c _ _ data ino Hu Hino Hh). cbv beta iota.
  unfold BSIZE. rewrite (uwrap_small 64) by lia.
  replace (if size <=? fs then size else fs) with (size `min` fs) by (destruct (Z.leb_spec size fs); lia).
  set (left := size `min` fs). rewrite bytes_of_cons. simpl.
  destruct (Z.leb_spec left (512 - off)).
  - rewrite (bind_run _ _ _ (slice (Z.to_nat off) (Z.to_nat left) db) (Yfs m h c)).
    2:{ unfold st_lift. by rewrite block_part_run by lia. }
    unfold mret, st_ret. do 3 f_equal. unfold slice. rewrite drop_app_le by lia.
    rewrite take_app_le; [done|]. rewrite length_drop. lia.
  - rewrite (bind_run _ _ _ (slice (Z.to_nat off) (Z.to_nat (512 - off)) db) (Yfs m h c)).
    2:{ unfold st_lift. by rewrite block_part_run by lia. }
    rewrite !(uwrap_small 64) by lia.
    rewrite (IH _ _ _ ds) by (done || lia || (simpl in Hn; lia)). do 2 f_equal.
    rewrite <- app_assoc. f_equal. unfold slice. rewrite drop_app_le by lia.
    rewrite (take_ge (drop (Z.to_nat off) db)) by (rewrite length_drop; lia).
    rewrite take_app_ge by (rewrite length_drop; lia). f_equal. change (Z.to_nat 0) with 0%nat. rewrite drop_0.
    rewrite length_drop. f_equal. lia.
Qed.

(** ** Stores that agree on a file *)

(** A store that has the same bitmap, the same inodes and [ds'] in the same data
    blocks has the file with the contents [ds']. *)
Lemma file_at_agree m m' h ino b index ns ds ds' :
  (∀ k, in_bitmap_area k = true → m' !! k = m !! k) → (∀ k, k ∈ ns → m' !! k = m !! k) →
  Forall2 (λ p p', p'.1 = p.1 ∧ is_block p'.2 ∧ m' !! p'.1 = Some p'.2) ds ds' →
  file_at m h ino b index ns ds → file_at m' h ino b index ns ds'.
Proof.
  intros Ha Hn Hd Hf.
  assert (∀ j, has_bit j → bit_of m' j = bit_of m j) as Hbits.
  { intros j Hj. unfold bit_of. rewrite Ha; [done|]. apply has_bit_block in Hj. unfold in_bitmap_area.
    unfold BLOCK_BITMAP_BEGIN_BLOCK, BLOCK_BITMAP_END_BLOCK.
    destruct (Z.leb_spec 10 (bitmap_block j)), (Z.leb_spec (bitmap_block j) 200); (lia || done). }
  revert ds' Hn Hd. induction Hf as [b index Hi H0|b H0|b nb ns ds H0 Hi Hh Hu Hf IH|
    b index db ns ds Hi H0 Hino Hh Hu Hb Hf IH]; intros ds' Hn Hd.
  - apply Forall2_nil_inv_l in Hd as ->. by constructor.
  - apply Forall2_nil_inv_l in Hd as ->. by constructor.
  - econstructor; try done; [|apply IH; set_solver].
    destruct Hu as [U1 U2 U3 U4 U5]. split; auto; [by rewrite Hbits|]. rewrite Hn by set_solver. done.
  - apply Forall2_cons_inv_l in Hd as ([d' db'] & ds1 & (E & Hb' & Hg) & Hd & ->). simpl in *. subst d'.
    constructor; auto. destruct Hu as [U1 U2 U3 U4 U5]. split; auto. by rewrite Hbits.
Qed.

Lemma file_at_not_ino m h ino b index ns ds :
  file_at m h ino b index ns ds → ino ∉ ns ∧ ino ∉ ds.*1 ∧ (∀ k, k ∈ ns ++ ds.*1 → k ∉ h) ∧
  (∀ p, p ∈ ds → m !! p.1 = Some p.2) ∧ (∀ k, k ∈ ns ++ ds.*1 → in_bitmap_area k = false).
Proof.
  induction 1 as [b index Hi H0|b H0|b nb ns ds H0 Hi Hh [] Hf IH|b index db ns ds Hi H0 Hino Hh [] Hb Hf IH];
    csimpl; [set_solver..| |]; destruct IH as (IH1 & IH2 & IH3 & IH4 & IH5).
  - split_and!; [set_solver..| | |]; [intros k|done|intros k]; rewrite elem_of_cons; intros [->|]; auto.
  - split_and!; [set_solver|set_solver| | |]; [intros k|intros p|intros k];
      rewrite ?elem_of_app, ?elem_of_cons; intros; destruct_or?; subst; simpl; auto; try set_solver.
Qed.

Lemma file_at_insert_ne m h ino b index ns ds k nb :
  in_bitmap_area k = false → k ∉ ns → k ∉ ds.*1 → file_at m h ino b index ns ds →
  file_at (<[k := nb]> m) h ino b index ns ds.
Proof.
  intros Ha H1 H2 Hf. destruct (file_at_not_ino _ _ _ _ _ _ _ Hf) as (_ & _ & _ & H4 & _).
  apply (file_at_agree m _ h ino b index ns ds ds); [| | |done].
  - intros j Hj. apply lookup_insert_ne. intros ->. congruence.
  - intros j Hj. apply lookup_insert_ne. intros ->. done.
  - apply Forall_Forall2_diag, Forall_forall. intros p Hp. split; [done|]. split.
    + pose proof (file_at_blocks _ _ _ _ _ _ _ Hf) as Hb. rewrite Forall_fmap, Forall_forall in Hb. by apply Hb.
    + rewrite lookup_insert_ne; [by apply H4|]. intros ->. apply H2, list_elem_of_fmap. by exists p.
Qed.

Lemma file_at_insert m h ino b index ns ds nb :
  in_bitmap_area ino = false → file_at m h ino b index ns ds → file_at (<[ino := nb]> m) h ino b index ns ds.
Proof.
  intros Ha Hf. destruct (file_at_not_ino _ _ _ _ _ _ _ Hf) as (H1 & H2 & _). by apply file_at_insert_ne.
Qed.

(** The inode may change outside its block numbers and its link. *)
Lemma wr_links b off v :
  length b = 512%nat → (off + 8 ≤ 40)%nat →
  i_next (wr off 8 v b) = i_next b ∧ ∀ i, 0 ≤ i < 16 → direct_block i (wr off 8 v b) = direct_block i b.
Proof.
  intros Hl Ho. split; [apply rd_wr_ne; lia|]. intros i Hi. apply rd_wr_ne; [|lia]. unfold block_off. lia.
Qed.

Lemma file_at_wr m h ino b index ns ds off v :
  length b = 512%nat → (off + 8 ≤ 40)%nat → file_at m h ino b index ns ds →
  file_at m h ino (wr off 8 v b) index ns ds.
Proof.
  intros Hl Ho Hf. revert Hl.
  induction Hf as [b index Hi H0|b H0|b nb ns ds H0 Hi Hh Hu Hf IH|b index db ns ds Hi H0 Hino Hh Hu Hb Hf IH];
    intros Hl; destruct (wr_links b off v Hl Ho) as [En Ed].
  - constructor; [done|]. by rewrite Ed.
  - apply fa_last. by rewrite En.
  - rewrite <- En. apply (fa_next _ _ _ _ nb); rewrite ?En; done.
  - rewrite <- (Ed index Hi). constructor; rewrite ?Ed by done; auto.
Qed.

(** * Reading *)

(** A file: the inode, the inodes after it and the data blocks, all different. *)
Record file (m : gmap Z (list Z)) (h : gset Z) (ino : Z) (b : list Z) (ns : list Z)
    (ds : list (Z * list Z)) : Prop := {
  fi_held : ino ∉ h;
  fi_used : used m ({[ino]} ∪ h) ino b;
  fi_block : is_block b;
  fi_at : file_at m ({[ino]} ∪ h) ino b 0 ns ds;
  fi_dup : NoDup (ds.*1 ++ ns) }.

Lemma i_size_range b : is_block b → 0 ≤ i_size b < 2 ^ 64.
Proof. apply (rd_range 8 8). lia. Qed.

(** What a read of [size] bytes at [off] returns when the size field is [fs]. *)
Definition read_result (fs size off : Z) (data : list Z) : list Z :=
  slice (Z.to_nat off) (Z.to_nat (size `min` (fs - 512 * (off `div` 512)))) data.

Lemma inner_read_run time junk fuel m h c ino b ns ds size off :
  file m h ino b ns ds → 0 < size < 2 ^ 64 → 0 ≤ off → (length ds < fuel)%nat →
  inner_read time junk fuel ino size off (Yfs m ({[ino]} ∪ h) c)
  = Ret ((y_OK, read_result (i_size b) size off (bytes_of ds)),
         Yfs (<[ino := set_atime (u64 (time c)) b]> m) ({[ino]} ∪ h) (S c)).
Proof.
  intros [Hh Hu Hb Hf _] Hs Ho Hf2. unfold inner_read.
  destruct (Z.eqb_spec size 0); [lia|]. set (h' := {[ino]} ∪ h) in *.
  run (safe_get_own m h' c ino b junk Hu). cbv beta iota.
  change (y_OK =? y_NOENT) with false. cbv iota.
  run (time0_run _ _ _ _). cbv beta zeta.
  set (b1 := set_atime (u64 (time c)) b). assert (is_block b1) as Hb1 by (apply wr_block; [lia|done]).
  run (safe_put_own m h' (S c) ino b b1 Hu Hb1). cbv beta.
  change (negb (y_OK =? y_OK)) with false. cbv iota. set (m1 := <[ino := b1]> m).
  assert (i_size b1 = i_size b) as Es by (destruct Hb; apply rd_wr_ne; lia). rewrite Es.
  assert (file_at m1 h' ino b1 0 ns ds) as Hat.
  { apply file_at_insert; [apply Hu|]. apply file_at_wr; [apply Hb|lia|done]. }
  pose proof (Z.div_mod off 512 ltac:(lia)) as Edm. pose proof (Z.mod_pos_bound off 512 ltac:(lia)) as Hm.
  pose proof (Z.div_pos off 512 ltac:(lia) ltac:(lia)) as Hq.
  set (k := Z.to_nat (off `div` 512)) in *.
  destruct (read_skip_run m1 h' (S c) ino b1 0 ns ds fuel k (off `mod` 512) (i_size b) Hat Hm) as (res & E & Hres);
    [apply i_size_range, Hb|lia|]. replace (512 * Z.of_nat k + off `mod` 512) with off in E by lia.
  run E. pose proof (i_size_range b Hb) as Hsz. unfold read_result.
  pose proof (file_at_blocks _ _ _ _ _ _ _ Hf) as Hblk.
  destruct res as [[[[b2 i2] off2] fs2]|].
  - destruct Hres as (-> & -> & Hfs & ns2 & Hat2). cbv beta iota.
    assert ((length (drop k ds) < fuel)%nat) as Hl by (rewrite length_drop; lia).
    run (read_loop_run m1 h' (S c) ino b2 i2 ns2 (drop k ds) fuel (off `mod` 512)
      (i_size b - 512 * Z.of_nat k) size junk [] Hat2 Hm ltac:(lia) ltac:(lia) Hl).
    rewrite app_nil_l, <- drop_bytes_of by done. unfold mret, st_ret, slice. rewrite drop_drop.
    do 5 f_equal; lia.
  - cbv beta iota. unfold mret, st_ret. do 3 f_equal. unfold slice. destruct Hres as [Hk|Hk].
    + rewrite (drop_ge (bytes_of ds)); [by rewrite take_nil|]. rewrite length_bytes_of by done. lia.
    + replace (Z.to_nat _) with 0%nat by lia. by rewrite take_0.
Qed.

Lemma read_run time junk fuel m h c ino b ns ds size off :
  file m h ino b ns ds → 0 < size < 2 ^ 64 → 0 ≤ off → (length ds < fuel)%nat →
  read time junk fuel ino size off (Yfs m h c)
  = Ret ((y_OK, read_result (i_size b) size off (bytes_of ds)),
         Yfs (<[ino := set_atime (u64 (time c)) b]> m) h (S c)).
Proof.
  intros Hf Hs Ho H2. unfold read. pose proof (fi_held _ _ _ _ _ _ Hf) as Hh.
  run (acquire_run _ _ _ _ Hh).
  run (inner_read_run time junk fuel m h c ino b ns ds size off Hf Hs Ho H2).
  by run (release_run _ _ _ _ Hh).
Qed.

(** * Overwriting *)
Lemma touch_write_block m h c fuel checked ino target b index ns d db ds fs :
  file_at m h ino b index ns ((d, db) :: ds) → 0 ≤ fs →
  ∃ target' b' index' ns',
    touch_write fuel checked ino target b index fs (Yfs m h c) = Ret (Some (target', b', index'), Yfs m h c) ∧
    (∀ k, k ∈ ns' → k ∈ ns) ∧ direct_block index' b' = d ∧ d ≠ ino ∧ d ∉ h ∧ used m h d db ∧ is_block db ∧
    file_at m h ino b' index' ns' ((d, db) :: ds) ∧ file_at m h ino b' (index' + 1) ns' ds.
Proof.
  intros (b' & index' & ns' & -> & Hf & Hi & H0 & Hino & Hh & Hu & Hb & Hor)%file_at_head Hfs.
  assert (∀ target', touch_block fuel ino target' b' index' fs (Yfs m h c) = Ret (b', Yfs m h c)) as Et.
  { intros target'. unfold touch_block. destruct (Z.eqb_spec (direct_block index' b') 0); [done|].
    rewrite (bind_run _ _ _ b' (Yfs m h c)) by done. destruct (Z.ltb_spec fs 0); [lia|]. done. }
  destruct Hor as [[[= <- <- <-] _]|(-> & -> & Hn & Hni & Hnh & Hnu & ->)].
  - exists target, b', index', ns'. split; [|split_and!; auto; (by constructor) || set_solver].
    unfold touch_write, INODE_DIRECT_BLOCK_NUM. destruct (Z.leb_spec 16 index'); [lia|].
    run eq_refl. cbv beta iota. by run (Et target).
  - exists (i_next b), b', 0, ns'. split; [|split_and!; auto; (by constructor) || set_solver].
    unfold touch_write, INODE_DIRECT_BLOCK_NUM. change (16 <=? 16) with true. cbv iota.
    rewrite (bind_run _ _ _ (Some (i_next b, b', 0)) (Yfs m h c)).
    + cbv beta iota. by run (Et (i_next b)).
    + rewrite (bind_run _ _ _ (Some (i_next b, b')) (Yfs m h c)); [done|].
      unfold next_inode_block. destruct (Z.eqb_spec (i_next b) 0); [done|].
      rewrite (bind_run _ _ _ (Some b) (Yfs m h c)) by done. cbv beta iota zeta.
      by run (safe_get_run m h c _ _ b ino Hnu Hni Hnh).
Qed.

Lemma write_skip_run m h c fuel ino target b index ns ds n k r fs :
  file_at m h ino b index ns ds → 0 ≤ r < 512 → 512 * Z.of_nat k ≤ fs < 2 ^ 63 →
  (k < n)%nat → (k < length ds)%nat →
  ∃ target' b' index' ns',
    write_skip fuel n ino target b index (512 * Z.of_nat k + r) fs (Yfs m h c)
    = Ret (Some (target', b', index', r, fs - 512 * Z.of_nat k), Yfs m h c) ∧
    (∀ x, x ∈ ns' → x ∈ ns) ∧ file_at m h ino b' index' ns' (drop k ds).
Proof.
  intros Hf Hr. revert target b index ns ds k fs Hf.
  induction n as [|n IH]; intros target b index ns ds k fs Hf Hfs Hn Hl; [lia|]. cbn [write_skip].
  destruct ds as [|[d db] ds]; [simpl in Hl; lia|].
  destruct (touch_write_block m h c fuel true ino target b index ns d db ds fs Hf) as
    (t' & b' & i' & ns' & E & Hsub & _ & _ & _ & _ & _ & Hf0 & Hf1); [lia|].
  run E. cbv beta iota. unfold BSIZE. destruct k as [|k].
  - destruct (Z.leb_spec 512 (512 * Z.of_nat 0 + r)); [lia|]. exists t', b', i', ns'.
    split; [|split; [done|exact Hf0]]. unfold mret, st_ret. repeat f_equal; lia.
  - destruct (Z.leb_spec 512 (512 * Z.of_nat (S k) + r)); [|lia].
    assert (s64 (fs - 512) = fs - 512) as Es by (apply (swrap_small 64); lia). rewrite Es.
    destruct (IH t' b' (i' + 1) ns' ds k (fs - 512) Hf1) as (t2 & b2 & i2 & ns2 & E2 & Hsub2 & Hf2);
      [lia|lia|simpl in Hl; lia|].
    exists t2, b2, i2, ns2. split; [|split; [auto|exact Hf2]].
    replace (512 * Z.of_nat (S k) + r - 512) with (512 * Z.of_nat k + r) by lia. rewrite E2. do 4 f_equal. lia.
Qed.

(** The store with the data blocks [ds]. *)
Definition store_blocks (ds : list (Z * list Z)) (m : gmap Z (list Z)) : gmap Z (list Z) :=
  foldr (λ p m, <[p.1 := p.2]> m) m ds.

Lemma store_blocks_id ds m : (∀ p, p ∈ ds → m !! p.1 = Some p.2) → store_blocks ds m = m.
Proof.
  induction ds as [|p ds IH]; intros Hp; simpl; [done|]. rewrite IH by set_solver.
  apply insert_id. set_solver.
Qed.

Lemma store_blocks_insert ds m k b :
  k ∉ ds.*1 → store_blocks ds (<[k := b]> m) = <[k := b]> (store_blocks ds m).
Proof.
  induction ds as [|p ds IH]; csimpl; intros Hk; [done|]. rewrite IH by set_solver.
  apply insert_insert_ne. set_solver.
Qed.

Lemma store_blocks_ne ds m k : k ∉ ds.*1 → store_blocks ds m !! k = m !! k.
Proof.
  induction ds as [|p ds IH]; csimpl; intros Hk; [done|]. rewrite lookup_insert_ne by set_solver.
  apply IH. set_solver.
Qed.

Lemma store_blocks_eq ds m p : NoDup ds.*1 → p ∈ ds → store_blocks ds m !! p.1 = Some p.2.
Proof.
  induction ds as [|q ds IH]; csimpl; intros Hd Hp; [set_solver|]. apply NoDup_cons in Hd as [Hq Hd].
  apply elem_of_cons in Hp as [->|Hp]; [apply lookup_insert_eq|].
  rewrite lookup_insert_ne; [by apply IH|]. intros E. apply Hq. rewrite E. apply list_elem_of_fmap. by exists p.
Qed.

Lemma block_copy_run db off src n :
  0 ≤ off → off + n ≤ 512 → 0 ≤ n ≤ Z.of_nat (length src) →
  block_copy db off src n = Ret (splice (Z.to_nat off) (take (Z.to_nat n) src) db).
Proof.
  intros. unfold block_copy. destruct (Z.ltb_spec off 0); [lia|]. destruct (Z.ltb_spec 512 (off + n)); [lia|].
  by destruct (Z.ltb_spec (Z.of_nat (length src)) n); [lia|].
Qed.

Lemma safe_put_run m h c i b buf ig :
  used m h i b → is_block buf → i ≠ ig → i ∉ h →
  safe_put i buf ig (Yfs m h c) = Ret (y_OK, Yfs (<[i := buf]> m) h c).
Proof.
  intros Hu Hb Hne Hh. unfold safe_put. destruct (Z.eqb_spec i ig); [done|].
  run (acquire_run _ _ _ _ Hh).
  run (used_put_run _ _ _ _ _ _ (used_lock _ _ _ _ Hu) Hb).
  by run (release_run _ _ _ _ Hh).
Qed.

Lemma write_loop_run m h c fuel ino target b index ns ds n off fs data buf size :
  file_at m h ino b index ns ds → NoDup ds.*1 → (∀ k, k ∈ ds.*1 → k ∉ ns) → Forall is_byte buf →
  0 ≤ off < 512 → 0 ≤ size ≤ fs → fs < 2 ^ 63 → size ≤ Z.of_nat (length buf) →
  off + size ≤ 512 * Z.of_nat (length ds) → (0 < length ds ≤ n)%nat →
  ∃ ds', write_loop fuel n ino target b index off fs data buf size (Yfs m h c)
         = Ret (tt, Yfs (store_blocks ds' m) h c) ∧
    ds'.*1 = ds.*1 ∧ Forall is_block ds'.*2 ∧
    bytes_of ds' = splice (Z.to_nat off) (take (Z.to_nat size) buf) (bytes_of ds).
Proof.
  intros Hf Hd Hns Hby. revert target b index ns ds off fs data buf size m Hf Hd Hns Hby.
  induction n as [|n IH];
    intros target b index ns ds off fs data buf size m Hf Hd Hns Hby Ho Hs Hfs Hsz Hfit Hn; [lia|].
  destruct ds as [|[d db] ds]; [simpl in Hn; lia|]. cbn [write_loop].
  pose proof (file_at_blocks _ _ _ _ _ _ _ Hf) as Hblk. csimpl in Hblk. apply Forall_cons in Hblk as [_ Hblk].
  destruct (file_at_not_ino _ _ _ _ _ _ _ Hf) as (_ & _ & _ & Hget & _).
  csimpl in Hd. apply NoDup_cons in Hd as [Hdn Hd].
  destruct (touch_write_block m h c fuel false ino target b index ns d db ds fs Hf) as
    (t' & b' & i' & ns' & E & Hsub & Hdb & Hino & Hh & Hu & [Hl Hb] & Hf0 & Hf1); [lia|].
  run E. cbv beta iota. rewrite Hdb.
  run (safe_get_run m h c _ _ data ino Hu Hino Hh). cbv beta iota zeta.
  unfold BSIZE. rewrite (uwrap_small 64) by lia.
  set (n' := if size <=? 512 - off then size else 512 - off).
  assert (0 ≤ n' ∧ n' ≤ size ∧ off + n' ≤ 512) as Hn' by (unfold n'; destruct (Z.leb_spec size (512 - off)); lia).
  set (x := take (Z.to_nat n') buf). assert (length x = Z.to_nat n') as Hx by (unfold x; rewrite length_take; lia).
  set (db' := splice (Z.to_nat off) x db).
  rewrite (bind_run _ _ _ db' (Yfs m h c)) by (unfold st_lift; by rewrite block_copy_run by lia).
  assert (is_block db') as Hdb'.
  { split; [unfold db'; rewrite length_splice; lia|]. apply splice_Forall; [done|]. by apply Forall_take. }
  run (safe_put_run m h c d db db' ino Hu Hdb' Hino Hh). cbv beta.
  unfold n' in *. clear n'. destruct (Z.leb_spec size (512 - off)) as [Hle|Hgt].
  - exists ((d, db') :: ds). split_and!.
    + simpl. rewrite store_blocks_id; [done|]. intros p Hp. apply Hget. by right.
    + done.
    + by constructor.
    + rewrite !bytes_of_cons. simpl. symmetry. apply splice_app_l. lia.
  - assert (s64 (fs - (512 - off)) = fs - (512 - off)) as Es by (apply (swrap_small 64); lia). rewrite Es.
    simpl length in *.
    destruct (IH t' b' (i' + 1) ns' ds 0 (fs - (512 - off)) db' (drop (Z.to_nat (512 - off)) buf)
                (size - (512 - off)) (<[d := db']> m)) as (ds' & E' & Hfst & Hbl & Hbytes);
      [|done| |by apply Forall_drop|rewrite ?length_drop; lia..|].
    { apply file_at_insert_ne; [apply Hu| |done|done]. intros Hk%Hsub. revert Hk. apply Hns. csimpl. set_solver. }
    { intros k Hk Hk2%Hsub. revert Hk2. apply Hns. csimpl. set_solver. }
    exists ((d, db') :: ds'). split_and!.
    + rewrite E'. simpl. rewrite store_blocks_insert; [done|]. by rewrite Hfst.
    + csimpl. by rewrite Hfst.
    + by constructor.
    + rewrite !bytes_of_cons, Hbytes. simpl. unfold db'. change (Z.to_nat 0) with 0%nat.
      rewrite <- splice_app_split by lia. f_equal. unfold x. rewrite take_drop_commute.
      replace (Z.to_nat (512 - off) + Z.to_nat (size - (512 - off)))%nat with (Z.to_nat size) by lia.
      rewrite <- (take_drop (Z.to_nat (512 - off)) (take (Z.to_nat size) buf)) at 2.
      rewrite take_take. replace (Z.to_nat (512 - off) `min` Z.to_nat size)%nat with (Z.to_nat (512 - off)) by lia.
      done.
Qed.

Lemma splice_skip {A} (k off : nat) (x l : list A) :
  (k ≤ length l)%nat → splice (k + off) x l = take k l ++ splice off x (drop k l).
Proof.
  intros. rewrite <- (take_drop k l) at 1. unfold splice.
  rewrite take_app_ge by (rewrite length_take; lia). rewrite length_take, Nat.min_l by lia.
  rewrite <- app_assoc. do 2 f_equal; [f_equal; lia|]. f_equal.
  rewrite drop_app_ge by (rewrite length_take; lia). rewrite length_take, Nat.min_l by lia. f_equal. lia.
Qed.

Lemma bit_of_store_blocks ds m j :
  (∀ k, k ∈ ds.*1 → in_bitmap_area k = false) → has_bit j → bit_of (store_blocks ds m) j = bit_of m j.
Proof.
  intros Hk Hj. induction ds as [|p ds IH]; [done|]. csimpl in Hk. simpl.
  rewrite bit_of_insert by (auto; apply Hk; set_solver). apply IH. set_solver.
Qed.

(** A file stays a file when its data blocks and, outside the links, its inode
    change. *)
Lemma file_store m h ino b b' ns ds ds' :
  file m h ino b ns ds → ds'.*1 = ds.*1 → Forall is_block ds'.*2 → is_block b' →
  (∀ mm, file_at mm ({[ino]} ∪ h) ino b 0 ns ds' → file_at mm ({[ino]} ∪ h) ino b' 0 ns ds') →
  file (<[ino := b']> (store_blocks ds' m)) h ino b' ns ds'.
Proof.
  intros [Hh Hu Hb Hf Hd] Hfst Hbl Hb' Hlinks.
  destruct (file_at_not_ino _ _ _ _ _ _ _ Hf) as (H1 & H2 & H3 & H4 & H5).
  assert (∀ k, k ∈ ds'.*1 → in_bitmap_area k = false) as Ha.
  { rewrite Hfst. intros k Hk. apply H5, elem_of_app. by right. }
  apply NoDup_app in Hd as Hd'. destruct Hd' as (Hd1 & Hd2 & Hd3).
  destruct Hu as [U1 U2 U3 U4 U5]. split; try done.
  - split; try done; [|apply lookup_insert_eq].
    rewrite bit_of_insert, bit_of_store_blocks by done. done.
  - apply file_at_insert; [done|]. apply Hlinks. apply (file_at_agree m _ _ _ _ _ _ ds); [| | |done].
    + intros k Hk. apply store_blocks_ne. intros Hin. rewrite Ha in Hk by done. done.
    + intros k Hk. apply store_blocks_ne. rewrite Hfst. set_solver.
    + assert (NoDup ds'.*1) as Hnd by by rewrite Hfst.
      assert (∀ p, p ∈ ds' → store_blocks ds' m !! p.1 = Some p.2) as Hst by (intros; by apply store_blocks_eq).
      revert Hst. generalize (store_blocks ds' m). clear -Hfst Hbl. intros mm Hst.
      revert ds' Hfst Hbl Hst. induction ds as [|p ds IH]; intros [|p' ds'] Hfst Hbl Hst; csimpl in *; simplify_eq;
        [constructor|]. apply Forall_cons in Hbl as [Hp Hbl].
      constructor; [split_and!; [done|done|apply Hst; set_solver]|]. apply IH; [done|done|set_solver].
  - by rewrite Hfst.
Qed.

(** The blocks up to [k] keep their contents. *)
Lemma store_blocks_prefix ds ds' k m :
  (∀ p, p ∈ ds → m !! p.1 = Some p.2) → NoDup ds.*1 → ds'.*1 = (drop k ds).*1 →
  store_blocks (take k ds ++ ds') m = store_blocks ds' m.
Proof.
  intros Hg Hd Hfst. unfold store_blocks. rewrite foldr_app. apply store_blocks_id. intros p Hp.
  rewrite (store_blocks_ne ds' m); [apply Hg; rewrite <- (take_drop k ds); apply elem_of_app; by left|]. rewrite Hfst. intros Hin.
  rewrite <- (take_drop k ds), fmap_app, NoDup_app in Hd. destruct Hd as (_ & Hd & _).
  eapply Hd; [|exact Hin]. apply list_elem_of_fmap. by exists p.
Qed.

(** The blocks from [k] on are replaced by [ds'], with new bytes from [r] on. *)
Lemma blocks_written m ds ds' (k r : nat) x :
  (∀ p, p ∈ ds → m !! p.1 = Some p.2) → NoDup ds.*1 → Forall is_block ds.*2 → (k ≤ length ds)%nat →
  ds'.*1 = (drop k ds).*1 → Forall is_block ds'.*2 → bytes_of ds' = splice r x (bytes_of (drop k ds)) →
  let dsn := take k ds ++ ds' in
  dsn.*1 = ds.*1 ∧ Forall is_block dsn.*2 ∧ store_blocks ds' m = store_blocks dsn m ∧
  bytes_of dsn = splice (512 * k + r) x (bytes_of ds).
Proof.
  intros Hg Hd Hb Hk Hfst Hb' Hx dsn. unfold dsn. split_and!.
  - rewrite fmap_app, Hfst, <- fmap_app. by rewrite take_drop.
  - rewrite fmap_app. apply Forall_app. split; [|done]. rewrite fmap_take. by apply Forall_take.
  - by rewrite store_blocks_prefix.
  - rewrite splice_skip, drop_bytes_of by (rewrite ?length_bytes_of by done; (done || lia)).
    unfold bytes_of. rewrite fmap_app, concat_app. fold (bytes_of ds) (bytes_of ds'). rewrite Hx. f_equal.
    rewrite <- (take_drop k ds) at 2. unfold bytes_of. rewrite fmap_app, concat_app.
    rewrite take_app_length'; [done|]. fold (bytes_of (take k ds)).
    rewrite length_bytes_of by (rewrite fmap_take; by apply Forall_take). rewrite length_take. lia.
Qed.

(** The inode with new times has the same links and size. *)
Lemma touched_inode ta tm b :
  is_block b →
  let b1 := set_mtime tm (set_atime ta b) in
  is_block b1 ∧ i_size b1 = i_size b ∧
  ∀ m h ino ns ds, file_at m h ino b 0 ns ds → file_at m h ino b1 0 ns ds.
Proof.
  intros Hb b1. split; [do 2 (apply wr_block; [lia|]); done|]. split.
  - destruct Hb. unfold b1, i_size, set_mtime, set_atime. rewrite !rd_wr_ne; rewrite ?length_wr; lia.
  - intros. do 2 (apply file_at_wr; [try apply wr_block; try lia; apply Hb|lia|]). done.
Qed.

(** The end of inner_write: the size is stored in the inode. *)
Lemma set_size_run (m : gmap Z (list Z)) h c ino b ns ds buf sz :
  file m h ino b ns ds → 0 ≤ sz < 2 ^ 64 →
  ∃ b', ('(_, inode_buf) ← safe_get ino buf ino;
         safe_put ino (set_size sz inode_buf) ino;; mret y_OK) (Yfs m ({[ino]} ∪ h) c)
        = Ret (y_OK, Yfs (<[ino := b']> m) ({[ino]} ∪ h) c) ∧
    i_size b' = sz ∧ file (<[ino := b']> m) h ino b' ns ds.
Proof.
  intros Hf Hsz. exists (set_size sz b). destruct Hf as [Hh Hu Hb Hat Hd].
  assert (is_block (set_size sz b)) as Hb' by (apply wr_block; [lia|done]). split_and!.
  - run (safe_get_own _ _ c ino b buf Hu). cbv beta iota.
    by run (safe_put_own _ _ c ino b _ Hu Hb').
  - unfold i_size, set_size. destruct Hb as [Hl _]. rewrite rd_wr_eq by lia. by apply Z.mod_small.
  - split; auto; [by eapply used_insert_eq|]. apply file_at_insert; [apply Hu|].
    apply file_at_wr; [apply Hb|lia|done].
Qed.

Lemma inner_write_run time junk fuel m h c ino b ns ds buf size off :
  file m h ino b ns ds → Forall is_byte buf → 0 ≤ size ≤ Z.of_nat (length buf) → 0 ≤ off →
  off + size ≤ i_size b < 2 ^ 63 → off < 512 * Z.of_nat (length ds) →
  off + size ≤ 512 * Z.of_nat (length ds) → (length ds ≤ fuel)%nat →
  ∃ m' b' ds', inner_write time junk fuel ino buf size off (Yfs m ({[ino]} ∪ h) c)
               = Ret (y_OK, Yfs m' ({[ino]} ∪ h) (S (S c))) ∧
    file m' h ino b' ns ds' ∧ i_size b' = i_size b ∧
    bytes_of ds' = splice (Z.to_nat off) (take (Z.to_nat size) buf) (bytes_of ds) ∧
    ∀ k, k ≠ ino → k ∉ ds.*1 → m' !! k = m !! k.
Proof.
  intros Hfile Hby Hs Ho Hfs Hk1 Hk2 Hfuel. pose proof Hfile as [Hh Hu Hb Hf Hd].
  set (h' := {[ino]} ∪ h) in *. unfold inner_write.
  run (safe_get_own m h' c ino b junk Hu). cbv beta iota.
  change (y_OK =? y_NOENT) with false. cbv iota.
  rewrite !(bind_run _ _ _ _ _ (time0_run _ _ _ _)). cbv beta zeta.
  set (b1 := set_mtime _ _).
  destruct (touched_inode (u64 (time c)) (u64 (time (S c))) b Hb) as (Hb1 & Es & Hlink). fold b1 in Hb1, Es, Hlink.
  run (safe_put_own m h' _ ino b b1 Hu Hb1). cbv beta.
  change (negb (y_OK =? y_OK)) with false. cbv iota. set (m1 := <[ino := b1]> m).
  rewrite Es. rewrite (swrap_small 64), !(uwrap_small 64) by lia.
  assert (file_at m1 h' ino b1 0 ns ds) as Hat by (apply file_at_insert; [apply Hu|auto]).
  replace (if off + size <? i_size b then i_size b else off + size) with (i_size b)
    by (destruct (Z.ltb_spec (off + size) (i_size b)); lia).
  pose proof (Z.div_mod off 512 ltac:(lia)) as Edm. pose proof (Z.mod_pos_bound off 512 ltac:(lia)) as Hm.
  pose proof (Z.div_pos off 512 ltac:(lia) ltac:(lia)) as Hq. set (k := Z.to_nat (off `div` 512)) in *.
  destruct (write_skip_run m1 h' (S (S c)) fuel ino ino b1 0 ns ds fuel k (off `mod` 512) (i_size b) Hat Hm)
    as (t2 & b2 & i2 & ns2 & E & Hsub & Hat2); [lia..|].
  replace (512 * Z.of_nat k + off `mod` 512) with off in E by lia.
  run E. cbv beta iota.
  apply NoDup_app in Hd as (Hd1 & Hd2 & _).
  assert (∀ x, x ∈ (drop k ds).*1 → x ∈ ds.*1) as Hdrop.
  { intros x Hx. rewrite <- (take_drop k ds), fmap_app. apply elem_of_app. by right. }
  destruct (write_loop_run m1 h' (S (S c)) fuel ino t2 b2 i2 ns2 (drop k ds) fuel (off `mod` 512)
    (i_size b - 512 * Z.of_nat k) junk buf size Hat2) as (ds' & E' & Hfst & Hbl & Hbytes);
    [rewrite <- (take_drop k ds), fmap_app, NoDup_app in Hd1; apply Hd1|naive_solver|done
    |rewrite ?length_drop; lia..|].
  run E'. cbv beta.
  destruct (file_at_not_ino _ _ _ _ _ _ _ Hf) as (Hi1 & Hi2 & _ & Hget & _).
  unfold m1. rewrite store_blocks_insert by (rewrite Hfst; auto).
  destruct (blocks_written m ds ds' k (Z.to_nat (off `mod` 512)) (take (Z.to_nat size) buf))
    as (Hn1 & Hn2 & -> & Hbytes'); [done|done|by eapply file_at_blocks|lia|done|done|done|].
  set (dsn := take k ds ++ ds') in *.
  assert (file (<[ino := b1]> (store_blocks dsn m)) h ino b1 ns dsn) as Hfile1 by (eapply file_store; eauto).
  destruct (set_size_run _ h (S (S c)) ino b1 ns dsn b2 (i_size b) Hfile1) as (b3 & E3 & Hsz3 & Hfile3); [lia|].
  exists (<[ino := b3]> (<[ino := b1]> (store_blocks dsn m))), b3, dsn. split_and!; [exact E3|done|done| |].
  - rewrite Hbytes'. f_equal. lia.
  - intros x Hx1 Hx2. rewrite !lookup_insert_ne by done. apply store_blocks_ne. by rewrite Hn1.
Qed.

Lemma write_run time junk fuel m h c ino b ns ds buf size off :
  file m h ino b ns ds → Forall is_byte buf → 0 ≤ size ≤ Z.of_nat (length buf) → 0 ≤ off →
  off + size ≤ i_size b < 2 ^ 63 → off < 512 * Z.of_nat (length ds) →
  off + size ≤ 512 * Z.of_nat (length ds) → (length ds ≤ fuel)%nat →
  ∃ m' b' ds', write time junk fuel ino buf size off (Yfs m h c) = Ret (y_OK, Yfs m' h (S (S c))) ∧
    file m' h ino b' ns ds' ∧ i_size b' = i_size b ∧ length ds' = length ds ∧
    bytes_of ds' = splice (Z.to_nat off) (take (Z.to_nat size) buf) (bytes_of ds) ∧
    ∀ k, k ≠ ino → k ∉ ds.*1 → m' !! k = m !! k.
Proof.
  intros Hf Hby Hs Ho Hfs H1 H2 H3. pose proof (fi_held _ _ _ _ _ _ Hf) as Hh.
  destruct (inner_write_run time junk fuel m h c ino b ns ds buf size off) as (m' & b' & ds' & E & Hf' & Hsz & Hb & Hk);
    try done.
  exists m', b', ds'. split_and!; try done.
  - unfold write. run (acquire_run _ _ _ _ Hh).
    run E. by run (release_run _ _ _ _ Hh).
  - pose proof (length_bytes_of ds (file_at_blocks _ _ _ _ _ _ _ (fi_at _ _ _ _ _ _ Hf))) as L1.
    pose proof (length_bytes_of ds' (file_at_blocks _ _ _ _ _ _ _ (fi_at _ _ _ _ _ _ Hf'))) as L2.
    rewrite Hb, length_splice in L2; [lia|]. rewrite length_take. lia.
Qed.

(** ** What setattr stores *)
Lemma safe_put_stores (ino : Z) buf (s s1 : yfs (gmap Z (list Z))) :
  safe_put ino buf ino s = Ret (y_OK, s1) → y_store s1 !! ino = Some buf.
Proof.
  unfold safe_put. rewrite Z.eqb_refl. unfold y_put, mbind, st_bind.
  destruct (check_bit ino s) as [[u s2]| | | |]; try done.
  destruct u; cbn [negb]; [|done]. unfold ec_put. simpl.
  destruct (decide (id_ok ino ∧ is_block buf)); [|done]. simpl. intros [= <-]. apply lookup_insert_eq.
Qed.

Lemma setattr_stores time junk fuel m h c ino b to_set info s1 :
  ino ∉ h → used m ({[ino]} ∪ h) ino b → to_set ≠ 0 →
  setattr time junk fuel ino to_set info (Yfs m h c) = Ret (y_OK, s1) →
  y_store s1 !! ino = Some (set_size (f_size info)
    (set_ctime (f_ctime info) (set_mtime (f_mtime info) (set_atime (f_atime info) b)))).
Proof.
  intros Hh Hu Ht. unfold setattr. run (acquire_run _ _ _ _ Hh).
  run (safe_get_own _ _ c ino b junk Hu). cbv beta iota zeta.
  set (b1 := set_ctime _ _). destruct (Z.eqb_spec to_set 0); [done|]. cbn [negb].
  intros (b2 & s2 & (r & s0 & _ & [= <- <-])%bind_ret & (r3 & s3 & E3 & E4)%bind_ret)%bind_ret.
  apply bind_ret in E4 as (u & s4 & E4 & E5). unfold lc_release in E4. case_decide; [|done].
  injection E4 as _ <-. unfold mret, st_ret in E5. injection E5 as E5 <-. simpl.
  destruct (Z.eqb_spec r3 y_OK) as [->|]; [|done]. by eapply safe_put_stores.
Qed.

(** * Theorems *)

(** What read returns: the bytes of the file's blocks from the offset on,
    as many as asked for and as the size field leaves after the whole blocks that
    the offset skips; inside the file these are exactly the bytes asked for.
    Apart from the access time nothing changes. *)
Theorem read_returns (time : nat → Z) (junk : list Z) (fuel : nat) (m : gmap Z (list Z)) (h : gset Z)
    (c : nat) (ino : Z) (b : list Z) (ns : list Z) (ds : list (Z * list Z)) (size off : Z) :
  file m h ino b ns ds → 0 < size < 2 ^ 64 → 0 ≤ off → (length ds < fuel)%nat →
  read time junk fuel ino size off (Yfs m h c)
  = Ret ((y_OK, read_result (i_size b) size off (bytes_of ds)),
         Yfs (<[ino := set_atime (u64 (time c)) b]> m) h (S c)) ∧
  (off + size ≤ i_size b →
   read_result (i_size b) size off (bytes_of ds) = slice (Z.to_nat off) (Z.to_nat size) (bytes_of ds)).
Proof.
  intros Hf Hs Ho H2. split; [by eapply read_run|]. intros Hin. unfold read_result.
  rewrite Z.min_l; [done|]. pose proof (Z.div_mod off 512 ltac:(lia)).
  pose proof (Z.mod_pos_bound off 512 ltac:(lia)). lia.
Qed.

(** A write is read back: a write inside the file succeeds, replaces exactly
    the bytes of its range, leaves the size and every block of no part of the file
    alone, and every later read inside the file returns the new bytes. *)
Theorem write_then_read (time : nat → Z) (junk : list Z) (fuel : nat) (m : gmap Z (list Z)) (h : gset Z)
    (c : nat) (ino : Z) (b : list Z) (ns : list Z) (ds : list (Z * list Z)) (buf : list Z) (size off : Z) :
  file m h ino b ns ds → Forall is_byte buf → 0 ≤ size ≤ Z.of_nat (length buf) → 0 ≤ off →
  off + size ≤ i_size b < 2 ^ 63 → off < 512 * Z.of_nat (length ds) →
  off + size ≤ 512 * Z.of_nat (length ds) → (length ds < fuel)%nat →
  let data := splice (Z.to_nat off) (take (Z.to_nat size) buf) (bytes_of ds) in
  ∃ s1, write time junk fuel ino buf size off (Yfs m h c) = Ret (y_OK, s1) ∧ y_held s1 = h ∧
    (∀ k, k ≠ ino → k ∉ ds.*1 → y_store s1 !! k = m !! k) ∧
    ∀ size' off', 0 < size' → 0 ≤ off' → off' + size' ≤ i_size b → i_size b ≤ 512 * Z.of_nat (length ds) →
      ∃ s2, read time junk fuel ino size' off' s1
            = Ret ((y_OK, slice (Z.to_nat off') (Z.to_nat size') data), s2).
Proof.
  intros Hf Hby Hs Ho Hfs H1 H2 H3 data.
  destruct (write_run time junk fuel m h c ino b ns ds buf size off) as
    (m' & b' & ds' & E & Hf' & Hsz & Hl & Hb & Hk); try done; [lia|].
  eexists. split; [exact E|]. split; [done|]. split; [exact Hk|]. intros size' off' Hs' Ho' Hin Hfit.
  pose proof (Z.div_mod off' 512 ltac:(lia)) as Edm. pose proof (Z.mod_pos_bound off' 512 ltac:(lia)).
  eexists. rewrite (read_run time junk fuel m' h _ ino b' ns ds' size' off' Hf') by lia.
  unfold data. rewrite <- Hb, Hsz. unfold read_result. rewrite Z.min_l by lia. reflexivity.
Qed.

(** A read past the end returns too much: when the offset is not at the
    start of a block and the read reaches past the end of the file, the data is
    longer than what is left of the file, by the offset inside the block. *)
Theorem read_past_end (time : nat → Z) (junk : list Z) (fuel : nat) (m : gmap Z (list Z)) (h : gset Z)
    (c : nat) (ino : Z) (b : list Z) (ns : list Z) (ds : list (Z * list Z)) (size off : Z) :
  file m h ino b ns ds → i_size b - off + off `mod` 512 ≤ size < 2 ^ 64 → 0 ≤ off < i_size b →
  i_size b + off `mod` 512 ≤ 512 * Z.of_nat (length ds) → (length ds < fuel)%nat →
  ∃ d s1, read time junk fuel ino size off (Yfs m h c) = Ret ((y_OK, d), s1) ∧
    Z.of_nat (length d) = i_size b - off + off `mod` 512.
Proof.
  intros Hf Hs Ho Hfit Hl. pose proof (Z.div_mod off 512 ltac:(lia)) as Edm.
  pose proof (Z.mod_pos_bound off 512 ltac:(lia)). eexists _, _.
  rewrite (read_run time junk fuel m h c ino b ns ds size off Hf) by lia. split; [reflexivity|].
  unfold read_result. rewrite Z.min_r by lia. rewrite length_slice; [lia|].
  rewrite length_bytes_of by (eapply file_at_blocks, fi_at, Hf). lia.
Qed.

(** setattr gives a file no blocks: after a resize the inode has the new
    size and times and every other byte of the inode from before the resize, so
    that the blocks inner_write put into it on the way are lost. *)
Theorem setattr_keeps_links (time : nat → Z) (junk : list Z) (fuel : nat) (m : gmap Z (list Z)) (h : gset Z)
    (c : nat) (ino : Z) (b : list Z) (to_set : Z) (info : fileinfo) (s1 : yfs (gmap Z (list Z))) :
  ino ∉ h → used m ({[ino]} ∪ h) ino b → is_block b → to_set ≠ 0 → 0 ≤ f_size info < 2 ^ 64 →
  setattr time junk fuel ino to_set info (Yfs m h c) = Ret (y_OK, s1) →
  ∃ b', y_store s1 !! ino = Some b' ∧ i_size b' = f_size info ∧ i_next b' = i_next b ∧
    ∀ i, 0 ≤ i < 16 → direct_block i b' = direct_block i b.
Proof.
  intros Hh Hu Hb Ht Hsz E. eexists. split; [by eapply setattr_stores|].
  assert (∀ off v b0, is_block b0 → (off + 8 ≤ 40)%nat →
    is_block (wr off 8 v b0) ∧ i_next (wr off 8 v b0) = i_next b0 ∧
    ∀ i, 0 ≤ i < 16 → direct_block i (wr off 8 v b0) = direct_block i b0) as W.
  { intros off v b0 H0 Ho. split; [apply wr_block; [lia|done]|]. apply wr_links; [apply H0|done]. }
  unfold set_size, set_ctime, set_mtime, set_atime.
  destruct (W 16%nat (f_atime info) b) as (B1 & N1 & D1); [done|lia|].
  destruct (W 24%nat (f_mtime info) _ B1) as (B2 & N2 & D2); [lia|].
  destruct (W 32%nat (f_ctime info) _ B2) as (B3 & N3 & D3); [lia|].
  destruct (W 8%nat (f_size info) _ B3) as (B4 & N4 & D4); [lia|]. split_and!.
  - unfold i_size. destruct B3 as [Hl3 _]. rewrite rd_wr_eq by lia. by apply Z.mod_small.
  - congruence.
  - intros i Hi. rewrite D4, D3, D2, D1 by done. done.
Qed.

(** ** Concrete runs: a file of 600 bytes in two blocks *)
Definition ex_file_fs : yfs (gmap Z (list Z)) :=
  match exec_ops ex_time ex_junk 300 [OCreate 1 [97] 0; OWrite 2 (replicate 600 7) 600 0] ex_fs with
  | Ret (_, s) => s
  | _ => ex_fs
  end.

Definition ex_block (k : Z) : list Z := default [] (y_store ex_file_fs !! k).

Lemma fa_block_at m h ino b index d db ns ds :
  direct_block index b = d → 0 ≤ index < 16 → d ≠ 0 → d ≠ ino → d ∉ h → used m h d db → is_block db →
  file_at m h ino b (index + 1) ns ds → file_at m h ino b index ns ((d, db) :: ds).
Proof. intros <- ? ? ? ? ? ? ?. by constructor. Qed.

Lemma used_default m h k :
  in_bitmap_area k = false → has_bit k → bit_of m k = Some true → is_Some (m !! k) →
  bitmap_block k ∉ h → used m h k (default [] (m !! k)).
Proof. intros Ha Hb Hbit [b Hg] Hne. split; [done|done|done| |done]. by rewrite Hg. Qed.

(** Used blocks of the concrete store. *)
Ltac ex_used := apply used_default; [reflexivity|unfold has_bit; lia|by_vm..].

Lemma ex_file : file (y_store ex_file_fs) ∅ 2 (ex_block 2) [] [(3, ex_block 3); (4, ex_block 4)].
Proof.
  split; [apply not_elem_of_empty|ex_used|by_vm| |by_vm].
  do 2 (apply fa_block_at; [by_vm|lia|done|done|by_vm|ex_used|by_vm|]).
  apply fa_hole; [lia|by_vm].
Qed.

Lemma ex_size : i_size (ex_block 2) = 600.
Proof. by_vm. Qed.

Lemma read_returns_witness :
  ∃ d s1, read ex_time ex_junk 5 2 500 100 (Yfs (y_store ex_file_fs) ∅ 0) = Ret ((y_OK, d), s1) ∧
    d = slice 100 500 (bytes_of [(3, ex_block 3); (4, ex_block 4)]).
Proof.
  pose proof (read_returns ex_time ex_junk 5 (y_store ex_file_fs) ∅ 0 2 (ex_block 2) []
    [(3, ex_block 3); (4, ex_block 4)] 500 100 ex_file ltac:(lia) ltac:(lia) ltac:(simpl; lia)) as W.
  rewrite ex_size in W. destruct W as [E Hd].
  eexists _, _. split; [exact E|]. exact (Hd ltac:(lia)).
Defined.

Lemma write_then_read_witness :
  ∃ s1 s2, write ex_time ex_junk 5 2 [1; 2; 3] 3 511 (Yfs (y_store ex_file_fs) ∅ 0) = Ret (y_OK, s1) ∧
    read ex_time ex_junk 5 2 5 510 s1 = Ret ((y_OK, [7; 1; 2; 3; 7]), s2).
Proof.
  pose proof (write_then_read ex_time ex_junk 5 (y_store ex_file_fs) ∅ 0 2 (ex_block 2) []
    [(3, ex_block 3); (4, ex_block 4)] [1; 2; 3] 3 511 ex_file) as W.
  rewrite ex_size in W.
  specialize (W ltac:(by_vm) ltac:(simpl; lia) ltac:(lia) ltac:(lia)
    ltac:(simpl; lia) ltac:(simpl; lia) ltac:(simpl; lia)).
  destruct W as (s1 & E & _ & _ & R). destruct (R 5 510) as (s2 & E2); [lia|lia|lia|simpl; lia|].
  exists s1, s2. split; [exact E|]. rewrite E2. vm_compute (slice _ _ _). reflexivity.
Defined.

Lemma read_past_end_witness :
  ∃ d s1, read ex_time ex_junk 5 2 1000 100 (Yfs (y_store ex_file_fs) ∅ 0) = Ret ((y_OK, d), s1) ∧
    Z.of_nat (length d) = 600.
Proof.
  pose proof (read_past_end ex_time ex_junk 5 (y_store ex_file_fs) ∅ 0 2 (ex_block 2) []
    [(3, ex_block 3); (4, ex_block 4)] 1000 100 ex_file) as W.
  rewrite ex_size in W. change (100 `mod` 512) with 100 in W.
  destruct (W ltac:(lia) ltac:(lia) ltac:(simpl; lia) ltac:(simpl; lia)) as (d & s1 & E & L).
  exists d, s1. split; [exact E|]. rewrite L. lia.
Defined.

Lemma setattr_keeps_links_witness :
  ∃ s1 b', setattr ex_time ex_junk 300 2 1 (FileInfo 2000 0 0 0) (Yfs (y_store ex_file_fs) ∅ 0) = Ret (y_OK, s1) ∧
    y_store s1 !! 2 = Some b' ∧ i_size b' = 2000 ∧ direct_block 2 b' = 0.
Proof.
  destruct (setattr ex_time ex_junk 300 2 1 (FileInfo 2000 0 0 0) (Yfs (y_store ex_file_fs) ∅ 0))
    as [[r s1]| | | |] eqn:E; [|by vm_compute in E..].
  assert (r = y_OK) as -> by (vm_compute in E; by injection E as <- _).
  pose proof (setattr_keeps_links ex_time ex_junk 300 (y_store ex_file_fs) ∅ 0 2 (ex_block 2) 1
    (FileInfo 2000 0 0 0) s1 (not_elem_of_empty 2) (fi_used _ _ _ _ _ _ ex_file) (fi_block _ _ _ _ _ _ ex_file)
    ltac:(lia) ltac:(simpl; lia) E) as (b' & G & Hs & _ & D).
  exists s1, b'. split; [reflexivity|]. split; [exact G|]. split; [exact Hs|].
  rewrite (D 2 ltac:(lia)). vm_compute. reflexivity.
Defined.
