(* ===== verification/YfsListing.v ===== *)
(** readdir of yfs_client.cc: the listing of a directory of any number of
    blocks. *)
From S2P Require Import Prelude ExtentServer ExtentCache YfsBlock YfsFile YfsDir YfsOps YfsLocks YfsAlloc YfsDirSpec.
Local Open Scope Z_scope.

(** items[inum] = name for each entry in turn. *)
Definition list_es (es : entries) (items : gmap Z (list Z)) : gmap Z (list Z) :=
  foldl (λ m e, <[e.2 := e.1]> m) items es.

Lemma list_es_app es es' items : list_es (es ++ es') items = list_es es' (list_es es items).
Proof. apply foldl_app. Qed.

Lemma list_es_lookup es items inum nm :
  list_es es items !! inum = Some nm → (nm, inum) ∈ es ∨ items !! inum = Some nm.
Proof.
  revert items. induction es as [|[n i] es IH]; intros items; [auto|]. simpl. intros [?|H]%IH; [left; by right|].
  apply lookup_insert_Some in H as [[<- <-]|[_ ?]]; [left; by left|by right].
Qed.

Lemma list_es_has es items nm inum : (nm, inum) ∈ es → is_Some (list_es es items !! inum).
Proof.
  assert (∀ es items, is_Some (items !! inum) → is_Some (list_es es items !! inum)) as Hkeep.
  { clear. induction es as [|[n i] es IH]; intros items H; [done|]. simpl. apply IH.
    destruct (decide (i = inum)) as [->|]; [by rewrite lookup_insert_eq|by rewrite lookup_insert_ne]. }
  revert items. induction es as [|[n i] es IH]; intros items; [by intros ?%elem_of_nil|].
  rewrite elem_of_cons. intros [[= -> ->]|H]; simpl; [|by apply IH].
  apply Hkeep. by rewrite lookup_insert_eq.
Qed.

Lemma list_es_size es items :
  NoDup es.*2 → (∀ i, i ∈ es.*2 → items !! i = None) → size (list_es es items) = (length es + size items)%nat.
Proof.
  revert items. induction es as [|[nm i] es IH]; intros items Hd Hi; [done|]. simpl in *. apply NoDup_cons in Hd as [Hni Hd].
  rewrite IH; [|done|].
  - rewrite map_size_insert_None by (apply Hi; by left). lia.
  - intros j Hj. rewrite lookup_insert_ne by (by intros ->). apply Hi. by right.
Qed.

Lemma list_es_iff es nm i :
  NoDup es.*2 → list_es es ∅ !! i = Some nm ↔ (nm, i) ∈ es.
Proof.
  intros Hnd. split; [intros [?|?]%list_es_lookup; done|]. intros Hin. destruct (list_es_has es ∅ nm i Hin) as [nm' Hl].
  destruct (list_es_lookup _ _ _ _ Hl) as [Hin'|?]; [|done]. rewrite Hl. f_equal.
  apply list_elem_of_lookup in Hin as [j Hj], Hin' as [k Hk]. assert (j = k) as ->; [|by simplify_eq].
  eapply NoDup_lookup; [exact Hnd|..]; rewrite list_lookup_fmap; [by rewrite Hj|by rewrite Hk].
Qed.

Lemma entry_name_rep b es i nm inum :
  dir_rep b es → es !! i = Some (nm, inum) → entry_name (Z.of_nat i) b = Ret nm.
Proof.
  intros Hr Hi. destruct (dr_ent _ _ Hr _ _ _ Hi) as ([_ Hok] & (rest & E) & _).
  unfold entry_name. rewrite <- (take_drop 64 (drop _ b)).
  change (take 64 (drop (entry_off (Z.of_nat i)) b)) with (slice (entry_off (Z.of_nat i)) 64 b).
  rewrite E, <- app_assoc. simpl. by rewrite str_read_spec.
Qed.

Lemma collect_loop_rep b es n i items :
  dir_rep b es → (i ≤ length es)%nat → (length es - i < n)%nat →
  collect_loop n (Z.of_nat i) b items = Ret (list_es (drop i es) items).
Proof.
  intros Hr. revert i items. induction n as [|n IH]; intros i items Hi Hl; [lia|]. cbn [collect_loop].
  rewrite (dr_size _ _ Hr). destruct (Z.ltb_spec (Z.of_nat i) (Z.of_nat (length es))).
  - destruct (lookup_lt_is_Some_2 es i) as [[nm inum] Hi']; [lia|].
    rewrite (entry_name_rep b es i nm inum) by done. cbn [mbind res_bind].
    destruct (dr_ent _ _ Hr _ _ _ Hi') as (_ & _ & ->).
    replace (Z.of_nat i + 1) with (Z.of_nat (S i)) by lia. rewrite IH by lia.
    by rewrite (drop_S es (nm, inum) i).
  - by rewrite drop_ge by lia.
Qed.

Lemma readdir_loop_run m h c ino b ess n items :
  dir_chain m h ino b ess → (length ess ≤ n)%nat →
  readdir_loop n ino b items (Yfs m h c) = Ret (list_es (concat ess) items, Yfs m h c).
Proof.
  intros Hc. revert n items. induction Hc as [b es Hr Hnx|b es b' ess Hr Hnx Hp Hh Hu _ IH];
    intros [|n] items Hl; simpl in Hl; try lia; cbn [readdir_loop]; pose proof (dr_len _ _ Hr).
  all: rewrite (bind_run _ _ _ (list_es es items) (Yfs m h c))
    by (unfold st_lift; pose proof (collect_loop_rep b es 8 0 items Hr ltac:(lia) ltac:(lia)) as Ec;
        change (Z.of_nat 0) with 0 in Ec; by rewrite Ec).
  all: destruct (Z.eqb_spec (i_next b) 0); try done.
  - simpl. by rewrite app_nil_r.
  - run (safe_get_run _ _ c _ _ b _ Hu Hp Hh). cbv beta iota. rewrite IH by lia. simpl. by rewrite list_es_app.
Qed.

Lemma readdir_run time junk fuel m h c ino b ess :
  ino ∉ h → used m ({[ino]} ∪ h) ino b → dir_chain m ({[ino]} ∪ h) ino b ess → (length ess ≤ fuel)%nat →
  readdir time junk fuel ino (Yfs m h c)
  = Ret ((y_OK, list_es (concat ess) ∅), Yfs (<[ino := set_atime (u64 (time c)) b]> m) h (S c)).
Proof.
  intros Hh Hu Hc Hl. unfold readdir.
  assert (is_block b) as Hb by (destruct Hc as [? ? []|? ? ? ? []]; done).
  run (acquire_run _ _ c _ Hh). run (safe_get_own _ _ _ _ _ junk Hu). cbv beta iota.
  run (time0_run time _ _ c). cbv zeta. set (b1 := set_atime (u64 (time c)) b).
  assert (is_block b1) as Hb1 by (apply wr_block; [lia|done]).
  run (safe_put_own _ _ (S c) _ _ b1 Hu Hb1). cbn [Z.eqb y_OK negb].
  assert (dir_chain (<[ino := b1]> m) ({[ino]} ∪ h) ino b1 ess) as Hc1.
  { apply dir_chain_insert; [apply Hu|]. apply dir_chain_wr; [lia|done]. }
  erewrite bind_run; [|run (readdir_loop_run _ _ (S c) ino b1 ess fuel ∅ Hc1 Hl); reflexivity].
  by run (release_run (<[ino := b1]> m) h (S c) ino Hh).
Qed.

(** * Theorems *)

(** readdir lists the directory: it returns OK and a map that has the inode
    of every entry of every block of the directory and nothing else, each with
    the name of one of its entries; apart from the access time nothing
    changes. *)
Theorem readdir_lists (time : nat → Z) (junk : list Z) (fuel : nat) (m : gmap Z (list Z)) (h : gset Z)
    (c : nat) (ino : Z) (b : list Z) (ess : list entries) :
  ino ∉ h → used m ({[ino]} ∪ h) ino b → dir_chain m ({[ino]} ∪ h) ino b ess → (length ess ≤ fuel)%nat →
  ∃ items, readdir time junk fuel ino (Yfs m h c)
    = Ret ((y_OK, items), Yfs (<[ino := set_atime (u64 (time c)) b]> m) h (S c)) ∧
    (∀ inum nm, items !! inum = Some nm → (nm, inum) ∈ concat ess) ∧
    (∀ inum nm, (nm, inum) ∈ concat ess → is_Some (items !! inum)) ∧
    (NoDup (concat ess).*2 → ∀ inum nm, (nm, inum) ∈ concat ess → items !! inum = Some nm).
Proof.
  intros Hh Hu Hc Hl. eexists. split; [by apply readdir_run|]. split; [|split].
  - intros inum nm [?|?]%list_es_lookup; done.
  - intros inum nm. apply list_es_has.
  - intros Hnd inum nm. by apply list_es_iff.
Qed.

(** ** A directory with two files *)
Definition ex_dir_fs : gmap Z (list Z) :=
  match exec_ops ex_time ex_junk 300 [OCreate 1 [97] 0; OCreate 1 [98; 99] 0] ex_fs with
  | Ret (_, s) => y_store s
  | _ => ∅
  end.
Definition ex_dir_block : list Z := default [] (ex_dir_fs !! 1).
Definition ex_dir_es : entries := [([97], 2); ([98; 99], 3)].

Lemma ex_dir_used : used ex_dir_fs ({[1]} ∪ ∅) 1 ex_dir_block.
Proof.
  split; [reflexivity|unfold has_bit; lia|vm_compute; reflexivity|vm_compute; reflexivity|].
  change (bitmap_block 1) with 10. set_solver.
Qed.

Lemma ex_dir_rep : dir_rep ex_dir_block ex_dir_es.
Proof.
  split; [by_vm|vm_compute; reflexivity|simpl; lia|].
  intros [|[|i]] nm inum; [| |by destruct i]; intros [= <- <-].
  - split; [split; [simpl; lia|repeat constructor; lia]|]. split; [|vm_compute; reflexivity].
    exists (replicate 62 0). vm_compute. reflexivity.
  - split; [split; [simpl; lia|repeat constructor; lia]|]. split; [|vm_compute; reflexivity].
    exists (replicate 61 0). vm_compute. reflexivity.
Qed.

Lemma ex_dir_chain : dir_chain ex_dir_fs ({[1]} ∪ ∅) 1 ex_dir_block [ex_dir_es].
Proof. apply dc_end; [exact ex_dir_rep|vm_compute; reflexivity]. Qed.

Lemma readdir_lists_witness :
  ∃ items t, readdir ex_time ex_junk 3 1 (Yfs ex_dir_fs ∅ 0) = Ret ((y_OK, items), t) ∧
    items !! 2 = Some [97] ∧ items !! 3 = Some [98; 99].
Proof.
  destruct (readdir_lists ex_time ex_junk 3 ex_dir_fs ∅ 0 1 ex_dir_block [ex_dir_es]
    (not_elem_of_empty 1) ex_dir_used ex_dir_chain ltac:(simpl; lia)) as (items & E & _ & _ & H).
  assert (NoDup (concat [ex_dir_es]).*2) as Hnd by by_vm.
  exists items. eexists. split; [exact E|]. split; apply (H Hnd); by_vm.
Defined.
