(* ===== verification/YfsUnlink.v ===== *)
(** unlink of yfs_client.cc: the entry leaves its directory block, and the
    blocks of the file are freed. *)
From S2P Require Import Prelude ExtentServer ExtentCache YfsBlock YfsFile YfsDir YfsOps YfsLocks YfsAlloc YfsDirSpec YfsListing.
From S2P Require Import YfsFileSpec.
Local Open Scope Z_scope.

Section delete.
Context {A : Type}.
Implicit Types l k : list A.

Lemma delete_ge l i : (length l ≤ i)%nat → delete i l = l.
Proof. intros. rewrite delete_take_drop, take_ge, drop_ge by lia. apply app_nil_r. Qed.

Lemma delete_app_lt l k i : (i < length l)%nat → delete i (l ++ k) = delete i l ++ k.
Proof.
  intros. rewrite !delete_take_drop, take_app_le, drop_app_le by lia. by rewrite app_assoc.
Qed.

Lemma delete_app_ge l k i : delete (length l + i)%nat (l ++ k) = l ++ delete i k.
Proof.
  rewrite !delete_take_drop, take_app_ge, drop_app_ge, <- app_assoc by lia. do 2 f_equal; f_equal; lia.
Qed.

Lemma length_delete_le l i : (length (delete i l) ≤ length l)%nat.
Proof. rewrite delete_take_drop, length_app, length_take, length_drop. lia. Qed.
End delete.

(** * The directory block without the entry *)

(** The entry [e] of block [b] copied behind the entries of [nb]. *)
Lemma copy_entry_rep b es i e nb es' :
  dir_rep b es → es !! i = Some e → dir_rep nb es' → (length es' < 5)%nat →
  let nb1 := splice (entry_off (i_size nb)) (slice (entry_off (Z.of_nat i)) 72 b) nb in
  dir_rep (set_size (i_size nb1 + 1) nb1) (es' ++ [e]) ∧ i_next (set_size (i_size nb1 + 1) nb1) = i_next nb.
Proof.
  intros Hr Hi [[Hl Hb] H2 H3 H4] Hlt nb1. destruct e as [nm inum]. pose proof (dr_block _ _ Hr) as [Hlb Hbb].
  pose proof (dr_len _ _ Hr) as Hlen. pose proof (lookup_lt_Some _ _ _ Hi) as Hil.
  destruct (dr_ent _ _ Hr _ _ _ Hi) as (Hnm & (rest & E) & Ei). set (k := length es') in *.
  unfold entry_inum in Ei. rewrite entry_off_nat in E, Ei.
  subst nb1. rewrite H2, !entry_off_nat. set (s := slice (40 + 72 * i) 72 b).
  assert (length s = 72)%nat as Hs by (unfold s; rewrite length_slice; lia).
  set (nb1 := splice (40 + 72 * k) s nb).
  assert (length nb1 = 512)%nat as L1 by (unfold nb1; rewrite length_splice; lia).
  assert (i_size nb1 = Z.of_nat k) as S1 by (unfold i_size, rd, nb1; rewrite slice_splice_before by lia; exact H2).
  rewrite S1. unfold set_size.
  assert (∀ off n, (16 ≤ off)%nat → (off + n ≤ 40 + 72 * k ∨ 40 + 72 * (k + 1) ≤ off)%nat →
    slice off n (wr 8 8 (Z.of_nat k + 1) nb1) = slice off n nb) as Hout.
  { intros off n Ho Hd. rewrite slice_wr_ne by lia. unfold nb1. destruct Hd;
      [apply slice_splice_before; lia|apply slice_splice_after; lia]. }
  assert (∀ off n, (off + n ≤ 72)%nat →
    slice (40 + 72 * k + off) n (wr 8 8 (Z.of_nat k + 1) nb1) = slice (40 + 72 * i + off) n b) as Hin.
  { intros off n Ho. rewrite slice_wr_ne by lia. rewrite <- (slice_slice (40 + 72 * k) 72) by done.
    rewrite <- (slice_slice (40 + 72 * i) 72) by done. f_equal. fold s. unfold nb1.
    transitivity (slice (40 + 72 * k) (length s) (splice (40 + 72 * k) s nb)); [by rewrite Hs|].
    apply slice_splice_eq. lia. }
  split; [|unfold i_next, rd; by rewrite Hout by lia]. split.
  - apply wr_block; [lia|]. split; [done|]. apply splice_Forall; [done|]. by apply slice_Forall.
  - rewrite length_app. unfold i_size. rewrite rd_wr_eq by lia. change (length [(nm, inum)]) with 1%nat.
    rewrite Z.mod_small; [lia|]. fold k. lia.
  - rewrite length_app. simpl. fold k. lia.
  - intros j nm' num' Hj. destruct (decide (j < k)%nat) as [Hjk|Hjk].
    + rewrite lookup_app_l in Hj by done. destruct (H4 _ _ _ Hj) as (Hnm' & (rest' & E') & Ei').
      split; [done|]. unfold entry_inum in *. rewrite entry_off_nat in *. split.
      * exists rest'. by rewrite Hout by lia.
      * rewrite <- Ei'. unfold rd. by rewrite Hout by lia.
    + rewrite lookup_app_r in Hj by lia. destruct (j - length es')%nat as [|j'] eqn:Ej; [|by destruct j'].
      assert (j = k) as -> by lia. simpl in Hj. injection Hj as <- <-. split; [done|].
      unfold entry_inum. rewrite entry_off_nat. split.
      * exists rest. rewrite <- (Nat.add_0_r (40 + 72 * k)), Hin, Nat.add_0_r by lia. done.
      * rewrite <- Ei. unfold rd. by rewrite Hin by lia.
Qed.

Lemma copy_loop_rep b es index n i nb :
  dir_rep b es → (index < length es)%nat → (i ≤ length es)%nat → (length es - i < n)%nat →
  dir_rep nb (delete index (take i es)) →
  ∃ nb', copy_loop n (Z.of_nat i) (Z.of_nat index) b nb = Ret nb' ∧ dir_rep nb' (delete index es) ∧
    i_next nb' = i_next nb.
Proof.
  intros Hr Hix. pose proof (dr_len _ _ Hr) as Hlen. revert i nb.
  induction n as [|n IH]; intros i nb Hi Hn Hnb; [lia|]. cbn [copy_loop].
  rewrite (dr_size _ _ Hr). destruct (Z.ltb_spec (Z.of_nat i) (Z.of_nat (length es))) as [Hlt|Hge].
  - destruct (lookup_lt_is_Some_2 es i) as [e He]; [lia|].
    assert (take (S i) es = take i es ++ [e]) as Et by (by apply take_S_r).
    replace (Z.of_nat i + 1) with (Z.of_nat (S i)) by lia.
    destruct (Z.eqb_spec (Z.of_nat i) (Z.of_nat index)) as [Eq|Ne].
    + assert (i = index) as -> by lia. apply IH; [lia..|].
      rewrite Et. rewrite delete_ge in Hnb by (rewrite length_take; lia).
      assert (length (take index es) + 0 = index)%nat as El by (rewrite length_take; lia).
      pose proof (delete_app_ge (take index es) [e] 0) as Ed. rewrite El in Ed. rewrite Ed.
      by rewrite app_nil_r.
    + assert (delete index (take i es) ++ [e] = delete index (take (S i) es)) as Ed.
      { rewrite Et. destruct (decide (index < i)%nat).
        - by rewrite delete_app_lt by (rewrite length_take; lia).
        - rewrite !delete_ge; [done|..]; rewrite ?length_app, length_take; simpl; lia. }
      assert (length (delete index (take i es)) < 5)%nat as Hl5.
      { pose proof (length_delete_le (take i es) index). rewrite length_take in *. lia. }
      pose proof (dr_size _ _ Hnb) as Hsz. rewrite Hsz, !entry_off_nat.
      destruct (Nat.ltb_spec 512 (40 + 72 * i + 72)); [lia|].
      destruct (Nat.ltb_spec 512 (40 + 72 * length (delete index (take i es)) + 72)); [lia|]. cbn [orb]. cbv zeta.
      destruct (copy_entry_rep b es i e nb _ Hr He Hnb Hl5) as [Hrep Hnx]. rewrite Hsz, !entry_off_nat, Ed in Hrep.
      rewrite Hsz, !entry_off_nat in Hnx. destruct (IH (S i) _ ltac:(lia) ltac:(lia) Hrep) as (nb' & E & Hr' & Hn').
      exists nb'. split; [exact E|]. split; [done|]. by rewrite Hn'.
  - exists nb. split; [done|]. rewrite take_ge in Hnb by lia. done.
Qed.

Lemma without_entry_rep b es index :
  dir_rep b es → (index < length es)%nat →
  ∃ b', without_entry (Z.of_nat index) b = Ret b' ∧ dir_rep b' (delete index es) ∧ i_next b' = i_next b.
Proof.
  intros Hr Hix. unfold without_entry. cbv zeta.
  set (n0 := set_ctime _ _). assert (is_block n0) as Hn0.
  { repeat (apply wr_block; [lia|]). exact zero_block_ok. }
  set (n := set_next _ n0). assert (is_block n) as Hn by (by apply wr_block; [lia|]).
  assert (i_next (set_size 0 n) = i_next b) as Enx.
  { unfold i_next, set_size. rewrite rd_wr_ne by (rewrite ?(proj1 Hn); lia). unfold n, set_next.
    rewrite rd_wr_eq by (rewrite (proj1 Hn0); lia). apply Z.mod_small, (rd_range 8); [lia|apply Hr]. }
  destruct (copy_loop_rep b es index 8 0 (set_size 0 n) Hr Hix ltac:(lia)) as (b' & E & Hr' & Hx).
  - pose proof (dr_len _ _ Hr). lia.
  - rewrite take_0. change (delete index (@nil (list Z * Z))) with (@nil (list Z * Z)). split.
    + by apply wr_block; [lia|].
    + unfold i_size, set_size. rewrite rd_wr_eq; [done|]. rewrite (proj1 Hn). lia.
    + simpl. lia.
    + intros i nm inum Hi. by rewrite lookup_nil in Hi.
  - exists b'. split; [exact E|]. split; [done|]. by rewrite Hx, Enx.
Qed.

(** * Freeing blocks *)

(** [m'] is [m] with the blocks [l] marked free. *)
Record freed (m m' : gmap Z (list Z)) (l : list Z) : Prop := {
  fr_wf : bs_wf m';
  fr_bit : ∀ j, bit_of m' j = if decide (j ∈ l) then Some false else bit_of m j;
  fr_rest : ∀ k, in_bitmap_area k = false → m' !! k = m !! k }.

Lemma freed_nil m : bs_wf m → freed m m [].
Proof. intros. split; [done| |done]. intros j. rewrite decide_False; [done|by apply not_elem_of_nil]. Qed.

Lemma freed_app m m1 m2 l1 l2 : freed m m1 l1 → freed m1 m2 l2 → freed m m2 (l1 ++ l2).
Proof.
  intros [_ B1 R1] [W2 B2 R2]. split; [done| |intros k Hk; by rewrite R2, R1].
  intros j. rewrite B2, B1. pose proof (elem_of_app l1 l2 j). repeat case_decide; tauto.
Qed.

(** Blocks that remove can free. *)
Definition freeable (m : gmap Z (list Z)) (h : gset Z) (d : Z) : Prop :=
  has_bit d ∧ is_Some (bit_of m d) ∧ bitmap_block d ∉ h.

Lemma freed_freeable m m' h l d : freed m m' l → freeable m h d → freeable m' h d.
Proof. intros [_ B _] (? & ? & ?). split_and!; [done| |done]. rewrite B. case_decide; [by eexists|done]. Qed.

Lemma used_freeable m h i b : used m h i b → freeable m h i.
Proof. intros [Ha Hi Hb Hg Hh]. split_and!; [done| |done]. rewrite Hb. by eexists. Qed.

Lemma freed_used m m' h l i b : freed m m' l → i ∉ l → used m h i b → used m' h i b.
Proof.
  intros [_ B R] Hl [Ha Hi Hb Hg Hh]. split; try done; [by rewrite B, decide_False|by rewrite R].
Qed.

Lemma y_remove_run m h c d :
  bs_wf m → freeable m h d → ∃ m', y_remove d (Yfs m h c) = Ret (y_OK, Yfs m' h c) ∧ freed m m' [d].
Proof.
  intros Hwf (Hd & [u Hu] & Hh). destruct (remove_frees_one m h c d u Hwf Hu Hh) as (m' & E & B & R & W).
  exists m'. split; [done|]. split; [done| |].
  - intros j. rewrite B. pose proof (list_elem_of_singleton j d). repeat case_decide; tauto.
  - intros k Hk. apply R. intros ->. by apply (not_bitmap (bitmap_block d) d).
Qed.

(** The blocks that an inode names, from slot [i] on, up to the first that is 0. *)
Fixpoint directs (n : nat) (i : Z) (b : list Z) : list Z :=
  match n with
  | O => []
  | S n => if direct_block i b =? 0 then [] else direct_block i b :: directs n (i + 1) b
  end.

Lemma remove_blocks_run m h c n i b :
  bs_wf m → Forall (freeable m h) (directs n i b) →
  ∃ m', remove_blocks n i b (Yfs m h c) = Ret (tt, Yfs m' h c) ∧ freed m m' (directs n i b).
Proof.
  revert m i. induction n as [|n IH]; intros m i Hwf Hf; cbn [remove_blocks directs] in *;
    [exists m; eauto using freed_nil|].
  destruct (direct_block i b =? 0); [exists m; eauto using freed_nil|].
  apply Forall_cons in Hf as [Hd Hf]. destruct (y_remove_run m h c _ Hwf Hd) as (m1 & E1 & F1).
  destruct (IH m1 (i + 1) (fr_wf _ _ _ F1)) as (m2 & E2 & F2).
  { eapply Forall_impl; [exact Hf|]. intros d. by apply (freed_freeable m m1 h [direct_block i b]). }
  exists m2. split; [by run E1|]. by apply (freed_app m m1 m2 [_]).
Qed.

(** What recursive_unlink frees: the blocks of the inode, those of the inodes
    after it, and then the inode. *)
Inductive owned (m : gmap Z (list Z)) (h : gset Z) : Z → list Z → Prop :=
  | ow_null : owned m h 0 []
  | ow_inode ino b l :
      ino ≠ 0 → ino ∉ h → used m h ino b → Forall (freeable m h) (directs 16 0 b) →
      owned m h (i_next b) l → owned m h ino (directs 16 0 b ++ l ++ [ino]).

Lemma freed_owned m m' h l0 ino l :
  freed m m' l0 → owned m h ino l → l0 ## l → owned m' h ino l.
Proof.
  intros F. induction 1 as [|ino b l H0 Hh Hu Hd _ IH]; intros Hdis; [constructor|]. constructor; try done.
  - apply (freed_used _ _ _ _ _ _ F); [|done]. intros Hi. apply (Hdis ino); [done|].
    rewrite !elem_of_app, list_elem_of_singleton. tauto.
  - eapply Forall_impl; [exact Hd|]. intros d. by apply (freed_freeable m m' h l0).
  - apply IH. intros x Hx Hl. apply (Hdis x Hx). rewrite !elem_of_app. tauto.
Qed.

Lemma recursive_unlink_run junk m h c n ino l :
  bs_wf m → owned m h ino l → NoDup l → (length l < n)%nat →
  ∃ m', recursive_unlink junk n ino (Yfs m h c) = Ret (tt, Yfs m' h c) ∧ freed m m' l.
Proof.
  revert m ino l. induction n as [|n IH]; intros m ino l Hwf Ho Hnd Hn; [lia|]. cbn [recursive_unlink].
  destruct Ho as [|ino b l H0 Hh Hu Hd Ho]; [exists m; eauto using freed_nil|].
  destruct (Z.eqb_spec ino 0); [done|].
  apply NoDup_app in Hnd as (_ & Hdis & Hnd). pose proof Hnd as (Hnl & Hino & _)%NoDup_app.
  rewrite !length_app in Hn. simpl in Hn.
  run (safe_get_run m h c ino b junk 0 Hu H0 Hh). cbv beta iota.
  destruct (remove_blocks_run m h c 16 0 b Hwf Hd) as (m1 & E1 & F1). run E1.
  assert (owned m1 h (i_next b) l) as Ho1.
  { apply (freed_owned _ _ _ _ _ _ F1 Ho). intros x Hx Hl. apply (Hdis x Hx). rewrite elem_of_app. by left. }
  assert (∃ m2, (if negb (i_next b =? 0) then recursive_unlink junk n (i_next b) else mret tt) (Yfs m1 h c)
                = Ret (tt, Yfs m2 h c) ∧ freed m1 m2 l) as (m2 & E2 & F2).
  { destruct (Z.eqb_spec (i_next b) 0) as [E0|E0]; [|apply IH; [apply F1|done|done|lia]].
    exists m1. split; [done|]. inversion Ho1; [|congruence]. apply freed_nil, F1. }
  run E2. pose proof (freed_app _ _ _ _ _ F1 F2) as F12.
  destruct (y_remove_run m2 h c ino (fr_wf _ _ _ F2)) as (m3 & E3 & F3).
  { apply (freed_freeable _ _ _ _ _ F12). by eapply used_freeable. }
  exists m3. split; [by run E3|]. rewrite app_assoc. by eapply freed_app.
Qed.

(** * Directories with the numbers of their blocks *)
Inductive dir_blocks (m : gmap Z (list Z)) (h : gset Z) (parent : Z)
    : list Z → list Z → list entries → Prop :=
  | db_end b es : dir_rep b es → i_next b = 0 → dir_blocks m h parent b [] [es]
  | db_next b es b' ns ess :
      dir_rep b es → i_next b ≠ 0 → i_next b ≠ parent → i_next b ∉ h → used m h (i_next b) b' →
      dir_blocks m h parent b' ns ess → dir_blocks m h parent b (i_next b :: ns) (es :: ess).

Lemma dir_blocks_chain m h parent b ns ess : dir_blocks m h parent b ns ess → dir_chain m h parent b ess.
Proof. induction 1; by econstructor. Qed.

Lemma dir_blocks_rep m h parent b ns ess : dir_blocks m h parent b ns ess → is_block b.
Proof. by intros [? ? []|? ? ? ? ? []]. Qed.

Lemma dir_blocks_det m h parent b ns ess ns' ess' :
  dir_blocks m h parent b ns ess → dir_blocks m h parent b ns' ess' → ns = ns'.
Proof.
  intros Hb. revert ns' ess'. induction Hb as [b es _ Hn|b es b' ns ess _ Hn _ _ Hu _ IH]; intros ns' ess' Hb'.
  - by inversion Hb'.
  - inversion Hb' as [|? ? b2 ? ? _ _ _ _ Hu' Hb2]; subst; [done|]. f_equal. apply (IH ns0 ess0).
    pose proof (us_get _ _ _ _ Hu) as E1. pose proof (us_get _ _ _ _ Hu') as E2. rewrite E1 in E2.
    by injection E2 as ->.
Qed.

(** The directory from one of its later blocks on. *)
Lemma dir_blocks_from m h parent b ns ess n :
  dir_blocks m h parent b ns ess → n ∈ ns →
  ∃ b1 ns1 ess1, used m h n b1 ∧ dir_blocks m h parent b1 ns1 ess1 ∧ (length ns1 < length ns)%nat.
Proof.
  induction 1 as [|b es b' ns ess _ _ _ _ Hu Hb IH]; [by intros ?%elem_of_nil|].
  rewrite elem_of_cons. intros [->|(b1 & ns1 & ess1 & ? & ? & ?)%IH].
  - exists b', ns, ess. simpl. eauto with lia.
  - exists b1, ns1, ess1. simpl. eauto with lia.
Qed.

(** A chain that ends has no block twice. *)
Lemma dir_blocks_nodup m h parent b ns ess : dir_blocks m h parent b ns ess → NoDup ns.
Proof.
  induction 1 as [|b es b' ns ess _ _ _ _ Hu Hb IH]; [constructor|]. constructor; [|done]. intros Hin.
  destruct (dir_blocks_from _ _ _ _ _ _ _ Hb Hin) as (b1 & ns1 & ess1 & Hu1 & Hb1 & Hl).
  pose proof (us_get _ _ _ _ Hu) as E1. pose proof (us_get _ _ _ _ Hu1) as E2. rewrite E1 in E2.
  injection E2 as <-. rewrite (dir_blocks_det _ _ _ _ _ _ _ _ Hb Hb1) in Hl. lia.
Qed.

Lemma dir_blocks_not_held m h parent b ns ess n :
  dir_blocks m h parent b ns ess → n ∈ ns → n ∉ h ∧ n ≠ parent ∧ in_bitmap_area n = false.
Proof.
  induction 1 as [|b es b' ns ess _ _ Hp Hh Hu Hb IH]; [by intros ?%elem_of_nil|].
  rewrite elem_of_cons. intros [->|?]; [|by apply IH]. split_and!; [done|done|apply Hu].
Qed.

Lemma dir_blocks_insert_ne m h parent b ns ess k nb :
  dir_blocks m h parent b ns ess → in_bitmap_area k = false → k ∉ ns →
  dir_blocks (<[k := nb]> m) h parent b ns ess.
Proof.
  intros Hb Ha. induction Hb as [|b es b' ns ess Hr Hn Hp Hh Hu _ IH]; [by constructor|].
  rewrite not_elem_of_cons. intros [? ?]. econstructor; try done; [by apply used_insert_ne|auto].
Qed.

Lemma dir_blocks_head m h parent b ns es ess nb es' :
  dir_blocks m h parent b ns (es :: ess) → dir_rep nb es' → i_next nb = i_next b →
  dir_blocks m h parent nb ns (es' :: ess).
Proof.
  intros Hc Hr Hn. inversion Hc as [? ? _ Hz|? ? b2 ns' ? _ Hz Hp Hh Hu Hc']; subst.
  - constructor; [done|congruence].
  - rewrite <- Hn in *. by apply (db_next _ _ _ _ _ b2).
Qed.

Lemma freed_dir_blocks m m' h parent b ns ess l :
  freed m m' l → dir_blocks m h parent b ns ess → ns ## l → dir_blocks m' h parent b ns ess.
Proof.
  intros F. induction 1 as [|b es b' ns ess Hr Hn Hp Hh Hu _ IH]; intros Hd; [by constructor|].
  econstructor; try done.
  - apply (freed_used _ _ _ _ _ _ F); [|done]. intros Hi. apply (Hd (i_next b)); [by left|done].
  - apply IH. intros x Hx. apply Hd. by right.
Qed.

(** ** The search *)
Lemma unlink_loop_none m h c parent bi b ns ess name n :
  dir_blocks m h parent b ns ess → Forall (λ c, 0 ≤ c) name → find_es (c_str name) (concat ess) = None →
  (length ess ≤ n)%nat → unlink_loop n parent bi name b (Yfs m h c) = Ret (None, Yfs m h c).
Proof.
  intros Hb Hnm. revert bi n. induction Hb as [b es Hr Hnx|b es b' ns ess Hr Hnx Hp Hh Hu _ IH];
    intros bi [|n] Hf Hl; simpl in Hl; try lia; cbn [unlink_loop]; simpl in Hf; rewrite find_es_app in Hf.
  all: rewrite (bind_run _ _ _ (((λ p, Z.of_nat p.1) <$> find_es (c_str name) es)) (Yfs m h c))
    by (unfold st_lift; by rewrite (find_entry_rep b es)).
  all: destruct (find_es (c_str name) es) as [[]|]; [done|]; cbn [fmap option_fmap option_map].
  - by rewrite Hnx.
  - destruct (Z.eqb_spec (i_next b) 0); [done|]. run (safe_get_run m h c (i_next b) b' b parent Hu Hp Hh).
    cbv beta iota. apply IH; [|lia]. by destruct (find_es (c_str name) (concat ess)) as [[]|].
Qed.

(** The entry found, and what the directory becomes when its block is replaced by
    one without the entry. *)
Lemma unlink_loop_some m h c parent bi b ns ess name n k inum :
  dir_blocks m h parent b ns ess → Forall (λ c, 0 ≤ c) name → used m h bi b → bi ∉ ns →
  find_es (c_str name) (concat ess) = Some (k, inum) → (length ess ≤ n)%nat →
  ∃ bi' i b' es', unlink_loop n parent bi name b (Yfs m h c) = Ret (Some (bi', Z.of_nat i, b'), Yfs m h c) ∧
    (bi' = bi ∨ bi' ∈ ns) ∧ used m h bi' b' ∧ dir_rep b' es' ∧ (i < length es')%nat ∧
    entry_inum (Z.of_nat i) b' = inum ∧
    ∀ nb, dir_rep nb (delete i es') → i_next nb = i_next b' →
      ∃ ess', length ess' = length ess ∧ concat ess' = delete k (concat ess) ∧
        dir_blocks (<[bi' := nb]> m) h parent (if decide (bi' = bi) then nb else b) ns ess'.
Proof.
  intros Hb Hnm. revert bi n k. induction Hb as [b es Hr Hnx|b es b' ns ess Hr Hnx Hp Hh Hu Hb IH];
    intros bi [|n] k Hub Hbi Hf Hl; simpl in Hl; try lia; cbn [unlink_loop]; simpl in Hf; rewrite find_es_app in Hf.
  all: rewrite (bind_run _ _ _ (((λ p, Z.of_nat p.1) <$> find_es (c_str name) es)) (Yfs m h c))
    by (unfold st_lift; by rewrite (find_entry_rep b es)).
  all: destruct (find_es (c_str name) es) as [[i inum']|] eqn:Ef; cbn [fmap option_fmap option_map fst].
  - injection Hf as <- <-. exists bi, i, b, es. pose proof (lookup_lt_Some _ _ _ (find_es_lookup _ _ _ _ Ef)).
    split_and!; [done|by left|done|done|done|by eapply entry_inum_rep|]. intros nb Hnb Hn.
    exists [delete i es]. rewrite decide_True by done. simpl. rewrite !app_nil_r.
    split_and!; [done|done|]. constructor; [done|congruence].
  - done.
  - injection Hf as <- <-. exists bi, i, b, es. pose proof (lookup_lt_Some _ _ _ (find_es_lookup _ _ _ _ Ef)).
    split_and!; [done|by left|done|done|done|by eapply entry_inum_rep|]. intros nb Hnb Hn.
    exists (delete i es :: ess). rewrite decide_True by done. simpl. rewrite delete_app_lt by done.
    split_and!; [done|done|]. apply dir_blocks_insert_ne; [|apply Hub|done].
    apply (dir_blocks_head m h parent b _ es); [by apply (db_next _ _ _ _ _ b')|done|done].
  - destruct (find_es (c_str name) (concat ess)) as [[k' inum']|] eqn:Ef'; [|done]. injection Hf as <- <-.
    destruct (Z.eqb_spec (i_next b) 0); [done|]. run (safe_get_run m h c (i_next b) b' b parent Hu Hp Hh).
    cbv beta iota. apply not_elem_of_cons in Hbi as [Hne Hbi].
    pose proof (dir_blocks_nodup _ _ _ _ _ _ (db_next _ _ _ _ _ _ _ _ Hr Hnx Hp Hh Hu Hb)) as [Hni _]%NoDup_cons.
    destruct (IH (i_next b) n k' Hu Hni eq_refl ltac:(lia)) as (bi' & i & b2 & es' & E & Hin & Hu2 & Hr2 & Hi & En & Hs).
    exists bi', i, b2, es'. rewrite elem_of_cons. split_and!; [done|tauto|done|done|done|done|].
    intros nb Hnb Hn. destruct (Hs nb Hnb Hn) as (ess' & El & Ec & Hb').
    exists (es :: ess'). simpl. rewrite Ec, delete_app_ge, El.
    assert (bi' ≠ bi) as Hbi' by (intros ->; destruct Hin; done).
    rewrite decide_False by done. split_and!; [done|done|].
    apply (db_next _ _ _ _ _ (if decide (bi' = i_next b) then nb else b')); try done.
    case_decide as Hd; [rewrite Hd; by eapply used_insert_eq|]. apply used_insert_ne; [apply Hu2|done|done].
Qed.

(** * Deleting an entry and finding names *)
Lemma find_es_none s es : find_es s es = None ↔ s ∉ es.*1.
Proof.
  induction es as [|e es IH]; simpl; [split; [by intros _ ?%elem_of_nil|done]|].
  rewrite not_elem_of_cons. destruct (bool_decide_reflect (e.1 = s)) as [->|Hne]; [split; [done|tauto]|].
  destruct (find_es s es) as [[]|] eqn:E; simpl; [split; [done|intros [_ ?%IH]; done]|].
  split; [intros _; split; [congruence|by apply IH]|done].
Qed.

Lemma find_es_delete_ne s s' es k inum :
  find_es s es = Some (k, inum) → s' ≠ s → snd <$> find_es s' (delete k es) = snd <$> find_es s' es.
Proof.
  revert k. induction es as [|e es IH]; intros k; simpl; [done|].
  destruct (bool_decide_reflect (e.1 = s)) as [<-|Hne].
  - intros [= <- <-] Hs. simpl. rewrite bool_decide_false by congruence. by destruct (find_es s' es) as [[]|].
  - destruct (find_es s es) as [[k' n]|]; [|done]. intros [= <- <-] Hs. simpl.
    destruct (bool_decide (e.1 = s')); [done|]. specialize (IH k' eq_refl Hs).
    destruct (find_es s' (delete k' es)) as [[]|], (find_es s' es) as [[]|]; done.
Qed.

Lemma find_es_delete_eq s es k inum :
  find_es s es = Some (k, inum) → NoDup es.*1 → find_es s (delete k es) = None.
Proof.
  revert k. induction es as [|e es IH]; intros k; simpl; [done|]. rewrite NoDup_cons.
  destruct (bool_decide_reflect (e.1 = s)) as [<-|Hne].
  - intros [= <- <-] [Hn _]. simpl. by apply find_es_none.
  - destruct (find_es s es) as [[k' n]|]; [|done]. intros [= <- <-] [_ Hnd]. simpl.
    rewrite bool_decide_false by done. by rewrite (IH k').
Qed.

Lemma owned_insert m h ino l k nb :
  in_bitmap_area k = false → k ∉ l → owned m h ino l → owned (<[k := nb]> m) h ino l.
Proof.
  intros Ha Hk Ho. induction Ho as [|ino b l H0 Hh Hu Hd _ IH]; [constructor|].
  rewrite !elem_of_app, list_elem_of_singleton in Hk. constructor; [done|done| | |apply IH; tauto].
  - apply used_insert_ne; [done|tauto|done].
  - eapply Forall_impl; [exact Hd|]. intros d (H1 & H2 & H3). split_and!; [done|by rewrite bit_of_insert|done].
Qed.

(** * unlink *)
Section unlink.
Context (time : nat → Z) (junk : list Z) (fuel : nat).
Context (m : gmap Z (list Z)) (h : gset Z) (c : nat) (parent : Z) (b : list Z).
Context (ns : list Z) (ess : list entries) (name : list Z).
Hypothesis (Hwf : bs_wf m) (Hh : parent ∉ h) (Hu : used m ({[parent]} ∪ h) parent b).
Hypothesis (Hb : dir_blocks m ({[parent]} ∪ h) parent b ns ess) (Hn : Forall (λ c, 0 ≤ c) name).
Hypothesis (Hl : (length ess ≤ fuel)%nat).

(** The directory block with the new times. *)
Definition unlink_touched : list Z := set_ctime (u64 (time (S c))) (set_mtime (u64 (time c)) b).

Let b1 := unlink_touched.
Let m1 := <[parent := b1]> m.

Lemma parent_not_in : parent ∉ ns.
Proof. intros Hin. by destruct (dir_blocks_not_held _ _ _ _ _ _ _ Hb Hin) as (_ & ? & _). Qed.

Lemma touched_blocks : is_block b1 ∧ dir_blocks m1 ({[parent]} ∪ h) parent b1 ns ess.
Proof.
  pose proof (dir_blocks_rep _ _ _ _ _ _ Hb) as Hbl.
  assert (is_block b1) as Hb1 by (do 2 (apply wr_block; [lia|]); done).
  split; [done|]. apply dir_blocks_insert_ne; [|apply Hu|apply parent_not_in].
  assert (∃ es ess', ess = es :: ess' ∧ dir_rep b es) as (es & ess' & -> & Hr) by (destruct Hb; eauto).
  apply (dir_blocks_head m _ parent b ns es); [done| |].
  - do 2 (apply dir_rep_wr; [|lia]). done.
  - unfold b1, unlink_touched, i_next, set_ctime, set_mtime.
    rewrite !rd_wr_ne by (rewrite ?length_wr by (rewrite (proj1 Hbl); lia); rewrite ?(proj1 Hbl); lia). done.
Qed.

Lemma unlink_missing_run :
  find_es (c_str name) (concat ess) = None →
  unlink time junk fuel parent name (Yfs m h c) = Ret (y_NOENT, Yfs m1 h (S (S c))).
Proof.
  intros Hf. destruct touched_blocks as [Hb1 Hbs]. unfold unlink. run (acquire_run _ _ c _ Hh).
  run (safe_get_own _ _ c _ _ junk Hu). cbv beta iota. run (time0_run time _ _ c).
  run (time0_run time _ _ (S c)). cbv zeta. run (safe_put_own _ _ (S (S c)) _ _ b1 Hu Hb1).
  run (unlink_loop_none _ _ (S (S c)) _ parent _ _ _ _ fuel Hbs Hn Hf Hl). cbv beta iota.
  run (eq_refl (x := Ret (y_NOENT, Yfs m1 ({[parent]} ∪ h) (S (S c))))).
  by run (release_run m1 h (S (S c)) parent Hh).
Qed.

Context (inum : Z) (l : list Z) (i : nat).
Hypothesis (Hf : find_es (c_str name) (concat ess) = Some (i, inum)).
Hypothesis (Ho : owned m ({[parent]} ∪ h) inum l) (Hnd : NoDup l) (Hfl : (length l < fuel)%nat).
Hypothesis (Hdis : parent :: ns ## l).

Lemma unlink_run :
  ∃ m' b' ess', unlink time junk fuel parent name (Yfs m h c) = Ret (y_OK, Yfs m' h (S (S c))) ∧
    (∀ j, has_bit j → bit_of m' j = if decide (j ∈ l) then Some false else bit_of m j) ∧
    (∀ j, in_bitmap_area j = false → j ∉ parent :: ns → m' !! j = m !! j) ∧
    used m' ({[parent]} ∪ h) parent b' ∧ dir_blocks m' ({[parent]} ∪ h) parent b' ns ess' ∧
    length ess' = length ess ∧ concat ess' = delete i (concat ess) ∧ bs_wf m'.
Proof.
  destruct touched_blocks as [Hb1 Hbs]. pose proof (used_insert_eq _ _ _ _ b1 Hu) as Hu1. fold m1 in Hu1.
  destruct (unlink_loop_some _ _ (S (S c)) _ parent _ _ _ _ fuel _ _ Hbs Hn Hu1 parent_not_in Hf Hl)
    as (bi & ix & b2 & es' & E & Hin & Hu2 & Hr2 & Hi & En & Hs).
  destruct (without_entry_rep b2 es' ix Hr2 Hi) as (nb & Ew & Hnb & Hnx).
  destruct (Hs nb Hnb Hnx) as (ess' & El & Ec & Hb').
  set (m2 := <[bi := nb]> m1). set (b' := if decide (bi = parent) then nb else b1) in *.
  assert (bi ∈ parent :: ns) as Hbi by (rewrite elem_of_cons; tauto).
  assert (in_bitmap_area bi = false) as Hba by apply Hu2.
  assert (safe_put bi nb parent (Yfs m1 ({[parent]} ∪ h) (S (S c)))
    = Ret (y_OK, Yfs m2 ({[parent]} ∪ h) (S (S c)))) as Ep.
  { destruct Hin as [->|Hin]; [eapply safe_put_own; [done|apply Hnb]|].
    destruct (dir_blocks_not_held _ _ _ _ _ _ _ Hb Hin) as (H1 & H2 & _).
    eapply safe_put_run; [done|apply Hnb|done|done]. }
  assert (used m2 ({[parent]} ∪ h) parent b') as Hu'.
  { unfold b'. case_decide as Hd; [unfold m2; rewrite Hd; by eapply used_insert_eq|].
    by apply used_insert_ne. }
  assert (owned m2 ({[parent]} ∪ h) inum l) as Ho2.
  { apply owned_insert; [done|intros Hx; by apply (Hdis bi)|].
    apply owned_insert; [apply Hu|intros Hx; by apply (Hdis parent); [left|]|done]. }
  assert (bs_wf m2) as Hwf2.
  { repeat (apply map_Forall_insert_2; [split; [apply has_bit_id; (apply Hu || apply Hu2)|(apply Hnb || done)]|]).
    done. }
  destruct (recursive_unlink_run junk m2 _ (S (S c)) fuel inum l Hwf2 Ho2 Hnd Hfl) as (m' & Er & F).
  exists m', b', ess'. split_and!; [|..].
  - unfold unlink. run (acquire_run _ _ c _ Hh).
    run (safe_get_own _ _ c _ _ junk Hu). cbv beta iota. run (time0_run time _ _ c).
    run (time0_run time _ _ (S c)). cbv zeta. run (safe_put_own _ _ (S (S c)) _ _ b1 Hu Hb1).
    fold m1. run E. cbv beta iota.
    erewrite bind_run; [by run (release_run m' h (S (S c)) parent Hh)|].
    erewrite bind_run; [|unfold st_lift; by rewrite Ew]. run Ep. rewrite En. by run Er.
  - intros j Hj. rewrite (fr_bit _ _ _ F). unfold m2, m1. by rewrite !bit_of_insert by (done || apply Hu).
  - intros j Hj Hout. rewrite (fr_rest _ _ _ F) by done. unfold m2, m1.
    rewrite !lookup_insert_ne; [done|intros ->; apply Hout; by left|intros ->; done].
  - apply (freed_used _ _ _ _ _ _ F); [|done]. intros Hx. by apply (Hdis parent); [left|].
  - apply (freed_dir_blocks _ _ _ _ _ _ _ _ F); [done|]. intros x Hx. apply Hdis. by right.
  - done.
  - done.
  - apply F.
Qed.
End unlink.

(** * Theorems *)

(** unlink removes a file: it returns OK, frees exactly the blocks of the
    file, its inodes and its data, and leaves every block outside the directory
    as it was; after it lookup finds every other name as before, and does not
    find the name any more when the directory had it once. *)
Theorem unlink_removes (time : nat → Z) (junk : list Z) (fuel : nat) (m : gmap Z (list Z)) (h : gset Z) (c : nat)
    (parent : Z) (b : list Z) (ns : list Z) (ess : list entries) (name : list Z) (i : nat) (inum : Z) (l : list Z) :
  bs_wf m → parent ∉ h → used m ({[parent]} ∪ h) parent b → dir_blocks m ({[parent]} ∪ h) parent b ns ess →
  Forall (λ c, 0 ≤ c) name → (length ess ≤ fuel)%nat →
  find_es (c_str name) (concat ess) = Some (i, inum) → owned m ({[parent]} ∪ h) inum l → NoDup l →
  (length l < fuel)%nat → parent :: ns ## l →
  ∃ m', unlink time junk fuel parent name (Yfs m h c) = Ret (y_OK, Yfs m' h (S (S c))) ∧
    (∀ j, has_bit j → bit_of m' j = if decide (j ∈ l) then Some false else bit_of m j) ∧
    (∀ j, in_bitmap_area j = false → j ∉ parent :: ns → m' !! j = m !! j) ∧
    (∀ name', Forall (λ c, 0 ≤ c) name' → c_str name' ≠ c_str name →
       ∃ s, lookup time junk fuel parent name' (Yfs m' h (S (S c))) = Ret (lookup_es (c_str name') ess, s)) ∧
    (NoDup (concat ess).*1 → ∃ s, lookup time junk fuel parent name (Yfs m' h (S (S c))) = Ret (0, s)).
Proof.
  intros Hwf Hh Hu Hb Hn Hl Hf Ho Hnd Hfl Hdis.
  destruct (unlink_run time junk fuel m h c parent b ns ess name Hwf Hh Hu Hb Hn Hl inum l i Hf Ho Hnd Hfl Hdis)
    as (m' & b' & ess' & E & B & R & Hu' & Hb' & El & Ec & _).
  exists m'. split_and!; [done|done|done|..].
  all: pose proof (dir_blocks_chain _ _ _ _ _ _ Hb') as Hc'.
  - intros name' Hn' Hne. eexists. rewrite (lookup_run time junk fuel m' h _ parent b' ess') by (done || lia).
    unfold lookup_es. by rewrite Ec, (find_es_delete_ne (c_str name) _ _ _ inum).
  - intros Hdup. eexists. rewrite (lookup_run time junk fuel m' h _ parent b' ess') by (done || lia).
    unfold lookup_es. by rewrite Ec, (find_es_delete_eq _ _ _ inum).
Qed.

(** unlink of a name that the directory does not have answers NOENT and
    changes nothing but the times of the directory. *)
Theorem unlink_missing (time : nat → Z) (junk : list Z) (fuel : nat) (m : gmap Z (list Z)) (h : gset Z) (c : nat)
    (parent : Z) (b : list Z) (ns : list Z) (ess : list entries) (name : list Z) :
  parent ∉ h → used m ({[parent]} ∪ h) parent b → dir_blocks m ({[parent]} ∪ h) parent b ns ess →
  Forall (λ c, 0 ≤ c) name → (length ess ≤ fuel)%nat → find_es (c_str name) (concat ess) = None →
  unlink time junk fuel parent name (Yfs m h c)
  = Ret (y_NOENT, Yfs (<[parent := unlink_touched time c b]> m) h (S (S c))).
Proof. intros Hh Hu Hb Hn Hl Hf. by apply (unlink_missing_run time junk fuel m h c parent b ns ess). Qed.

(** ** Unlinking the file of two blocks *)
Lemma ex_root_rep : dir_rep (ex_block 1) [([97], 2)].
Proof.
  split; [by_vm|vm_compute; reflexivity|simpl; lia|].
  intros [|i] nm inum; [|done]. intros [= <- <-].
  split; [split; [simpl; lia|repeat constructor; lia]|]. split; [|vm_compute; reflexivity].
  exists (replicate 62 0). vm_compute. reflexivity.
Qed.

Lemma ex_root_blocks : dir_blocks (y_store ex_file_fs) ({[1]} ∪ ∅) 1 (ex_block 1) [] [[([97], 2)]].
Proof. apply db_end; [exact ex_root_rep|by_vm]. Qed.

Lemma ex_owned : owned (y_store ex_file_fs) ({[1]} ∪ ∅) 2 [3; 4; 2].
Proof.
  assert (directs 16 0 (ex_block 2) = [3; 4]) as E by by_vm. change [3; 4; 2] with ([3; 4] ++ [] ++ [2]).
  rewrite <- E. apply ow_inode; [lia|by_vm|ex_used| |].
  - rewrite E. apply Forall_cons. split; [|apply Forall_singleton]; (split; [unfold has_bit; lia|split; by_vm]).
  - assert (i_next (ex_block 2) = 0) as -> by by_vm. constructor.
Qed.

Lemma ex_apart : [1] ## [3; 4; 2].
Proof. intros x ->%list_elem_of_singleton. by_vm. Qed.

Lemma unlink_removes_witness :
  ∃ m' s, unlink ex_time ex_junk 5 1 [97] (Yfs (y_store ex_file_fs) ∅ 0) = Ret (y_OK, Yfs m' ∅ 2) ∧
    bit_of m' 4 = Some false ∧ lookup ex_time ex_junk 5 1 [97] (Yfs m' ∅ 2) = Ret (0, s).
Proof.
  destruct (unlink_removes ex_time ex_junk 5 (y_store ex_file_fs) ∅ 0 1 (ex_block 1) [] [[([97], 2)]] [97] 0 2 [3; 4; 2])
    as (m' & E & B & _ & _ & L); [by_vm|apply not_elem_of_empty|ex_used|exact ex_root_blocks|by_vm
    |simpl; lia|reflexivity|exact ex_owned|by_vm|simpl; lia|exact ex_apart|].
  destruct L as [s L]; [by_vm|]. exists m', s. split; [exact E|]. split; [|exact L].
  rewrite B by (unfold has_bit; lia). reflexivity.
Defined.

Lemma unlink_missing_witness :
  unlink ex_time ex_junk 5 1 [98] (Yfs (y_store ex_file_fs) ∅ 0)
  = Ret (y_NOENT, Yfs (<[1 := unlink_touched ex_time 0 (ex_block 1)]> (y_store ex_file_fs)) ∅ 2).
Proof.
  apply (unlink_missing ex_time ex_junk 5 (y_store ex_file_fs) ∅ 0 1 (ex_block 1) [] [[([97], 2)]] [98]);
    [apply not_elem_of_empty|ex_used|exact ex_root_blocks|by_vm|simpl; lia|reflexivity].
Defined.
