(* ===== verification/YfsGrow.v ===== *)
(** Files that grow: write of yfs_client.cc past the blocks of a file, with the
    blocks it allocates, for data and for further inodes of the chain.

    A whole file is described by positions: its inodes and its data blocks, as
    lists of block numbers and contents; [file] of YfsFileSpec.v follows. *)
From Stdlib Require Import Sorted.
From S2P Require Import Prelude ExtentServer ExtentCache YfsBlock YfsFile YfsDir YfsOps YfsLocks.
From S2P Require Import YfsRefine YfsAlloc YfsDirSpec YfsFileSpec.
Local Open Scope Z_scope.

(** * Free blocks *)

(** The smallest free blocks, in the order in which the allocator finds them;
    [fuel] is enough to reach them. *)
Record free_list (fuel : nat) (m : gmap Z (list Z)) (h : gset Z) (l : list Z) : Prop := {
  fl_wf : bs_wf m;
  fl_sorted : StronglySorted Z.lt l;
  fl_each : Forall (λ i, has_bit i ∧ in_bitmap_area i = false ∧ i ≠ 0 ∧ i ∉ h ∧ (Z.to_nat i < fuel)%nat) l;
  fl_bits : ∀ i j, i ∈ l → 0 ≤ j ≤ i → bit_of m j = Some (bool_decide (j ∉ l));
  fl_area : ∀ i x, i ∈ l → 10 ≤ x ≤ bitmap_block i → x ∉ h }.

Lemma wf_insert (m : gmap Z (list Z)) k b : bs_wf m → id_ok k → is_block b → bs_wf (<[k := b]> m).
Proof. intros Hw Hk Hb. by apply map_Forall_insert_2. Qed.

Lemma wf_allocated (m : gmap Z (list Z)) h i buf : first_free m h i → is_block buf → bs_wf (allocated m i buf).
Proof.
  intros Hff Hb. destruct (bit_of_Some _ _ _ (ff_free _ _ _ Hff)) as (bm & Hbm & _).
  destruct (ff_wf _ _ _ Hff _ _ Hbm) as [Hk Hbmb]. unfold allocated. rewrite Hbm.
  apply wf_insert; [apply wf_insert; [apply Hff|apply Hff|done]|done|by apply set_bit_block].
Qed.

Lemma area_bitmap i x : has_bit i → 10 ≤ x ≤ bitmap_block i → in_bitmap_area x = true.
Proof.
  intros Hi%has_bit_block Hx. unfold in_bitmap_area, BLOCK_BITMAP_BEGIN_BLOCK, BLOCK_BITMAP_END_BLOCK.
  apply andb_true_iff. split; apply Z.leb_le; lia.
Qed.

Lemma free_first fuel m h i l : free_list fuel m h (i :: l) → first_free m h i.
Proof.
  intros [Hw Hs He Hb Ha]. apply StronglySorted_inv in Hs as [_ Hs]. rewrite Forall_forall in Hs.
  apply Forall_cons in He as [(E1 & E2 & E3 & E4 & E5) _]. split; try done.
  - by apply has_bit_id.
  - intros j Hj. rewrite (Hb i j) by (by left || lia). f_equal. apply bool_decide_eq_true. intros [->|Hin]%elem_of_cons; [lia|].
    apply Hs in Hin. lia.
  - rewrite (Hb i i) by (by left || (unfold has_bit in E1; lia)). f_equal. apply bool_decide_eq_false. intros H. apply H. by left.
  - intros x Hx. split; [apply (Ha i); [by left|done]|]. intros ->. by rewrite (area_bitmap i i) in E2.
Qed.

Lemma free_rest fuel m h i l buf :
  free_list fuel m h (i :: l) → is_block buf → free_list fuel (allocated m i buf) h l.
Proof.
  intros Hf Hbuf. pose proof (free_first _ _ _ _ _ Hf) as Hff. destruct Hf as [Hw Hs He Hb Ha].
  apply StronglySorted_inv in Hs as [Hs Hlt]. rewrite Forall_forall in Hlt. apply Forall_cons in He as [(E1 & E2 & E3 & E4 & E5) He].
  destruct (allocated_spec m h i buf Hff E2) as (B & _ & _). split; try done.
  - by eapply wf_allocated.
  - intros k j Hk Hj. rewrite Forall_forall in He. destruct (He k Hk) as [Hbk _]. rewrite B by (unfold has_bit in *; lia).
    case_decide as Hji.
    + subst j. f_equal. symmetry. apply bool_decide_eq_true. intros Hin%Hlt. lia.
    + rewrite (Hb k j) by (by right || lia). f_equal. apply bool_decide_ext. rewrite not_elem_of_cons. naive_solver.
  - intros k x Hk. apply Ha. by right.
Qed.

Lemma free_insert fuel m h l k b :
  free_list fuel m h l → in_bitmap_area k = false → id_ok k → is_block b → free_list fuel (<[k := b]> m) h l.
Proof.
  intros [Hw Hs He Hb Ha] Hk Hid Hbk. split; try done; [by apply wf_insert|].
  intros i j Hi Hj. rewrite Forall_forall in He. destruct (He i Hi) as [Hbi _]. rewrite bit_of_insert; [by apply (Hb i)|done|unfold has_bit in *; lia].
Qed.

Lemma used_not_free fuel m h h' l i b : free_list fuel m h l → used m h' i b → i ∉ l.
Proof.
  intros Hf Hu Hin. pose proof (us_bit _ _ _ _ Hu) as Hb. rewrite (fl_bits _ _ _ _ Hf i i) in Hb.
  - injection Hb as Hb%bool_decide_eq_true. done.
  - done.
  - pose proof (us_has _ _ _ _ Hu) as Hh. unfold has_bit in Hh. lia.
Qed.

(** * The blocks of one file *)

(** Different used blocks; the thread may hold the first inode, and no other. *)
Definition part_of (m : gmap Z (list Z)) (h : gset Z) (ino : Z) (p : Z * list Z) : Prop :=
  used m h p.1 p.2 ∧ is_block p.2 ∧ p.1 ≠ 0 ∧ (p.1 = ino ∨ p.1 ∉ h).

Definition owns (m : gmap Z (list Z)) (h : gset Z) (ino : Z) (l : list (Z * list Z)) : Prop :=
  NoDup l.*1 ∧ Forall (part_of m h ino) l.

Lemma owns_perm m h ino l l' : l ≡ₚ l' → owns m h ino l → owns m h ino l'.
Proof. intros Hp [H1 H2]. split; by rewrite <- Hp. Qed.

Lemma owns_part m h ino l p : owns m h ino l → p ∈ l → part_of m h ino p.
Proof. intros [_ H]. rewrite Forall_forall in H. apply H. Qed.

Lemma part_of_get m h ino c p buf :
  part_of m h ino p →
  safe_get p.1 buf ino (Yfs m h c) = Ret ((y_OK, p.2), Yfs m h c).
Proof.
  intros (Hu & _ & _ & [E|Hh]); [rewrite E in *; by apply safe_get_own|].
  destruct (decide (p.1 = ino)) as [E|Hne]; [rewrite E in *; by apply safe_get_own|by apply safe_get_run].
Qed.

Lemma part_of_put m h ino c p b :
  part_of m h ino p → is_block b →
  safe_put p.1 b ino (Yfs m h c) = Ret (y_OK, Yfs (<[p.1 := b]> m) h c).
Proof.
  intros (Hu & _ & _ & [E|Hh]) Hb; [rewrite E in *; by eapply safe_put_own|].
  destruct (decide (p.1 = ino)) as [E|Hne]; [rewrite E in *; by eapply safe_put_own|by eapply safe_put_run].
Qed.

(** A block of the file gets new contents. *)
Lemma owns_insert m h ino l i k b b' :
  owns m h ino l → l !! i = Some (k, b) → is_block b' → owns (<[k := b']> m) h ino (<[i := (k, b')]> l).
Proof.
  intros Ho Hi Hb. pose proof (owns_part _ _ _ _ _ Ho (list_elem_of_lookup_2 _ _ _ Hi)) as Hp. destruct Ho as [Hd Hf].
  destruct Hp as (Hu & _ & H0 & Hh). simpl in *. split.
  - rewrite list_fmap_insert. simpl. rewrite list_insert_id; [done|]. by rewrite list_lookup_fmap, Hi.
  - apply Forall_lookup. intros j p Hj. destruct (decide (i = j)) as [<-|Hne].
    + rewrite list_lookup_insert_eq in Hj by (by eapply lookup_lt_Some). injection Hj as <-.
      split_and!; try done. by eapply used_insert_eq.
    + rewrite list_lookup_insert_ne in Hj by done. rewrite Forall_lookup in Hf.
      destruct (Hf _ _ Hj) as (U & B & N & N'). split_and!; try done.
      apply used_insert_ne; [apply Hu| |done]. simpl. intros E. apply Hne.
      eapply (NoDup_lookup l.*1); [done|rewrite list_lookup_fmap, Hi; done|]. by rewrite list_lookup_fmap, Hj, E.
Qed.

Lemma used_new fuel m h d l buf : free_list fuel m h (d :: l) → used (allocated m d buf) h d buf.
Proof.
  intros Hf. pose proof (free_first _ _ _ _ _ Hf) as Hff.
  pose proof (fl_each _ _ _ _ Hf) as He. apply Forall_cons in He as [(E1 & E2 & E3 & E4 & E5) _].
  destruct (allocated_spec m h d buf Hff E2) as (B & L & G).
  split; try done; [rewrite B by done; by rewrite decide_True|].
  apply (fl_area _ _ _ _ Hf d); [by left|]. pose proof (has_bit_block d E1). lia.
Qed.

Lemma owns_allocated fuel m h ino l d fl buf :
  owns m h ino l → free_list fuel m h (d :: fl) → is_block buf →
  owns (allocated m d buf) h ino (l ++ [(d, buf)]).
Proof.
  intros [Hd Hf] Hfl Hb. pose proof (free_first _ _ _ _ _ Hfl) as Hff.
  pose proof (fl_each _ _ _ _ Hfl) as He. apply Forall_cons in He as [(E1 & E2 & E3 & E4 & E5) _]. split.
  - rewrite fmap_app. apply NoDup_app. split_and!; [done| |apply NoDup_singleton].
    intros x (p & -> & Hp)%list_elem_of_fmap Hx. apply list_elem_of_singleton in Hx. rewrite Forall_forall in Hf.
    destruct (Hf p Hp) as (Hu & _). apply (used_not_free _ _ _ _ _ _ _ Hfl Hu). rewrite Hx. by left.
  - apply Forall_app. split.
    + eapply Forall_impl; [exact Hf|]. intros p (Hu & H). split; [|done]. by eapply used_allocated.
    + constructor; [|done]. split_and!; [by eapply used_new|done|done|by right].
Qed.

(** The file of inode number [ino]: its inodes and its data blocks, in order.
    Sixteen data blocks to an inode, and no inode more than they need. *)
Record whole (m : gmap Z (list Z)) (h : gset Z) (ino : Z) (ins ds : list (Z * list Z)) : Prop := {
  wh_owns : owns m h ino (ins ++ ds);
  wh_first : fst <$> ins !! 0%nat = Some ino;
  wh_next : ∀ i t b, ins !! i = Some (t, b) → i_next b = default 0 (fst <$> ins !! S i);
  wh_direct : ∀ i t b j, ins !! i = Some (t, b) → (j < 16)%nat →
    direct_block (Z.of_nat j) b = default 0 (fst <$> ds !! (16 * i + j)%nat);
  wh_len : (length ds ≤ 16 * length ins ∧ 16 * length ins ≤ length ds + 16)%nat }.

Section whole_facts.
Context {m : gmap Z (list Z)} {h : gset Z} {ino : Z} {ins ds : list (Z * list Z)} (W : whole m h ino ins ds).

Lemma whole_inode i t b : ins !! i = Some (t, b) → part_of m h ino (t, b).
Proof. intros Hi. eapply owns_part; [apply W|]. apply elem_of_app. left. by eapply list_elem_of_lookup_2. Qed.

Lemma whole_block k d b : ds !! k = Some (d, b) → part_of m h ino (d, b).
Proof. intros Hi. eapply owns_part; [apply W|]. apply elem_of_app. right. by eapply list_elem_of_lookup_2. Qed.

Lemma whole_not_first k d b : (ins ++ ds) !! S k = Some (d, b) → d ≠ ino.
Proof.
  intros Hk ->. destruct W as [[Hd _] Hf _ _ _]. assert (S k = 0%nat); [|lia].
  eapply (NoDup_lookup (ins ++ ds).*1); [done|by rewrite list_lookup_fmap, Hk|].
  rewrite list_lookup_fmap. by destruct ins as [|[]].
Qed.

Lemma whole_inode_ne i t b : ins !! S i = Some (t, b) → t ≠ ino.
Proof. intros Hi. eapply whole_not_first. by apply lookup_app_l_Some. Qed.

Lemma whole_block_ne k d b : ds !! k = Some (d, b) → d ≠ ino.
Proof.
  intros Hk. assert (0 < length ins)%nat as Hl.
  { pose proof (wh_first _ _ _ _ _ W) as Hf. destruct (ins !! 0%nat) eqn:E; [by eapply lookup_lt_Some|done]. }
  apply (whole_not_first (length ins + k - 1) d b). rewrite lookup_app_r by lia. rewrite <- Hk. f_equal. lia.
Qed.

Lemma whole_at i t b j :
  ins !! i = Some (t, b) → (j ≤ 16)%nat → (16 * i + j ≤ length ds)%nat →
  file_at m h ino b (Z.of_nat j) (drop (S i) ins).*1 (drop (16 * i + j) ds).
Proof.
  remember (length ds - (16 * i + j) + (length ins - i))%nat as n eqn:Hn. revert i t b j Hn.
  induction (lt_wf n) as [n _ IH]. intros i t b j -> Hi Hj Hk.
  pose proof (wh_len _ _ _ _ _ W) as [L1 L2]. pose proof (lookup_lt_Some _ _ _ Hi) as Hil.
  destruct (decide (j = 16%nat)) as [->|Hj16].
  - pose proof (wh_next _ _ _ _ _ W i t b Hi) as Hnx. destruct (ins !! S i) as [[t' b']|] eqn:E.
    + rewrite (drop_S _ _ _ E), fmap_cons. cbn [fst]. simpl in Hnx. rewrite <- Hnx.
      destruct (whole_inode _ _ _ E) as (Hu & _ & H0 & Hh). pose proof (whole_inode_ne _ _ _ E) as Hne. cbn [fst snd] in *.
      apply (fa_next _ _ _ _ b'); rewrite ?Hnx; try done; [by destruct Hh|].
      pose proof (lookup_lt_Some _ _ _ E). replace (16 * i + 16)%nat with (16 * S i + 0)%nat by lia.
      eapply (IH _ _ (S i) t' b' 0%nat eq_refl E); lia.
    + apply lookup_ge_None in E. rewrite !drop_ge by lia. by apply fa_last.
  - pose proof (wh_direct _ _ _ _ _ W i t b j Hi ltac:(lia)) as Hdb.
    destruct (ds !! (16 * i + j)%nat) as [[d db]|] eqn:E.
    + rewrite (drop_S _ _ _ E). destruct (whole_block _ _ _ E) as (Hu & Hb & H0 & Hh).
      pose proof (whole_block_ne _ _ _ E) as Hne. cbn [fst snd] in *. pose proof (lookup_lt_Some _ _ _ E).
      apply fa_block_at; try done; [lia|by destruct Hh|].
      replace (Z.of_nat j + 1) with (Z.of_nat (S j)) by lia. replace (S (16 * i + j)) with (16 * i + S j)%nat by lia.
      eapply (IH _ _ i t b (S j) eq_refl Hi); lia.
    + apply lookup_ge_None in E. rewrite !drop_ge by lia. apply fa_hole; [lia|done].
  Unshelve. all: lia.
Qed.

Lemma whole_blocks : Forall is_block ds.*2.
Proof.
  apply Forall_fmap, Forall_lookup. intros k [d b] Hk. by destruct (whole_block _ _ _ Hk) as (_ & ? & _).
Qed.
End whole_facts.

Lemma whole_file m h ino ins ds b :
  whole m ({[ino]} ∪ h) ino ins ds → ino ∉ h → ins !! 0%nat = Some (ino, b) → file m h ino b (drop 1 ins).*1 ds.
Proof.
  intros W Hh Hi. destruct (whole_inode W _ _ _ Hi) as (Hu & Hb & _). split; try done.
  - apply (whole_at W 0 ino b 0 Hi); lia.
  - destruct W as [[Hd _] _ _ _ _]. destruct ins as [|p l]; [done|]. simpl. rewrite drop_0, <- fmap_app.
    csimpl in Hd. apply NoDup_cons in Hd as [_ Hd]. by rewrite (Permutation_app_comm ds l).
Qed.

(** A file of one inode. *)
Lemma whole_single m h ino b ds :
  owns m h ino ((ino, b) :: ds) → i_next b = 0 → (length ds ≤ 16)%nat →
  (∀ j, (j < 16)%nat → direct_block (Z.of_nat j) b = default 0 (fst <$> ds !! j)) → whole m h ino [(ino, b)] ds.
Proof.
  intros Ho Hn Hl Hd. split; try done; [| |simpl; lia].
  - intros [|i] t b' Hi; [|done]. by injection Hi as <- <-.
  - intros [|i] t b' j Hi Hj; [|done]. injection Hi as <- <-. by apply Hd.
Qed.

(** * Changing a file *)
Lemma rd_zero off n : rd off n zero_block = 0.
Proof.
  unfold rd, zero_block, slice. rewrite drop_replicate, take_replicate. generalize (n `min` (512 - off))%nat. clear.
  intros n. induction n as [|n IH]; [done|]. cbn [replicate le_val]. rewrite IH. done.
Qed.

Definition chain_inode : list Z := set_mode 1 zero_block.

Lemma chain_inode_ok : is_block chain_inode.
Proof. apply wr_block; [lia|apply zero_block_ok]. Qed.

Lemma chain_inode_links : i_next chain_inode = 0 ∧ ∀ j, (j < 16)%nat → direct_block (Z.of_nat j) chain_inode = 0.
Proof.
  assert (length zero_block = 512%nat) as Hl by apply length_replicate.
  split; [|intros j Hj]; unfold i_next, direct_block, block_off, chain_inode, set_mode;
    (rewrite rd_wr_ne; [apply rd_zero|lia|rewrite Hl; lia]).
Qed.

Lemma direct_set_direct (j j' : nat) d b :
  is_block b → (j < 16)%nat → (j' < 16)%nat → 0 ≤ d < 2 ^ 64 →
  direct_block (Z.of_nat j') (set_direct_block (Z.of_nat j) d b) = if decide (j' = j) then d else direct_block (Z.of_nat j') b.
Proof.
  intros [Hl _] Hj Hj' Hd. unfold direct_block, set_direct_block, block_off. case_decide as E.
  - subst j'. rewrite rd_wr_eq by lia. by apply Z.mod_small.
  - apply rd_wr_ne; lia.
Qed.

Lemma next_set_direct (j : nat) d b :
  is_block b → (j < 16)%nat → i_next (set_direct_block (Z.of_nat j) d b) = i_next b.
Proof. intros [Hl _] Hj. unfold i_next, set_direct_block, block_off. apply rd_wr_ne; lia. Qed.

Lemma next_set_next n b : is_block b → 0 ≤ n < 2 ^ 64 → i_next (set_next n b) = n.
Proof. intros [Hl _] Hn. unfold i_next, set_next. rewrite rd_wr_eq by lia. by apply Z.mod_small. Qed.

Lemma direct_set_next (j : nat) n b :
  is_block b → (j < 16)%nat → direct_block (Z.of_nat j) (set_next n b) = direct_block (Z.of_nat j) b.
Proof. intros [Hl _] Hj. unfold direct_block, set_next, block_off. apply rd_wr_ne; lia. Qed.

(** New contents do not change the numbers. *)
Lemma numbers_insert (l : list (Z * list Z)) i k b b' x :
  l !! i = Some (k, b) → fst <$> (<[i := (k, b')]> l) !! x = fst <$> l !! x.
Proof.
  intros Hi. rewrite <- !list_lookup_fmap, list_fmap_insert. simpl. rewrite list_insert_id; [done|].
  by rewrite list_lookup_fmap, Hi.
Qed.

Lemma whole_data m h ino ins ds k d b b' :
  whole m h ino ins ds → ds !! k = Some (d, b) → is_block b' →
  whole (<[d := b']> m) h ino ins (<[k := (d, b')]> ds).
Proof.
  intros W Hk Hb. destruct W as [W2 W3 W4 W5 W6]. split; try done.
  - pose proof (owns_insert m h ino (ins ++ ds) (length ins + k) d b b' W2) as W. rewrite insert_app_r in W. apply W; [|done].
    rewrite lookup_app_r by lia. by rewrite Nat.add_comm, Nat.add_sub.
  - intros i t c j Hi Hj. rewrite (numbers_insert _ _ _ _ _ _ Hk). by eapply W5.
  - by rewrite length_insert.
Qed.

Lemma owns_insert_inode m h ino ins ds i t b b' :
  owns m h ino (ins ++ ds) → ins !! i = Some (t, b) → is_block b' →
  owns (<[t := b']> m) h ino (<[i := (t, b')]> ins ++ ds).
Proof.
  intros Ho Hi Hb. rewrite <- insert_app_l by (by eapply lookup_lt_Some).
  eapply owns_insert; [done| |done]. by apply lookup_app_l_Some.
Qed.

(** An inode changes outside its links. *)
Lemma whole_fields m h ino ins ds i t b b' :
  whole m h ino ins ds → ins !! i = Some (t, b) → is_block b' → i_next b' = i_next b →
  (∀ j, 0 ≤ j < 16 → direct_block j b' = direct_block j b) →
  whole (<[t := b']> m) h ino (<[i := (t, b')]> ins) ds.
Proof.
  intros W Hi Hb En Ed. destruct W as [W2 W3 W4 W5 W6]. split; try done.
  - by eapply owns_insert_inode.
  - by rewrite (numbers_insert _ _ _ _ _ _ Hi).
  - intros x t' c. rewrite (numbers_insert _ _ _ _ _ _ Hi). intros [(<- & [= <- <-] & _)|[_ Hx]]%list_lookup_insert_Some.
    + rewrite En. by eapply W4.
    + by eapply W4.
  - intros x t' c j [(<- & [= <- <-] & _)|[_ Hx]]%list_lookup_insert_Some Hj.
    + rewrite Ed by lia. by eapply W5.
    + by eapply W5.
  - by rewrite length_insert.
Qed.

Lemma free_range fuel m h d l : free_list fuel m h (d :: l) → 0 ≤ d < 2 ^ 64.
Proof.
  intros Hf. pose proof (fl_each _ _ _ _ Hf) as He. apply Forall_cons in He as [(E1 & _) _]. unfold has_bit in E1. lia.
Qed.

(** A data block is added at the end. *)
Lemma whole_add_block fuel m h ino ins ds i j t b d fl :
  whole m h ino ins ds → free_list fuel m h (d :: fl) → ins !! i = Some (t, b) →
  (j < 16)%nat → length ds = (16 * i + j)%nat →
  let b' := set_direct_block (Z.of_nat j) d b in
  whole (<[t := b']> (allocated m d zero_block)) h ino (<[i := (t, b')]> ins) (ds ++ [(d, zero_block)]).
Proof.
  intros W Hfl Hi Hj Hl b'. destruct (whole_inode W _ _ _ Hi) as (_ & Hb & _). cbn [snd] in Hb.
  pose proof (free_range _ _ _ _ _ Hfl) as Hd. pose proof (lookup_lt_Some _ _ _ Hi) as Hil.
  destruct W as [W2 W3 W4 W5 [W6 W7]].
  assert (is_block b') as Hb' by (apply wr_block; [unfold block_off; lia|done]). split.
  - apply (owns_insert_inode _ _ _ ins _ i t b); [|done|done]. rewrite app_assoc.
    eapply owns_allocated; [done|done|apply zero_block_ok].
  - by rewrite (numbers_insert _ _ _ _ _ _ Hi).
  - intros x t' c. rewrite (numbers_insert _ _ _ _ _ _ Hi). intros [(<- & [= <- <-] & _)|[_ Hx]]%list_lookup_insert_Some.
    + unfold b'. rewrite next_set_direct by done. by eapply W4.
    + by eapply W4.
  - intros x t' c j' [(<- & [= <- <-] & _)|[Hne Hx]]%list_lookup_insert_Some Hj'.
    + unfold b'. rewrite direct_set_direct by done. case_decide as E.
      * subst j'. rewrite <- Hl, lookup_app_r, Nat.sub_diag by lia. done.
      * rewrite (W5 i t b j') by done. destruct (decide (j' < j)%nat); [by rewrite lookup_app_l by lia|].
        rewrite (lookup_ge_None_2 ds) by lia. rewrite lookup_ge_None_2; [done|]. rewrite length_app. simpl length. lia.
    + pose proof (lookup_lt_Some _ _ _ Hx). rewrite lookup_app_l by lia. by eapply W5.
  - rewrite length_insert, length_app. simpl length. lia.
Qed.

(** An inode is added at the end of the chain. *)
Lemma whole_add_inode fuel m h ino ins ds i t b n fl :
  whole m h ino ins ds → free_list fuel m h (n :: fl) → ins !! i = Some (t, b) →
  length ins = S i → length ds = (16 * S i)%nat →
  let b' := set_next n b in
  whole (<[t := b']> (allocated m n chain_inode)) h ino (<[i := (t, b')]> ins ++ [(n, chain_inode)]) ds.
Proof.
  intros W Hfl Hi Hn Hl b'. destruct (whole_inode W _ _ _ Hi) as (_ & Hb & _). cbn [snd] in Hb.
  pose proof (free_range _ _ _ _ _ Hfl) as Hd. destruct chain_inode_links as [Nn Nd].
  destruct W as [W2 W3 W4 W5 [W6 W7]].
  assert (is_block b') as Hb' by (apply wr_block; [lia|done]).
  assert (∀ x, fst <$> (<[i := (t, b')]> ins ++ [(n, chain_inode)]) !! x
               = if decide (x = S i) then Some n else fst <$> ins !! x) as Hnum.
  { intros x. case_decide as E; [subst x; by rewrite lookup_app_r, length_insert, Hn, Nat.sub_diag by (rewrite length_insert; lia)|].
    destruct (decide (x < S i)%nat).
    - rewrite lookup_app_l by (rewrite length_insert; lia). by apply (numbers_insert _ _ _ b).
    - rewrite !lookup_ge_None_2; [done|lia|]. rewrite length_app, length_insert. simpl length. lia. }
  assert (∀ x t' c, (<[i := (t, b')]> ins ++ [(n, chain_inode)]) !! x = Some (t', c) →
    (x = S i ∧ t' = n ∧ c = chain_inode) ∨ (x = i ∧ t' = t ∧ c = b') ∨ ((x < i)%nat ∧ ins !! x = Some (t', c))) as Hcase.
  { intros x t' c [Hx|[Hx1 Hx2]]%lookup_app_Some.
    - apply list_lookup_insert_Some in Hx as [(<- & [= <- <-] & _)|[Hne Hx]]; [auto|].
      pose proof (lookup_lt_Some _ _ _ Hx). right. right. split; [lia|done].
    - rewrite length_insert in *. left. apply list_lookup_singleton_Some in Hx2 as [? [= <- <-]]. split_and!; try done. lia. }
  split.
  - apply (owns_perm _ _ _ (<[i := (t, b')]> ins ++ (ds ++ [(n, chain_inode)]))).
    { rewrite <- app_assoc. by rewrite (Permutation_app_comm ds). }
    apply (owns_insert_inode _ _ _ ins _ i t b); [|done|done]. rewrite app_assoc.
    eapply owns_allocated; [done|done|apply chain_inode_ok].
  - rewrite Hnum. by rewrite decide_False by lia.
  - intros x t' c Hx. rewrite Hnum. destruct (Hcase _ _ _ Hx) as [(-> & -> & ->)|[(-> & -> & ->)|[Hlt Hx']]].
    + rewrite decide_False by lia. by rewrite lookup_ge_None_2 by lia.
    + rewrite decide_True by done. by apply next_set_next.
    + rewrite decide_False by lia. by eapply W4.
  - intros x t' c j Hx Hj. destruct (Hcase _ _ _ Hx) as [(-> & -> & ->)|[(-> & -> & ->)|[Hlt Hx']]].
    + rewrite Nd by done. by rewrite lookup_ge_None_2 by lia.
    + unfold b'. rewrite direct_set_next by done. by eapply W5.
    + by eapply W5.
  - rewrite length_app, length_insert. simpl length. lia.
Qed.

(** * One step of a growing file *)

(** The file and the free blocks that are left. *)
Record growing (fuel : nat) (m : gmap Z (list Z)) (h : gset Z) (ino : Z) (ins ds : list (Z * list Z))
    (l : list Z) : Prop := {
  gw_whole : whole m h ino ins ds;
  gw_free : free_list fuel m h l }.

Definition mode_of (ins : list (Z * list Z)) : option Z := (λ p, i_mode p.2) <$> ins !! 0%nat.

(** What a step leaves alone: the blocks of no part of the file and the type of
    the file; its new blocks were free, and no other free block is taken. *)
Record grows (m : gmap Z (list Z)) (ins ds : list (Z * list Z)) (l : list Z)
    (m' : gmap Z (list Z)) (ins' ds' : list (Z * list Z)) (l' : list Z) : Prop := {
  gr_others : ∀ hh x b, used m hh x b → x ∉ (ins ++ ds).*1 → used m' hh x b;
  gr_parts : ∀ x, x ∈ (ins' ++ ds').*1 → x ∈ (ins ++ ds).*1 ∨ x ∈ l;
  gr_keep : ∀ x, x ∈ (ins ++ ds).*1 → x ∈ (ins' ++ ds').*1;
  gr_bits : ∀ x, has_bit x → bit_of m' x = Some true → bit_of m x = Some true ∨ x ∈ (ins' ++ ds').*1;
  gr_exact : ∀ x, has_bit x →
    bit_of m' x = if decide (x ∈ (ins' ++ ds').*1 ∧ x ∉ (ins ++ ds).*1) then Some true else bit_of m x;
  gr_free : ∀ x, x ∈ l' → x ∈ l;
  gr_mode : mode_of ins' = mode_of ins }.

Lemma grows_refl m ins ds l : grows m ins ds l m ins ds l.
Proof. split; auto. intros x _. by rewrite decide_False by tauto. Qed.

Lemma grows_trans fuel h m ins ds l m1 ins1 ds1 l1 m2 ins2 ds2 l2 :
  free_list fuel m h l → grows m ins ds l m1 ins1 ds1 l1 → grows m1 ins1 ds1 l1 m2 ins2 ds2 l2 →
  grows m ins ds l m2 ins2 ds2 l2.
Proof.
  intros Hf [A1 B1 K1 U1 X1 C1 D1] [A2 B2 K2 U2 X2 C2 D2]. split.
  - intros hh x b Hu Hx. apply A2; [by apply A1|]. intros [?|?]%B1; [done|]. by eapply used_not_free.
  - intros x [Hx|Hx]%B2; [by apply B1|]. right. by apply C1.
  - auto.
  - intros x Hb Hx. destruct (U2 x Hb Hx) as [Hx1|]; [|by right]. destruct (U1 x Hb Hx1); [by left|]. right. by apply K2.
  - intros x Hb. rewrite X2, X1 by done. pose proof (K1 x). pose proof (K2 x). repeat case_decide; (done || tauto).
  - auto.
  - congruence.
Qed.

Lemma numbers_insert_fmap (l : list (Z * list Z)) i k b b' :
  l !! i = Some (k, b) → (<[i := (k, b')]> l).*1 = l.*1.
Proof. intros Hi. rewrite list_fmap_insert. apply list_insert_id. by rewrite list_lookup_fmap, Hi. Qed.

Lemma mode_insert ins i t b b' : ins !! i = Some (t, b) → i_mode b' = i_mode b → mode_of (<[i := (t, b')]> ins) = mode_of ins.
Proof.
  intros Hi E. unfold mode_of. destruct (decide (i = 0%nat)) as [->|Hne]; [|by rewrite list_lookup_insert_ne].
  rewrite list_lookup_insert_eq by (by eapply lookup_lt_Some). rewrite Hi. simpl. by rewrite E.
Qed.

Section growing.
Context {fuel : nat} {m : gmap Z (list Z)} {h : gset Z} {ino : Z} {ins ds : list (Z * list Z)} {l : list Z}.
Context (G : growing fuel m h ino ins ds l).

Lemma grow_data k d b b' :
  ds !! k = Some (d, b) → is_block b' →
  growing fuel (<[d := b']> m) h ino ins (<[k := (d, b')]> ds) l ∧
  grows m ins ds l (<[d := b']> m) ins (<[k := (d, b')]> ds) l.
Proof.
  intros Hk Hb. destruct G as [W F]. destruct (whole_block W _ _ _ Hk) as (Hu & _). cbn [fst snd] in Hu.
  pose proof (us_area _ _ _ _ Hu) as Ha. pose proof (has_bit_id _ (us_has _ _ _ _ Hu)) as Hid. split; split; try done.
  - by eapply whole_data.
  - by apply free_insert.
  - intros hh x c Hx Hn. apply used_insert_ne; [done| |done]. intros ->. apply Hn. rewrite fmap_app. apply elem_of_app. right.
    apply list_elem_of_fmap. exists (x, b). split; [done|]. by eapply list_elem_of_lookup_2.
  - intros x. rewrite !fmap_app, (numbers_insert_fmap _ _ _ _ _ Hk). auto.
  - intros x. by rewrite !fmap_app, (numbers_insert_fmap _ _ _ _ _ Hk).
  - intros x Hbx. rewrite bit_of_insert by done. by left.
  - intros x Hbx. rewrite bit_of_insert by done. rewrite !fmap_app, (numbers_insert_fmap _ _ _ _ _ Hk).
    by rewrite decide_False by tauto.
Qed.

Lemma grow_fields i t b b' :
  ins !! i = Some (t, b) → is_block b' → i_next b' = i_next b → i_mode b' = i_mode b →
  (∀ j, 0 ≤ j < 16 → direct_block j b' = direct_block j b) →
  growing fuel (<[t := b']> m) h ino (<[i := (t, b')]> ins) ds l ∧
  grows m ins ds l (<[t := b']> m) (<[i := (t, b')]> ins) ds l.
Proof.
  intros Hi Hb En Em Ed. destruct G as [W F]. destruct (whole_inode W _ _ _ Hi) as (Hu & _). cbn [fst snd] in Hu.
  pose proof (us_area _ _ _ _ Hu) as Ha. pose proof (has_bit_id _ (us_has _ _ _ _ Hu)) as Hid. split; split; try done.
  - by eapply whole_fields.
  - by apply free_insert.
  - intros hh x c Hx Hn. apply used_insert_ne; [done| |done]. intros ->. apply Hn. rewrite fmap_app. apply elem_of_app. left.
    apply list_elem_of_fmap. exists (x, b). split; [done|]. by eapply list_elem_of_lookup_2.
  - intros x. rewrite !fmap_app, (numbers_insert_fmap _ _ _ _ _ Hi). auto.
  - intros x. by rewrite !fmap_app, (numbers_insert_fmap _ _ _ _ _ Hi).
  - intros x Hbx. rewrite bit_of_insert by done. by left.
  - intros x Hbx. rewrite bit_of_insert by done. rewrite !fmap_app, (numbers_insert_fmap _ _ _ _ _ Hi).
    by rewrite decide_False by tauto.
  - by eapply mode_insert.
Qed.
End growing.

(** Allocation takes no other block. *)
Lemma allocated_bits fuel m h d l buf x :
  free_list fuel m h (d :: l) → has_bit x → bit_of (allocated m d buf) x = Some true → bit_of m x = Some true ∨ x = d.
Proof.
  intros F Hx. pose proof (fl_each _ _ _ _ F) as He. apply Forall_cons in He as [(_ & E2 & _) _].
  destruct (allocated_spec m h d buf (free_first _ _ _ _ _ F) E2) as (B & _ & _). rewrite B by done.
  case_decide; [by right|by left].
Qed.

Lemma allocated_exact fuel m h d l buf x :
  free_list fuel m h (d :: l) → has_bit x →
  bit_of (allocated m d buf) x = if decide (x = d) then Some true else bit_of m x.
Proof.
  intros F Hx. pose proof (fl_each _ _ _ _ F) as He. apply Forall_cons in He as [(_ & E2 & _) _].
  destruct (allocated_spec m h d buf (free_first _ _ _ _ _ F) E2) as (B & _ & _). by rewrite B by done.
Qed.

(** A block is taken from the free list and linked into inode [i]. *)
Lemma grow_linked fuel m h ino ins ds l d buf i t b b' :
  growing fuel m h ino ins ds (d :: l) → is_block buf → ins !! i = Some (t, b) → is_block b' →
  free_list fuel (<[t := b']> (allocated m d buf)) h l ∧
  (∀ x, has_bit x → bit_of (<[t := b']> (allocated m d buf)) x = if decide (x = d) then Some true else bit_of m x) ∧
  d ∉ (ins ++ ds).*1 ∧ ∀ hh x c, used m hh x c → x ∉ (ins ++ ds).*1 → used (<[t := b']> (allocated m d buf)) hh x c.
Proof.
  intros [W F] Hbuf Hi Hb. destruct (whole_inode W _ _ _ Hi) as (Hu & _). cbn [fst snd] in Hu.
  pose proof (us_area _ _ _ _ Hu) as Ha. pose proof (has_bit_id _ (us_has _ _ _ _ Hu)) as Hid. split_and!.
  - apply free_insert; try done. by eapply free_rest.
  - intros x Hx. rewrite bit_of_insert by done. by eapply allocated_exact.
  - intros (p & -> & Hp)%list_elem_of_fmap. destruct (owns_part _ _ _ _ _ (wh_owns _ _ _ _ _ W) Hp) as (Hup & _).
    apply (used_not_free _ _ _ _ _ _ _ F Hup). by left.
  - intros hh x c Hx Hn. pose proof (fl_each _ _ _ _ F) as He. apply Forall_cons in He as [(E1 & E2 & _) _].
    apply used_insert_ne; [done| |by eapply used_allocated; [by eapply free_first|..]].
    intros ->. apply Hn. rewrite fmap_app. apply elem_of_app. left.
    apply list_elem_of_fmap. exists (x, b). split; [done|]. by eapply list_elem_of_lookup_2.
Qed.

Lemma grow_block fuel m h ino ins ds l i j t b d :
  growing fuel m h ino ins ds (d :: l) → ins !! i = Some (t, b) → (j < 16)%nat → length ds = (16 * i + j)%nat →
  let b' := set_direct_block (Z.of_nat j) d b in
  let m' := <[t := b']> (allocated m d zero_block) in
  growing fuel m' h ino (<[i := (t, b')]> ins) (ds ++ [(d, zero_block)]) l ∧
  grows m ins ds (d :: l) m' (<[i := (t, b')]> ins) (ds ++ [(d, zero_block)]) l.
Proof.
  intros G Hi Hj Hl b' m'. pose proof G as [W F]. destruct (whole_inode W _ _ _ Hi) as (_ & Hb & _). cbn [snd] in Hb.
  assert (is_block b') as Hb' by (apply wr_block; [unfold block_off; lia|done]).
  destruct (grow_linked _ _ _ _ _ _ _ _ zero_block _ _ _ b' G zero_block_ok Hi Hb') as (F' & B' & N' & O'). split; split; try done.
  - by eapply whole_add_block.
  - intros x. rewrite app_assoc, fmap_app, elem_of_app, !fmap_app, (numbers_insert_fmap _ _ _ _ _ Hi). set_solver.
  - intros x. rewrite !fmap_app, (numbers_insert_fmap _ _ _ _ _ Hi). set_solver.
  - intros x Hbx. rewrite B' by done. case_decide as Hxd; [right|by left]. rewrite !fmap_app, !elem_of_app, Hxd. set_solver.
  - intros x Hbx. rewrite B' by done. apply decide_ext. rewrite !fmap_app, (numbers_insert_fmap _ _ _ _ _ Hi) in *. set_solver.
  - intros x Hx. by right.
  - eapply mode_insert; [done|]. unfold i_mode, b', set_direct_block, block_off. destruct Hb. f_equal. apply rd_wr_ne; lia.
Qed.

Lemma grow_inode fuel m h ino ins ds l i t b n :
  growing fuel m h ino ins ds (n :: l) → ins !! i = Some (t, b) → length ins = S i → length ds = (16 * S i)%nat →
  let b' := set_next n b in
  let m' := <[t := b']> (allocated m n chain_inode) in
  let ins' := <[i := (t, b')]> ins ++ [(n, chain_inode)] in
  growing fuel m' h ino ins' ds l ∧ grows m ins ds (n :: l) m' ins' ds l.
Proof.
  intros G Hi Hn Hl b' m' ins'. pose proof G as [W F]. destruct (whole_inode W _ _ _ Hi) as (_ & Hb & _). cbn [snd] in Hb.
  assert (is_block b') as Hb' by (apply wr_block; [lia|done]).
  destruct (grow_linked _ _ _ _ _ _ _ _ chain_inode _ _ _ b' G chain_inode_ok Hi Hb') as (F' & B' & N' & O'). split; split; try done.
  - by eapply whole_add_inode.
  - intros x. unfold ins'. rewrite !fmap_app, (numbers_insert_fmap _ _ _ _ _ Hi). set_solver.
  - intros x. unfold ins'. rewrite !fmap_app, (numbers_insert_fmap _ _ _ _ _ Hi). set_solver.
  - intros x Hbx. rewrite B' by done. case_decide as Hxd; [right|by left]. unfold ins'. rewrite !fmap_app, !elem_of_app, Hxd. set_solver.
  - intros x Hbx. rewrite B' by done. apply decide_ext. unfold ins'. rewrite !fmap_app, (numbers_insert_fmap _ _ _ _ _ Hi) in *. set_solver.
  - intros x Hx. by right.
  - transitivity (mode_of (<[i := (t, b')]> ins)).
    + unfold mode_of, ins'. rewrite lookup_app_l; [done|]. rewrite length_insert. lia.
    + eapply mode_insert; [done|]. unfold i_mode, b', set_next. destruct Hb. f_equal. apply rd_wr_ne; lia.
Qed.

(** * Touching a block *)
Lemma put_add_free fuel m h c d l buf :
  free_list fuel m h (d :: l) → is_block buf →
  y_put_add fuel 0 buf (Yfs m h c) = Ret ((y_OK, d), Yfs (allocated m d buf) h c).
Proof.
  intros Hf Hb. apply y_put_add_run; [by eapply free_first|done|].
  pose proof (fl_each _ _ _ _ Hf) as He. by apply Forall_cons in He as [(_ & _ & _ & _ & E) _].
Qed.

(** After the allocation the inode is still in its place. *)
Lemma part_allocated fuel m h ino ins ds l i t b d buf :
  growing fuel m h ino ins ds (d :: l) → ins !! i = Some (t, b) → part_of (allocated m d buf) h ino (t, b).
Proof.
  intros [W F] Hi. destruct (whole_inode W _ _ _ Hi) as (Hu & H). split; [|done].
  pose proof (fl_each _ _ _ _ F) as He. apply Forall_cons in He as [(E1 & E2 & _) _].
  eapply used_allocated; [by eapply free_first|done..].
Qed.

(** The data blocks as far as block [k], with zeroes behind the old end. *)
Definition padded (ds ds' : list (Z * list Z)) (k : nat) : Prop :=
  ds'.*2 = ds.*2 ++ replicate (S k - length ds) zero_block.

Lemma padded_length ds ds' k : padded ds ds' k → length ds' = (length ds `max` S k)%nat.
Proof.
  intros H%(f_equal length). rewrite length_app, !length_fmap, length_replicate in H. lia.
Qed.

(** Every block from [k] on that starts past the end of the file is zero; [fs] is
    what the loops count from the size field down to block [k]. *)
Definition past_end (ds : list (Z * list Z)) (k : nat) (fs : Z) : Prop :=
  ∀ k' x, (k ≤ k')%nat → fs < 512 * (Z.of_nat k' - Z.of_nat k) → ds.*2 !! k' = Some x → x = zero_block.

Lemma past_end_padded ds ds' k fs n : past_end ds k fs → padded ds ds' n → past_end ds' k fs.
Proof.
  intros H P k' x Hk Hf. rewrite P. intros [Hx|[_ Hx]]%lookup_app_Some; [by eapply H|].
  by apply lookup_replicate in Hx as [-> _].
Qed.

Lemma past_end_next ds k fs fs' : past_end ds k fs → fs - 512 ≤ fs' → past_end ds (S k) fs'.
Proof. intros H Hf k' x Hk Hx. apply H; lia. Qed.

Lemma past_end_insert ds k fs p : past_end ds (S k) fs → past_end (<[k := p]> ds) (S k) fs.
Proof. intros H k' x Hk Hf. rewrite list_fmap_insert, list_lookup_insert_ne by lia. by apply H. Qed.

Lemma touch_block_run fuel m h ino ins ds l c i j t b fs :
  growing fuel m h ino ins ds l → ins !! i = Some (t, b) → (j < 16)%nat → (16 * i + j ≤ length ds)%nat →
  past_end ds (16 * i + j) fs → (S (16 * i + j) - length ds ≤ length l)%nat →
  ∃ m' ins' ds' l' b',
    touch_block fuel ino t b (Z.of_nat j) fs (Yfs m h c) = Ret (b', Yfs m' h c) ∧
    growing fuel m' h ino ins' ds' l' ∧ grows m ins ds l m' ins' ds' l' ∧ ins' !! i = Some (t, b') ∧
    length ins' = length ins ∧ padded ds ds' (16 * i + j) ∧
    (length l' + (S (16 * i + j) - length ds) = length l)%nat.
Proof.
  intros G Hi Hj Hk Hfs Hl. set (k := (16 * i + j)%nat) in *. pose proof G as [W F]. unfold touch_block.
  pose proof (wh_direct _ _ _ _ _ W i t b j Hi Hj) as Hd. fold k in Hd.
  destruct (ds !! k) as [[d db]|] eqn:E; simpl in Hd; rewrite Hd.
  - pose proof (lookup_lt_Some _ _ _ E) as Hlt. destruct (whole_block W _ _ _ E) as (_ & _ & H0 & _). cbn [fst] in H0.
    destruct (Z.eqb_spec d 0); [done|]. rewrite (bind_run _ _ _ b (Yfs m h c)) by done.
    exists m, ins, ds, l, b. split.
    { destruct (Z.ltb_spec fs 0) as [Hneg|]; [|done]. pose proof (whole_block W _ _ _ E) as Hp.
      rewrite (bind_run _ _ _ tt (Yfs m h c)); [done|]. rewrite Hd.
      run (part_of_put _ _ _ c _ zero_block Hp zero_block_ok). cbn [fst].
      rewrite insert_id; [done|]. rewrite <- (Hfs k db) by (lia || by rewrite list_lookup_fmap, E). apply Hp. }
    split_and!; try done; [apply grows_refl| |lia].
    unfold padded. replace (S k - length ds)%nat with 0%nat by lia. by rewrite app_nil_r.
  - apply lookup_ge_None in E. assert (length ds = k) as El by lia. rewrite El in Hl. replace (S k - k)%nat with 1%nat in Hl by lia.
    destruct l as [|d l]; [simpl in Hl; lia|]. change (0 =? 0) with true. cbv iota.
    set (b' := set_direct_block (Z.of_nat j) d b).
    destruct (whole_inode W _ _ _ Hi) as (_ & Hb & _). cbn [snd] in Hb.
    assert (is_block b') as Hb' by (apply wr_block; [unfold block_off; lia|done]).
    set (m' := <[t := b']> (allocated m d zero_block)).
    rewrite (bind_run _ _ _ b' (Yfs m' h c)).
    2:{ run (put_add_free _ _ _ c _ _ zero_block F zero_block_ok). cbv beta iota zeta. fold b'.
        run (part_of_put _ _ _ c _ b' (part_allocated _ _ _ _ _ _ _ _ _ _ _ zero_block G Hi) Hb'). done. }
    cbv beta. destruct (grow_block _ _ _ _ _ _ _ _ _ _ _ _ G Hi Hj El) as [G' R]. fold b' m' in G', R.
    assert ((<[i := (t, b')]> ins) !! i = Some (t, b')) as Hi' by (apply list_lookup_insert_eq; by eapply lookup_lt_Some).
    assert ((ds ++ [(d, zero_block)]) !! k = Some (d, zero_block)) as Hk' by (by rewrite lookup_app_r, El, Nat.sub_diag by lia).
    pose proof (whole_block (gw_whole _ _ _ _ _ _ _ G') _ _ _ Hk') as Hp.
    assert (direct_block (Z.of_nat j) b' = d) as Ed.
    { rewrite (wh_direct _ _ _ _ _ (gw_whole _ _ _ _ _ _ _ G') i t b' j Hi' Hj). fold k. by rewrite Hk'. }
    exists m', (<[i := (t, b')]> ins), (ds ++ [(d, zero_block)]), l, b'. split.
    { rewrite Ed. destruct (Z.ltb_spec fs 0); [|done].
      rewrite (bind_run _ _ _ tt (Yfs m' h c)); [done|].
      run (part_of_put _ _ _ c _ zero_block Hp zero_block_ok). cbn [fst].
      rewrite insert_id; [done|]. apply Hp. }
    split_and!; try done; [by rewrite length_insert| |simpl; lia].
    unfold padded. rewrite fmap_app, El. by replace (S k - k)%nat with 1%nat by lia.
Qed.

Lemma next_inode_run fuel m h ino ins ds l c checked i t b :
  growing fuel m h ino ins ds l → ins !! i = Some (t, b) → (16 * S i ≤ length ds)%nat →
  (S (S i) - length ins ≤ length l)%nat →
  ∃ m' ins' l' t' b',
    next_inode_block fuel checked ino t b (Yfs m h c) = Ret (Some (t', b'), Yfs m' h c) ∧
    growing fuel m' h ino ins' ds l' ∧ grows m ins ds l m' ins' ds l' ∧ ins' !! S i = Some (t', b') ∧
    length ins' = (length ins `max` S (S i))%nat ∧ (length l' + (S (S i) - length ins) = length l)%nat.
Proof.
  intros G Hi Hk Hl. pose proof G as [W F]. unfold next_inode_block.
  pose proof (wh_next _ _ _ _ _ W i t b Hi) as Hn. destruct (ins !! S i) as [[t' b']|] eqn:E; simpl in Hn.
  - pose proof (lookup_lt_Some _ _ _ E) as Hlt. pose proof (whole_inode W _ _ _ E) as Hp.
    rewrite Hn. destruct (Z.eqb_spec t' 0); [by destruct Hp as (_ & _ & ? & _)|].
    rewrite (bind_run _ _ _ (Some b) (Yfs m h c)) by done. cbv beta iota zeta. rewrite Hn.
    exists m, ins, l, t', b'. split; [by run (part_of_get _ _ _ c _ b Hp)|].
    split_and!; try done; [apply grows_refl|lia..].
  - apply lookup_ge_None in E. pose proof (lookup_lt_Some _ _ _ Hi) as Hlt. assert (length ins = S i) as El by lia.
    pose proof (wh_len _ _ _ _ _ W) as [L1 _]. assert (length ds = (16 * S i)%nat) as Ed by lia.
    rewrite El in Hl. replace (S (S i) - S i)%nat with 1%nat in Hl by lia. destruct l as [|n l]; [simpl in Hl; lia|].
    rewrite Hn. change (0 =? 0) with true. cbv iota. set (b' := set_next n b).
    destruct (whole_inode W _ _ _ Hi) as (_ & Hb & _). cbn [snd] in Hb.
    assert (is_block b') as Hb' by (apply wr_block; [lia|done]). fold chain_inode.
    set (m' := <[t := b']> (allocated m n chain_inode)).
    rewrite (bind_run _ _ _ (Some b') (Yfs m' h c)).
    2:{ run (put_add_free _ _ _ c _ _ chain_inode F chain_inode_ok). cbv beta iota zeta. fold b'.
        change (y_OK =? y_OK) with true. rewrite andb_false_r.
        run (part_of_put _ _ _ c _ b' (part_allocated _ _ _ _ _ _ _ _ _ _ _ chain_inode G Hi) Hb').
        change (y_OK =? y_OK) with true. by rewrite andb_false_r. }
    cbv beta iota zeta. destruct (grow_inode _ _ _ _ _ _ _ _ _ _ _ G Hi El Ed) as [G' R]. fold b' m' in G', R.
    set (ins' := <[i := (t, b')]> ins ++ [(n, chain_inode)]) in *.
    assert (ins' !! S i = Some (n, chain_inode)) as Hi'.
    { unfold ins'. rewrite lookup_app_r by (rewrite length_insert; lia). by rewrite length_insert, El, Nat.sub_diag. }
    assert (i_next b' = n) as -> by (apply next_set_next; [done|by eapply free_range]).
    exists m', ins', l, n, chain_inode. split.
    { by run (part_of_get _ _ _ c _ b' (whole_inode (gw_whole _ _ _ _ _ _ _ G') _ _ _ Hi')). }
    split_and!; try done; [unfold ins'; rewrite length_app, length_insert; simpl length; lia|simpl length; lia].
Qed.

(** The free blocks that a file of [n] data blocks still needs. *)
Definition missing (ins ds : list (Z * list Z)) (n : nat) : nat :=
  (n - length ds) + ((n + 15) `div` 16 - length ins).

Lemma ceil_16 n : (n ≤ 16 * ((n + 15) `div` 16) < n + 16)%nat.
Proof. pose proof (Nat.div_mod_eq (n + 15) 16). pose proof (Nat.mod_upper_bound (n + 15) 16). lia. Qed.

Lemma touch_write_run fuel m h ino ins ds l c checked i j t b fs n :
  growing fuel m h ino ins ds l → ins !! i = Some (t, b) → (j ≤ 16)%nat →
  let k := (16 * i + j)%nat in
  (k ≤ length ds)%nat → past_end ds k fs → (k < n)%nat → (missing ins ds n ≤ length l)%nat →
  ∃ m' ins' ds' l' t' b' i' j',
    touch_write fuel checked ino t b (Z.of_nat j) fs (Yfs m h c)
    = Ret (Some (t', b', Z.of_nat j'), Yfs m' h c) ∧
    growing fuel m' h ino ins' ds' l' ∧ grows m ins ds l m' ins' ds' l' ∧ ins' !! i' = Some (t', b') ∧
    (j' < 16)%nat ∧ k = (16 * i' + j')%nat ∧ padded ds ds' k ∧ (missing ins' ds' n ≤ length l')%nat.
Proof.
  intros G Hi Hj k Hk Hfs Hn Hl. unfold missing in *. unfold touch_write, INODE_DIRECT_BLOCK_NUM.
  pose proof (lookup_lt_Some _ _ _ Hi) as Hil. pose proof (ceil_16 n) as Hc.
  destruct (decide (j = 16%nat)) as [->|Hne].
  - change (16 <=? Z.of_nat 16) with true. cbv iota.
    destruct (next_inode_run fuel m h ino ins ds l c checked i t b G Hi) as (m1 & ins1 & l1 & t1 & b1 & E1 & G1 & R1 & Hi1 & L1 & F1);
      [lia|lia|].
    rewrite (bind_run _ _ _ (Some (t1, b1, 0)) (Yfs m1 h c)) by (by run E1). cbv beta iota.
    destruct (touch_block_run fuel m1 h ino ins1 ds l1 c (S i) 0 t1 b1 fs G1 Hi1) as
      (m2 & ins2 & ds2 & l2 & b2 & E2 & G2 & R2 & Hi2 & L2 & P2 & F2);
      [lia|lia|by replace (16 * S i + 0)%nat with k by lia|lia|].
    pose proof (padded_length _ _ _ P2) as LD.
    exists m2, ins2, ds2, l2, t1, b2, (S i), 0%nat. split; [run E2; done|].
    split_and!; try done; [eapply grows_trans; [apply G|done..]|lia|lia| |lia].
    unfold k. by replace (16 * i + 16)%nat with (16 * S i + 0)%nat by lia.
  - destruct (Z.leb_spec 16 (Z.of_nat j)); [lia|]. run eq_refl. cbv beta iota.
    destruct (touch_block_run fuel m h ino ins ds l c i j t b fs G Hi) as
      (m2 & ins2 & ds2 & l2 & b2 & E2 & G2 & R2 & Hi2 & L2 & P2 & F2); [lia|lia|done|lia|].
    pose proof (padded_length _ _ _ P2) as LD.
    exists m2, ins2, ds2, l2, t, b2, i, j. split; [run E2; done|].
    split_and!; try done; lia.
Qed.

(** * The two loops of write *)
Lemma padded_trans ds ds1 ds2 k1 k2 :
  padded ds ds1 k1 → padded ds1 ds2 k2 → (k1 ≤ k2)%nat → padded ds ds2 k2.
Proof.
  intros H1 H2 Hk. pose proof (padded_length _ _ _ H1) as L. unfold padded in *. rewrite H2, H1, <- app_assoc. f_equal.
  rewrite <- replicate_add. f_equal. lia.
Qed.

Lemma concat_zeroes n : concat (replicate n zero_block) = replicate (512 * n) 0.
Proof.
  induction n as [|n IH]; [done|]. rewrite replicate_S. cbn [concat]. rewrite IH. unfold zero_block.
  rewrite <- replicate_add. f_equal. lia.
Qed.

Lemma padded_bytes ds ds' k :
  padded ds ds' k → bytes_of ds' = bytes_of ds ++ replicate (512 * (S k - length ds)) 0.
Proof. intros H. unfold bytes_of. by rewrite H, concat_app, concat_zeroes. Qed.

Lemma splice_more (off : nat) (a b l z : list Z) :
  (off + length a ≤ length l)%nat → splice (off + length a) b (splice off a l ++ z) = splice off (a ++ b) (l ++ z).
Proof. intros. rewrite <- splice_app_l, splice_splice_app by (rewrite ?length_app; lia). done. Qed.

(** Writing into block [k] replaces the bytes there. *)
Lemma bytes_of_insert ds (k r : nat) d db x :
  Forall is_block ds.*2 → ds !! k = Some (d, db) → (r + length x ≤ 512)%nat →
  bytes_of (<[k := (d, splice r x db)]> ds) = splice (512 * k + r) x (bytes_of ds).
Proof.
  intros Hb Hk Hx. pose proof (lookup_lt_Some _ _ _ Hk) as Hl.
  rewrite splice_skip, drop_bytes_of by (rewrite ?length_bytes_of by done; (done || lia)).
  rewrite (drop_S _ _ _ Hk), bytes_of_cons, splice_app_l.
  2:{ cbn [snd]. rewrite Forall_lookup in Hb. destruct (Hb k db) as [-> _]; [by rewrite list_lookup_fmap, Hk|done]. }
  rewrite insert_take_drop by done. unfold bytes_of. rewrite fmap_app, concat_app, fmap_cons. simpl concat. f_equal.
  rewrite <- (take_drop k ds) at 2. rewrite fmap_app, concat_app.
  rewrite take_app_length'; [done|]. fold (bytes_of (take k ds)).
  rewrite length_bytes_of by (rewrite fmap_take; by apply Forall_take). rewrite length_take. lia.
Qed.

Section loops.
Context (fuel : nat) (h : gset Z) (ino : Z) (c : nat).

Lemma write_skip_grow n m ins ds l i j t b q r fs N :
  growing fuel m h ino ins ds l → ins !! i = Some (t, b) → (j ≤ 16)%nat →
  let k := (16 * i + j)%nat in
  (k ≤ length ds)%nat → past_end ds k fs → 0 ≤ r < 512 → - 2 ^ 63 + 512 * Z.of_nat q ≤ fs < 2 ^ 63 →
  (k + q < N)%nat → (missing ins ds N ≤ length l)%nat → (q < n)%nat →
  ∃ m' ins' ds' l' t' b' i' j',
    write_skip fuel n ino t b (Z.of_nat j) (512 * Z.of_nat q + r) fs (Yfs m h c)
    = Ret (Some (t', b', Z.of_nat j', r, fs - 512 * Z.of_nat q), Yfs m' h c) ∧
    growing fuel m' h ino ins' ds' l' ∧ grows m ins ds l m' ins' ds' l' ∧ ins' !! i' = Some (t', b') ∧
    (j' < 16)%nat ∧ (k + q)%nat = (16 * i' + j')%nat ∧ padded ds ds' (k + q) ∧
    past_end ds' (k + q) (fs - 512 * Z.of_nat q) ∧ (missing ins' ds' N ≤ length l')%nat.
Proof.
  revert m ins ds l i j t b q fs. induction n as [|n IH]; intros m ins ds l i j t b q fs G Hi Hj k Hk He Hr Hfs HN Hl Hn; [lia|].
  cbn [write_skip].
  destruct (touch_write_run fuel m h ino ins ds l c true i j t b fs N G Hi Hj) as
    (m1 & ins1 & ds1 & l1 & t1 & b1 & i1 & j1 & E1 & G1 & R1 & Hi1 & Hj1 & Ek & P1 & F1); [done|done|lia|done|].
  fold k in Ek, P1. run E1. cbv beta iota. unfold BSIZE. pose proof (padded_length _ _ _ P1) as L1.
  destruct q as [|q].
  - destruct (Z.leb_spec 512 (512 * Z.of_nat 0 + r)); [lia|]. exists m1, ins1, ds1, l1, t1, b1, i1, j1.
    rewrite Nat.add_0_r. replace (fs - 512 * Z.of_nat 0) with fs by lia. replace (512 * Z.of_nat 0 + r) with r by lia.
    split_and!; try done. by eapply past_end_padded.
  - destruct (Z.leb_spec 512 (512 * Z.of_nat (S q) + r)); [|lia].
    assert (s64 (fs - 512) = fs - 512) as Es by (apply (swrap_small 64); lia). rewrite Es.
    replace (512 * Z.of_nat (S q) + r - 512) with (512 * Z.of_nat q + r) by lia.
    replace (Z.of_nat j1 + 1) with (Z.of_nat (S j1)) by lia.
    assert (S k = (16 * i1 + S j1)%nat) as Ek1 by lia.
    destruct (IH m1 ins1 ds1 l1 i1 (S j1) t1 b1 q (fs - 512) G1 Hi1) as
      (m2 & ins2 & ds2 & l2 & t2 & b2 & i2 & j2 & E2 & G2 & R2 & Hi2 & Hj2 & Ek2 & P2 & He2 & F2);
      [lia|lia|rewrite <- Ek1; apply (past_end_next _ _ fs); [by eapply past_end_padded|lia]|lia|lia|lia|done|lia|].
    replace (16 * i1 + S j1 + q)%nat with (k + S q)%nat in * by lia.
    replace (fs - 512 - 512 * Z.of_nat q) with (fs - 512 * Z.of_nat (S q)) in * by lia.
    exists m2, ins2, ds2, l2, t2, b2, i2, j2. split_and!; try done.
    + eapply grows_trans; [apply G|done..].
    + eapply padded_trans; [done..|lia].
Qed.

(** The touched block, by its number. *)
Lemma touch_data_grow checked m ins ds l i j t b fs n :
  growing fuel m h ino ins ds l → ins !! i = Some (t, b) → (j ≤ 16)%nat →
  let k := (16 * i + j)%nat in
  (k ≤ length ds)%nat → past_end ds k fs → (k < n)%nat → (missing ins ds n ≤ length l)%nat →
  ∃ m' ins' ds' l' t' b' i' (j' : nat) d db,
    touch_write fuel checked ino t b (Z.of_nat j) fs (Yfs m h c)
    = Ret (Some (t', b', Z.of_nat j'), Yfs m' h c) ∧
    growing fuel m' h ino ins' ds' l' ∧ grows m ins ds l m' ins' ds' l' ∧ ins' !! i' = Some (t', b') ∧
    ((j' < 16)%nat ∧ k = (16 * i' + j')%nat) ∧ padded ds ds' k ∧ (missing ins' ds' n ≤ length l')%nat ∧
    ds' !! k = Some (d, db) ∧ direct_block (Z.of_nat j') b' = d ∧ part_of m' h ino (d, db).
Proof.
  intros G Hi Hj k Hk He HN Hl.
  destruct (touch_write_run fuel m h ino ins ds l c checked i j t b fs n G Hi Hj) as
    (m1 & ins1 & ds1 & l1 & t1 & b1 & i1 & j1 & E1 & G1 & R1 & Hi1 & Hj1 & Ek & P1 & F1); [done..|].
  fold k in Ek, P1. pose proof (padded_length _ _ _ P1) as L1. pose proof (gw_whole _ _ _ _ _ _ _ G1) as W1.
  destruct (lookup_lt_is_Some_2 ds1 k) as [[d db] Hd]; [lia|].
  exists m1, ins1, ds1, l1, t1, b1, i1, j1, d, db. split_and!; try done.
  - rewrite (wh_direct _ _ _ _ _ W1 i1 t1 b1 j1 Hi1 Hj1), <- Ek, Hd. done.
  - by apply (whole_block W1 k).
Qed.

(** Block [k] is read, changed from [off] on and put back. *)
Lemma put_block_grow m ins ds l k d db off x :
  growing fuel m h ino ins ds l → ds !! k = Some (d, db) → (off + length x ≤ 512)%nat → Forall is_byte x →
  let db' := splice off x db in
  let ds' := <[k := (d, db')]> ds in
  safe_put d db' ino (Yfs m h c) = Ret (y_OK, Yfs (<[d := db']> m) h c) ∧
  growing fuel (<[d := db']> m) h ino ins ds' l ∧ grows m ins ds l (<[d := db']> m) ins ds' l ∧
  bytes_of ds' = splice (512 * k + off) x (bytes_of ds).
Proof.
  intros G Hk Hx Hby db' ds'. pose proof (whole_block (gw_whole _ _ _ _ _ _ _ G) _ _ _ Hk) as Hp.
  pose proof Hp as (_ & [Hl Hb] & _). cbn [snd] in *.
  assert (is_block db') as Hb' by (split; [unfold db'; rewrite length_splice; lia|by apply splice_Forall]).
  destruct (grow_data G k d db db' Hk Hb') as [G' R]. split_and!; try done.
  - by apply (part_of_put _ _ _ c (d, db)).
  - apply bytes_of_insert; [|done|done]. eapply whole_blocks, G.
Qed.

Lemma write_loop_grow n m ins ds l i j t b off fs data buf size N M :
  growing fuel m h ino ins ds l → ins !! i = Some (t, b) → (j ≤ 16)%nat →
  let k := (16 * i + j)%nat in
  (k ≤ length ds)%nat → past_end ds k fs → Forall is_byte buf → 0 ≤ size ≤ Z.of_nat (length buf) → size < 2 ^ 63 →
  0 ≤ off < 512 → - 2 ^ 63 + off + size ≤ fs < 2 ^ 63 →
  (k < N)%nat → off + size ≤ 512 * (Z.of_nat N - Z.of_nat k) →
  N = S k ∨ 512 * (Z.of_nat N - Z.of_nat k - 1) < off + size →
  (N ≤ M)%nat → (missing ins ds M ≤ length l)%nat → (N - k ≤ n)%nat →
  ∃ m' ins' ds' l',
    write_loop fuel n ino t b (Z.of_nat j) off fs data buf size (Yfs m h c)
    = Ret (tt, Yfs m' h c) ∧
    growing fuel m' h ino ins' ds' l' ∧ grows m ins ds l m' ins' ds' l' ∧
    length ds' = (length ds `max` N)%nat ∧ (missing ins' ds' M ≤ length l')%nat ∧
    bytes_of ds' = splice (512 * k + Z.to_nat off) (take (Z.to_nat size) buf)
                     (bytes_of ds ++ replicate (512 * (N - length ds)) 0).
Proof.
  revert m ins ds l i j t b off fs data buf size.
  induction n as [|n IH]; intros m ins ds l i j t b off fs data buf size G Hi Hj k Hk He Hby Hs Hs63 Ho Hfs HN Hfit Htight HM Hl Hn; [lia|].
  cbn [write_loop].
  destruct (touch_data_grow false m ins ds l i j t b fs M G Hi Hj) as
    (m1 & ins1 & ds1 & l1 & t1 & b1 & i1 & j1 & d & db & E1 & G1 & R1 & Hi1 & Ek & P1 & F1 & Hd & Edb & Hp); [done|done|lia|done|].
  fold k in Ek, P1, Hd. run E1. cbv beta iota. rewrite Edb. pose proof (padded_length _ _ _ P1) as L1.
  run (part_of_get _ _ _ c _ data Hp). cbv beta iota zeta. cbn [snd].
  unfold BSIZE. rewrite (uwrap_small 64) by lia.
  set (n' := if size <=? 512 - off then size else 512 - off).
  assert (0 ≤ n' ∧ n' ≤ size ∧ off + n' ≤ 512) as Hn' by (unfold n'; destruct (Z.leb_spec size (512 - off)); lia).
  set (x := take (Z.to_nat n') buf). assert (length x = Z.to_nat n') as Hx by (unfold x; rewrite length_take; lia).
  rewrite (bind_run _ _ _ (splice (Z.to_nat off) x db) (Yfs m1 h c)) by (unfold st_lift; by rewrite block_copy_run by lia).
  destruct (put_block_grow m1 ins1 ds1 l1 k d db (Z.to_nat off) x G1 Hd) as (E2 & G2 & R2 & B2); [lia|by apply Forall_take|].
  run E2. cbv beta. set (ds2 := <[k := _]> ds1) in *. assert (length ds2 = length ds1) as L2 by apply length_insert.
  pose proof (grows_trans _ _ _ _ _ _ _ _ _ _ _ _ _ _ (gw_free _ _ _ _ _ _ _ G) R1 R2) as R.
  pose proof (length_bytes_of ds1 (whole_blocks (gw_whole _ _ _ _ _ _ _ G1))) as LB.
  pose proof (padded_bytes _ _ _ P1) as PB. unfold n' in *. clear n'. destruct (Z.leb_spec size (512 - off)) as [Hle|Hgt].
  - assert (N = S k) as -> by lia. eexists _, _, _, _. split; [done|]. split_and!; [done|done|lia|unfold missing in *; lia|].
    by rewrite B2, PB.
  - assert (s64 (fs - (512 - off)) = fs - (512 - off)) as Es by (apply (swrap_small 64); lia). rewrite Es.
    replace (Z.of_nat j1 + 1) with (Z.of_nat (S j1)) by lia. assert (S k = (16 * i1 + S j1)%nat) as Ek1 by lia.
    destruct (IH _ _ _ _ i1 (S j1) t1 b1 0 (fs - (512 - off)) (splice (Z.to_nat off) x db) (drop (Z.to_nat (512 - off)) buf)
      (size - (512 - off)) G2 Hi1) as (m3 & ins3 & ds3 & l3 & E3 & G3 & R3 & L3 & F3 & B3);
      [lia|lia| |by apply Forall_drop|rewrite ?length_drop; lia..|done|unfold missing in *; lia|lia|].
    { rewrite <- Ek1. apply past_end_insert, (past_end_next _ _ fs); [by eapply past_end_padded|lia]. }
    rewrite <- Ek1 in B3. exists m3, ins3, ds3, l3. split; [exact E3|]. split_and!; [done|by eapply grows_trans; [apply G|..]|lia|done|].
    rewrite B3, B2, L2. change (Z.to_nat 0) with 0%nat.
    replace (512 * S k + 0)%nat with (512 * k + Z.to_nat off + length x)%nat by lia.
    rewrite splice_more, PB, <- app_assoc, <- replicate_add by lia. f_equal.
    + unfold x. rewrite take_take_drop. f_equal. lia.
    + do 2 f_equal. lia.
Qed.
End loops.
