(* ===== verification/YfsBytes.v ===== *)
(** Files of yfs_client.cc as byte strings: write is pwrite and read is a slice,
    for every sequence of writes and reads of a file that fits the free blocks.
    Stated over the reference store; YfsRefine.v carries the results over to
    every store. *)
From Stdlib Require Import Sorted.
From S2P Require Import Prelude ExtentServer ExtentCache YfsBlock YfsFile YfsDir YfsOps YfsLocks.
From S2P Require Import YfsRefine YfsAlloc YfsDirSpec YfsFileSpec YfsGrow.
Local Open Scope Z_scope.

(** * Files as byte strings *)

(** What pwrite promises: the bytes from [off] on are replaced, a gap between the
    old end and [off] is zero. *)
Definition pwrite (data : list Z) (off : nat) (x : list Z) : list Z :=
  splice off x (data ++ replicate (off - length data) 0).

Lemma length_pwrite data off x : length (pwrite data off x) = (length data `max` (off + length x))%nat.
Proof.
  unfold pwrite, splice. rewrite !length_app, length_take, length_drop, length_app, length_replicate. lia.
Qed.

Lemma pwrite_padded data (off : nat) x z :
  (off ≤ length data + z)%nat → ∃ z', splice off x (data ++ replicate z 0) = pwrite data off x ++ replicate z' 0.
Proof.
  intros Hz. replace z with ((off - length data) + (z - (off - length data)))%nat by lia.
  rewrite replicate_add, app_assoc. unfold pwrite. set (p := data ++ replicate (off - length data) 0).
  assert (off ≤ length p)%nat by (unfold p; rewrite length_app, length_replicate; lia).
  unfold splice. rewrite take_app_le, drop_app, drop_replicate by done.
  eexists. by rewrite <- !app_assoc.
Qed.

(** The file holds [data]: its size, and its bytes, with zeroes behind them. *)
Record stored (m : gmap Z (list Z)) (h : gset Z) (ino : Z) (ins ds : list (Z * list Z)) (data : list Z) : Prop := {
  sd_whole : whole m h ino ins ds;
  sd_size : (λ p, i_size p.2) <$> ins !! 0%nat = Some (Z.of_nat (length data));
  sd_bytes : ∃ z, bytes_of ds = data ++ replicate z 0 }.

Lemma stored_length m h ino ins ds data :
  stored m h ino ins ds data → (length data ≤ 512 * length ds)%nat.
Proof.
  intros [W _ [z Hz]]. rewrite <- (length_bytes_of ds (whole_blocks W)), Hz, length_app. lia.
Qed.

Lemma stored_first m h ino ins ds data :
  stored m h ino ins ds data → ∃ b, ins !! 0%nat = Some (ino, b) ∧ i_size b = Z.of_nat (length data).
Proof.
  intros [W Hs _]. pose proof (wh_first _ _ _ _ _ W) as Hf. destruct (ins !! 0%nat) as [[t b]|]; [|done].
  simpl in *. exists b. split; congruence.
Qed.

Lemma stored_past_end m h ino ins ds data :
  stored m h ino ins ds data → past_end ds 0 (Z.of_nat (length data)).
Proof.
  intros [W _ [z Hz]] k x _ Hf Hk. pose proof (whole_blocks W) as Hb. rewrite list_lookup_fmap in Hk.
  destruct (ds !! k) as [[d db]|] eqn:E; [|done]. injection Hk as ->.
  pose proof (drop_bytes_of ds k Hb) as Hd. rewrite (drop_S _ _ _ E), bytes_of_cons, Hz in Hd. cbn [snd] in Hd.
  rewrite Forall_lookup in Hb. destruct (Hb k x) as [Hl _]; [by rewrite list_lookup_fmap, E|].
  rewrite drop_app_ge, drop_replicate in Hd by lia. apply (f_equal (take 512)) in Hd.
  rewrite take_app_length', take_replicate in Hd by done. rewrite <- Hd in Hl |- *. rewrite length_replicate in Hl.
  by rewrite Hl.
Qed.

(** The blocks that hold the bytes up to [off + size]; one at least is touched. *)
Definition blocks_for (off size : Z) : nat := Z.to_nat ((off `div` 512 + 1) `max` ((off + size + 511) `div` 512)).

(** A write of eight bytes before the links changes neither them nor the type. *)
Lemma wr_field b off v :
  is_block b → (8 ≤ off ∧ off + 8 ≤ 40)%nat →
  is_block (wr off 8 v b) ∧ i_next (wr off 8 v b) = i_next b ∧ i_mode (wr off 8 v b) = i_mode b ∧
  ∀ j, 0 ≤ j < 16 → direct_block j (wr off 8 v b) = direct_block j b.
Proof.
  intros Hb Ho. split; [apply wr_block; [lia|done]|]. destruct Hb as [Hl _].
  destruct (wr_links b off v Hl) as [En Ed]; [lia|]. split_and!; [done| |done].
  unfold i_mode. f_equal. apply rd_wr_ne; lia.
Qed.

Lemma touched_grow fuel m h ino ins ds l data t1 t2 :
  growing fuel m h ino ins ds l → stored m h ino ins ds data → ∃ b,
  let b1 := set_mtime t2 (set_atime t1 b) in let ins1 := <[0%nat := (ino, b1)]> ins in
  ins !! 0%nat = Some (ino, b) ∧ ins1 !! 0%nat = Some (ino, b1) ∧ is_block b1 ∧ i_size b1 = Z.of_nat (length data) ∧
  growing fuel (<[ino := b1]> m) h ino ins1 ds l ∧ grows m ins ds l (<[ino := b1]> m) ins1 ds l.
Proof.
  intros G S. destruct (stored_first _ _ _ _ _ _ S) as (b & Hi & Hs). exists b. intros b1 ins1.
  destruct (whole_inode (gw_whole _ _ _ _ _ _ _ G) _ _ _ Hi) as (_ & Hb & _). cbn [snd] in Hb.
  destruct (wr_field b 16 t1 Hb) as (Hb' & N1 & M1 & D1); [lia|].
  destruct (wr_field _ 24 t2 Hb') as (Hb1 & N2 & M2 & D2); [lia|].
  destruct (touched_inode t1 t2 b Hb) as (_ & Es & _).
  destruct (grow_fields G 0 ino b b1 Hi Hb1) as [G1 R1]; [unfold b1, set_mtime, set_atime; congruence..|intros j Hj; unfold b1, set_mtime, set_atime; by rewrite D2, D1|].
  split_and!; try done; [|unfold b1; by rewrite Es].
  apply list_lookup_insert_eq. by eapply lookup_lt_Some.
Qed.

(** The end of inner_write: the size is stored. *)
Lemma sized_grow fuel m h c ino ins ds l data buf z :
  growing fuel m h ino ins ds l → Z.of_nat (length data) < 2 ^ 64 → bytes_of ds = data ++ replicate z 0 →
  ∃ m' ins',
    ('(_, inode_buf) ← safe_get ino buf ino;
     safe_put ino (set_size (Z.of_nat (length data)) inode_buf) ino;; mret y_OK) (Yfs m h c)
    = Ret (y_OK, Yfs m' h c) ∧
    growing fuel m' h ino ins' ds l ∧ grows m ins ds l m' ins' ds l ∧
    length ins' = length ins ∧ stored m' h ino ins' ds data.
Proof.
  intros G Hlen Hz. pose proof (gw_whole _ _ _ _ _ _ _ G) as W.
  assert (∃ b, ins !! 0%nat = Some (ino, b)) as [b Hi].
  { pose proof (wh_first _ _ _ _ _ W) as Hf. destruct (ins !! 0%nat) as [[t b]|]; [|done]. injection Hf as ->. eauto. }
  pose proof (whole_inode W _ _ _ Hi) as Hp. pose proof Hp as (_ & Hb & _). cbn [snd] in Hb.
  destruct (wr_field b 8 (Z.of_nat (length data)) Hb) as (Hb1 & N1 & M1 & D1); [lia|].
  destruct (grow_fields G 0 ino b _ Hi Hb1 N1 M1 D1) as [G1 R1]. eexists _, _. split; [|split_and!; [exact G1|exact R1|apply length_insert|]].
  - run (part_of_get _ _ _ c _ buf Hp). cbv beta iota. cbn [snd]. by run (part_of_put _ _ _ c _ _ Hp Hb1).
  - split; [apply G1| |by exists z]. rewrite list_lookup_insert_eq by (by eapply lookup_lt_Some).
    simpl. f_equal. unfold i_size. destruct Hb. rewrite rd_wr_eq by lia. by apply Z.mod_small; lia.
Qed.

Lemma blocks_for_spec off size :
  0 ≤ off → 0 ≤ size →
  let q := Z.to_nat (off `div` 512) in let N := blocks_for off size in
  (q < N)%nat ∧ off `mod` 512 + size ≤ 512 * (Z.of_nat N - Z.of_nat q) ∧
  (N = S q ∨ 512 * (Z.of_nat N - Z.of_nat q - 1) < off `mod` 512 + size) ∧
  off = 512 * Z.of_nat q + off `mod` 512 ∧ 0 ≤ off `mod` 512 < 512.
Proof.
  intros Ho Hs q N. pose proof (Z.div_mod off 512 ltac:(lia)) as Edm. pose proof (Z.mod_pos_bound off 512 ltac:(lia)) as Hm.
  pose proof (Z.div_pos off 512 ltac:(lia) ltac:(lia)) as Hq.
  pose proof (Z.div_mod (off + size + 511) 512 ltac:(lia)) as Edn. pose proof (Z.mod_pos_bound (off + size + 511) 512 ltac:(lia)) as Hn.
  unfold N, blocks_for, q. lia.
Qed.

(** Both loops, from the first inode on. *)
Lemma loops_grow fuel m h ino c ins ds l b fs data buf size off M :
  growing fuel m h ino ins ds l → ins !! 0%nat = Some (ino, b) → past_end ds 0 fs → 0 ≤ fs < 2 ^ 63 →
  Forall is_byte buf → 0 ≤ size ≤ Z.of_nat (length buf) → 0 ≤ off → off + size < 2 ^ 63 →
  let N := blocks_for off size in (N ≤ M)%nat → (missing ins ds M ≤ length l)%nat → (N ≤ fuel)%nat →
  ∃ m1 t1 b1 j1 fs1 m2 ins2 ds2 l2,
    write_skip fuel fuel ino ino b 0 off fs (Yfs m h c)
    = Ret (Some (t1, b1, j1, off `mod` 512, fs1), Yfs m1 h c) ∧
    write_loop fuel fuel ino t1 b1 j1 (off `mod` 512) fs1 data buf size (Yfs m1 h c)
    = Ret (tt, Yfs m2 h c) ∧
    growing fuel m2 h ino ins2 ds2 l2 ∧ grows m ins ds l m2 ins2 ds2 l2 ∧ length ds2 = (length ds `max` N)%nat ∧
    (missing ins2 ds2 M ≤ length l2)%nat ∧
    bytes_of ds2 = splice (Z.to_nat off) (take (Z.to_nat size) buf) (bytes_of ds ++ replicate (512 * (N - length ds)) 0).
Proof.
  intros G Hi He Hfs Hby Hs Ho Hend N HM Hl Hf. destruct (blocks_for_spec off size Ho) as (H1 & H2 & H3 & H4 & H5); [lia|].
  set (q := Z.to_nat (off `div` 512)) in *. fold N in H1, H2, H3.
  destruct (write_skip_grow fuel h ino c fuel m ins ds l 0 0 ino b q (off `mod` 512) fs M G Hi) as
    (m1 & ins1 & ds1 & l1 & t1 & b1 & i1 & j1 & E1 & G1 & R1 & Hi1 & Hj1 & Ek & P1 & He1 & F1); [lia|lia|done|done|lia..|].
  pose proof (padded_length _ _ _ P1) as L1. change (16 * 0 + 0 + q)%nat with q in *.
  destruct (write_loop_grow fuel h ino c fuel m1 ins1 ds1 l1 i1 j1 t1 b1 (off `mod` 512) (fs - 512 * Z.of_nat q) data buf size N M G1 Hi1)
    as (m2 & ins2 & ds2 & l2 & E2 & G2 & R2 & L2 & F2 & B2); [lia|lia|by rewrite <- Ek|done|lia..|].
  exists m1, t1, b1, (Z.of_nat j1), (fs - 512 * Z.of_nat q), m2, ins2, ds2, l2. split; [by rewrite <- H4 in E1|].
  split_and!; [done|done|by eapply grows_trans; [apply G|..]|lia|done|]. rewrite B2, <- Ek. f_equal; [lia|].
  rewrite (padded_bytes _ _ _ P1), <- app_assoc, <- replicate_add. do 2 f_equal. lia.
Qed.

Section write.
Context (time : nat → Z) (junk : list Z) (fuel : nat) (m : gmap Z (list Z)) (h : gset Z) (c : nat) (ino : Z).
Context (ins ds : list (Z * list Z)) (l : list Z) (data buf : list Z) (size off : Z).
Context (G : growing fuel m h ino ins ds l) (S : stored m h ino ins ds data) (Hby : Forall is_byte buf).
Context (Hs : 0 ≤ size ≤ Z.of_nat (length buf)) (Ho : 0 ≤ off) (Hend : off + size < 2 ^ 63).
Context (Hlen : Z.of_nat (length data) < 2 ^ 63).
Context (M : nat) (HM : (blocks_for off size ≤ M)%nat) (Hfree : (missing ins ds M ≤ length l)%nat).
Context (Hfuel : (blocks_for off size ≤ fuel)%nat).

Lemma inner_write_grow : ∃ m' ins' ds' l',
  inner_write time junk fuel ino buf size off (Yfs m h c)
  = Ret (y_OK, Yfs m' h (Datatypes.S (Datatypes.S c))) ∧
  growing fuel m' h ino ins' ds' l' ∧ grows m ins ds l m' ins' ds' l' ∧
  length ds' = (length ds `max` blocks_for off size)%nat ∧ (missing ins' ds' M ≤ length l')%nat ∧
  stored m' h ino ins' ds' (pwrite data (Z.to_nat off) (take (Z.to_nat size) buf)).
Proof using All.
  destruct (touched_grow _ _ _ _ _ _ _ _ (u64 (time c)) (u64 (time (Datatypes.S c))) G S) as (b & Hi & Hi1 & Hb1 & Es & G1 & R1).
  unfold inner_write. run (part_of_get _ _ _ c _ junk (whole_inode (gw_whole _ _ _ _ _ _ _ G) _ _ _ Hi)). cbv beta iota. cbn [snd].
  change (y_OK =? y_NOENT) with false. cbv iota. rewrite !(bind_run _ _ _ _ _ (time0_run _ _ _ _)). cbv beta zeta.
  set (b1 := set_mtime _ _) in *. run (part_of_put _ _ _ (Datatypes.S (Datatypes.S c)) _ b1 (whole_inode (gw_whole _ _ _ _ _ _ _ G) _ _ _ Hi) Hb1).
  cbv beta. change (negb (y_OK =? y_OK)) with false. cbv iota. cbn [fst]. rewrite Es, (swrap_small 64), !(uwrap_small 64) by lia.
  set (x := take (Z.to_nat size) buf) in *. assert (length x = Z.to_nat size) as Hx by (unfold x; rewrite length_take; lia).
  set (data' := pwrite data (Z.to_nat off) x) in *.
  pose proof (length_pwrite data (Z.to_nat off) x) as Hl'. fold data' in Hl'.
  replace (if off + size <? Z.of_nat (length data) then Z.of_nat (length data) else off + size) with (Z.of_nat (length data'))
    by (destruct (Z.ltb_spec (off + size) (Z.of_nat (length data))); lia).
  pose proof (stored_past_end _ _ _ _ _ _ S) as He.
  destruct (loops_grow fuel _ h ino (Datatypes.S (Datatypes.S c)) _ ds l b1 (Z.of_nat (length data)) junk buf size off M G1 Hi1 He)
    as (m1 & t1 & b2 & j1 & fs1 & m2 & ins2 & ds2 & l2 & E1 & E2 & G2 & R2 & L2 & F2 & B2);
    [lia|done|lia|done|done|done|unfold missing in *; by rewrite length_insert|done|].
  run E1. cbv beta iota. run E2. cbv beta.
  destruct S as [W _ [z Hz]]. pose proof (length_bytes_of ds (whole_blocks W)) as LB. rewrite Hz, length_app, length_replicate in LB.
  destruct (blocks_for_spec off size Ho (proj1 Hs)) as (H1 & _ & _ & H4 & H5). fold x in B2. rewrite Hz, <- app_assoc, <- replicate_add in B2.
  destruct (pwrite_padded data (Z.to_nat off) x (z + 512 * (blocks_for off size - length ds))) as [z' Hz'].
  { lia. }
  rewrite Hz' in B2. fold data' in B2.
  destruct (sized_grow fuel m2 h (Datatypes.S (Datatypes.S c)) ino ins2 ds2 l2 data' b2 z' G2) as (m3 & ins3 & E3 & G3 & R3 & L3 & S3); [lia|done|].
  exists m3, ins3, ds2, l2. split; [exact E3|]. split_and!; [done| |done|unfold missing in *; by rewrite L3|done].
  eapply grows_trans; [apply G|exact R1|]. eapply grows_trans; [apply G1|exact R2|exact R3].
Qed.
End write.

(** What inner_read promises of a read of [size] bytes at [off]: the bytes that
    pread returns, and after them at most [off mod 512] zeroes; none when the
    offset is a multiple of the block size or the range lies inside the file. *)
Definition read_gives (data : list Z) (off size : Z) (r : list Z) : Prop :=
  ∃ k : nat, r = slice (Z.to_nat off) (Z.to_nat size) data ++ replicate k 0 ∧
    Z.of_nat k ≤ off `mod` 512 ∧ Z.of_nat (length r) ≤ size.

Lemma read_gives_inside data off size r :
  read_gives data off size r → 0 ≤ size → 0 ≤ off → off + size ≤ Z.of_nat (length data) →
  r = slice (Z.to_nat off) (Z.to_nat size) data.
Proof.
  intros (k & -> & _ & Hl) Hs Ho Hin. rewrite length_app, length_slice, length_replicate in Hl by lia.
  replace k with 0%nat by lia. apply app_nil_r.
Qed.

Lemma read_result_gives data z off size :
  0 ≤ size → 0 ≤ off →
  read_gives data off size (read_result (Z.of_nat (length data)) size off (data ++ replicate z 0)).
Proof.
  intros Hs Ho. unfold read_gives, read_result, slice.
  pose proof (Z.div_mod off 512 ltac:(lia)) as Edm. pose proof (Z.mod_pos_bound off 512 ltac:(lia)) as Hm.
  set (L := size `min` _). rewrite drop_app, drop_replicate, take_app, take_replicate, length_drop.
  eexists. split; [f_equal; destruct (decide (off ≤ Z.of_nat (length data)))|].
  - destruct (decide (size ≤ Z.of_nat (length data) - off)); [do 2 f_equal; lia|].
    rewrite !take_ge; [done|rewrite length_drop; lia..].
  - by rewrite drop_ge, !take_nil by lia.
  - split; [lia|]. rewrite length_app, length_take, length_drop, length_replicate. lia.
Qed.

(** * The operations *)
Section operations.
Context (time : nat → Z) (junk : list Z) (fuel : nat) (h : gset Z) (ino : Z) (N : nat).
Context (Hh : ino ∉ h) (HN : 512 * Z.of_nat N < 2 ^ 63) (Hfuel : (N < fuel)%nat).

(** The file with its data, and free blocks enough for [N] data blocks. *)
Record grown (m : gmap Z (list Z)) (ins ds : list (Z * list Z)) (l : list Z) (data : list Z) : Prop := {
  gn_stored : stored m ({[ino]} ∪ h) ino ins ds data;
  gn_free : free_list fuel m ({[ino]} ∪ h) l;
  gn_len : (length ds ≤ N)%nat;
  gn_enough : (missing ins ds N ≤ length l)%nat }.

Lemma grown_growing m ins ds l data : grown m ins ds l data → growing fuel m ({[ino]} ∪ h) ino ins ds l.
Proof. intros [S F _ _]. split; [apply S|done]. Qed.

Lemma write_grown m ins ds l data c x off :
  grown m ins ds l data → Forall is_byte x → 0 ≤ off → (blocks_for off (Z.of_nat (length x)) ≤ N)%nat →
  ∃ m' ins' ds' l',
    write time junk fuel ino x (Z.of_nat (length x)) off (Yfs m h c) = Ret (y_OK, Yfs m' h (S (S c))) ∧
    grown m' ins' ds' l' (pwrite data (Z.to_nat off) x) ∧ grows m ins ds l m' ins' ds' l'.
Proof using Hh HN Hfuel.
  intros Hg Hx Ho Hb. pose proof (grown_growing _ _ _ _ _ Hg) as G. destruct Hg as [Sd F L E].
  pose proof (stored_length _ _ _ _ _ _ Sd) as Hl. destruct (blocks_for_spec off (Z.of_nat (length x))) as (B1 & B2 & B3 & B4 & B5); [lia|lia|].
  destruct (inner_write_grow time junk fuel m ({[ino]} ∪ h) c ino ins ds l data x (Z.of_nat (length x)) off G Sd) with (M := N)
    as (m' & ins' & ds' & l' & Ew & G' & R' & L' & F' & S'); [done|lia|done|lia|lia|done|done|lia|].
  rewrite Nat2Z.id, firstn_all in S'.
  exists m', ins', ds', l'. split; [|split; [split; [done|apply G'|lia|done]|done]].
  unfold write. run (acquire_run m h c ino Hh). run Ew. by run (release_run m' h (S (S c)) ino Hh).
Qed.

Lemma read_fits m ins ds l data c size off :
  grown m ins ds l data → 0 ≤ size < 2 ^ 64 → 0 ≤ off →
  ∃ m' c' ins' r,
    read time junk fuel ino size off (Yfs m h c) = Ret ((y_OK, r), Yfs m' h c') ∧ read_gives data off size r ∧
    grown m' ins' ds l data ∧ grows m ins ds l m' ins' ds l.
Proof using Hh HN Hfuel.
  intros Hg Hs Ho. pose proof (grown_growing _ _ _ _ _ Hg) as G. pose proof Hg as [Sd F L E].
  pose proof (sd_whole _ _ _ _ _ _ Sd) as W.
  destruct (stored_first _ _ _ _ _ _ Sd) as (b & Hi & Hsz). destruct (decide (size = 0)) as [->|Hne].
  { pose proof (Z.mod_pos_bound off 512 ltac:(lia)). exists m, c, ins, []. split_and!; [|exists 0%nat|done|apply grows_refl].
    - unfold read. run (acquire_run m h c ino Hh). run eq_refl. by run (release_run m h c ino Hh).
    - split; [done|]. simpl. lia. }
  rewrite (read_run time junk fuel m h c ino b _ ds size off (whole_file _ _ _ _ _ b W Hh Hi)) by lia.
  destruct (whole_inode W _ _ _ Hi) as (_ & Hb & _). cbn [snd] in Hb.
  destruct (wr_field b 16 (u64 (time c)) Hb) as (Hb1 & N1 & M1 & D1); [lia|].
  destruct (grow_fields G 0 ino b _ Hi Hb1 N1 M1 D1) as [G1 R1]. eexists _, _, _, _. split_and!; [reflexivity| | |exact R1].
  - rewrite Hsz. destruct (sd_bytes _ _ _ _ _ _ Sd) as [z ->]. by apply read_result_gives; lia.
  - split; [|apply G1|done|unfold missing in *; by rewrite length_insert]. split; [apply G1| |apply Sd].
    rewrite list_lookup_insert_eq by (by eapply lookup_lt_Some). simpl. f_equal. rewrite <- Hsz. destruct Hb.
    apply rd_wr_ne; lia.
Qed.

Lemma grown_length m ins ds l data : grown m ins ds l data → Z.of_nat (length data) < 2 ^ 63.
Proof using HN Hfuel. intros [Sd _ L _]. pose proof (stored_length _ _ _ _ _ _ Sd). lia. Qed.

(** Sequences of writes and reads, and what they do to a byte string. *)
Inductive fop := PWrite (off : Z) (x : list Z) | PRead (off size : Z).

Definition run_fop (o : fop) : ST (yfs (gmap Z (list Z))) (Z * list Z) :=
  match o with
  | PWrite off x => r ← write time junk fuel ino x (Z.of_nat (length x)) off; mret (r, [])
  | PRead off size => read time junk fuel ino size off
  end.

Fixpoint run_fops (os : list fop) : ST (yfs (gmap Z (list Z))) (list (Z * list Z)) :=
  match os with
  | [] => mret []
  | o :: os => r ← run_fop o; rs ← run_fops os; mret (r :: rs)
  end.

Definition fop_data (data : list Z) (o : fop) : list Z :=
  match o with PWrite off x => pwrite data (Z.to_nat off) x | PRead _ _ => data end.

Definition fop_result (data : list Z) (o : fop) : Z * list Z :=
  match o with
  | PWrite _ _ => (y_OK, [])
  | PRead off size => (y_OK, slice (Z.to_nat off) (Z.to_nat size) data)
  end.

Fixpoint fop_results (data : list Z) (os : list fop) : list (Z * list Z) :=
  match os with [] => [] | o :: os => fop_result data o :: fop_results (fop_data data o) os end.

(** What an operation returns on a byte string. *)
Definition fop_returns (data : list Z) (o : fop) (r : Z * list Z) : Prop :=
  match o with
  | PWrite _ _ => r = (y_OK, [])
  | PRead off size => r.1 = y_OK ∧ read_gives data off size r.2
  end.

Fixpoint fops_return (data : list Z) (os : list fop) (rs : list (Z * list Z)) : Prop :=
  match os, rs with
  | [], [] => True
  | o :: os, r :: rs => fop_returns data o r ∧ fops_return (fop_data data o) os rs
  | _, _ => False
  end.

(** Writes within the [N] blocks, reads anywhere. *)
Definition fop_fits (o : fop) : Prop :=
  match o with
  | PWrite off x => Forall is_byte x ∧ 0 ≤ off ∧ (blocks_for off (Z.of_nat (length x)) ≤ N)%nat
  | PRead off size => 0 ≤ size < 2 ^ 64 ∧ 0 ≤ off
  end.

Lemma run_fop_fits m ins ds l data c o :
  grown m ins ds l data → fop_fits o →
  ∃ m' c' ins' ds' l' r, run_fop o (Yfs m h c) = Ret (r, Yfs m' h c') ∧ fop_returns data o r ∧
    grown m' ins' ds' l' (fop_data data o) ∧ grows m ins ds l m' ins' ds' l'.
Proof using Hh HN Hfuel.
  intros Hg Ho. destruct o as [off x|off size]; simpl in *.
  - destruct Ho as (H1 & H2 & H3).
    destruct (write_grown m ins ds l data c x off Hg H1 H2 H3) as (m' & ins' & ds' & l' & E & Hg' & R).
    eexists _, _, _, _, _, _. split; [by run E|]. by split_and!.
  - destruct Ho as (H1 & H2).
    destruct (read_fits m ins ds l data c size off Hg H1 H2) as (m' & c' & ins' & r & E & Hr & Hg' & R).
    eexists _, _, _, _, _, _. split; [exact E|]. by split_and!.
Qed.

Lemma run_fops_fit m ins ds l data c os :
  grown m ins ds l data → Forall fop_fits os →
  ∃ m' c' ins' ds' l' rs, run_fops os (Yfs m h c) = Ret (rs, Yfs m' h c') ∧ fops_return data os rs ∧
    grown m' ins' ds' l' (foldl fop_data data os) ∧ grows m ins ds l m' ins' ds' l'.
Proof using Hh HN Hfuel.
  intros Hg Ho. revert m ins ds l data c Hg. induction Ho as [|o os H1 H2 IH]; intros m ins ds l data c Hg; simpl.
  { exists m, c, ins, ds, l, []. split_and!; [done|done|done|apply grows_refl]. }
  destruct (run_fop_fits m ins ds l data c o Hg H1) as (m1 & c1 & ins1 & ds1 & l1 & r & E1 & Q1 & G1 & R1).
  destruct (IH m1 ins1 ds1 l1 _ c1 G1) as (m2 & c2 & ins2 & ds2 & l2 & rs & E2 & Q2 & G2 & R2).
  exists m2, c2, ins2, ds2, l2, (r :: rs). split; [run E1; by run E2|]. split_and!; [done..|].
  eapply grows_trans; [apply Hg|done..].
Qed.

(** When the reads lie within the file as it is then, the results are exact. *)
Definition fop_ok (data : list Z) (o : fop) : Prop :=
  match o with
  | PWrite off x => Forall is_byte x ∧ 0 ≤ off ∧ (blocks_for off (Z.of_nat (length x)) ≤ N)%nat
  | PRead off size => 0 ≤ size ∧ 0 ≤ off ∧ off + size ≤ Z.of_nat (length data)
  end.

Fixpoint fops_ok (data : list Z) (os : list fop) : Prop :=
  match os with [] => True | o :: os => fop_ok data o ∧ fops_ok (fop_data data o) os end.

Lemma fop_ok_fits data o : Z.of_nat (length data) < 2 ^ 63 → fop_ok data o → fop_fits o.
Proof using Type. destruct o; simpl; [done|]. intros Hl (H1 & H2 & H3). split; [|done]. clear -Hl H1 H2 H3. lia. Qed.

Lemma fop_ok_result data o r : fop_ok data o → fop_returns data o r → r = fop_result data o.
Proof using Type.
  destruct o; simpl; [done|]. intros (H1 & H2 & H3) [E Hr]. destruct r as [r0 r1]. simpl in *. subst r0. f_equal.
  by apply read_gives_inside.
Qed.

Lemma run_fop_grown m ins ds l data c o :
  grown m ins ds l data → fop_ok data o →
  ∃ m' c' ins' ds' l', run_fop o (Yfs m h c) = Ret (fop_result data o, Yfs m' h c') ∧
    grown m' ins' ds' l' (fop_data data o) ∧ grows m ins ds l m' ins' ds' l'.
Proof using Hh HN Hfuel.
  intros Hg Ho. destruct (run_fop_fits m ins ds l data c o Hg) as (m' & c' & ins' & ds' & l' & r & E & Q & R).
  { eapply fop_ok_fits; [by eapply grown_length|done]. }
  apply (fop_ok_result _ _ _ Ho) in Q as ->. by exists m', c', ins', ds', l'.
Qed.

Lemma run_fops_grown m ins ds l data c os :
  grown m ins ds l data → fops_ok data os →
  ∃ m' c' ins' ds' l', run_fops os (Yfs m h c) = Ret (fop_results data os, Yfs m' h c') ∧
    grown m' ins' ds' l' (foldl fop_data data os) ∧ grows m ins ds l m' ins' ds' l'.
Proof using Hh HN Hfuel.
  revert m ins ds l data c. induction os as [|o os IH]; intros m ins ds l data c Hg Ho; simpl in *.
  { exists m, c, ins, ds, l. split; [done|]. split; [done|apply grows_refl]. }
  destruct Ho as [H1 H2]. destruct (run_fop_grown m ins ds l data c o Hg H1) as (m1 & c1 & ins1 & ds1 & l1 & E1 & G1 & R1).
  destruct (IH m1 ins1 ds1 l1 _ c1 G1 H2) as (m2 & c2 & ins2 & ds2 & l2 & E2 & G2 & R2).
  exists m2, c2, ins2, ds2, l2. split; [run E1; by run E2|]. split; [done|].
  eapply grows_trans; [apply Hg|done..].
Qed.
End operations.

(** * Theorems *)


(** ** A concrete run: the file of 600 bytes grows past its first inode *)
Definition ex_free : list Z := [5; 6; 7; 8; 9; 201; 202; 203; 204; 205; 206; 207; 208; 209; 210; 211; 212; 213; 214; 215].

Definition ex_ins : list (Z * list Z) := [(2, ex_block 2)].
Definition ex_ds : list (Z * list Z) := [(3, ex_block 3); (4, ex_block 4)].

Lemma ex_whole : whole (y_store ex_file_fs) ({[2]} ∪ ∅) 2 ex_ins ex_ds.
Proof.
  apply whole_single; [|by_vm|simpl; lia|].
  - split; [by_vm|]. do 3 (apply Forall_cons; split; [split_and!; [cbn [fst snd]; ex_used|by_vm|done|by_vm]|]).
    constructor.
  - intros j Hj. do 16 (destruct j as [|j]; [by_vm|]). lia.
Qed.

Lemma ex_stored : stored (y_store ex_file_fs) ({[2]} ∪ ∅) 2 ex_ins ex_ds (replicate 600 7).
Proof. split; [exact ex_whole|by_vm|exists 424%nat; by_vm]. Qed.

(** A free list of small numbers, by a run over the bits. *)
Lemma free_list_small fuel (m : gmap Z (list Z)) l (k : nat) x :
  (k ≤ 4096)%nat → bs_wf m → StronglySorted Z.lt l → bitmap_block 0 ≠ x →
  Forall (λ i, (0 < i < Z.of_nat k ∧ in_bitmap_area i = false) ∧ i ≠ x ∧ (Z.to_nat i < fuel)%nat) l →
  Forall (λ j, bit_of m j = Some (bool_decide (j ∉ l))) (Z.of_nat <$> seq 0 k) → free_list fuel m ({[x]} ∪ ∅) l.
Proof.
  intros Hk Hw Hs Hx He Hb. rewrite Forall_forall in He, Hb. split; try done.
  - apply Forall_forall. intros i Hi. destruct (He i Hi) as ((A & B) & C & D). unfold has_bit.
    split_and!; [lia|lia|done|lia|set_solver|done].
  - intros i j Hi Hj. destruct (He i Hi) as ((A & B) & _). apply Hb, list_elem_of_fmap. exists (Z.to_nat j).
    split; [lia|]. apply elem_of_seq. lia.
  - intros i z Hi. destruct (He i Hi) as ((A & B) & _). unfold bitmap_block, BITMAP_PER_BLOCK, BLOCK_BITMAP_BEGIN_BLOCK in *.
    rewrite Z.div_small in * by lia. intros Hz. assert (z ≠ x) by lia. set_solver.
Qed.

Lemma ex_free_list : free_list 300 (y_store ex_file_fs) ({[2]} ∪ ∅) ex_free.
Proof. apply (free_list_small _ _ _ 216); [lia|by_vm|repeat constructor|done|by_vm..]. Qed.

(** Bytes 10000 to 10002 lie in the twentieth block, past the sixteen of the
    first inode; the last read starts 272 bytes into a block and crosses the end. *)
Definition ex_fops : list fop := [PWrite 10000 [1; 2; 3]; PRead 9998 5; PWrite 598 [8; 8; 8]; PRead 597 5; PRead 10000 100].

Lemma ex_fops_fit : Forall (fop_fits 20) ex_fops.
Proof.
  repeat (apply Forall_cons; split); [..|by apply Forall_nil]; simpl; split_and!; try lia;
    try (apply Nat.leb_le; vm_compute; reflexivity); by_vm.
Qed.


(** A file that setattr has made shorter keeps its old bytes: when a later write
    makes it longer again, they come back where zeroes belong. *)
Example shrunk_bytes_come_back :
  ∃ s, (setattr ex_time ex_junk 300 2 1 (FileInfo 100 0 0 0);; run_fops ex_time ex_junk 300 2 [PWrite 300 [1]; PRead 198 3])
         (Yfs (y_store ex_file_fs) ∅ 0) = Ret ([(0, []); (0, [7; 7; 7])], s) ∧
    slice 198 3 (pwrite (replicate 100 7) 300 [1]) = [0; 0; 0].
Proof. vm_compute. eexists. split; reflexivity. Qed.
