(* ===== verification/YfsCreate.v ===== *)
(** create and mkdir of yfs_client.cc on directories of any number of blocks: the
    search for a block with room, the block that is added when all are full, and
    what lookup then finds; a created file is a byte string (YfsBytes.v). *)
From S2P Require Import Prelude ExtentServer ExtentCache YfsBlock YfsFile YfsDir YfsOps YfsLocks.
From S2P Require Import YfsRefine YfsAlloc YfsDirSpec YfsFileSpec YfsUnlink YfsGrow YfsBytes.
Local Open Scope Z_scope.

(** * Directories in a changing store *)
Lemma dir_blocks_mono m m' h parent b ns ess :
  (∀ x c, x ∈ ns → used m h x c → used m' h x c) →
  dir_blocks m h parent b ns ess → dir_blocks m' h parent b ns ess.
Proof.
  intros Hx Hb. induction Hb as [|b es b' ns ess Hr Hn Hp Hh Hu Hb IH]; [by constructor|].
  apply (db_next _ _ _ _ _ b'); try done; [apply Hx; [by left|done]|]. apply IH. intros x c Hi. apply Hx. by right.
Qed.

Lemma dir_blocks_wr m h parent b ns ess off v :
  (16 ≤ off ∧ off + 8 ≤ 40)%nat → dir_blocks m h parent b ns ess → dir_blocks m h parent (wr off 8 v b) ns ess.
Proof.
  intros Ho Hb. pose proof (dir_blocks_rep _ _ _ _ _ _ Hb) as [Hl _].
  assert (∃ es ess', ess = es :: ess' ∧ dir_rep b es) as (es & ess' & -> & Hr) by (destruct Hb; eauto).
  apply (dir_blocks_head m _ parent b ns es); [done|apply dir_rep_wr; [done|lia]|]. unfold i_next. apply rd_wr_ne; lia.
Qed.

Lemma dir_blocks_used m h parent b ns ess x :
  dir_blocks m h parent b ns ess → x ∈ ns → ∃ b1, used m h x b1.
Proof. intros Hb Hx. destruct (dir_blocks_from _ _ _ _ _ _ _ Hb Hx) as (b1 & _ & _ & ? & _). by exists b1. Qed.

Lemma zero_block_dir : dir_rep zero_block [].
Proof.
  split; [apply zero_block_ok|unfold i_size; apply rd_zero|simpl; lia|]. intros i nm inum. by rewrite lookup_nil.
Qed.

(** * The search for room *)
Section slot.
Context (fuel : nat) (h : gset Z) (parent : Z) (check : bool) (name : list Z) (c : nat).
Hypothesis (Hp : parent ∈ h) (Hn : Forall (λ c, 0 ≤ c) name).

(** The blocks of the directory: the first is held, the others are not. *)
Definition reach (x : Z) : Prop := x = parent ∨ x ∉ h.

Lemma reach_get m x b buf :
  used m h x b → reach x → safe_get x buf parent (Yfs m h c) = Ret ((y_OK, b), Yfs m h c).
Proof.
  intros Hu [->|Hr]; [by apply safe_get_own|]. apply safe_get_run; [done| |done]. by intros ->.
Qed.

Lemma reach_put m x b b' :
  used m h x b → reach x → is_block b' → safe_put x b' parent (Yfs m h c) = Ret (y_OK, Yfs (<[x := b']> m) h c).
Proof.
  intros Hu [->|Hr] Hb; [by eapply safe_put_own|]. eapply safe_put_run; [done|done| |done]. by intros ->.
Qed.

(** Block [target] of the directory has room: in the store [m'] the search leaves,
    and what the directory is once the entry is in. *)
Record room (m : gmap Z (list Z)) (bi : Z) (ns : list Z) (ess : list entries)
    (m' : gmap Z (list Z)) (target : Z) (buf : list Z) (es' : entries) : Prop := {
  rm_rep : dir_rep buf es';
  rm_room : (length es' < 5)%nat;
  rm_new : find_es (c_str name) es' = None;
  rm_used : used m' h target buf;
  rm_reach : reach target;
  rm_first : ∃ b, used m' h bi b;
  rm_others : ∀ x b, used m h x b → x ≠ bi → x ∉ ns → used m' h x b ∧ x ≠ target;
  rm_bits : ∀ x, has_bit x → bit_of m' x = Some true → bit_of m x = Some true ∨ x = target ∧ x ≠ bi;
  rm_exact : ∀ x, has_bit x → bit_of m' x = if decide (x = target ∧ x ≠ bi ∧ x ∉ ns) then Some true else bit_of m x;
  rm_fill : ∀ m'' nb inum,
    (∀ x b, used m' h x b → x ≠ target → used m'' h x b) → used m'' h target nb →
    dir_rep nb (es' ++ [(c_str name, inum)]) → i_next nb = i_next buf →
    ∃ b' ns' ess' l1 l2, used m'' h bi b' ∧ dir_blocks m'' h parent b' ns' ess' ∧
      concat ess = l1 ++ l2 ∧ concat ess' = l1 ++ (c_str name, inum) :: l2 ∧
      (length ess' ≤ S (length ess))%nat ∧ (target = bi ∨ target ∈ ns') ∧
      (∀ x, x ∈ ns → x ∈ ns') ∧ (∀ x, x ∈ ns' → x ∈ ns ∨ x = target) ∧
      (∀ x, x ∈ ns' → (∃ b, used m' h x b) ∧ (x ∈ ns ∨ ∀ b, ¬ used m h x b)) }.

(** The first block has room already. *)
Lemma room_here m bi b ns es ess :
  dir_blocks m h parent b ns (es :: ess) → used m h bi b → bi ∉ ns → reach bi →
  (length es < 5)%nat → find_es (c_str name) es = None → room m bi ns (es :: ess) m bi b es.
Proof.
  intros Hb Hu Hbi Hr Hlt Hf. assert (dir_rep b es) as Hrep by (by inversion Hb). split; try done; [by exists b|by left|intros x _; by rewrite decide_False by tauto|].
  intros m'' nb inum Hm Hnb Hd Hx. exists nb, ns, ((es ++ [(c_str name, inum)]) :: ess), es, (concat ess).
  split_and!; [done| |done|simpl; by rewrite <- app_assoc|simpl; lia|by left|done|by left|].
  2:{ intros x Hxn. split; [by eapply dir_blocks_used|by left]. }
  apply (dir_blocks_head _ _ _ b ns es); [|done|done]. eapply dir_blocks_mono; [|done].
  intros x b0 Hxn Hxu. apply Hm; [done|]. by intros ->.
Qed.

(** A later block has room. *)
Lemma room_later m bi b es ns ess m' target buf es' :
  dir_rep b es → i_next b ≠ 0 → i_next b ≠ parent → i_next b ∉ h → used m h bi b → bi ∉ i_next b :: ns →
  room m (i_next b) ns ess m' target buf es' →
  room m bi (i_next b :: ns) (es :: ess) m' target buf es'.
Proof.
  intros Hr H0 H1 H2 Hu Hbi [R1 R2 R3 R4 R5 R0 R6 Rb Rx R7]. apply not_elem_of_cons in Hbi as [Hb1 Hb2].
  destruct (R6 bi b Hu Hb1 Hb2) as [Hu' Ht]. split; try done; [by exists b| | | |].
  - intros x b0 Hx Hx1 [Hx2 Hx3]%not_elem_of_cons. by apply R6.
  - intros x Hbx Hx. destruct (Rb x Hbx Hx) as [|[-> _]]; [by left|right]. split; [done|by apply not_eq_sym].
  - intros x Hbx. rewrite Rx by done. apply decide_ext. rewrite not_elem_of_cons.
    split; [intros (-> & ? & ?)|intros (-> & ? & ? & ?)]; split_and!; (done || by apply not_eq_sym).
  - intros m'' nb inum Hm Hnb Hd Hx.
    destruct (R7 m'' nb inum Hm Hnb Hd Hx) as (b1 & ns1 & ess1 & l1 & l2 & U & D & C1 & C2 & L & Ht1 & Hk1 & Hf1 & Hns).
    exists b, (i_next b :: ns1), (es :: ess1), (es ++ l1), l2. split_and!.
    + by apply Hm.
    + by apply (db_next _ _ _ _ _ b1).
    + simpl. by rewrite C1, app_assoc.
    + simpl. by rewrite C2, app_assoc.
    + simpl. lia.
    + right. apply elem_of_cons. destruct Ht1; [by left|by right].
    + intros x. rewrite !elem_of_cons. naive_solver.
    + intros x. rewrite !elem_of_cons. naive_solver.
    + intros x [->|Hx']%elem_of_cons; [split; [done|left; by left]|]. destruct (Hns x Hx') as [? [?|?]]; (split; [done|]); [left; by right|by right].
Qed.

(** All blocks are full: a block is added behind the last. *)
Lemma room_added m l bi b es d :
  free_list fuel m h (d :: l) → dir_rep b es → used m h bi b → find_es (c_str name) es = None →
  let b1 := set_next d b in
  let m' := <[bi := b1]> (allocated m d zero_block) in
  dir_rep b1 es ∧ i_next b1 = d ∧ used m' h bi b1 ∧ free_list fuel m' h l ∧
  room m bi [] [es] m' d zero_block [].
Proof using Hp.
  intros F Hr Hu Hf b1 m'. pose proof (free_first _ _ _ _ _ F) as Hff. pose proof (free_range _ _ _ _ _ F) as Hd.
  pose proof (fl_each _ _ _ _ F) as He. apply Forall_cons in He as [(E1 & E2 & E3 & E4 & E5) _].
  pose proof (dr_block _ _ Hr) as Hb. assert (is_block b1) as Hb1 by (apply wr_block; [lia|done]).
  assert (∀ x b0, used m h x b0 → x ≠ d) as Hne.
  { intros x b0 Hx ->. apply (used_not_free _ _ _ _ _ _ _ F Hx). by left. }
  assert (∀ x b0, used m h x b0 → used (allocated m d zero_block) h x b0) as Hkeep by (intros; by eapply used_allocated).
  assert (dir_rep b1 es) as Hr1 by (apply dir_rep_wr; [done|lia]).
  assert (i_next b1 = d) as Hx1 by (by apply next_set_next).
  assert (used m' h bi b1) as Hu1 by (by eapply used_insert_eq, Hkeep).
  split_and!; [done|done|done| |].
  { apply free_insert; [eapply free_rest; [done|apply zero_block_ok]|apply Hu|apply has_bit_id, Hu|done]. }
  assert (used m' h d zero_block) as Hud by (apply used_insert_ne; [apply Hu|by eapply Hne|by eapply used_new]).
  split; [apply zero_block_dir|simpl; lia|done|done|by right|by exists b1| | | |].
  - intros x b0 Hx Hxb _. split; [|by eapply Hne]. apply used_insert_ne; [apply Hu|done|by apply Hkeep].
  - intros x Hbx. unfold m'. rewrite bit_of_insert by (done || apply Hu). intros Hx.
    destruct (allocated_bits _ _ _ _ _ _ x F Hbx Hx) as [| ->]; [by left|right]. split; [done|]. by apply not_eq_sym, (Hne bi b).
  - intros x Hbx. unfold m'. rewrite bit_of_insert by (done || apply Hu). rewrite (allocated_exact _ _ _ _ _ _ x F Hbx).
    apply decide_ext. split; [intros ->|tauto]. split_and!; [done|by apply not_eq_sym, (Hne bi b)|apply not_elem_of_nil].
  - intros m'' nb inum Hm Hnb Hdir Hnx. exists b1, [d], [es; [(c_str name, inum)]], es, [].
    assert (i_next nb = 0) as Hz by (rewrite Hnx; apply rd_zero).
    split_and!; [apply Hm; [done|by eapply Hne]| |simpl; by rewrite app_nil_r|done|simpl; lia|right; by left
      |by intros x ?%elem_of_nil|intros x ->%list_elem_of_singleton; by right|].
    + rewrite <- Hx1. apply (db_next _ _ _ _ _ nb); rewrite ?Hx1; try done; [by intros ->|by constructor].
    + intros x ->%list_elem_of_singleton. split; [by exists zero_block|]. right. intros b0 Hx. by apply (Hne d b0).
Qed.

Lemma dup_none b es (s : yfs (gmap Z (list Z))) :
  dir_rep b es → find_es (c_str name) es = None →
  (if check then st_lift (find_entry name b) else mret None) s = Ret (None, s).
Proof using Hn.
  intros Hr Hf. destruct check; [|done]. unfold st_lift. by rewrite (find_entry_rep b es), Hf.
Qed.

(** One turn of the loop on a full block. *)
Lemma find_slot_full n target tmp b es s :
  dir_rep b es → length es = 5%nat → find_es (c_str name) es = None →
  find_slot fuel (S n) check parent target tmp name b s
  = (if negb (i_next b =? 0) then
       '(_, buf) ← safe_get (i_next b) b parent; find_slot fuel n check parent (i_next b) tmp name buf
     else
       '(ret, tmp) ← y_put_add fuel tmp zero_block;
       if check && negb (ret =? y_OK) then mret Failure
       else
         ret ← safe_put target (set_next tmp b) parent;
         if check && negb (ret =? y_OK) then mret Failure
         else find_slot fuel n check parent target tmp name (set_next tmp b)) s.
Proof using Hn.
  intros Hr H5 Hf. cbn [find_slot]. rewrite (dr_size _ _ Hr), H5. change (INODE_DIR_ENTRY_NUM <=? Z.of_nat 5) with true.
  cbv iota. by run (dup_none b es s Hr Hf).
Qed.

Lemma find_slot_room n target tmp b es s :
  dir_rep b es → (length es < 5)%nat →
  find_slot (S := gmap Z (list Z)) fuel (S n) check parent target tmp name b s = Ret (Room target tmp b, s).
Proof.
  intros Hr H5. cbn [find_slot]. rewrite (dr_size _ _ Hr). unfold INODE_DIR_ENTRY_NUM.
  by destruct (Z.leb_spec 5 (Z.of_nat (length es))); [lia|].
Qed.

(** The search over the whole chain, for a name that is not there. *)
Lemma find_slot_run m l bi b ns ess n tmp :
  dir_blocks m h parent b ns ess → used m h bi b → bi ∉ ns → reach bi →
  find_es (c_str name) (concat ess) = None → free_list fuel m h l → (0 < length l)%nat → (length ess + 2 ≤ n)%nat →
  ∃ target tmp' buf es' m' l',
    find_slot fuel n check parent bi tmp name b (Yfs m h c) = Ret (Room target tmp' buf, Yfs m' h c) ∧
    room m bi ns ess m' target buf es' ∧ free_list fuel m' h l' ∧
    (length l ≤ S (length l'))%nat ∧ (∀ x, x ∈ l' → x ∈ l) ∧ (target = bi ∨ target ∈ ns ∨ target ∈ l).
Proof using Hp Hn.
  intros Hb. revert bi n. induction Hb as [b es Hr Hnx|b es b' ns ess Hr Hnx Hnp Hnh Hu' Hb IH];
    intros bi n Hu Hbi Hre Hf F Hl Hfu; simpl in Hf, Hfu; rewrite find_es_app in Hf;
    (assert (find_es (c_str name) es = None) as Hf1 by (by destruct (find_es (c_str name) es)));
    destruct (decide (length es < 5)%nat) as [Hlt|Hge].
  1,3: destruct n as [|n]; [lia|]; exists bi, tmp, b, es, m, l;
    (split; [by apply (find_slot_room n bi tmp b es)|split; [|auto 6]]);
    apply room_here; try done; by econstructor.
  - pose proof (dr_len _ _ Hr) as H5. destruct n as [|[|[|n]]]; [lia..|].
    destruct l as [|d l]; [simpl in Hl; lia|].
    destruct (room_added m l bi b es d F Hr Hu Hf1) as (Hr1 & Hx1 & Hu1 & F1 & Rm).
    set (b1 := set_next d b) in *. set (m' := <[bi := b1]> (allocated m d zero_block)) in *.
    pose proof (fl_each _ _ _ _ F) as He. apply Forall_cons in He as [(E1 & E2 & E3 & E4 & E5) _].
    exists d, d, zero_block, [], m', l. split; [|split_and!; [done|done|simpl; lia|by right|right; right; by left]].
    rewrite (find_slot_full _ bi tmp b es) by (done || lia). rewrite Hnx. change (negb (0 =? 0)) with false. cbv iota.
    run (y_put_add_run m h c d tmp zero_block fuel (free_first _ _ _ _ _ F) zero_block_ok E5). cbv beta iota.
    change (y_OK =? y_OK) with true. rewrite andb_false_r. fold b1.
    assert (used (allocated m d zero_block) h bi b) as Hu0 by (eapply used_allocated; [by eapply free_first|done..]).
    run (reach_put _ bi b b1 Hu0 Hre (dr_block _ _ Hr1)). cbv beta. fold m'.
    change (y_OK =? y_OK) with true. rewrite andb_false_r.
    rewrite (find_slot_full _ bi d b1 es) by (done || lia). rewrite Hx1. destruct (Z.eqb_spec d 0); [done|]. cbn [negb].
    run (reach_get m' d zero_block b1 (rm_used _ _ _ _ _ _ _ _ Rm) (or_intror E4)). cbv beta iota.
    apply (find_slot_room n d d zero_block []); [apply zero_block_dir|simpl; lia].
  - pose proof (dr_len _ _ Hr) as H5. destruct n as [|n]; [lia|]. apply not_elem_of_cons in Hbi as Hbi'. destruct Hbi' as [Hbi1 Hbi2].
    pose proof (dir_blocks_nodup _ _ _ _ _ _ (db_next _ _ _ _ _ b' ns ess Hr Hnx Hnp Hnh Hu' Hb)) as [Hni _]%NoDup_cons.
    destruct (IH (i_next b) n Hu' Hni) as (target & tmp' & buf & es' & m' & l' & E & Rm & F' & L & Hsub & Htg);
      [by right| |done|done|lia|].
    { rewrite Hf1 in Hf. by destruct (find_es (c_str name) (concat ess)) as [[]|]. }
    exists target, tmp', buf, es', m', l'. split; [|split; [by apply room_later|split_and!; [done|done|done|rewrite elem_of_cons; naive_solver]]].
    rewrite (find_slot_full _ bi tmp b es) by (done || lia). destruct (Z.eqb_spec (i_next b) 0); [done|]. cbn [negb].
    run (reach_get m (i_next b) b' b Hu' (or_intror Hnh)). exact E.
Qed.
End slot.

(** * Entering a new name *)

(** The directory [parent] has the new entry [(c_str name, i0)], the block [i0]
    was free and has the contents [nb], and nothing else changed. *)
Record entered (fuel : nat) (m : gmap Z (list Z)) (h : gset Z) (parent : Z) (ns : list Z) (ess : list entries)
    (l : list Z) (name : list Z) (i0 : Z) (nb : list Z) (m' : gmap Z (list Z)) (b' : list Z) (ns' : list Z)
    (ess' : list entries) (l' : list Z) : Prop := {
  en_new : i0 ∈ l;
  en_used : used m' h i0 nb;
  en_parent : used m' h parent b';
  en_blocks : dir_blocks m' h parent b' ns' ess';
  en_entry : ∃ l1 l2, concat ess = l1 ++ l2 ∧ concat ess' = l1 ++ (c_str name, i0) :: l2;
  en_length : (length ess' ≤ S (length ess))%nat;
  en_not_dir : i0 ∉ ns' ∧ i0 ≠ parent;
  en_apart : ∀ x, x ∈ ns' → x ∈ ns ∨ ∀ b, ¬ used m h x b;
  en_free : free_list fuel m' h l';
  en_sub : ∀ x, x ∈ l' → x ∈ l;
  en_left : (length l ≤ S (S (length l')))%nat;
  en_bits : ∀ x, has_bit x → bit_of m' x = Some true → bit_of m x = Some true ∨ x = i0 ∨ x ∈ ns';
  en_exact : ∀ x, has_bit x → bit_of m' x = if decide (x = i0 ∨ x ∈ ns' ∧ x ∉ ns) then Some true else bit_of m x;
  en_from : ∀ x, x ∈ ns' → x ∈ ns ∨ x ∈ l;
  en_others : ∀ x b, used m h x b → x ≠ parent → x ∉ ns → used m' h x b }.

Section enter.
Context (fuel : nat) (h : gset Z) (parent : Z) (name : list Z) (c : nat).
Hypothesis (Hp : parent ∈ h) (Hn : Forall (λ c, 0 ≤ c) name) (Hok : name_ok (c_str name)).

Lemma enter_run m l ns ess m' target buf es' i0 l' nb :
  room h parent name m parent ns ess m' target buf es' → free_list fuel m' h (i0 :: l') →
  (∀ x, x ∈ i0 :: l' → x ∈ l) → (length l ≤ S (length (i0 :: l')))%nat → is_block nb →
  target = parent ∨ target ∈ ns ∨ target ∈ l → parent ∉ ns →
  ∃ nbuf m'' b' ns' ess',
    add_entry name i0 buf = Ret nbuf ∧
    safe_put target nbuf parent (Yfs (allocated m' i0 nb) h c) = Ret (y_OK, Yfs m'' h c) ∧
    entered fuel m h parent ns ess l name i0 nb m'' b' ns' ess' l'.
Proof using Hp Hn Hok.
  intros Rm F Hsub Hleft Hnb Htg Hpn. pose proof Rm as [R1 R2 R3 R4 R5 [bp R0] R6 Rb Rx R7]. pose proof (free_range _ _ _ _ _ F) as Hi0.
  destruct (add_entry_rep buf es' name i0 R1 R2 Hn Hok Hi0) as (nbuf & Ea & Hr' & Hx').
  pose proof (free_first _ _ _ _ _ F) as Hff. pose proof (fl_each _ _ _ _ F) as He.
  apply Forall_cons in He as [(E1 & E2 & E3 & E4 & E5) _]. set (m2 := allocated m' i0 nb).
  assert (∀ x b, used m' h x b → used m2 h x b ∧ x ≠ i0) as Hk.
  { intros x b Hx. split; [by eapply used_allocated|]. intros ->. apply (used_not_free _ _ _ _ _ _ _ F Hx). by left. }
  destruct (Hk _ _ R4) as [Hut Hti]. set (m3 := <[target := nbuf]> m2).
  assert (∀ x b, used m' h x b → x ≠ target → used m3 h x b) as Hk3.
  { intros x b Hx Hxt. apply used_insert_ne; [apply R4|done|by apply Hk]. }
  assert (used m3 h target nbuf) as Hu3 by by eapply used_insert_eq.
  destruct (R7 m3 nbuf i0 Hk3 Hu3 Hr' Hx') as (b' & ns' & ess' & l1 & l2 & U & D & C1 & C2 & L & Ht1 & Hks & Hfs & Hns).
  assert (used m3 h i0 nb) as Hui by (apply used_insert_ne; [apply R4|done|by eapply used_new]).
  exists nbuf, m3, b', ns', ess'. split_and!; [done|eapply reach_put; [exact Hp|exact Hut|exact R5|apply Hr']|].
  split; try done; [apply Hsub; by left|by exists l1, l2|..].
  - split; [|intros ->; by apply (Hk _ _ R0)]. intros [[bx Hx] _]%Hns. by apply (Hk _ _ Hx).
  - intros x Hx. by apply Hns.
  - apply free_insert; [by eapply free_rest|apply R4|apply has_bit_id, R4|apply Hr'].
  - intros x Hx. apply Hsub. by right.
  - intros x Hbx. unfold m3. rewrite bit_of_insert by (done || apply R4). intros Hx.
    destruct (allocated_bits _ _ _ _ _ _ x F Hbx Hx) as [Hxm| ->]; [|by right; left].
    destruct (Rb x Hbx Hxm) as [|[-> Hxp]]; [by left|]. right. right. by destruct Ht1.
  - intros x Hbx. unfold m3. rewrite bit_of_insert by (done || apply R4). unfold m2.
    rewrite (allocated_exact _ _ _ _ _ _ x F Hbx), Rx by done.
    assert (x ∈ ns' → x ≠ parent) as Hxp by (intros Hx ->; by destruct (dir_blocks_not_held _ _ _ _ _ _ _ D Hx) as (_ & ? & _)).
    pose proof (Hfs x). repeat case_decide; naive_solver.
  - intros x Hx. destruct (Hfs x Hx) as [| ->]; [by left|]. destruct Htg as [->|]; [|done].
    by destruct (dir_blocks_not_held _ _ _ _ _ _ _ D Hx) as (_ & ? & _).
  - intros x b Hx Hx1 Hx2. destruct (R6 x b Hx Hx1 Hx2). by apply Hk3.
Qed.
End enter.

(** * create and mkdir *)

(** The inode of a new directory. *)
Definition new_dir (t1 t2 : Z) : list Z := set_ctime t2 (set_mtime t1 (set_atime 0 zero_block)).

Lemma new_dir_rep t1 t2 : dir_rep (new_dir t1 t2) [] ∧ i_next (new_dir t1 t2) = 0.
Proof.
  split; [repeat (apply dir_rep_wr; [|lia]); apply zero_block_dir|].
  assert (length zero_block = 512%nat) as Hl by apply length_replicate.
  unfold new_dir, set_ctime, set_mtime, set_atime, i_next. rewrite !rd_wr_ne by (rewrite ?length_wr; rewrite ?length_wr, ?Hl; lia).
  apply rd_zero.
Qed.

Section create.
Context (time : nat → Z) (junk : list Z) (fuel : nat).
Context (m : gmap Z (list Z)) (h : gset Z) (c : nat) (parent : Z) (b : list Z).
Context (ns : list Z) (ess : list entries) (name : list Z) (l : list Z).
Hypothesis (Hh : parent ∉ h) (Hu : used m ({[parent]} ∪ h) parent b).
Hypothesis (Hb : dir_blocks m ({[parent]} ∪ h) parent b ns ess).
Hypothesis (Hn : Forall (λ c, 0 ≤ c) name) (Hok : name_ok (c_str name)).
Hypothesis (Hnew : find_es (c_str name) (concat ess) = None).
Hypothesis (F : free_list fuel m ({[parent]} ∪ h) l) (Hl : (2 ≤ length l)%nat) (Hfuel : (length ess + 2 ≤ fuel)%nat).

(** The search from the first block with new times, and the block that is taken
    for the new inode. *)
Lemma search_run check b1 c1 :
  is_block b1 → dir_blocks m ({[parent]} ∪ h) parent b1 ns ess →
  let m1 := <[parent := b1]> m in
  safe_put parent b1 parent (Yfs m ({[parent]} ∪ h) c1) = Ret (y_OK, Yfs m1 ({[parent]} ∪ h) c1) ∧
  ∃ target tmp buf es' m' i0 l',
    find_slot fuel fuel check parent parent 0 name b1 (Yfs m1 ({[parent]} ∪ h) c1)
    = Ret (Room target tmp buf, Yfs m' ({[parent]} ∪ h) c1) ∧ dir_rep buf es' ∧ find_es (c_str name) es' = None ∧
    ∀ nb c2, is_block nb → ∃ nbuf m'' b' ns' ess',
      y_put_add fuel tmp nb (Yfs m' ({[parent]} ∪ h) c2) = Ret ((y_OK, i0), Yfs (allocated m' i0 nb) ({[parent]} ∪ h) c2) ∧
      add_entry name i0 buf = Ret nbuf ∧
      safe_put target nbuf parent (Yfs (allocated m' i0 nb) ({[parent]} ∪ h) c2) = Ret (y_OK, Yfs m'' ({[parent]} ∪ h) c2) ∧
      entered fuel m ({[parent]} ∪ h) parent ns ess l name i0 nb m'' b' ns' ess' l'.
Proof using All.
  intros Hb1 Hbs m1. split; [by eapply safe_put_own|].
  assert (parent ∈ {[parent]} ∪ h) as Hpin by set_solver. assert (parent ∉ ns) as Hpn by (by eapply parent_not_in).
  assert (free_list fuel m1 ({[parent]} ∪ h) l) as F1 by (apply free_insert; [done|apply Hu|apply has_bit_id, Hu|done]).
  assert (dir_blocks m1 ({[parent]} ∪ h) parent b1 ns ess) as Hbs1 by (apply dir_blocks_insert_ne; [done|apply Hu|done]).
  destruct (find_slot_run fuel ({[parent]} ∪ h) parent check name c1 Hpin Hn m1 l parent b1 ns ess fuel 0 Hbs1) as
    (target & tmp & buf & es' & m' & l0 & E & Rm & F' & L & Hsub & Htg); try done; [by eapply used_insert_eq|by left|lia|].
  destruct l0 as [|i0 l']; [simpl in L; lia|]. exists target, tmp, buf, es', m', i0, l'.
  split_and!; [done|apply Rm|apply Rm|]. intros nb c2 Hnb.
  destruct (enter_run fuel _ parent name c2 Hpin Hn Hok m1 l ns ess m' target buf es' i0 l' nb Rm F' Hsub L Hnb Htg Hpn) as
    (nbuf & m'' & b' & ns' & ess' & Ea & Ep & [N1 N2 N3 N4 N5 N6 N7 Na N8 N9 N10 Nb Nx Nf N11]).
  exists nbuf, m'', b', ns', ess'. split_and!; [|done|done|].
  - apply y_put_add_run; [by eapply free_first|done|]. pose proof (fl_each _ _ _ _ F') as He.
    by apply Forall_cons in He as [(_ & _ & _ & _ & E5) _].
  - split; try done; [intros x Hx; destruct (Na x Hx) as [|Hxu]; [by left|right]; intros bx Hxm; apply (Hxu bx);
      apply used_insert_ne; [apply Hu| |done]; intros <-; by destruct (dir_blocks_not_held _ _ _ _ _ _ _ N4 Hx) as (_ & ? & _)
      |intros x Hbx Hx; destruct (Nb x Hbx Hx) as [Hx'|]; [left|by right];
      unfold m1 in Hx'; by rewrite bit_of_insert in Hx' by (done || apply Hu)
      |intros x Hbx; rewrite Nx by done; unfold m1; by rewrite bit_of_insert by (done || apply Hu)|].
    intros x bx Hx Hx1 Hx2. apply N11; [|done|done]. by apply used_insert_ne; [apply Hu|..].
Qed.

Lemma inner_create_chain ino :
  ∃ i0 m' b' ns' ess' l',
    inner_create time junk fuel parent name ino (Yfs m ({[parent]} ∪ h) c)
    = Ret ((y_OK, i0), Yfs m' ({[parent]} ∪ h) (S (S (S c)))) ∧
    entered fuel m ({[parent]} ∪ h) parent ns ess l name i0
      (new_inode (u64 (time (S c))) (u64 (time (S (S c))))) m' b' ns' ess' l'.
Proof using All.
  set (b1 := set_ctime (u64 (time c)) (set_mtime (u64 (time c)) b)).
  assert (dir_blocks m ({[parent]} ∪ h) parent b1 ns ess) as Hbs by (do 2 (apply dir_blocks_wr; [lia|]); done).
  destruct (search_run true b1 (S c) (dir_blocks_rep _ _ _ _ _ _ Hbs) Hbs) as
    (E0 & target & tmp & buf & es' & m' & i0 & l' & E & Hr & Hf & Hrest).
  set (nb := new_inode (u64 (time (S c))) (u64 (time (S (S c))))) in *.
  destruct (Hrest nb (S (S (S c))) (new_inode_block _ _)) as
    (nbuf & m'' & b' & ns' & ess' & Ep & Ea & Es & En). exists i0, m'', b', ns', ess', l'. split; [|done].
  unfold inner_create. run (safe_get_own _ _ c _ _ junk Hu). cbv beta iota.
  run (time0_run time m ({[parent]} ∪ h) c). cbv zeta. fold b1.
  run E0. change (negb (y_OK =? y_OK)) with false. cbv iota. run E. cbv beta iota.
  rewrite (bind_run _ _ _ None (Yfs m' ({[parent]} ∪ h) (S c)))
    by (unfold st_lift; rewrite (find_entry_rep buf es') by done; by rewrite Hf).
  rewrite !(bind_run _ _ _ _ _ (time0_run _ _ _ _)). cbv zeta. fold (new_inode (u64 (time (S c))) (u64 (time (S (S c))))) nb.
  run Ep. cbv beta iota. change (negb (y_OK =? y_OK)) with false. cbv iota.
  rewrite (bind_run _ _ _ nbuf (Yfs (allocated m' i0 nb) ({[parent]} ∪ h) (S (S (S c))))) by (unfold st_lift; by rewrite Ea).
  by run Es.
Qed.

Lemma create_chain_run ino :
  ∃ i0 m' b' ns' ess' l',
    create time junk fuel parent name ino (Yfs m h c) = Ret ((y_OK, i0), Yfs m' h (S (S (S c)))) ∧
    entered fuel m ({[parent]} ∪ h) parent ns ess l name i0
      (new_inode (u64 (time (S c))) (u64 (time (S (S c))))) m' b' ns' ess' l'.
Proof using All.
  destruct (inner_create_chain ino) as (i0 & m' & b' & ns' & ess' & l' & E & En). exists i0, m', b', ns', ess', l'.
  split; [|done]. unfold create. run (acquire_run m h c parent Hh). run E. by run (release_run m' h (S (S (S c))) parent Hh).
Qed.

Lemma mkdir_chain_run :
  ∃ i0 m' b' ns' ess' l',
    mkdir time junk fuel parent name (Yfs m h c) = Ret ((y_OK, i0), Yfs m' h (S (S (S (S c))))) ∧
    entered fuel m ({[parent]} ∪ h) parent ns ess l name i0
      (new_dir (u64 (time (S (S c)))) (u64 (time (S (S (S c)))))) m' b' ns' ess' l'.
Proof using All.
  set (b1 := set_mtime (u64 (time (S c))) (set_ctime (u64 (time c)) b)).
  assert (dir_blocks m ({[parent]} ∪ h) parent b1 ns ess) as Hbs by (do 2 (apply dir_blocks_wr; [lia|]); done).
  destruct (search_run false b1 (S (S c)) (dir_blocks_rep _ _ _ _ _ _ Hbs) Hbs) as
    (E0 & target & tmp & buf & es' & m' & i0 & l' & E & _ & _ & Hrest).
  set (nb := new_dir (u64 (time (S (S c)))) (u64 (time (S (S (S c)))))) in *.
  destruct (Hrest nb (S (S (S (S c)))) (dr_block _ _ (proj1 (new_dir_rep _ _)))) as
    (nbuf & m'' & b' & ns' & ess' & Ep & Ea & Es & En). exists i0, m'', b', ns', ess', l'. split; [|done].
  unfold mkdir. run (acquire_run m h c parent Hh). run (safe_get_own _ _ c _ _ junk Hu). cbv beta iota.
  rewrite !(bind_run _ _ _ _ _ (time0_run _ _ _ _)). cbv zeta. fold b1.
  run E0. cbv beta. run E. cbv beta iota. rewrite !(bind_run _ _ _ _ _ (time0_run _ _ _ _)). cbv zeta.
  fold (new_dir (u64 (time (S (S c)))) (u64 (time (S (S (S c)))))) nb. run Ep. cbv beta iota.
  rewrite (bind_run _ _ _ nbuf (Yfs (allocated m' i0 nb) ({[parent]} ∪ h) (S (S (S (S c))))))
    by (unfold st_lift; by rewrite Ea).
  run Es. cbv beta. by run (release_run m'' h (S (S (S (S c)))) parent Hh).
Qed.
End create.

(** ** Looking up *)
Lemma lookup_entered s es1 es2 s' i0 :
  find_es s (es1 ++ es2) = None →
  snd <$> find_es s' (es1 ++ (s, i0) :: es2) = if decide (s' = s) then Some i0 else snd <$> find_es s' (es1 ++ es2).
Proof.
  intros Hn. rewrite find_es_app in Hn. assert (find_es s es1 = None) as Hn1 by (by destruct (find_es s es1)).
  rewrite !find_es_app. case_decide as E.
  - subst s'. rewrite Hn1. simpl. by rewrite bool_decide_true.
  - destruct (find_es s' es1) as [[]|]; [done|]. simpl. rewrite bool_decide_false by congruence.
    by destruct (find_es s' es2) as [[]|].
Qed.

(** The directory with the new entry, in every store that still has its blocks,
    and what lookup returns there. *)
Lemma entered_dir fuel m h parent ns ess l name i0 nb m' b' ns' ess' l' m2 :
  entered fuel m h parent ns ess l name i0 nb m' b' ns' ess' l' →
  (∀ x bx, used m' h x bx → x ≠ i0 → used m2 h x bx) → used m2 h parent b' ∧ dir_blocks m2 h parent b' ns' ess'.
Proof.
  intros En Hk. destruct (en_not_dir _ _ _ _ _ _ _ _ _ _ _ _ _ _ _ En) as [N7 N8]. split.
  - apply Hk; [apply En|by apply not_eq_sym].
  - eapply dir_blocks_mono; [|apply En]. intros x bx Hx Hxu. apply Hk; [done|]. by intros ->.
Qed.

Lemma entered_lookup fuel m h parent ns ess l name i0 nb m' b' ns' ess' l' time junk m2 c s :
  entered fuel m ({[parent]} ∪ h) parent ns ess l name i0 nb m' b' ns' ess' l' → parent ∉ h →
  find_es (c_str name) (concat ess) = None → (length ess + 2 ≤ fuel)%nat → Forall (λ c, 0 ≤ c) s →
  (∀ x bx, used m' ({[parent]} ∪ h) x bx → x ≠ i0 → used m2 ({[parent]} ∪ h) x bx) →
  ∃ t, lookup time junk fuel parent s (Yfs m2 h c)
       = Ret (if decide (c_str s = c_str name) then i0 else lookup_es (c_str s) ess, t).
Proof.
  intros En Hh Hnew Hf Hs Hk. destruct (entered_dir _ _ _ _ _ _ _ _ _ _ _ _ _ _ _ _ En Hk) as [Hu Hb].
  destruct (en_entry _ _ _ _ _ _ _ _ _ _ _ _ _ _ _ En) as (l1 & l2 & C1 & C2).
  pose proof (en_length _ _ _ _ _ _ _ _ _ _ _ _ _ _ _ En) as Hl.
  eexists. rewrite (lookup_run time junk fuel m2 h c parent b' ess' s Hh); [|done|by eapply dir_blocks_chain|done|lia].
  do 2 f_equal. unfold lookup_es. rewrite C2, lookup_entered by (by rewrite <- C1). rewrite <- C1.
  by case_decide.
Qed.

(** * The new file and the new directory *)
Lemma new_inode_fields t1 t2 :
  let b := new_inode t1 t2 in
  i_next b = 0 ∧ i_size b = 0 ∧ i_mode b = 1 ∧ ∀ j, (j < 16)%nat → direct_block (Z.of_nat j) b = 0.
Proof.
  assert (is_block zero_block) as Hz by apply zero_block_ok.
  assert (∀ off n v b, is_block b → (off + n ≤ 512)%nat → is_block (wr off n v b) ∧ length (wr off n v b) = 512%nat) as W.
  { intros off n v b0 H0 Ho. assert (is_block (wr off n v b0)) as Hw by (by apply wr_block). split; [done|apply Hw]. }
  destruct (W 0%nat 1%nat 1 zero_block Hz) as [B1 L1]; [lia|]. destruct (W 16%nat 8%nat 0 _ B1) as [B2 L2]; [lia|].
  destruct (W 24%nat 8%nat t1 _ B2) as [B3 L3]; [lia|].
  assert (∀ off n, (off + n ≤ 16 ∨ 40 ≤ off)%nat → rd off n (new_inode t1 t2) = rd off n (set_mode 1 zero_block)) as E.
  { intros off n Ho. unfold new_inode, set_ctime, set_mtime, set_atime, set_mode. by rewrite !rd_wr_ne by lia. }
  intros b. unfold b. destruct chain_inode_links as [Nn Nd]. split_and!.
  - unfold i_next. rewrite E by lia. exact Nn.
  - unfold i_size. rewrite E by lia. unfold set_mode. rewrite rd_wr_ne; [apply rd_zero|lia|]. destruct Hz; lia.
  - unfold i_mode. rewrite E by lia. unfold set_mode. rewrite rd_wr_eq by (destruct Hz; lia). reflexivity.
  - intros j Hj. unfold direct_block, block_off. rewrite E by lia. by apply Nd.
Qed.

(** The free blocks, seen by a thread that holds another block. *)
Lemma free_other fuel m h x y b l :
  free_list fuel m ({[x]} ∪ h) l → used m ({[x]} ∪ h) y b → free_list fuel m ({[y]} ∪ h) l.
Proof.
  intros F Hu. pose proof (used_not_free _ _ _ _ _ _ _ F Hu) as Hy. destruct F as [F1 F2 F3 F4 F5]. split; try done.
  - apply Forall_forall. intros i Hi. rewrite Forall_forall in F3. destruct (F3 i Hi) as (A & B & C & D & E).
    split_and!; try done. assert (i ≠ y) by (by intros ->). set_solver.
  - intros i z Hi Hz. pose proof (F5 i z Hi Hz) as Hn. rewrite Forall_forall in F3. destruct (F3 i Hi) as (A & _).
    assert (z ≠ y); [|set_solver]. intros ->. pose proof (us_area _ _ _ _ Hu) as Ha. by rewrite (area_bitmap i y) in Ha.
Qed.

Lemma used_other m h x y b : used m ({[x]} ∪ h) y b → used m ({[y]} ∪ h) y b.
Proof.
  intros [A B C D E]. split; try done. pose proof (not_bitmap y y A B). set_solver.
Qed.

(** The same file for a thread that holds another block. *)
Lemma whole_other m h x y ino ins ds :
  whole m ({[x]} ∪ h) ino ins ds → in_bitmap_area y = false → y = ino ∨ y ∉ (ins ++ ds).*1 → ino ∉ h →
  whole m ({[y]} ∪ h) ino ins ds.
Proof.
  intros [[Hd Hf] W2 W3 W4 W5] Ha Hy Hh. split; try done. split; [done|]. apply Forall_forall. intros p Hp.
  rewrite Forall_forall in Hf. destruct (Hf p Hp) as ([U1 U2 U3 U4 U5] & Hb & H0 & Hor). split_and!; try done.
  - split; try done. pose proof (not_bitmap y p.1 Ha U2). set_solver.
  - destruct (decide (p.1 = ino)) as [|Hne]; [by left|right]. assert (p.1 ≠ y).
    { intros E. destruct Hy as [->|Hy]; [done|]. apply Hy. rewrite <- E. apply list_elem_of_fmap. by exists p. }
    destruct Hor; set_solver.
Qed.

Lemma stored_other m h x ino ins ds data :
  stored m ({[x]} ∪ h) ino ins ds data → ino ∉ h → stored m ({[ino]} ∪ h) ino ins ds data.
Proof.
  intros Sd Hh. destruct (stored_first _ _ _ _ _ _ Sd) as (b & Hi & _). destruct Sd as [W Hs Hz].
  destruct (whole_inode W _ _ _ Hi) as (Hu & _). cbn [fst snd] in Hu. split; [|done|done].
  eapply whole_other; [done|apply Hu|by left|done].
Qed.

(** A file just created is empty. *)
Lemma entered_stored fuel m h parent ns ess l name i0 t1 t2 m' b' ns' ess' l' :
  free_list fuel m h l → entered fuel m h parent ns ess l name i0 (new_inode t1 t2) m' b' ns' ess' l' →
  i0 ∉ h ∧ stored m' h i0 [(i0, new_inode t1 t2)] [] [].
Proof.
  intros F En. pose proof (fl_each _ _ _ _ F) as He. rewrite Forall_forall in He.
  destruct (He i0 (en_new _ _ _ _ _ _ _ _ _ _ _ _ _ _ _ En)) as (A & B & C & D & E).
  destruct (new_inode_fields t1 t2) as (Hx & Hs & _ & Hd). split; [done|].
  split; [|simpl; by rewrite Hs|by exists 0%nat].
  apply whole_single; [|done|simpl; lia|by intros; rewrite Hd].
  split; [apply NoDup_singleton|]. constructor; [|done]. split_and!; [apply En|apply new_inode_block|done|by left].
Qed.

Lemma entered_empty fuel m h parent ns ess l name i0 t1 t2 m' b' ns' ess' l' :
  free_list fuel m ({[parent]} ∪ h) l →
  entered fuel m ({[parent]} ∪ h) parent ns ess l name i0 (new_inode t1 t2) m' b' ns' ess' l' →
  i0 ∉ h ∧ stored m' ({[i0]} ∪ h) i0 [(i0, new_inode t1 t2)] [] [] ∧ free_list fuel m' ({[i0]} ∪ h) l'.
Proof.
  intros F En. destruct (entered_stored _ _ _ _ _ _ _ _ _ _ _ _ _ _ _ _ F En) as [Hi Hs].
  split_and!; [set_solver|eapply stored_other; [done|set_solver]|eapply free_other; apply En].
Qed.

(** A file is created and then used; the directory and all other blocks stay. *)
Lemma create_fops_run time junk fuel m h c parent b ns ess name ino l N os :
  parent ∉ h → used m ({[parent]} ∪ h) parent b → dir_blocks m ({[parent]} ∪ h) parent b ns ess →
  Forall (λ c, 0 ≤ c) name → name_ok (c_str name) → find_es (c_str name) (concat ess) = None →
  free_list fuel m ({[parent]} ∪ h) l → (length ess + 2 ≤ fuel)%nat → (N < fuel)%nat →
  512 * Z.of_nat N < 2 ^ 63 → (N + (N + 15) `div` 16 + 2 ≤ length l)%nat → fops_ok N [] os →
  let nb := new_inode (u64 (time (S c))) (u64 (time (S (S c)))) in
  ∃ i0 m1 b' ns' ess' l' m2 c2 ins ds l2,
    create time junk fuel parent name ino (Yfs m h c) = Ret ((y_OK, i0), Yfs m1 h (S (S (S c)))) ∧
    entered fuel m ({[parent]} ∪ h) parent ns ess l name i0 nb m1 b' ns' ess' l' ∧ i0 ∉ h ∧
    run_fops time junk fuel i0 os (Yfs m1 h (S (S (S c)))) = Ret (fop_results [] os, Yfs m2 h c2) ∧
    grown fuel h i0 N m2 ins ds l2 (foldl fop_data [] os) ∧ grows m1 [(i0, nb)] [] l' m2 ins ds l2 ∧
    (∀ x bx, used m1 ({[parent]} ∪ h) x bx → x ≠ i0 → used m2 ({[parent]} ∪ h) x bx).
Proof.
  intros Hh Hu Hb Hn Hok Hnew F Hf1 Hf2 HN Hl Hops nb.
  destruct (create_chain_run time junk fuel m h c parent b ns ess name l Hh Hu Hb Hn Hok Hnew F) with (ino := ino)
    as (i0 & m1 & b' & ns' & ess' & l' & E & En); [lia|done|]. fold nb in En.
  destruct (entered_empty _ _ _ _ _ _ _ _ _ _ _ _ _ _ _ _ F En) as (Hi0 & Hs & F'). fold nb in Hs.
  pose proof (en_left _ _ _ _ _ _ _ _ _ _ _ _ _ _ _ En) as Hleft.
  destruct (run_fops_grown time junk fuel h i0 N Hi0 HN Hf2 m1 [(i0, nb)] [] l' [] (S (S (S c))) os) as
    (m2 & c2 & ins & ds & l2 & Er & Hg & R); [split; [done|done|simpl; lia|unfold missing; cbn [length]; lia]|done|].
  exists i0, m1, b', ns', ess', l', m2, c2, ins, ds, l2. split_and!; try done.
  intros x bx Hx Hne. apply (gr_others _ _ _ _ _ _ _ _ R); [done|]. simpl. set_solver.
Qed.

(** * Theorems *)

(** Creating a file, writing it and finding it again: a new name in a
    directory of any number of blocks, all of them full or not, gets a free block
    as its inode; the file is empty and from then on a byte string; after any
    writes and reads lookup finds the file under its name and every other name as
    before, and no used block outside the directory has changed. *)
Theorem create_write_lookup (time : nat → Z) (junk : list Z) (fuel : nat) (m : gmap Z (list Z)) (h : gset Z)
    (c : nat) (parent : Z) (b : list Z) (ns : list Z) (ess : list entries) (name : list Z) (ino : Z)
    (l : list Z) (N : nat) (os : list fop) :
  parent ∉ h → used m ({[parent]} ∪ h) parent b → dir_blocks m ({[parent]} ∪ h) parent b ns ess →
  Forall (λ c, 0 ≤ c) name → name_ok (c_str name) → find_es (c_str name) (concat ess) = None →
  free_list fuel m ({[parent]} ∪ h) l → (length ess + 2 ≤ fuel)%nat → (N < fuel)%nat →
  512 * Z.of_nat N < 2 ^ 63 → (N + (N + 15) `div` 16 + 2 ≤ length l)%nat → fops_ok N [] os →
  ∃ i0 s1 m2 c2 ins ds,
    create time junk fuel parent name ino (Yfs m h c) = Ret ((y_OK, i0), s1) ∧ i0 ∈ l ∧
    run_fops time junk fuel i0 os s1 = Ret (fop_results [] os, Yfs m2 h c2) ∧
    stored m2 ({[i0]} ∪ h) i0 ins ds (foldl fop_data [] os) ∧ mode_of ins = Some 1 ∧
    (∀ s, Forall (λ c, 0 ≤ c) s → ∃ t, lookup time junk fuel parent s (Yfs m2 h c2)
       = Ret (if decide (c_str s = c_str name) then i0 else lookup_es (c_str s) ess, t)) ∧
    (∀ x bx, used m ({[parent]} ∪ h) x bx → x ≠ parent → x ∉ ns → used m2 ({[parent]} ∪ h) x bx).
Proof.
  intros Hh Hu Hb Hn Hok Hnew F Hf1 Hf2 HN Hl Hops.
  destruct (create_fops_run time junk fuel m h c parent b ns ess name ino l N os) as
    (i0 & m1 & b' & ns' & ess' & l' & m2 & c2 & ins & ds & l2 & E & En & Hi0 & Er & Hg & R & Hk); try done.
  destruct (new_inode_fields (u64 (time (S c))) (u64 (time (S (S c))))) as (_ & _ & Hm & _).
  exists i0, (Yfs m1 h (S (S (S c)))), m2, c2, ins, ds. split_and!; [done|apply En|done|apply Hg| | |].
  - rewrite (gr_mode _ _ _ _ _ _ _ _ R). unfold mode_of. simpl. by rewrite Hm.
  - intros s Hsn. by eapply entered_lookup.
  - intros x bx Hx H1 H2. apply Hk; [by apply (en_others _ _ _ _ _ _ _ _ _ _ _ _ _ _ _ En)|]. intros ->.
    apply (used_not_free _ _ _ _ _ _ _ F Hx), En.
Qed.

(** A new directory is found and is empty: as for create, mkdir enters a new name
    into a directory of any number of blocks; lookup then finds the new directory,
    every other name as before, and no name in the new directory. *)
Theorem mkdir_then_lookup (time : nat → Z) (junk : list Z) (fuel : nat) (m : gmap Z (list Z)) (h : gset Z)
    (c : nat) (parent : Z) (b : list Z) (ns : list Z) (ess : list entries) (name : list Z) (l : list Z) :
  parent ∉ h → used m ({[parent]} ∪ h) parent b → dir_blocks m ({[parent]} ∪ h) parent b ns ess →
  Forall (λ c, 0 ≤ c) name → name_ok (c_str name) → find_es (c_str name) (concat ess) = None →
  free_list fuel m ({[parent]} ∪ h) l → (2 ≤ length l)%nat → (length ess + 2 ≤ fuel)%nat →
  ∃ i0 m1 c1, mkdir time junk fuel parent name (Yfs m h c) = Ret ((y_OK, i0), Yfs m1 h c1) ∧ i0 ∈ l ∧
    (∀ s, Forall (λ c, 0 ≤ c) s → ∃ t, lookup time junk fuel parent s (Yfs m1 h c1)
       = Ret (if decide (c_str s = c_str name) then i0 else lookup_es (c_str s) ess, t)) ∧
    (∀ s, Forall (λ c, 0 ≤ c) s → ∃ t, lookup time junk fuel i0 s (Yfs m1 h c1) = Ret (0, t)).
Proof.
  intros Hh Hu Hb Hn Hok Hnew F Hl Hf.
  destruct (mkdir_chain_run time junk fuel m h c parent b ns ess name l Hh Hu Hb Hn Hok Hnew F Hl Hf)
    as (i0 & m1 & b' & ns' & ess' & l' & E & En).
  exists i0, m1, (S (S (S (S c)))). split_and!; [done|apply En| |].
  - intros s Hs. eapply entered_lookup; try done.
  - intros s Hs. destruct (new_dir_rep (u64 (time (S (S c)))) (u64 (time (S (S (S c)))))) as [Hr Hx].
    pose proof (fl_each _ _ _ _ F) as He. rewrite Forall_forall in He.
    destruct (He i0 (en_new _ _ _ _ _ _ _ _ _ _ _ _ _ _ _ En)) as (A & B & C & D & _).
    eexists. apply (lookup_run time junk fuel m1 h _ i0 (new_dir (u64 (time (S (S c)))) (u64 (time (S (S (S c)))))) [[]] s); [set_solver| |by apply dc_end|done|simpl; lia].
    eapply used_other, En.
Qed.

(** ** A root directory with five files: its block is full *)
Definition ex_full_fs : yfs (gmap Z (list Z)) :=
  match exec_ops ex_time ex_junk 300
          [OCreate 1 [97] 0; OCreate 1 [98] 0; OCreate 1 [99] 0; OCreate 1 [100] 0; OCreate 1 [101] 0] ex_fs with
  | Ret (_, s) => s
  | _ => ex_fs
  end.

Definition ex_full_root : list Z := default [] (y_store ex_full_fs !! 1).
Definition ex_full_entries : entries := [([97], 2); ([98], 3); ([99], 4); ([100], 5); ([101], 6)].

Lemma ex_full_blocks : dir_blocks (y_store ex_full_fs) ({[1]} ∪ ∅) 1 ex_full_root [] [ex_full_entries].
Proof.
  apply db_end; [|by_vm]. split; [by_vm|by_vm|simpl; lia|]. intros i nm inum Hi.
  do 5 (destruct i as [|i]; [injection Hi as <- <-; split; [split; [simpl; lia|repeat constructor; lia]|];
    (split; [exists (replicate 62 0)|]; by_vm)|]). done.
Qed.

Definition ex_full_free : list Z := [7; 8; 9; 201; 202; 203].

Lemma ex_full_free_list : free_list 300 (y_store ex_full_fs) ({[1]} ∪ ∅) ex_full_free.
Proof. apply (free_list_small _ _ _ 204); [lia|by_vm|repeat constructor|done|by_vm..]. Qed.

(** The sixth file gets block 7 for the directory and block 8 for itself. *)
Lemma create_write_lookup_witness :
  ∃ s1 m2 c2 t1 t2, create ex_time ex_junk 300 1 [102] 0 (Yfs (y_store ex_full_fs) ∅ 0) = Ret ((y_OK, 8), s1) ∧
    run_fops ex_time ex_junk 300 8 [PWrite 2 [5; 6]; PRead 0 4] s1
    = Ret ([(0, []); (0, [0; 0; 5; 6])], Yfs m2 ∅ c2) ∧
    lookup ex_time ex_junk 300 1 [102] (Yfs m2 ∅ c2) = Ret (8, t1) ∧
    lookup ex_time ex_junk 300 1 [99] (Yfs m2 ∅ c2) = Ret (4, t2).
Proof.
  destruct (create_write_lookup ex_time ex_junk 300 (y_store ex_full_fs) ∅ 0 1 ex_full_root [] [ex_full_entries] [102] 0
    ex_full_free 1 [PWrite 2 [5; 6]; PRead 0 4]) as (i0 & s1 & m2 & c2 & ins & ds & E & _ & Er & _ & _ & L & _);
    [apply not_elem_of_empty|ex_used|exact ex_full_blocks|by_vm|split; [simpl; lia|repeat constructor; lia]
    |reflexivity|exact ex_full_free_list|apply Nat.leb_le; reflexivity|apply Nat.leb_le; reflexivity|lia
    |apply Nat.leb_le; reflexivity|split_and!; by_vm|].
  assert (i0 = 8) as -> by (vm_compute in E; by injection E as <- _).
  destruct (L [102]) as [t1 L1]; [by_vm|]. destruct (L [99]) as [t2 L2]; [by_vm|].
  exists s1, m2, c2, t1, t2. split; [exact E|]. split; [exact Er|]. split; [exact L1|exact L2].
Defined.

Lemma mkdir_then_lookup_witness :
  ∃ m1 c1 t1 t2, mkdir ex_time ex_junk 300 1 [102] (Yfs (y_store ex_full_fs) ∅ 0) = Ret ((y_OK, 8), Yfs m1 ∅ c1) ∧
    lookup ex_time ex_junk 300 1 [102] (Yfs m1 ∅ c1) = Ret (8, t1) ∧
    lookup ex_time ex_junk 300 8 [99] (Yfs m1 ∅ c1) = Ret (0, t2).
Proof.
  destruct (mkdir_then_lookup ex_time ex_junk 300 (y_store ex_full_fs) ∅ 0 1 ex_full_root [] [ex_full_entries] [102]
    ex_full_free) as (i0 & m1 & c1 & E & _ & L & L0);
    [apply not_elem_of_empty|ex_used|exact ex_full_blocks|by_vm|split; [simpl; lia|repeat constructor; lia]
    |reflexivity|exact ex_full_free_list|apply Nat.leb_le; reflexivity|apply Nat.leb_le; reflexivity|].
  assert (i0 = 8) as -> by (vm_compute in E; by injection E as <- _).
  destruct (L [102]) as [t1 L1]; [by_vm|]. destruct (L0 [99]) as [t2 L2]; [by_vm|].
  exists m1, c1, t1, t2. split; [exact E|]. split; [exact L1|exact L2].
Defined.
