(* ===== verification/YfsLife.v ===== *)
(** The life of a file of yfs_client.cc: created, written, read and removed again,
    it leaves no block in use and the directory as it was. *)
From S2P Require Import Prelude ExtentServer ExtentCache YfsBlock YfsFile YfsDir YfsOps YfsLocks.
From S2P Require Import YfsRefine YfsAlloc YfsDirSpec YfsFileSpec YfsUnlink YfsGrow YfsBytes YfsCreate.
Local Open Scope Z_scope.

(** * What recursive_unlink frees of a whole file *)
Section owned.
Context {m : gmap Z (list Z)} {h : gset Z} {ino : Z} {ins ds : list (Z * list Z)} (W : whole m h ino ins ds).

Lemma whole_directs i t b n j :
  ins !! i = Some (t, b) → (j + n = 16)%nat →
  directs n (Z.of_nat j) b = (take n (drop (16 * i + j) ds)).*1.
Proof using W.
  intros Hi. revert j. induction n as [|n IH]; intros j Hj; [done|]. cbn [directs].
  rewrite (wh_direct _ _ _ _ _ W i t b j Hi) by lia. destruct (ds !! (16 * i + j)%nat) as [[d db]|] eqn:E.
  - destruct (whole_block W _ _ _ E) as (_ & _ & H0 & _). cbn [fst] in H0. change (default 0 (fst <$> Some (d, db))) with d.
    destruct (Z.eqb_spec d 0); [done|]. rewrite (drop_S _ _ _ E). cbn [take]. rewrite fmap_cons. cbn [fst]. f_equal.
    replace (Z.of_nat j + 1) with (Z.of_nat (S j)) by lia. rewrite IH by lia. by replace (16 * i + S j)%nat with (S (16 * i + j)) by lia.
  - apply lookup_ge_None in E. rewrite drop_ge by lia. done.
Qed.

Lemma whole_owned_at i t b :
  ino ∉ h → ins !! i = Some (t, b) →
  ∃ L, owned m h t L ∧ L ≡ₚ (drop i ins).*1 ++ (drop (16 * i) ds).*1.
Proof using W.
  intros Hh. remember (length ins - i)%nat as n eqn:Hn. revert i t b Hn. induction n as [|n IH]; intros i t b Hn Hi.
  { apply lookup_lt_Some in Hi. lia. }
  pose proof (whole_directs i t b 16 0 Hi eq_refl) as Ed. change (Z.of_nat 0) with 0 in Ed. rewrite Nat.add_0_r in Ed.
  destruct (whole_inode W _ _ _ Hi) as (Hu & _ & H0 & Hor). cbn [fst snd] in *. pose proof (wh_next _ _ _ _ _ W i t b Hi) as Hx.
  assert (∃ L, owned m h (i_next b) L ∧ L ≡ₚ (drop (S i) ins).*1 ++ (drop (16 * S i) ds).*1) as (L & Ho & HL).
  { destruct (ins !! S i) as [[t' b']|] eqn:E; simpl in Hx; rewrite Hx; [apply (IH (S i) t' b'); [lia|done]|].
    apply lookup_ge_None in E. pose proof (wh_len _ _ _ _ _ W) as [L1 _]. exists []. rewrite !drop_ge by lia. by split; [constructor|]. }
  exists (directs 16 0 b ++ L ++ [t]). split.
  - constructor; try done; [by destruct Hor as [->|]|]. rewrite Ed. apply Forall_forall.
    intros x (p & -> & Hp)%list_elem_of_fmap. apply (used_freeable _ _ _ p.2).
    apply elem_of_take in Hp as (k & Hk & _). rewrite lookup_drop in Hk. destruct p as [d db]. by destruct (whole_block W _ _ _ Hk).
  - rewrite Ed, HL, (drop_S _ _ _ Hi), fmap_cons. cbn [fst].
    replace (16 * S i)%nat with (16 * i + 16)%nat by lia. rewrite <- drop_drop.
    rewrite <- (take_drop 16 (drop (16 * i) ds)) at 3. rewrite fmap_app.
    set (A := (take 16 _).*1). set (B := (drop (S i) ins).*1). set (D := (drop 16 _).*1). simpl. solve_Permutation.
Qed.
End owned.

Lemma whole_owned m h ino ins ds :
  whole m h ino ins ds → ino ∉ h → ∃ L, owned m h ino L ∧ L ≡ₚ (ins ++ ds).*1.
Proof.
  intros W Hh. pose proof (wh_first _ _ _ _ _ W) as Hf. destruct (ins !! 0%nat) as [[t b]|] eqn:E; [|done].
  injection Hf as ->. destruct (whole_owned_at W 0 ino b Hh E) as (L & Ho & HL). exists L. split; [done|].
  by rewrite fmap_app.
Qed.

(** The entry that was put in is the one that is found, and taking it out gives
    the directory from before. *)
Lemma find_entered s i0 (l1 l2 : entries) :
  find_es s (l1 ++ l2) = None →
  find_es s (l1 ++ (s, i0) :: l2) = Some (length l1, i0) ∧ delete (length l1) (l1 ++ (s, i0) :: l2) = l1 ++ l2.
Proof.
  intros Hn. rewrite find_es_app in Hn |- *. destruct (find_es s l1); [done|]. split.
  - simpl. rewrite bool_decide_true by done. simpl. by rewrite Nat.add_0_r.
  - by rewrite delete_middle.
Qed.

(** The blocks of the file are none of the directory. *)
Lemma parts_apart fuel m h parent ns ess l name i0 nb m1 b' ns' ess' l' m2 ins ds l2 x :
  entered fuel m h parent ns ess l name i0 nb m1 b' ns' ess' l' → grows m1 [(i0, nb)] [] l' m2 ins ds l2 →
  x ∈ (ins ++ ds).*1 → (x = i0 ∨ x ∈ l') ∧ x ≠ parent ∧ x ∉ ns'.
Proof.
  intros En R Hx. destruct (en_not_dir _ _ _ _ _ _ _ _ _ _ _ _ _ _ _ En) as [N1 N2].
  destruct (gr_parts _ _ _ _ _ _ _ _ R x Hx) as [->%list_elem_of_singleton|Hx']; [auto|].
  pose proof (en_free _ _ _ _ _ _ _ _ _ _ _ _ _ _ _ En) as F. split_and!; [by right| |].
  - intros ->. by apply (used_not_free _ _ _ _ _ _ _ F (en_parent _ _ _ _ _ _ _ _ _ _ _ _ _ _ _ En)).
  - intros Hn. destruct (dir_blocks_used _ _ _ _ _ _ _ (en_blocks _ _ _ _ _ _ _ _ _ _ _ _ _ _ _ En) Hn) as [bx Hu].
    by apply (used_not_free _ _ _ _ _ _ _ F Hu).
Qed.

Lemma unlink_created time junk fuel m h parent ns ess name l N i0 nb m1 b' ns' ess' l' m2 c2 ins ds l2 data :
  parent ∉ h → Forall (λ c, 0 ≤ c) name → find_es (c_str name) (concat ess) = None → (length ess + 2 ≤ fuel)%nat →
  (N + (N + 15) `div` 16 + 2 < fuel)%nat → free_list fuel m ({[parent]} ∪ h) l →
  entered fuel m ({[parent]} ∪ h) parent ns ess l name i0 nb m1 b' ns' ess' l' → i0 ∉ h →
  grown fuel h i0 N m2 ins ds l2 data → grows m1 [(i0, nb)] [] l' m2 ins ds l2 →
  (∀ x bx, used m1 ({[parent]} ∪ h) x bx → x ≠ i0 → used m2 ({[parent]} ∪ h) x bx) →
  ∃ m3 b3 ess3, unlink time junk fuel parent name (Yfs m2 h c2) = Ret (y_OK, Yfs m3 h (S (S c2))) ∧
    used m3 ({[parent]} ∪ h) parent b3 ∧ dir_blocks m3 ({[parent]} ∪ h) parent b3 ns' ess3 ∧
    length ess3 = length ess' ∧ concat ess3 = concat ess ∧
    (∀ x, has_bit x → bit_of m3 x = Some true → bit_of m x = Some true ∨ x ∈ ns') ∧
    (∀ x bx, used m ({[parent]} ∪ h) x bx → x ≠ parent → x ∉ ns → used m3 ({[parent]} ∪ h) x bx).
Proof.
  intros Hh Hn Hnew Hf1 Hf2 F En Hi0 [Hs2 F2 Ld _] R Hk. pose proof (ceil_16 N) as Hceil.
  destruct (entered_dir _ _ _ _ _ _ _ _ _ _ _ _ _ _ _ _ En Hk) as [Hu2 Hb2].
  destruct (en_entry _ _ _ _ _ _ _ _ _ _ _ _ _ _ _ En) as (l1 & l3 & C1 & C2). rewrite C1 in Hnew.
  destruct (find_entered _ i0 _ _ Hnew) as [Hfind Hdel]. rewrite <- C2 in Hfind, Hdel. rewrite <- C1 in Hdel.
  assert (whole m2 ({[parent]} ∪ h) i0 ins ds) as W.
  { eapply whole_other; [apply Hs2|apply Hu2|right|done]. intros Hx. by destruct (parts_apart _ _ _ _ _ _ _ _ _ _ _ _ _ _ _ _ _ _ _ _ En R Hx) as (_ & ? & _). }
  assert (i0 ∉ {[parent]} ∪ h) as Hi0' by (destruct (en_not_dir _ _ _ _ _ _ _ _ _ _ _ _ _ _ _ En); set_solver).
  destruct (whole_owned _ _ _ _ _ W Hi0') as (L & Ho & HL).
  assert (∀ x, x ∈ L → (x = i0 ∨ x ∈ l') ∧ x ≠ parent ∧ x ∉ ns') as HLx.
  { intros x Hx. rewrite HL in Hx. by eapply parts_apart. }
  assert (NoDup L) as HLd by (rewrite HL; apply W). pose proof (wh_len _ _ _ _ _ W) as [_ Lw].
  assert (length L < fuel)%nat as HLl by (rewrite HL, length_fmap, length_app; lia).
  pose proof (en_length _ _ _ _ _ _ _ _ _ _ _ _ _ _ _ En) as Hle.
  destruct (unlink_run time junk fuel m2 h c2 parent b' ns' ess' name (fl_wf _ _ _ _ F2) Hh Hu2 Hb2 Hn ltac:(lia) i0 L (length l1)
    Hfind Ho HLd HLl) as (m3 & b3 & ess3 & E3 & B3 & R3 & Hu3 & Hb3 & L3 & C3 & _).
  { intros x Hx Hxl. destruct (HLx x Hxl) as (_ & ? & ?). apply elem_of_cons in Hx. naive_solver. }
  exists m3, b3, ess3. split_and!; [done|done|done|done|by rewrite C3| |].
  - intros x Hbx. rewrite B3 by done. case_decide as Hxl; [done|]. intros Hx.
    destruct (gr_bits _ _ _ _ _ _ _ _ R x Hbx Hx) as [Hx1|Hxp]; [|by rewrite <- HL in Hxp].
    destruct (en_bits _ _ _ _ _ _ _ _ _ _ _ _ _ _ _ En x Hbx Hx1) as [|[->|]]; [by left| |by right].
    exfalso. apply Hxl. rewrite HL. apply (gr_keep _ _ _ _ _ _ _ _ R). by left.
  - intros x bx Hx H1 H2. assert (x ∉ l) as Hxl by (by eapply used_not_free).
    assert (x ≠ i0) as Hxi by (intros ->; apply Hxl, En).
    assert (x ∉ L) as HxL by (intros [[|Hx'] _]%HLx; [done|apply Hxl; by apply (en_sub _ _ _ _ _ _ _ _ _ _ _ _ _ _ _ En)]).
    assert (x ∉ ns') as Hxn by (intros Hx'; destruct (en_apart _ _ _ _ _ _ _ _ _ _ _ _ _ _ _ En x Hx') as [|Hnu]; [done|by apply (Hnu bx)]).
    destruct (Hk x bx) as [U1 U2 U3 U4 U5]; [by apply (en_others _ _ _ _ _ _ _ _ _ _ _ _ _ _ _ En)|done|].
    split; try done; [by rewrite B3, decide_False|]. rewrite R3; [done|done|]. rewrite not_elem_of_cons. done.
Qed.

(** * Theorems *)

(** A removed file leaves nothing behind: a file is created under a new name
    in a directory of any number of blocks, written and read in any way, and
    unlinked; then the directory has its old entries again, every block in use was
    in use before or is a block of the directory, and every used block outside the
    directory is as it was. *)
Theorem file_life (time : nat → Z) (junk : list Z) (fuel : nat) (m : gmap Z (list Z)) (h : gset Z)
    (c : nat) (parent : Z) (b : list Z) (ns : list Z) (ess : list entries) (name : list Z) (ino : Z)
    (l : list Z) (N : nat) (os : list fop) :
  parent ∉ h → used m ({[parent]} ∪ h) parent b → dir_blocks m ({[parent]} ∪ h) parent b ns ess →
  Forall (λ c, 0 ≤ c) name → name_ok (c_str name) → find_es (c_str name) (concat ess) = None →
  free_list fuel m ({[parent]} ∪ h) l → (length ess + 2 ≤ fuel)%nat → (N + (N + 15) `div` 16 + 2 < fuel)%nat →
  512 * Z.of_nat N < 2 ^ 63 → (N + (N + 15) `div` 16 + 2 ≤ length l)%nat → fops_ok N [] os →
  ∃ i0 s1 s2 m3 c3 ns',
    create time junk fuel parent name ino (Yfs m h c) = Ret ((y_OK, i0), s1) ∧
    run_fops time junk fuel i0 os s1 = Ret (fop_results [] os, s2) ∧
    unlink time junk fuel parent name s2 = Ret (y_OK, Yfs m3 h c3) ∧
    (∃ b3 ess3, used m3 ({[parent]} ∪ h) parent b3 ∧ dir_blocks m3 ({[parent]} ∪ h) parent b3 ns' ess3 ∧
       concat ess3 = concat ess) ∧
    (∀ s, Forall (λ c, 0 ≤ c) s →
       ∃ t, lookup time junk fuel parent s (Yfs m3 h c3) = Ret (lookup_es (c_str s) ess, t)) ∧
    (∀ x, has_bit x → bit_of m3 x = Some true → bit_of m x = Some true ∨ x ∈ ns') ∧
    (∀ x bx, used m ({[parent]} ∪ h) x bx → x ≠ parent → x ∉ ns → used m3 ({[parent]} ∪ h) x bx).
Proof.
  intros Hh Hu Hb Hn Hok Hnew F Hf1 Hf2 HN Hl Hops.
  destruct (create_fops_run time junk fuel m h c parent b ns ess name ino l N os) as
    (i0 & m1 & b' & ns' & ess' & l' & m2 & c2 & ins & ds & l2 & E & En & Hi0 & Er & Hg & R & Hk); try done; [lia|].
  destruct (unlink_created time junk fuel m h parent ns ess name l N i0 _ m1 b' ns' ess' l' m2 c2 ins ds l2 _ Hh Hn Hnew Hf1 Hf2 F En Hi0 Hg R Hk)
    as (m3 & b3 & ess3 & E3 & Hu3 & Hb3 & L3 & C3 & B3 & O3).
  exists i0, (Yfs m1 h (S (S (S c)))), (Yfs m2 h c2), m3, (S (S c2)), ns'. split_and!; [done|done|done|by exists b3, ess3| |done|done].
  intros s Hs. eexists. rewrite (lookup_run time junk fuel m3 h _ parent b3 ess3 s Hh Hu3 (dir_blocks_chain _ _ _ _ _ _ Hb3) Hs).
  { unfold lookup_es. by rewrite C3. }
  pose proof (en_length _ _ _ _ _ _ _ _ _ _ _ _ _ _ _ En). lia.
Qed.

(** ** The sixth file of a full root directory: block 7 stays with the directory *)
Lemma file_life_witness :
  ∃ s1 s2 m3 c3 t, create ex_time ex_junk 300 1 [102] 0 (Yfs (y_store ex_full_fs) ∅ 0) = Ret ((y_OK, 8), s1) ∧
    run_fops ex_time ex_junk 300 8 [PWrite 2 [5; 6]; PRead 0 4] s1 = Ret ([(0, []); (0, [0; 0; 5; 6])], s2) ∧
    unlink ex_time ex_junk 300 1 [102] s2 = Ret (y_OK, Yfs m3 ∅ c3) ∧
    lookup ex_time ex_junk 300 1 [102] (Yfs m3 ∅ c3) = Ret (0, t).
Proof.
  destruct (file_life ex_time ex_junk 300 (y_store ex_full_fs) ∅ 0 1 ex_full_root [] [ex_full_entries] [102] 0
    ex_full_free 1 [PWrite 2 [5; 6]; PRead 0 4]) as (i0 & s1 & s2 & m3 & c3 & ns' & E & Er & Eu & _ & L & _);
    [apply not_elem_of_empty|ex_used|exact ex_full_blocks|by_vm|split; [simpl; lia|repeat constructor; lia]
    |reflexivity|exact ex_full_free_list|apply Nat.leb_le; reflexivity|apply Nat.ltb_lt; reflexivity|lia
    |apply Nat.leb_le; reflexivity|split_and!; by_vm|].
  assert (i0 = 8) as -> by (vm_compute in E; by injection E as <- _).
  destruct (L [102]) as [t L1]; [by_vm|].
  exists s1, s2, m3, c3, t. split; [exact E|]. split; [exact Er|]. split; [exact Eu|exact L1].
Defined.
