(* ===== verification/YfsVolume.v ===== *)
(** A directory of yfs_client.cc as a map from names to byte strings: create,
    write, read, unlink and readdir in any order, on a volume of [K] blocks whose
    free blocks are enough for what the files may still grow to. *)
From Stdlib Require Import Sorted.
From S2P Require Import Prelude ExtentServer ExtentCache YfsBlock YfsFile YfsDir YfsOps YfsLocks.
From S2P Require Import YfsRefine YfsAlloc YfsDirSpec YfsFileSpec YfsListing YfsUnlink YfsGrow YfsBytes YfsCreate YfsLife.
Local Open Scope Z_scope.

(** * The free blocks of a volume *)

(** The free ones of the first [K] blocks, in order. *)
Definition is_free (m : gmap Z (list Z)) (j : Z) : Prop := bit_of m j = Some false.

#[export] Instance is_free_dec m j : Decision (is_free m j).
Proof. unfold is_free. apply _. Defined.

Definition frees (K : nat) (m : gmap Z (list Z)) : list Z := filter (is_free m) (Z.of_nat <$> seq 0 K).

Lemma elem_of_frees K m j : j ∈ frees K m ↔ 0 ≤ j < Z.of_nat K ∧ bit_of m j = Some false.
Proof.
  unfold frees. rewrite list_elem_of_filter, list_elem_of_fmap. unfold is_free. split.
  - intros (Hb & n & -> & Hn%elem_of_seq). split; [lia|done].
  - intros (Hj & Hb). split; [done|]. exists (Z.to_nat j). split; [lia|]. apply elem_of_seq. lia.
Qed.

Lemma sorted_seq a n : StronglySorted Z.lt (Z.of_nat <$> seq a n).
Proof.
  revert a. induction n as [|n IH]; intros a; [constructor|]. simpl. constructor; [apply IH|].
  apply Forall_forall. intros x (k & -> & Hk%elem_of_seq)%list_elem_of_fmap. lia.
Qed.

Lemma sorted_filter (P : Z → Prop) `{∀ x, Decision (P x)} l : StronglySorted Z.lt l → StronglySorted Z.lt (filter P l).
Proof.
  induction 1 as [|x l _ IH Hx]; [constructor|]. rewrite filter_cons. case_decide; [|done]. constructor; [done|].
  rewrite Forall_forall in Hx |- *. intros y [_ Hy]%list_elem_of_filter. by apply Hx.
Qed.

Lemma sorted_nodup l : StronglySorted Z.lt l → NoDup l.
Proof.
  induction 1 as [|x l _ IH Hx]; constructor; [|done]. rewrite Forall_forall in Hx. intros Hin%Hx. lia.
Qed.

Lemma frees_sorted K m : StronglySorted Z.lt (frees K m).
Proof. apply sorted_filter, sorted_seq. Qed.

Lemma frees_nodup K m : NoDup (frees K m).
Proof. apply sorted_nodup, frees_sorted. Qed.

(** Counting by inclusion. *)
Lemma nodup_length (l k : list Z) : NoDup l → (∀ x, x ∈ l → x ∈ k) → (length l ≤ length k)%nat.
Proof. intros Hd Hs. by apply submseteq_length, NoDup_submseteq. Qed.

Lemma below_length (l : list Z) (K : nat) : NoDup l → Forall (λ x, 0 ≤ x < Z.of_nat K) l → (length l ≤ K)%nat.
Proof.
  intros Hd Hf. rewrite Forall_forall in Hf. rewrite <- (length_seq K 0), <- (length_fmap Z.of_nat).
  apply nodup_length; [done|]. intros x Hx%Hf. apply list_elem_of_fmap. exists (Z.to_nat x). split; [lia|].
  apply elem_of_seq. lia.
Qed.

(** The state of the allocator: the bits of the first [K] blocks are known, and
    the free ones are blocks that it may hand out. *)
Record space (K : nat) (m : gmap Z (list Z)) : Prop := {
  sp_wf : bs_wf m;
  sp_bits : ∀ j, 0 ≤ j < Z.of_nat K → is_Some (bit_of m j);
  sp_free : ∀ j, 0 ≤ j < Z.of_nat K → bit_of m j = Some false → in_bitmap_area j = false ∧ j ≠ 0 }.

Lemma space_free_list K fuel m x b hh :
  space K m → Z.of_nat K ≤ 191 * 4096 → (K ≤ fuel)%nat → used m hh x b → free_list fuel m ({[x]} ∪ ∅) (frees K m).
Proof.
  intros [Hw Hb Hf] HK Hfuel [U1 U2 U3 _ _].
  assert (∀ j, j ∈ frees K m → has_bit j) as Hh by (intros j [? _]%elem_of_frees; unfold has_bit; lia).
  split; [done|apply frees_sorted| | |].
  - apply Forall_forall. intros j Hj. pose proof (Hh j Hj). apply elem_of_frees in Hj as [Hj1 Hj2].
    destruct (Hf j Hj1 Hj2) as [A B]. split_and!; try done; [|lia]. assert (j ≠ x) by congruence. set_solver.
  - intros i j [Hi _]%elem_of_frees Hj. assert (0 ≤ j < Z.of_nat K) as HjK by lia.
    destruct (Hb j HjK) as [u Hu]. rewrite Hu. f_equal. symmetry. destruct u.
    + apply bool_decide_eq_true. rewrite elem_of_frees. rewrite Hu. naive_solver.
    + apply bool_decide_eq_false. rewrite elem_of_frees. tauto.
  - intros i z Hi Hz. apply Hh in Hi. assert (z ≠ x); [|set_solver]. intros ->. by rewrite (area_bitmap i x) in U1.
Qed.

(** Blocks are taken, blocks are given back. *)
Lemma space_taken K m m' (T : Z → Prop) `{∀ x, Decision (T x)} :
  space K m → bs_wf m' → Z.of_nat K ≤ 191 * 4096 →
  (∀ x, has_bit x → bit_of m' x = if decide (T x) then Some true else bit_of m x) → space K m'.
Proof.
  intros [Hw Hb Hf] Hw' HK He. split; [done| |].
  - intros j Hj. rewrite He by (unfold has_bit; lia). case_decide; [by eexists|by apply Hb].
  - intros j Hj. rewrite He by (unfold has_bit; lia). case_decide; [done|by apply Hf].
Qed.

Lemma space_same K m m' :
  space K m → bs_wf m' → Z.of_nat K ≤ 191 * 4096 → (∀ x, has_bit x → bit_of m' x = bit_of m x) → space K m'.
Proof. intros Hs Hw HK He. apply (space_taken K m m' (λ _, False) Hs Hw HK). intros x Hx. rewrite He by done. by case_decide. Qed.

Lemma frees_taken K m m' (T : list Z) :
  Z.of_nat K ≤ 191 * 4096 → (∀ x, has_bit x → x ∉ T → bit_of m' x = bit_of m x) →
  (length (frees K m) ≤ length (frees K m') + length T)%nat.
Proof.
  intros HK He. rewrite <- length_app. apply nodup_length; [apply frees_nodup|]. intros x Hx. apply elem_of_app.
  destruct (decide (x ∈ T)) as [|Hn]; [by right|left]. apply elem_of_frees in Hx as [H1 H2]. apply elem_of_frees.
  split; [done|]. rewrite He; [done|unfold has_bit; lia|done].
Qed.

Lemma space_given K m m' (L : list Z) :
  space K m → bs_wf m' → Z.of_nat K ≤ 191 * 4096 → Forall (λ x, in_bitmap_area x = false ∧ x ≠ 0) L →
  (∀ x, has_bit x → bit_of m' x = if decide (x ∈ L) then Some false else bit_of m x) → space K m'.
Proof.
  intros [Hw Hb Hf] Hw' HK HL He. rewrite Forall_forall in HL. split; [done| |].
  - intros j Hj. rewrite He by (unfold has_bit; lia). case_decide; [by eexists|by apply Hb].
  - intros j Hj. rewrite He by (unfold has_bit; lia). case_decide; [intros _; by apply HL|by apply Hf].
Qed.

Lemma frees_given K m m' (L : list Z) :
  Z.of_nat K ≤ 191 * 4096 → NoDup L → Forall (λ x, 0 ≤ x < Z.of_nat K ∧ bit_of m x = Some true) L →
  (∀ x, has_bit x → bit_of m' x = if decide (x ∈ L) then Some false else bit_of m x) →
  (length (frees K m) + length L ≤ length (frees K m'))%nat.
Proof.
  intros HK Hd HL He. rewrite Forall_forall in HL. rewrite <- length_app. apply nodup_length.
  - apply NoDup_app. split_and!; [apply frees_nodup| |done]. intros x [_ Hx]%elem_of_frees [_ Hx']%HL. congruence.
  - intros x [Hx|Hx]%elem_of_app; apply elem_of_frees.
    + apply elem_of_frees in Hx as [H1 H2]. split; [done|]. rewrite He by (unfold has_bit; lia). by case_decide.
    + destruct (HL x Hx) as [H1 _]. split; [done|]. rewrite He by (unfold has_bit; lia). by rewrite decide_True.
Qed.

(** * Files and the room they need *)
Record ffile := FFile { f_ino : Z; f_ins : list (Z * list Z); f_ds : list (Z * list Z); f_data : list Z }.

Definition parts (f : ffile) : list Z := (f_ins f ++ f_ds f).*1.

(** The blocks of a file of [N] data blocks, its inodes included. *)
Definition quota (N : nat) : nat := N + (N + 15) `div` 16 + 1.

Definition needs (N : nat) (f : ffile) : nat := quota N - length (parts f).

Definition reserved (N : nat) (fs : gmap (list Z) ffile) : nat := sum_list_with (needs N) (map_to_list fs).*2.

Lemma reserved_insert N fs nm f : fs !! nm = None → reserved N (<[nm := f]> fs) = (needs N f + reserved N fs)%nat.
Proof.
  intros Hn. unfold reserved.
  by rewrite (map_to_list_insert fs nm f Hn).
Qed.

Lemma reserved_delete N fs nm f : fs !! nm = Some f → reserved N fs = (needs N f + reserved N (delete nm fs))%nat.
Proof. intros Hf. rewrite <- (reserved_insert N _ nm) by apply lookup_delete_eq. by rewrite insert_delete_id. Qed.

Lemma reserved_update N fs nm f f' :
  fs !! nm = Some f → (reserved N (<[nm := f']> fs) + needs N f = reserved N fs + needs N f')%nat.
Proof.
  intros Hf. rewrite (reserved_delete N fs nm f Hf), <- insert_delete_eq, reserved_insert by apply lookup_delete_eq. lia.
Qed.

(** A file of the volume. *)
Record file_in (N K : nat) (m : gmap Z (list Z)) (f : ffile) : Prop := {
  fi_stored : stored m ({[f_ino f]} ∪ ∅) (f_ino f) (f_ins f) (f_ds f) (f_data f);
  fi_mode : mode_of (f_ins f) = Some 1;
  fi_len : (length (f_ds f) ≤ N)%nat;
  fi_below : Forall (λ x, 0 ≤ x < Z.of_nat K) (parts f) }.

Lemma file_in_part N K m f x :
  file_in N K m f → x ∈ parts f → ∃ b, part_of m ({[f_ino f]} ∪ ∅) (f_ino f) (x, b).
Proof.
  intros [[W _ _] _ _ _] ([x' b] & -> & Hp)%list_elem_of_fmap. exists b. eapply owns_part; [apply W|done].
Qed.

Lemma file_in_ino N K m f : file_in N K m f → f_ino f ∈ parts f.
Proof.
  intros [[W _ _] _ _ _]. pose proof (wh_first _ _ _ _ _ W) as Hf. destruct (f_ins f !! 0%nat) as [p|] eqn:E; [|done].
  injection Hf as <-. apply list_elem_of_fmap. exists p. split; [done|]. apply elem_of_app. left. by eapply list_elem_of_lookup_2.
Qed.

Lemma file_in_nodup N K m f : file_in N K m f → NoDup (parts f).
Proof. intros [[[[Hd _] _ _ _ _] _ _] _ _ _]. done. Qed.

Lemma file_in_length N K m f : file_in N K m f → (length (parts f) ≤ quota N)%nat.
Proof.
  intros [[[_ _ _ _ [_ Hl]] _ _] _ Hd _]. unfold parts, quota. rewrite length_fmap, length_app.
  pose proof (ceil_16 N). lia.
Qed.

Lemma file_in_missing N K m f : file_in N K m f → (missing (f_ins f) (f_ds f) N ≤ needs N f)%nat.
Proof.
  intros Hf. pose proof (file_in_length _ _ _ _ Hf) as Hl. destruct Hf as [[[_ _ _ _ [_ Hw]] _ _] _ Hd _].
  unfold missing, needs, parts, quota in *. rewrite length_fmap, length_app in *. pose proof (ceil_16 N). lia.
Qed.

Lemma used_under m h x b y : used m h x b → in_bitmap_area y = false → used m ({[y]} ∪ ∅) x b.
Proof. intros [A B C D E] Hy. split; try done. pose proof (not_bitmap y x Hy B). set_solver. Qed.

(** A file is untouched when its blocks are. *)
Lemma file_in_keep N K m m' y f :
  file_in N K m f → in_bitmap_area y = false →
  (∀ x b, x ∈ parts f → used m ({[y]} ∪ ∅) x b → used m' ({[y]} ∪ ∅) x b) → file_in N K m' f.
Proof.
  intros Hf Hy Hk. assert (in_bitmap_area (f_ino f) = false) as Ha.
  { destruct (file_in_part _ _ _ _ _ Hf (file_in_ino _ _ _ _ Hf)) as (b & Hu & _). apply Hu. }
  destruct Hf as [[[[Hd Ho] W2 W3 W4 W5] S2 S3] Hm Hl Hb]. split; try done. split; try done. split; try done. split; [done|].
  rewrite Forall_forall in Ho |- *. intros p Hp. destruct (Ho p Hp) as (Hu & Hr). split; [|done].
  apply (used_under m' ({[y]} ∪ ∅)); [|done]. apply Hk; [apply list_elem_of_fmap; by exists p|]. by eapply used_under.
Qed.

(** * The volume *)

(** The directory [parent], its blocks [ns] and its entries [ess], and the files
    [fs] by name: every block has one owner, and the free blocks suffice for all
    files to grow to [N] data blocks and for [R] blocks more. *)
Record volume (N K : nat) (parent : Z) (m : gmap Z (list Z)) (b : list Z) (ns : list Z) (ess : list entries)
    (fs : gmap (list Z) ffile) (R : nat) : Prop := {
  vo_space : space K m;
  vo_parent : used m ({[parent]} ∪ ∅) parent b;
  vo_blocks : dir_blocks m ({[parent]} ∪ ∅) parent b ns ess;
  vo_below : Forall (λ x, 0 ≤ x < Z.of_nat K) ns;
  vo_names : NoDup (concat ess).*1;
  vo_entries : ∀ nm i, (nm, i) ∈ concat ess ↔ f_ino <$> fs !! nm = Some i;
  vo_files : map_Forall (λ _, file_in N K m) fs;
  vo_dir : ∀ nm f, fs !! nm = Some f → parent :: ns ## parts f;
  vo_apart : ∀ nm nm' f f', fs !! nm = Some f → fs !! nm' = Some f' → nm ≠ nm' → parts f ## parts f';
  vo_room : (reserved N fs + R ≤ length (frees K m))%nat }.

Lemma dir_blocks_length m h parent b ns ess : dir_blocks m h parent b ns ess → length ess = S (length ns).
Proof. induction 1; simpl; lia. Qed.

Lemma find_es_in s i (es : entries) : NoDup es.*1 → (s, i) ∈ es → ∃ k, find_es s es = Some (k, i).
Proof.
  intros Hd Hin. destruct (find_es s es) as [[k j]|] eqn:E.
  - exists k. do 2 f_equal. apply find_es_lookup in E. apply list_elem_of_lookup in Hin as [k' Hk'].
    assert (k = k') as ->; [|by simplify_eq]. eapply NoDup_lookup; [done|..]; rewrite list_lookup_fmap; [by rewrite E|by rewrite Hk'].
  - apply find_es_none in E. destruct E. apply list_elem_of_fmap. by exists (s, i).
Qed.

Section volume.
Context (time : nat → Z) (junk : list Z) (fuel : nat) (parent : Z) (N K : nat).
Context (HK : Z.of_nat K ≤ 191 * 4096) (Hfuel : (K + 3 ≤ fuel)%nat).

Abbreviation volume := (volume N K parent).

Section facts.
Context {m : gmap Z (list Z)} {b : list Z} {ns : list Z} {ess : list entries} {fs : gmap (list Z) ffile} {R : nat}.
Context (V : volume m b ns ess fs R).

Lemma volume_none nm : fs !! nm = None → find_es nm (concat ess) = None.
Proof using V.
  intros Hn. apply find_es_none. intros ([nm' i] & -> & Hin)%list_elem_of_fmap.
  apply (vo_entries _ _ _ _ _ _ _ _ _ V) in Hin. cbn [fst] in Hn. by rewrite Hn in Hin.
Qed.

Lemma volume_some nm f : fs !! nm = Some f → ∃ k, find_es nm (concat ess) = Some (k, f_ino f).
Proof using V.
  intros Hf. apply find_es_in; [apply V|]. apply (vo_entries _ _ _ _ _ _ _ _ _ V). by rewrite Hf.
Qed.

Lemma volume_lookup_es nm : lookup_es nm ess = default 0 (f_ino <$> fs !! nm).
Proof using V.
  unfold lookup_es. destruct (fs !! nm) as [f|] eqn:E; [|by rewrite (volume_none _ E)].
  by destruct (volume_some _ _ E) as [k ->].
Qed.

Lemma volume_file nm f : fs !! nm = Some f → file_in N K m f.
Proof using V. apply (vo_files _ _ _ _ _ _ _ _ _ V). Qed.

Lemma volume_ino nm f : fs !! nm = Some f → f_ino f ≠ 0.
Proof using V.
  intros Hf%volume_file. destruct (file_in_part _ _ _ _ _ Hf (file_in_ino _ _ _ _ Hf)) as (bx & _ & _ & H0 & _). done.
Qed.

(** Different names have different inodes. *)
Lemma volume_inos : NoDup (concat ess).*2.
Proof using V.
  pose proof (vo_names _ _ _ _ _ _ _ _ _ V) as Hd. pose proof (vo_entries _ _ _ _ _ _ _ _ _ V) as He.
  apply NoDup_alt. intros j k i Hj Hk. rewrite list_lookup_fmap in Hj, Hk.
  destruct (concat ess !! j) as [[nm i1]|] eqn:Ej; [|done]. destruct (concat ess !! k) as [[nm' i2]|] eqn:Ek; [|done].
  simpl in *. injection Hj as ->. injection Hk as ->.
  pose proof (proj1 (He _ _) (list_elem_of_lookup_2 _ _ _ Ej)) as H1. pose proof (proj1 (He _ _) (list_elem_of_lookup_2 _ _ _ Ek)) as H2.
  destruct (fs !! nm) as [f|] eqn:Ef; [|done]. destruct (fs !! nm') as [f'|] eqn:Ef'; [|done]. simpl in *. injection H1 as <-. injection H2 as H2.
  destruct (decide (nm = nm')) as [<-|Hne].
  - eapply (NoDup_lookup (concat ess).*1); [done|..]; rewrite list_lookup_fmap; [by rewrite Ej|by rewrite Ek].
  - exfalso. apply (vo_apart _ _ _ _ _ _ _ _ _ V nm nm' f f' Ef Ef' Hne (f_ino f)); [by eapply file_in_ino, volume_file|].
    rewrite <- H2. by eapply file_in_ino, volume_file.
Qed.

Lemma volume_size : size fs = length (concat ess).
Proof using V.
  rewrite <- length_map_to_list, <- (length_fmap fst), <- (length_fmap fst (concat ess)). apply Permutation_length, NoDup_Permutation.
  - apply NoDup_fst_map_to_list.
  - apply V.
  - intros nm. rewrite !list_elem_of_fmap. split; intros ([nm' x] & -> & Hx).
    + apply elem_of_map_to_list in Hx. exists (nm', f_ino x). split; [done|]. apply (vo_entries _ _ _ _ _ _ _ _ _ V). by rewrite Hx.
    + apply (vo_entries _ _ _ _ _ _ _ _ _ V) in Hx. destruct (fs !! nm') as [f|] eqn:E; [|done].
      exists (nm', f). split; [done|]. by apply elem_of_map_to_list.
Qed.

Lemma volume_length : (length ess + 2 ≤ fuel)%nat.
Proof using V Hfuel.
  pose proof (dir_blocks_length _ _ _ _ _ _ (vo_blocks _ _ _ _ _ _ _ _ _ V)) as E.
  pose proof (below_length ns K (dir_blocks_nodup _ _ _ _ _ _ (vo_blocks _ _ _ _ _ _ _ _ _ V)) (vo_below _ _ _ _ _ _ _ _ _ V)). lia.
Qed.

Lemma volume_free_list x bx hh : used m hh x bx → free_list fuel m ({[x]} ∪ ∅) (frees K m).
Proof using V HK Hfuel. intros Hu. eapply space_free_list; [apply V|lia|lia|done]. Qed.

Lemma volume_area : in_bitmap_area parent = false.
Proof using V. eapply us_area, V. Qed.

(** The parent directory gets other times. *)
Lemma volume_touch b' :
  is_block b' → dir_blocks m ({[parent]} ∪ ∅) parent b' ns ess → volume (<[parent := b']> m) b' ns ess fs R.
Proof using V HK Hfuel.
  intros Hb Hd. pose proof V as [Vs Vp Vb Vk Vn Ve Vf Vd Va Vr]. pose proof volume_area as Ha.
  assert (∀ x, has_bit x → bit_of (<[parent := b']> m) x = bit_of m x) as Hbit by (intros; by apply bit_of_insert).
  split; try done.
  - eapply space_same; [done| |done|done]. apply wf_insert; [apply Vs|apply has_bit_id, Vp|done].
  - by eapply used_insert_eq.
  - apply dir_blocks_insert_ne; [done|done|]. intros Hin. by destruct (dir_blocks_not_held _ _ _ _ _ _ _ Vb Hin) as (_ & ? & _).
  - intros nm f Hf. apply (file_in_keep N K m _ parent); [by apply (Vf nm)|done|]. intros x bx Hx Hu.
    apply used_insert_ne; [done| |done]. intros <-. apply (Vd nm f Hf parent); [by left|done].
  - pose proof (frees_taken K m (<[parent := b']> m) [] HK (λ x Hx _, Hbit x Hx)) as Hl. simpl in Hl. lia.
Qed.

Lemma volume_lookup nm c :
  name_ok nm →
  ∃ m' b', lookup time junk fuel parent nm (Yfs m ∅ c) = Ret (default 0 (f_ino <$> fs !! nm), Yfs m' ∅ (S c)) ∧
    volume m' b' ns ess fs R.
Proof using V HK Hfuel.
  intros [_ Hok]. pose proof volume_length. eexists _, _. split.
  - rewrite (lookup_run time junk fuel m ∅ c parent b ess nm); [|set_solver|apply V|eapply dir_blocks_chain, V|..|lia].
    + rewrite (c_str_ok nm Hok), volume_lookup_es. done.
    + eapply Forall_impl; [exact Hok|]. intros x. simpl. lia.
  - apply volume_touch; [|apply dir_blocks_wr; [lia|apply V]]. apply wr_block; [lia|]. eapply dir_blocks_rep, V.
Qed.

(** The listing has the names of the files, each once. *)
Lemma volume_readdir c :
  ∃ m' b' items, readdir time junk fuel parent (Yfs m ∅ c) = Ret ((y_OK, items), Yfs m' ∅ (S c)) ∧
    volume m' b' ns ess fs R ∧ (∀ nm i, items !! i = Some nm ↔ f_ino <$> fs !! nm = Some i) ∧ size items = size fs.
Proof using V HK Hfuel.
  pose proof volume_length. pose proof volume_inos as Hi. eexists _, _, _. split_and!.
  - rewrite (readdir_run time junk fuel m ∅ c parent b ess); [done|set_solver|apply V|eapply dir_blocks_chain, V|lia].
  - apply volume_touch; [|apply dir_blocks_wr; [lia|apply V]]. apply wr_block; [lia|]. eapply dir_blocks_rep, V.
  - intros nm i. rewrite <- (vo_entries _ _ _ _ _ _ _ _ _ V). by apply list_es_iff.
  - rewrite list_es_size; [|done|set_solver]. rewrite map_size_empty, Nat.add_0_r. symmetry. apply volume_size.
Qed.

Lemma volume_unlink_none nm c :
  name_ok nm → fs !! nm = None →
  ∃ m' b', unlink time junk fuel parent nm (Yfs m ∅ c) = Ret (y_NOENT, Yfs m' ∅ (S (S c))) ∧ volume m' b' ns ess fs R.
Proof using V HK Hfuel.
  intros [_ Hok] Hn. pose proof volume_length. eexists _, _. split.
  - apply (unlink_missing_run time junk fuel m ∅ c parent b ns ess nm); [set_solver|apply V..| |lia|].
    + eapply Forall_impl; [exact Hok|]. intros x. simpl. lia.
    + rewrite (c_str_ok nm Hok). by apply volume_none.
  - unfold unlink_touched. apply volume_touch; [|do 2 (apply dir_blocks_wr; [lia|]); apply V].
    do 2 (apply wr_block; [lia|]). eapply dir_blocks_rep, V.
Qed.

(** The blocks of a file go back to the free ones. *)
Lemma volume_unlink nm f c :
  name_ok nm → fs !! nm = Some f →
  ∃ m' b' ess', unlink time junk fuel parent nm (Yfs m ∅ c) = Ret (y_OK, Yfs m' ∅ (S (S c))) ∧
    volume m' b' ns ess' (delete nm fs) (R + quota N).
Proof using V HK Hfuel.
  intros [_ Hok] Hf. pose proof volume_length as Hlen. destruct (volume_some _ _ Hf) as [k Hk]. pose proof (volume_file _ _ Hf) as Hfi.
  pose proof volume_area as Ha. pose proof V as [Vs Vp Vb Vk Vn Ve Vf Vd Va Vr].
  assert (f_ino f ∉ ({[parent]} ∪ ∅ : gset Z)) as Hno.
  { intros Hin. apply (Vd nm f Hf parent); [by left|]. assert (parent = f_ino f) as -> by set_solver. by eapply file_in_ino. }
  assert (whole m ({[parent]} ∪ ∅) (f_ino f) (f_ins f) (f_ds f)) as W.
  { eapply whole_other; [apply Hfi|done|right|set_solver]. intros Hx. by apply (Vd nm f Hf parent); [left|]. }
  destruct (whole_owned _ _ _ _ _ W Hno) as (L & Ho & HL). fold (parts f) in HL.
  assert (NoDup L) as HLd by (rewrite HL; by eapply file_in_nodup).
  assert (length L ≤ K)%nat as HLk by (rewrite HL; apply below_length; [by eapply file_in_nodup|apply Hfi]).
  assert (Forall (λ c, 0 ≤ c) nm) as Hpos by (eapply Forall_impl; [exact Hok|]; simpl; lia).
  assert (parent ∉ (∅ : gset Z)) as Hpe by set_solver.
  assert (length ess ≤ fuel ∧ length L < fuel)%nat as [Hl1 Hl2] by lia.
  assert (parent :: ns ## L) as Hdis by (intros x Hx Hxl; rewrite HL in Hxl; by apply (Vd nm f Hf x)).
  rewrite <- (c_str_ok nm Hok) in Hk.
  destruct (unlink_run time junk fuel m ∅ c parent b ns ess nm (sp_wf _ _ Vs) Hpe Vp Vb Hpos Hl1 (f_ino f) L k Hk Ho HLd Hl2 Hdis)
    as (m' & b' & ess' & E & B & R' & Hu' & Hb' & _ & C & Hw'). rewrite (c_str_ok nm Hok) in Hk.
  exists m', b', ess'. split; [done|]. pose proof (find_es_lookup _ _ _ _ Hk) as Hk'.
  pose proof (delete_Permutation _ _ _ Hk') as Hp. rewrite <- C in Hp.
  assert (nm ∉ (concat ess').*1 ∧ NoDup (concat ess').*1) as [Hn1 Hn2].
  { rewrite Hp in Vn. csimpl in Vn. by apply NoDup_cons in Vn. }
  assert (∀ x, x ∈ L → ∃ bx, part_of m ({[f_ino f]} ∪ ∅) (f_ino f) (x, bx)) as HLp.
  { intros x Hx. rewrite HL in Hx. by eapply file_in_part. }
  split; try done.
  - eapply space_given; [done|done|done| |done]. apply Forall_forall. intros x (bx & Hux & _ & H0 & _)%HLp.
    split; [apply Hux|done].
  - intros nm' i. rewrite lookup_delete. case_decide as Hnm.
    + subst nm'. split; [|done]. intros Hin. destruct Hn1. apply list_elem_of_fmap. by exists (nm, i).
    + rewrite <- Ve, Hp, elem_of_cons. split; [by right|]. intros [[= ? _]|]; [congruence|done].
  - intros nm' f' [Hne Hf']%lookup_delete_Some. apply (file_in_keep N K m _ parent); [by apply (Vf nm')|done|].
    intros x bx Hx [U1 U2 U3 U4 U5]. assert (x ∉ L) as HxL by (rewrite HL; intros HxL; by apply (Va nm nm' f f' Hf Hf' Hne x)).
    split; try done; [by rewrite B, decide_False|]. rewrite R'; [done|done|]. intros Hxp. by apply (Vd nm' f' Hf' x).
  - intros nm' f' [_ Hf']%lookup_delete_Some. by apply (Vd nm').
  - intros n1 n2 f1 f2 [_ H1]%lookup_delete_Some [_ H2]%lookup_delete_Some. by apply (Va n1 n2).
  - assert (Forall (λ x, 0 ≤ x < Z.of_nat K ∧ bit_of m x = Some true) L) as Hx.
    { apply Forall_forall. intros x Hx. destruct (HLp x Hx) as (bx & Hux & _). rewrite HL in Hx.
      pose proof (fi_below _ _ _ _ Hfi) as Hbl. rewrite Forall_forall in Hbl. split; [by apply Hbl|apply Hux]. }
    pose proof (frees_given K m m' L HK HLd Hx B) as Hg. pose proof (file_in_length _ _ _ _ Hfi) as Hq.
    rewrite (reserved_delete N fs nm f Hf) in Vr. unfold needs in Vr. rewrite HL in Hg. lia.
Qed.

(** A new file: its inode and at most one block for the directory are taken. *)
Lemma volume_entered nm i0 t1 t2 m' b' ns' ess' l' :
  fs !! nm = None → c_str nm = nm → (quota N + 1 ≤ R)%nat →
  entered fuel m ({[parent]} ∪ ∅) parent ns ess (frees K m) nm i0 (new_inode t1 t2) m' b' ns' ess' l' →
  volume m' b' ns' ess' (<[nm := FFile i0 [(i0, new_inode t1 t2)] [] []]> fs) (R - (quota N + 1)).
Proof using V HK Hfuel.
  clear time junk. intros Hn Hc HR En. pose proof V as [Vs Vp Vb Vk Vn Ve Vf Vd Va Vr]. pose proof volume_area as Ha.
  destruct (entered_empty _ _ _ _ _ _ _ _ _ _ _ _ _ _ _ _ (volume_free_list _ _ _ Vp) En) as (_ & Hs & _).
  destruct (new_inode_fields t1 t2) as (_ & _ & Hm & _). destruct En as [E1 _ E3 E4 (l1 & l2 & C1 & C2) _ [E6 E7] _ E8 E9 E10 _ E11 E12 E13].
  assert (concat ess' ≡ₚ (nm, i0) :: concat ess) as Hp by (rewrite C1, C2, Hc; solve_Permutation).
  apply elem_of_frees in E1 as [Hi0 Hb0]. pose proof (λ nm f x Hf, file_in_part N K m f x (Vf nm f Hf)) as Hpart.
  assert (∀ nm' f, fs !! nm' = Some f → i0 ∉ parts f ∧ ns' ## parts f) as Hnew.
  { intros nm' f Hf. assert (∀ x, x ∈ frees K m → x ∉ parts f) as Hx.
    { intros x [_ Hx]%elem_of_frees Hin. destruct (Hpart nm' f x Hf Hin) as (bx & Hu & _). pose proof (us_bit _ _ _ _ Hu). simpl in *. congruence. }
    split; [apply Hx; by apply elem_of_frees|]. intros x Hxn Hxp. destruct (E12 x Hxn) as [Hxo|Hxf]; [|by apply (Hx x)].
    apply (Vd nm' f Hf x); [by right|done]. }
  set (f0 := FFile i0 [(i0, new_inode t1 t2)] [] []). assert (parts f0 = [i0]) as Hp0 by done.
  split; try done.
  - eapply (space_taken K m m' (λ x, x = i0 ∨ x ∈ ns' ∧ x ∉ ns)); [done|apply E8|done|done].
  - rewrite Forall_forall in Vk |- *. intros x [Hx|Hx]%E12; [by apply Vk|]. by apply elem_of_frees in Hx as [? _].
  - rewrite Hp. csimpl. apply NoDup_cons. split; [|done]. apply find_es_none. by apply volume_none.
  - intros nm' i. rewrite Hp, elem_of_cons, lookup_insert, Ve. case_decide as Hd; simpl.
    + subst nm'. rewrite Hn. naive_solver.
    + split; [intros [[= ? _]|]; [congruence|done]|by right].
  - apply map_Forall_insert_2; [|].
    + split; [done|unfold mode_of; simpl; by rewrite Hm|simpl; lia|by apply Forall_singleton].
    + intros nm' f Hf. apply (file_in_keep N K m _ parent); [by apply (Vf nm')|done|]. intros x bx Hx Hu.
      apply E13; [done|intros ->; by apply (Vd nm' f Hf parent); [left|]|intros Hxn; by apply (Vd nm' f Hf x); [right|]].
  - intros nm' f [[<- <-]|[_ Hf]]%lookup_insert_Some.
    + rewrite Hp0. intros x Hx ->%list_elem_of_singleton. apply elem_of_cons in Hx as [->|Hx]; done.
    + destruct (Hnew nm' f Hf) as [_ Hd]. intros x [->|Hx]%elem_of_cons; [by apply (Vd nm' f Hf); left|by apply Hd].
  - intros n1 n2 f1 f2 [[<- <-]|[_ H1]]%lookup_insert_Some [[<- <-]|[_ H2]]%lookup_insert_Some Hne; [done| | |by apply (Va n1 n2)].
    + rewrite Hp0. intros x ->%list_elem_of_singleton. exact (proj1 (Hnew n2 f2 H2)).
    + rewrite Hp0. intros x Hx ->%list_elem_of_singleton. exact (proj1 (Hnew n1 f1 H1) Hx).
  - rewrite reserved_insert by done. unfold needs at 1. rewrite Hp0. cbn [length].
    assert (length l' ≤ length (frees K m'))%nat; [|unfold quota in *; lia]. apply nodup_length; [apply sorted_nodup; exact (fl_sorted _ _ _ _ E8)|].
    intros x Hx. apply elem_of_frees. pose proof (E9 x Hx) as [Hxk _]%elem_of_frees. split; [done|].
    rewrite (fl_bits _ _ _ _ E8 x x Hx) by lia. f_equal. apply bool_decide_eq_false. tauto.
Qed.

Lemma volume_create nm c :
  name_ok nm → fs !! nm = None → (quota N + 1 ≤ R)%nat →
  ∃ m' b' ns' ess' f c', create time junk fuel parent nm 0 (Yfs m ∅ c) = Ret ((y_OK, f_ino f), Yfs m' ∅ c') ∧
    f_data f = [] ∧ volume m' b' ns' ess' (<[nm := f]> fs) (R - (quota N + 1)).
Proof using V HK Hfuel.
  intros [Hl Hok] Hn HR. pose proof (c_str_ok nm Hok) as Hc. pose proof volume_length as Hlen.
  assert (Forall (λ c, 0 ≤ c) nm) as Hpos by (eapply Forall_impl; [exact Hok|]; simpl; lia).
  destruct (create_chain_run time junk fuel m ∅ c parent b ns ess nm (frees K m)) with (ino := 0)
    as (i0 & m' & b' & ns' & ess' & l' & E & En); [set_solver|apply V..|done|by rewrite Hc|rewrite Hc; by apply volume_none
    |eapply volume_free_list, V|pose proof (vo_room _ _ _ _ _ _ _ _ _ V); unfold quota in *; lia|lia|].
  eexists m', b', ns', ess', (FFile i0 _ [] []), _. split_and!; [done|done|]. by eapply volume_entered.
Qed.

(** A write or a read of a file: what it takes was free, and is no longer
    reserved. *)
Lemma volume_grows nm f m' ins ds l' data :
  fs !! nm = Some f → grown fuel ∅ (f_ino f) N m' ins ds l' data →
  grows m (f_ins f) (f_ds f) (frees K m) m' ins ds l' →
  volume m' b ns ess (<[nm := FFile (f_ino f) ins ds data]> fs) R.
Proof using V HK Hfuel.
  clear time junk. intros Hf [G1 G2 G3 _] Gr. pose proof V as [Vs Vp Vb Vk Vn Ve Vf Vd Va Vr]. pose proof volume_area as Ha.
  pose proof (Vf nm f Hf) as Hfi. set (f' := FFile (f_ino f) ins ds data).
  assert (∀ x, x ∈ parts f' → x ∈ parts f ∨ x ∈ frees K m) as Hparts by apply Gr.
  assert (∀ x bx hh, used m hh x bx → x ∉ parts f → used m' hh x bx ∧ x ∉ parts f') as Hkeep.
  { intros x bx hh Hu Hx. split; [by apply (gr_others _ _ _ _ _ _ _ _ Gr)|]. intros [?|[_ Hb]%elem_of_frees]%Hparts; [done|].
    pose proof (us_bit _ _ _ _ Hu). congruence. }
  assert (file_in N K m' f') as Hfi'.
  { split; [done|rewrite <- (fi_mode _ _ _ _ Hfi); apply Gr|done|]. pose proof (fi_below _ _ _ _ Hfi) as Hb.
    rewrite Forall_forall in Hb |- *. intros x [Hx|Hx]%Hparts; [by apply Hb|by apply elem_of_frees in Hx as [? _]]. }
  assert (∀ nm' f1, fs !! nm' = Some f1 → nm ≠ nm' → ∀ x, x ∈ parts f1 →
    ∃ bx, used m ({[parent]} ∪ ∅) x bx ∧ used m' ({[parent]} ∪ ∅) x bx ∧ x ∉ parts f') as Hother.
  { intros nm' f1 Hf1 Hne x Hx. destruct (file_in_part _ _ _ _ _ (Vf nm' f1 Hf1) Hx) as (bx & Hu & _). exists bx.
    apply (used_under _ _ _ _ parent) in Hu; [|done]. split; [done|]. apply Hkeep; [done|]. intros Hx'. by apply (Va nm nm' f f1 Hf Hf1 Hne x). }
  split; try done.
  - eapply space_taken; [done|apply G2|done|apply Gr].
  - apply Hkeep; [done|]. intros Hx. by apply (Vd nm f Hf parent); [left|].
  - eapply dir_blocks_mono; [|done]. intros x bx Hx Hu. apply Hkeep; [done|]. intros Hx'. by apply (Vd nm f Hf x); [right|].
  - intros nm' i. rewrite Ve, lookup_insert. case_decide as Hd; [subst nm'; by rewrite Hf|done].
  - intros nm' f1 [[<- <-]|[Hne Hf1]]%lookup_insert_Some; [done|]. apply (file_in_keep N K m _ parent); [by apply (Vf nm')|done|].
    intros x bx Hx Hu. apply Hkeep; [done|]. intros Hx'. by apply (Va nm nm' f f1 Hf Hf1 Hne x).
  - intros nm' f1 [[<- <-]|[Hne Hf1]]%lookup_insert_Some; [|by apply (Vd nm')]. intros x Hx.
    assert (∃ bx, used m ({[parent]} ∪ ∅) x bx) as [bx Hu].
    { apply elem_of_cons in Hx as [->|Hx]; [by exists b|]. by eapply dir_blocks_used. }
    apply (Hkeep x bx _ Hu). intros Hx'. by apply (Vd nm f Hf x).
  - intros n1 n2 f1 f2 [[<- <-]|[N1 H1]]%lookup_insert_Some [[<- <-]|[N2 H2]]%lookup_insert_Some Hne; [done| | |by apply (Va n1 n2)].
    + intros x Hx Hx2. by destruct (Hother n2 f2 H2 N2 x Hx2) as (bx & _ & _ & ?).
    + intros x Hx1 Hx. by destruct (Hother n1 f1 H1 N1 x Hx1) as (bx & _ & _ & ?).
  - set (T := filter (λ x, x ∉ parts f) (parts f')).
    assert (length (parts f) + length T ≤ length (parts f'))%nat as HT.
    { rewrite <- length_app. apply nodup_length.
      - apply NoDup_app. split_and!; [exact (file_in_nodup _ _ _ _ Hfi)| |apply NoDup_filter, (file_in_nodup _ _ _ _ Hfi')].
        intros x Hx [Hx' _]%list_elem_of_filter. done.
      - intros x [Hx|[_ Hx]%list_elem_of_filter]%elem_of_app; [by apply (gr_keep _ _ _ _ _ _ _ _ Gr)|done]. }
    assert (length (frees K m) ≤ length (frees K m') + length T)%nat as Hfr.
    { apply frees_taken; [done|]. intros x Hx HxT. rewrite (gr_exact _ _ _ _ _ _ _ _ Gr x Hx). case_decide as Hd; [|done].
      destruct HxT. apply list_elem_of_filter. tauto. }
    pose proof (reserved_update N fs nm f f' Hf) as Hup. pose proof (file_in_length _ _ _ _ Hfi').
    unfold needs in Hup. lia.
Qed.
End facts.

Context (HN : (N < fuel)%nat) (HN63 : 512 * Z.of_nat N < 2 ^ 63).

Lemma volume_fop m b ns ess fs R nm f c o :
  volume m b ns ess fs R → fs !! nm = Some f → fop_fits N o →
  ∃ m' c' f' r, run_fop time junk fuel (f_ino f) o (Yfs m ∅ c) = Ret (r, Yfs m' ∅ c') ∧ fop_returns (f_data f) o r ∧
    f_data f' = fop_data (f_data f) o ∧ volume m' b ns ess (<[nm := f']> fs) R.
Proof using All.
  intros V Hf Ho. pose proof (volume_file V _ _ Hf) as Hfi.
  destruct (file_in_part _ _ _ _ _ Hfi (file_in_ino _ _ _ _ Hfi)) as (bx & Hu & _).
  destruct (run_fop_fits time junk fuel ∅ (f_ino f) N) with (m := m) (ins := f_ins f) (ds := f_ds f) (l := frees K m)
    (data := f_data f) (c := c) (o := o) as (m' & c' & ins' & ds' & l' & r & E & Q & G & Gr); [set_solver|done|done| |done|].
  { split; [apply Hfi|eapply volume_free_list; [exact V|exact Hu]|apply Hfi|].
    pose proof (file_in_missing _ _ _ _ Hfi). pose proof (vo_room _ _ _ _ _ _ _ _ _ V) as Hr.
    rewrite (reserved_delete N fs nm f Hf) in Hr. lia. }
  exists m', c', (FFile (f_ino f) ins' ds' (fop_data (f_data f) o)), r. split_and!; [done|done|done|]. by eapply volume_grows.
Qed.
End volume.

(** * Sessions on one directory *)

(** What a client does with names: a create, a write or a read looks the name up
    first, as the kernel does for a system call; a create of a name that is there
    goes no further. *)
Inductive vop :=
  | VCreate (nm : list Z)
  | VWrite (nm : list Z) (off : Z) (x : list Z)
  | VRead (nm : list Z) (off size : Z)
  | VUnlink (nm : list Z)
  | VList.

Inductive vres := VRet (ret : Z) (d : list Z) | VNames (ret : Z) (names : gset (list Z)) (n : nat).

Section run.
Context {S : Type} `{BlockStore S} (time : nat → Z) (junk : list Z) (fuel : nat) (parent : Z).

Definition run_vop (o : vop) : ST (yfs S) vres :=
  match o with
  | VCreate nm =>
      ino ← lookup time junk fuel parent nm;
      if ino =? 0 then '(ret, _) ← create time junk fuel parent nm 0; mret (VRet ret [])
      else mret (VRet y_EXIST [])
  | VWrite nm off x =>
      ino ← lookup time junk fuel parent nm;
      if ino =? 0 then mret (VRet y_NOENT [])
      else ret ← write time junk fuel ino x (Z.of_nat (length x)) off; mret (VRet ret [])
  | VRead nm off size =>
      ino ← lookup time junk fuel parent nm;
      if ino =? 0 then mret (VRet y_NOENT [])
      else '(ret, d) ← read time junk fuel ino size off; mret (VRet ret d)
  | VUnlink nm => ret ← unlink time junk fuel parent nm; mret (VRet ret [])
  | VList =>
      '(ret, items) ← readdir time junk fuel parent;
      mret (VNames ret (map_img items) (size items))
  end.

Fixpoint run_vops (os : list vop) : ST (yfs S) (list vres) :=
  match os with
  | [] => mret []
  | o :: os => r ← run_vop o; rs ← run_vops os; mret (r :: rs)
  end.
End run.

(** The same on a map from names to byte strings, with a number of blocks left. *)
Definition vop_next (N : nat) (o : vop) (s : gmap (list Z) (list Z) * nat) : gmap (list Z) (list Z) * nat :=
  let '(d, R) := s in
  match o with
  | VCreate nm => match d !! nm with None => (<[nm := []]> d, R - (quota N + 1))%nat | Some _ => s end
  | VWrite nm off x => (alter (λ b, pwrite b (Z.to_nat off) x) nm d, R)
  | VRead _ _ _ | VList => s
  | VUnlink nm => match d !! nm with None => s | Some _ => (delete nm d, R + quota N)%nat end
  end.

Definition vop_returns (o : vop) (d : gmap (list Z) (list Z)) (r : vres) : Prop :=
  match o with
  | VCreate nm => r = VRet (match d !! nm with None => y_OK | Some _ => y_EXIST end) []
  | VWrite nm _ _ | VUnlink nm => r = VRet (match d !! nm with None => y_NOENT | Some _ => y_OK end) []
  | VRead nm off size =>
      match d !! nm with
      | None => r = VRet y_NOENT []
      | Some b => ∃ x, r = VRet y_OK x ∧ read_gives b off size x
      end
  | VList => r = VNames y_OK (dom d) (size d)
  end.

(** Names of at most 63 bytes, blocks enough for a new file, files of at most [N]
    data blocks. *)
Definition vop_ok (N : nat) (o : vop) (s : gmap (list Z) (list Z) * nat) : Prop :=
  match o with
  | VCreate nm => name_ok nm ∧ (s.1 !! nm = None → (quota N + 1 ≤ s.2)%nat)
  | VWrite nm off x => name_ok nm ∧ fop_fits N (PWrite off x)
  | VRead nm off size => name_ok nm ∧ fop_fits N (PRead off size)
  | VUnlink nm => name_ok nm
  | VList => True
  end.

Fixpoint vops_ok (N : nat) (os : list vop) (s : gmap (list Z) (list Z) * nat) : Prop :=
  match os with [] => True | o :: os => vop_ok N o s ∧ vops_ok N os (vop_next N o s) end.

Fixpoint vops_return (N : nat) (os : list vop) (s : gmap (list Z) (list Z) * nat) (rs : list vres) : Prop :=
  match os, rs with
  | [], [] => True
  | o :: os, r :: rs => vop_returns o s.1 r ∧ vops_return N os (vop_next N o s) rs
  | _, _ => False
  end.

Definition vop_final (N : nat) (os : list vop) (s : gmap (list Z) (list Z) * nat) : gmap (list Z) (list Z) * nat :=
  foldl (λ s o, vop_next N o s) s os.

(** The directory holds the files [s.1] and has [s.2] blocks left. *)
Definition holds (N K : nat) (parent : Z) (m : gmap Z (list Z)) (s : gmap (list Z) (list Z) * nat) : Prop :=
  ∃ b ns ess fs, volume N K parent m b ns ess fs s.2 ∧ s.1 = f_data <$> fs.

Section session.
Context (time : nat → Z) (junk : list Z) (fuel : nat) (parent : Z) (N K : nat).
Context (HK : Z.of_nat K ≤ 191 * 4096) (Hfuel : (K + 3 ≤ fuel)%nat) (HN : (N < fuel)%nat) (HN63 : 512 * Z.of_nat N < 2 ^ 63).

(** A write or a read by name. *)
Lemma by_name_run m d R c nm o (p : Z → ST (yfs (gmap Z (list Z))) vres) :
  holds N K parent m (d, R) → name_ok nm → fop_fits N o →
  (∀ ino t r t', run_fop time junk fuel ino o t = Ret (r, t') → p ino t = Ret (VRet r.1 r.2, t')) →
  ∃ m' c' res, (ino ← lookup time junk fuel parent nm; if ino =? 0 then mret (VRet y_NOENT []) else p ino) (Yfs m ∅ c)
           = Ret (res, Yfs m' ∅ c') ∧ holds N K parent m' (alter (λ b, fop_data b o) nm d, R) ∧
    match d !! nm with
    | None => res = VRet y_NOENT []
    | Some b => ∃ r, res = VRet r.1 r.2 ∧ fop_returns b o r
    end.
Proof using HK Hfuel HN HN63.
  intros (b & ns & ess & fs & V & Es) Hnm Ho Hp. simpl in Es. subst d. rewrite lookup_fmap.
  destruct (volume_lookup time junk fuel parent N K HK Hfuel V nm c Hnm) as (m1 & b1 & El & V1). run El. cbv beta.
  destruct (fs !! nm) as [f|] eqn:Ef; simpl in *.
  - destruct (Z.eqb_spec (f_ino f) 0) as [E0|_]; [by destruct (volume_ino parent N K V nm f Ef)|].
    destruct (volume_fop time junk fuel parent N K HK Hfuel HN HN63 m1 b1 ns ess fs R nm f (S c) o V1 Ef Ho)
      as (m2 & c2 & f' & r & E & Q & D & V2).
    exists m2, c2, (VRet r.1 r.2). split_and!; [by apply Hp| |by exists r]. exists b1, ns, ess, (<[nm := f']> fs). split; [done|].
    simpl. rewrite fmap_insert, D. apply map_eq. intros k. rewrite lookup_insert, lookup_alter, !lookup_fmap.
    case_decide; [subst; by rewrite Ef|done].
  - exists m1, (S c), (VRet y_NOENT []). split_and!; [done| |done]. exists b1, ns, ess, fs. split; [done|]. simpl.
    apply map_eq. intros k. rewrite lookup_alter, !lookup_fmap. case_decide; [subst; by rewrite Ef|done].
Qed.

Lemma run_create_spec m d R c nm :
  holds N K parent m (d, R) → vop_ok N (VCreate nm) (d, R) →
  ∃ m' c' r, run_vop time junk fuel parent (VCreate nm) (Yfs m ∅ c) = Ret (r, Yfs m' ∅ c') ∧ vop_returns (VCreate nm) d r ∧
    holds N K parent m' (vop_next N (VCreate nm) (d, R)).
Proof using HK Hfuel HN HN63.
  intros (b & ns & ess & fs & V & Es) [Hnm HR]. simpl in *. subst d. rewrite lookup_fmap in *.
  destruct (volume_lookup time junk fuel parent N K HK Hfuel V nm c Hnm) as (m1 & b1 & El & V1). run El. cbv beta.
  destruct (fs !! nm) as [f|] eqn:Ef; simpl in *.
  - destruct (Z.eqb_spec (f_ino f) 0) as [E0|_]; [by destruct (volume_ino parent N K V nm f Ef)|].
    eexists m1, (S c), _. split_and!; [done|done|]. by exists b1, ns, ess, fs.
  - destruct (volume_create time junk fuel parent N K HK Hfuel V1 nm (S c) Hnm Ef (HR eq_refl))
      as (m' & b' & ns' & ess' & f & c' & E & D & V').
    eexists m', c', _. split_and!; [by run E|done|]. exists b', ns', ess', (<[nm := f]> fs). split; [done|].
    simpl. by rewrite fmap_insert, D.
Qed.

Lemma run_vop_spec m s c o :
  holds N K parent m s → vop_ok N o s →
  ∃ m' c' r, run_vop time junk fuel parent o (Yfs m ∅ c) = Ret (r, Yfs m' ∅ c') ∧ vop_returns o s.1 r ∧
    holds N K parent m' (vop_next N o s).
Proof using HK Hfuel HN HN63.
  destruct s as [d R]. intros Hv Ho. destruct o as [nm|nm off x|nm off size|nm|].
  - by apply run_create_spec.
  - destruct Ho as [Hnm Ho]. destruct (by_name_run m d R c nm (PWrite off x)
      (λ ino, ret ← write time junk fuel ino x (Z.of_nat (length x)) off; mret (VRet ret [])) Hv Hnm Ho)
      as (m' & c' & res & E & V & Q).
    { intros ino t r t' (r1 & t1 & E & [= <- <-])%st_bind_ret. by run E. }
    exists m', c', res. split_and!; [done| |done]. simpl. destruct (d !! nm); [|done]. by destruct Q as (r & -> & ->).
  - destruct Ho as [Hnm Ho]. destruct (by_name_run m d R c nm (PRead off size)
      (λ ino, '(ret, d) ← read time junk fuel ino size off; mret (VRet ret d)) Hv Hnm Ho) as (m' & c' & res & E & V & Q).
    { intros ino t [r1 r2] t' E. by run E. }
    exists m', c', res. split_and!; [done| |].
    + simpl. destruct (d !! nm); [|done]. destruct Q as ([r1 r2] & -> & Q1 & Q2). simpl in *. subst r1. by exists r2.
    + simpl in V |- *. by rewrite alter_id in V by done.
  - destruct Hv as (b & ns & ess & fs & V & Es). simpl in *. subst d. rewrite lookup_fmap. destruct (fs !! nm) as [f|] eqn:Ef; simpl.
    + destruct (volume_unlink time junk fuel parent N K HK Hfuel V nm f c Ho Ef) as (m' & b' & ess' & E & V').
      eexists m', _, _. split_and!; [by run E|done|]. exists b', ns, ess', (delete nm fs). by rewrite fmap_delete.
    + destruct (volume_unlink_none time junk fuel parent N K HK Hfuel V nm c Ho Ef) as (m' & b' & E & V').
      eexists m', _, _. split_and!; [by run E|done|]. by exists b', ns, ess, fs.
  - destruct Hv as (b & ns & ess & fs & V & Es). simpl in *. subst d.
    destruct (volume_readdir time junk fuel parent N K HK Hfuel V c) as (m' & b' & items & E & V' & Hi & Hz).
    eexists m', _, _. split_and!; [by run E| |by exists b', ns, ess, fs]. f_equal; [|by rewrite map_size_fmap].
    apply set_eq. intros nm. rewrite dom_fmap_L, elem_of_map_img, elem_of_dom. split.
    + intros [i Hnm%Hi]. destruct (fs !! nm); [by eexists|done].
    + intros [f Hf]. exists (f_ino f). apply Hi. by rewrite Hf.
Qed.

Lemma run_vops_spec m s c os :
  holds N K parent m s → vops_ok N os s →
  ∃ m' c' rs, run_vops time junk fuel parent os (Yfs m ∅ c) = Ret (rs, Yfs m' ∅ c') ∧ vops_return N os s rs ∧
    holds N K parent m' (vop_final N os s).
Proof using HK Hfuel HN HN63.
  revert m s c. induction os as [|o os IH]; intros m s c Hv Ho; simpl in *; [by exists m, c, []|]. destruct Ho as [H1 H2].
  destruct (run_vop_spec m s c o Hv H1) as (m1 & c1 & r & E1 & Q1 & V1). destruct (IH m1 _ c1 V1 H2) as (m2 & c2 & rs & E2 & Q2 & V2).
  exists m2, c2, (r :: rs). split_and!; [run E1; by run E2|done..].
Qed.
End session.

(** * A freshly formatted file system *)
Lemma ex_fs_bits j :
  0 ≤ j < 4096 → bit_of (y_store ex_fs) j = Some (bool_decide (j = 0 ∨ j = 1 ∨ 10 ≤ j ≤ 200)).
Proof.
  intros Hj. assert (forallb (λ j, bool_decide (bit_of (y_store ex_fs) j = Some (bool_decide (j = 0 ∨ j = 1 ∨ 10 ≤ j ≤ 200))))
    (Z.of_nat <$> seq 0 4096) = true) as Hall by (vm_compute; reflexivity).
  rewrite forallb_forall in Hall. apply (bool_decide_eq_true _), Hall, list_elem_of_In, list_elem_of_fmap.
  exists (Z.to_nat j). split; [lia|]. apply elem_of_seq. lia.
Qed.

(** The volume of a root directory without entries. *)
Lemma fresh_holds N (K : nat) m b :
  (∀ j, 0 ≤ j < Z.of_nat K → bit_of m j = Some (bool_decide (j = 0 ∨ j = 1 ∨ 10 ≤ j ≤ 200))) →
  bs_wf m → used m ({[1]} ∪ ∅) 1 b → dir_blocks m ({[1]} ∪ ∅) 1 b [] [[]] → holds N K 1 m (∅, K - 193)%nat.
Proof.
  intros Hb Hw Hu Hd. exists b, [], [[]], ∅. split; [|by rewrite fmap_empty].
  split; try done.
  - split; [done|intros j Hj; rewrite Hb by done; by eexists|]. intros j Hj. rewrite Hb by done.
    intros [= Hn%bool_decide_eq_false]. split; [|lia]. unfold in_bitmap_area, BLOCK_BITMAP_BEGIN_BLOCK, BLOCK_BITMAP_END_BLOCK.
    apply andb_false_iff. rewrite !Z.leb_gt. lia.
  - by apply NoDup_nil.
  - intros nm i. simpl. rewrite lookup_empty. simpl. split; [by intros ?%elem_of_nil|done].
  - simpl. unfold reserved. rewrite map_to_list_empty. simpl.
    assert (K ≤ length (frees K m) + 193)%nat; [|lia].
    rewrite <- (length_seq K 0), <- (length_fmap Z.of_nat) at 1.
    change 193%nat with (length ((λ n, Z.of_nat n) <$> ([0; 1] ++ seq 10 191)%nat)). rewrite <- length_app.
    apply nodup_length; [apply sorted_nodup, sorted_seq|]. intros x (n & -> & Hn%elem_of_seq)%list_elem_of_fmap.
    apply elem_of_app. destruct (decide (Z.of_nat n = 0 ∨ Z.of_nat n = 1 ∨ 10 ≤ Z.of_nat n ≤ 200)) as [He|He].
    + right. apply list_elem_of_fmap. exists n. split; [done|]. rewrite elem_of_app, elem_of_seq.
      assert (n = 0 ∨ n = 1 ∨ 10 ≤ n < 201)%nat as [->|[->|?]] by lia; [left; by left|left; by right; left|right; lia].
    + left. apply elem_of_frees. split; [lia|]. rewrite Hb by lia. by rewrite bool_decide_false.
Qed.

Lemma fresh_fs_holds N (K : nat) : Z.of_nat K ≤ 4096 → holds N K 1 (y_store ex_fs) (∅, K - 193)%nat.
Proof.
  intros HK. apply (fresh_holds N K _ root_block); [intros; apply ex_fs_bits; lia|exact ex_fs_wf|exact ex_root_used|].
  pose proof ex_root_chain as Hc. inversion Hc; subst; [by apply db_end|].
  match goal with Hx : dir_chain _ _ _ _ [] |- _ => inversion Hx end.
Qed.

Lemma fresh_fs_run : yfs_client_new (Yfs ∅ ∅ 0) = Ret (tt, ex_fs).
Proof. vm_compute. reflexivity. Qed.

(** ** Over any block store *)
Section over.
Context {S : Type} `{BlockStoreLaws S} (time : nat → Z) (junk : list Z) (fuel : nat) (parent : Z).

#[local] Hint Resolve refines_create refines_lookup refines_write refines_read refines_unlink refines_readdir : refine.

Lemma refines_run_vop o :
  refines (run_vop (S := S) time junk fuel parent o) (run_vop time junk fuel parent o).
Proof.
  destruct o; simpl; refine_all.
Qed.

Lemma refines_run_vops os :
  refines (run_vops (S := S) time junk fuel parent os) (run_vops time junk fuel parent os).
Proof.
  induction os as [|o os IH]; simpl; [apply refines_ret|]. apply refines_bind; [apply refines_run_vop|]. intros r.
  apply refines_bind; [done|]. intros rs. apply refines_ret.
Qed.
End over.

(** * Theorems *)



(** ** A session of two files, decided by evaluation *)
#[export] Instance name_ok_dec s : Decision (name_ok s).
Proof. unfold name_ok. apply _. Defined.

#[export] Instance fop_fits_dec N o : Decision (fop_fits N o).
Proof. destruct o; simpl; apply _. Defined.

#[export] Instance vop_ok_dec N o s : Decision (vop_ok N o s).
Proof. destruct o; simpl; apply _. Defined.

#[export] Instance vops_ok_dec N os s : Decision (vops_ok N os s).
Proof. revert s. induction os as [|o os IH]; intros s; simpl; [apply _|]. apply and_dec; [apply _|apply IH]. Defined.

(** The third create is of a name that is there, the second read crosses the end
    of the file. *)
Definition ex_vops : list vop :=
  [VCreate [97]; VCreate [98]; VWrite [97] 2 [5; 6]; VCreate [97]; VRead [97] 0 4; VRead [97] 0 9; VList; VUnlink [97];
   VRead [97] 0 1; VUnlink [97]; VList].

Definition ex_vres : list vres :=
  [VRet 0 []; VRet 0 []; VRet 0 []; VRet y_EXIST []; VRet 0 [0; 0; 5; 6]; VRet 0 [0; 0; 5; 6]; VNames 0 {[ [97]; [98] ]} 2;
   VRet 0 []; VRet y_NOENT []; VRet y_NOENT []; VNames 0 {[ [98] ]} 1].

(** The results as values, where they are determined: for every operation but a
    read that crosses the end of its file at an offset inside a block. *)
Definition vop_exact (o : vop) (d : gmap (list Z) (list Z)) : option vres :=
  match o with
  | VCreate nm => Some (VRet (match d !! nm with None => y_OK | Some _ => y_EXIST end) [])
  | VWrite nm _ _ | VUnlink nm => Some (VRet (match d !! nm with None => y_NOENT | Some _ => y_OK end) [])
  | VRead nm off size =>
      match d !! nm with
      | None => Some (VRet y_NOENT [])
      | Some b =>
          if decide (off `mod` 512 = 0 ∨ 0 ≤ size ∧ 0 ≤ off ∧ off + size ≤ Z.of_nat (length b))
          then Some (VRet y_OK (slice (Z.to_nat off) (Z.to_nat size) b)) else None
      end
  | VList => Some (VNames y_OK (dom d) (size d))
  end.

Fixpoint vops_exact (N : nat) (os : list vop) (s : gmap (list Z) (list Z) * nat) : option (list vres) :=
  match os with
  | [] => Some []
  | o :: os => r ← vop_exact o s.1; rs ← vops_exact N os (vop_next N o s); Some (r :: rs)
  end.

Lemma vop_exact_returns o d r r' : vop_exact o d = Some r → vop_returns o d r' → r' = r.
Proof.
  destruct o as [nm|nm off x|nm off size|nm|]; simpl; [by intros [= <-]..| |by intros [= <-]|by intros [= <-]].
  destruct (d !! nm) as [b|]; [|by intros [= <-]]. case_decide as Hd; [|done]. intros [= <-] (x & -> & Hx). f_equal.
  destruct Hd as [Hm|(H1 & H2 & H3)]; [|by apply read_gives_inside].
  destruct Hx as (k & -> & Hk & _). replace k with 0%nat by lia. apply app_nil_r.
Qed.

Lemma vops_exact_return N os s rs rs' : vops_exact N os s = Some rs → vops_return N os s rs' → rs' = rs.
Proof.
  revert s rs rs'. induction os as [|o os IH]; intros s rs [|r' rs']; simpl; try tauto; [by intros [= <-]|].
  destruct (vop_exact o s.1) as [r|] eqn:Er; [|done]. simpl. destruct (vops_exact N os (vop_next N o s)) as [rs0|] eqn:Es; [|done].
  simpl. intros [= <-] [H1 H2]. f_equal; [by eapply vop_exact_returns|by eapply IH].
Qed.


