(* ===== verification/YfsSymlink.v ===== *)
(** symlink and readlink of yfs_client.cc: a symbolic link is a file of mode 2
    whose bytes are the target, made in the directory of its name and written
    without the lock of its own inode. *)
From S2P Require Import Prelude ExtentServer ExtentCache YfsBlock YfsFile YfsDir YfsOps YfsLocks.
From S2P Require Import YfsRefine YfsAlloc YfsDirSpec YfsFileSpec YfsUnlink YfsGrow YfsBytes YfsCreate.
Local Open Scope Z_scope.

Lemma pwrite_empty x : pwrite [] 0 x = x.
Proof. unfold pwrite, splice. simpl. by rewrite drop_nil, app_nil_r. Qed.

(** The type of the file is changed. *)
Lemma mode_stored m h c ino ins ds data buf v :
  stored m h ino ins ds data → 0 ≤ v < 128 →
  ∃ b ins', safe_get ino buf ino (Yfs m h c) = Ret ((y_OK, b), Yfs m h c) ∧ used m h ino b ∧
    is_block (set_mode v b) ∧ stored (<[ino := set_mode v b]> m) h ino ins' ds data ∧ mode_of ins' = Some v ∧
    (∀ x, x ∈ (ins' ++ ds).*1 → x ∈ (ins ++ ds).*1).
Proof.
  intros Sd Hv. destruct (stored_first _ _ _ _ _ _ Sd) as (b & Hi & Hs). pose proof (sd_whole _ _ _ _ _ _ Sd) as W.
  pose proof (whole_inode W _ _ _ Hi) as Hp. pose proof Hp as (Hu & Hb & _). cbn [fst snd] in Hu, Hb.
  assert (is_block (set_mode v b)) as Hb' by (apply wr_block; [lia|done]). pose proof Hb as [Hl _].
  exists b, (<[0%nat := (ino, set_mode v b)]> ins). split_and!; try done.
  - apply (part_of_get _ _ _ c _ buf Hp).
  - split; [|rewrite list_lookup_insert_eq by (by eapply lookup_lt_Some); simpl; f_equal; rewrite <- Hs; apply rd_wr_ne; lia|apply Sd].
    eapply whole_fields; [done|done|done|apply rd_wr_ne; lia|]. intros j Hj. apply rd_wr_ne; [unfold block_off|]; lia.
  - unfold mode_of. rewrite list_lookup_insert_eq by (by eapply lookup_lt_Some). simpl. f_equal. unfold i_mode, set_mode.
    rewrite rd_wr_eq by lia. change (2 ^ (8 * Z.of_nat 1)) with 256. rewrite Z.mod_small by lia. apply (swrap_small 8); lia.
  - intros x. by rewrite !fmap_app, (numbers_insert_fmap _ _ _ _ _ Hi).
Qed.

Section symlink.
Context (time : nat → Z) (junk : list Z) (fuel : nat).
Context (m : gmap Z (list Z)) (h : gset Z) (c : nat) (parent : Z) (b : list Z).
Context (ns : list Z) (ess : list entries) (name : list Z) (l : list Z) (link : list Z).
Hypothesis (Hh : parent ∉ h) (Hu : used m ({[parent]} ∪ h) parent b).
Hypothesis (Hb : dir_blocks m ({[parent]} ∪ h) parent b ns ess).
Hypothesis (Hn : Forall (λ c, 0 ≤ c) name) (Hok : name_ok (c_str name)).
Hypothesis (Hnew : find_es (c_str name) (concat ess) = None).
Hypothesis (F : free_list fuel m ({[parent]} ∪ h) l) (Hfuel : (length ess + 2 ≤ fuel)%nat).

Let N := blocks_for 0 (Z.of_nat (length link)).
Hypothesis (Hlink : Forall is_byte link) (Hlen : Z.of_nat (length link) < 2 ^ 63).
Hypothesis (Hl : (N + (N + 15) `div` 16 + 2 ≤ length l)%nat) (HN : (N ≤ fuel)%nat).

Lemma symlink_run tmp ino :
  ∃ i0 m' c' ins ds, symlink time junk fuel parent name link tmp ino (Yfs m h c) = Ret ((y_OK, i0), Yfs m' h c') ∧
    i0 ∈ l ∧ stored m' ({[i0]} ∪ h) i0 ins ds link ∧ mode_of ins = Some 2 ∧ i0 ∉ h ∧ length ds = N ∧
    (∀ s, Forall (λ c, 0 ≤ c) s → ∃ t, lookup time junk fuel parent s (Yfs m' h c')
       = Ret (if decide (c_str s = c_str name) then i0 else lookup_es (c_str s) ess, t)).
Proof using All.
  destruct (inner_create_chain time junk fuel m h c parent b ns ess name l Hh Hu Hb Hn Hok Hnew F) with (ino := tmp)
    as (i0 & m1 & b' & ns' & ess' & l' & E & En); [lia|done|].
  pose proof (en_left _ _ _ _ _ _ _ _ _ _ _ _ _ _ _ En) as Hleft. set (h' := {[parent]} ∪ h) in *.
  destruct (entered_stored _ _ _ _ _ _ _ _ _ _ _ _ _ _ _ _ F En) as (Hi0 & Hs1).
  assert (growing fuel m1 h' i0 [(i0, new_inode (u64 (time (S c))) (u64 (time (S (S c)))))] [] l') as G1 by (split; [apply Hs1|apply En]).
  destruct (inner_write_grow time junk fuel m1 h' (S (S (S c))) i0 _ [] l' [] link (Z.of_nat (length link)) 0 G1 Hs1) with (M := N)
    as (m2 & ins2 & ds2 & l2 & E2 & G2 & R2 & L2 & F2 & S2); [done|lia|done|lia|done|done|unfold missing; cbn [length]; lia|done|].
  rewrite Nat2Z.id, firstn_all in S2. change (Z.to_nat 0) with 0%nat in S2. rewrite pwrite_empty in S2.
  set (c2 := S (S (S (S (S c))))) in *.
  destruct (mode_stored m2 h' c2 i0 ins2 ds2 link junk 2 S2) as (bi & ins3 & Eg & Hui & Hbi & S3 & M3 & Hsub); [lia|].
  assert (i0 ≠ parent) as Hne by (unfold h' in Hi0; set_solver).
  exists i0, (<[i0 := set_mode 2 bi]> m2), c2, ins3, ds2. split_and!; [|apply En| |done|unfold h' in Hi0; set_solver|rewrite L2; cbn [length]; lia|].
  - unfold symlink. run (acquire_run m h c parent Hh). run E. cbv beta iota. change (negb (y_OK =? y_OK)) with false. cbv iota.
    rewrite (bind_run _ _ _ (y_OK, i0) (Yfs (<[i0 := set_mode 2 bi]> m2) h' c2)); [by run (release_run (<[i0 := set_mode 2 bi]> m2) h c2 parent Hh)|].
    run E2. change (negb (y_OK =? y_OK)) with false. cbv iota.
    run (safe_get_run m2 h' c2 i0 bi junk parent Hui Hne Hi0). cbv beta iota. change (negb (y_OK =? y_OK)) with false. cbv iota.
    run (safe_put_run m2 h' c2 i0 bi _ parent Hui Hbi Hne Hi0). done.
  - apply (stored_other _ _ parent); [done|]. unfold h' in Hi0. set_solver.
  - intros s Hs. eapply entered_lookup; [done..|]. intros x bx Hx Hxi.
    apply used_insert_ne; [apply Hui|by apply not_eq_sym|]. apply (gr_others _ _ _ _ _ _ _ _ R2); [done|]. simpl. set_solver.
Qed.
End symlink.

Lemma readlink_run time junk fuel m h c ino ins ds data :
  stored m ({[ino]} ∪ h) ino ins ds data → ino ∉ h → (length ds < fuel)%nat → Z.of_nat (length data) < 2 ^ 64 →
  ∃ t, readlink time junk fuel ino (Yfs m h c) = Ret ((y_OK, data), t).
Proof.
  intros Sd Hh Hf Hlen. destruct (stored_first _ _ _ _ _ _ Sd) as (b & Hi & Hs). pose proof (sd_whole _ _ _ _ _ _ Sd) as W.
  pose proof (whole_file _ _ _ _ _ b W Hh Hi) as Hfile. destruct (sd_bytes _ _ _ _ _ _ Sd) as [z Hz].
  unfold readlink. run (acquire_run m h c ino Hh). run (safe_get_own _ _ c _ _ junk (fi_used _ _ _ _ _ _ Hfile)).
  cbv beta iota. change (y_OK =? y_NOENT) with false. change (negb (y_OK =? y_OK)) with false. cbv iota. rewrite Hs.
  destruct data as [|d0 data0]; [eexists; run eq_refl; by run (release_run m h c ino Hh)|].
  set (data := d0 :: data0) in *. assert (0 < Z.of_nat (length data)) as Hpos by (unfold data; simpl; lia).
  run (inner_read_run time junk fuel m h c ino b _ ds (Z.of_nat (length data)) 0 Hfile ltac:(lia) ltac:(lia) Hf). eexists. run (release_run (<[ino := set_atime (u64 (time c)) b]> m) h (S c) ino Hh).
  unfold mret, st_ret. do 3 f_equal. unfold read_result, slice. rewrite Hs, Z.div_0_l, Z.min_l, Nat2Z.id, Hz by lia.
  change (Z.to_nat 0) with 0%nat. rewrite drop_0. apply take_app_length.
Qed.

Lemma issym_stored junk m h c ino ins ds data v :
  stored m ({[ino]} ∪ h) ino ins ds data → ino ∉ h → mode_of ins = Some v →
  issym junk ino (Yfs m h c) = Ret (v =? 2, Yfs m h c).
Proof.
  intros Sd Hh Hm. destruct (stored_first _ _ _ _ _ _ Sd) as (b & Hi & Hs). unfold mode_of in Hm. rewrite Hi in Hm.
  injection Hm as <-. destruct (whole_inode (sd_whole _ _ _ _ _ _ Sd) _ _ _ Hi) as (Hu & _). cbn [fst snd] in *.
  unfold issym. run (acquire_run m h c ino Hh). run (used_get_run _ _ c _ _ junk Hu). cbv beta iota.
  change (negb (y_OK =? y_OK)) with false. cbv iota. by run (release_run m h c ino Hh).
Qed.

(** * Theorems *)

(** C31.  A symbolic link gives its target back: symlink enters a new name into a
    directory of any number of blocks, lookup finds the link under it and every
    other name as before, issym recognises it, and readlink returns the target,
    of whatever length and bytes. *)
Theorem symlink_then_readlink (time : nat → Z) (junk : list Z) (fuel : nat) (m : gmap Z (list Z)) (h : gset Z)
    (c : nat) (parent : Z) (b : list Z) (ns : list Z) (ess : list entries) (name link : list Z) (tmp ino : Z)
    (l : list Z) :
  parent ∉ h → used m ({[parent]} ∪ h) parent b → dir_blocks m ({[parent]} ∪ h) parent b ns ess →
  Forall (λ c, 0 ≤ c) name → name_ok (c_str name) → find_es (c_str name) (concat ess) = None →
  free_list fuel m ({[parent]} ∪ h) l → (length ess + 2 ≤ fuel)%nat →
  Forall is_byte link → Z.of_nat (length link) < 2 ^ 63 →
  let N := blocks_for 0 (Z.of_nat (length link)) in
  (N + (N + 15) `div` 16 + 2 ≤ length l)%nat → (N < fuel)%nat →
  ∃ i0 m1 c1, symlink time junk fuel parent name link tmp ino (Yfs m h c) = Ret ((y_OK, i0), Yfs m1 h c1) ∧ i0 ∈ l ∧
    (∃ t, readlink time junk fuel i0 (Yfs m1 h c1) = Ret ((y_OK, link), t)) ∧
    issym junk i0 (Yfs m1 h c1) = Ret (true, Yfs m1 h c1) ∧
    (∀ s, Forall (λ c, 0 ≤ c) s → ∃ t, lookup time junk fuel parent s (Yfs m1 h c1)
       = Ret (if decide (c_str s = c_str name) then i0 else lookup_es (c_str s) ess, t)).
Proof.
  intros Hh Hu Hb Hn Hok Hnew F Hf Hlink Hlen N Hl HN.
  destruct (symlink_run time junk fuel m h c parent b ns ess name l link Hh Hu Hb Hn Hok Hnew F Hf Hlink Hlen Hl) with (tmp := tmp) (ino := ino)
    as (i0 & m1 & c1 & ins & ds & E & Hin & Sd & Hm & Hi & Ld & Hlook); [fold N; lia|].
  exists i0, m1, c1. split_and!; [done|done| |by apply (issym_stored _ _ _ _ _ _ _ _ _ Sd Hi Hm)|done].
  eapply readlink_run; [done|done|fold N in Ld; lia|lia].
Qed.

(** ** A link with a target of 1100 bytes, in the full root directory *)
Definition ex_target : list Z := replicate 1100 65.

Lemma symlink_then_readlink_witness :
  ∃ i0 m1 c1 t, symlink ex_time ex_junk 300 1 [102] ex_target 0 0 (Yfs (y_store ex_full_fs) ∅ 0) = Ret ((y_OK, i0), Yfs m1 ∅ c1) ∧
    i0 ∈ ex_full_free ∧ readlink ex_time ex_junk 300 i0 (Yfs m1 ∅ c1) = Ret ((y_OK, ex_target), t).
Proof.
  destruct (symlink_then_readlink ex_time ex_junk 300 (y_store ex_full_fs) ∅ 0 1 ex_full_root [] [ex_full_entries] [102]
    ex_target 0 0 ex_full_free) as (i0 & m1 & c1 & E & Hi & (t & R) & _);
    [apply not_elem_of_empty|ex_used|exact ex_full_blocks|by_vm|split; [simpl; lia|repeat constructor; lia]
    |reflexivity|exact ex_full_free_list|apply Nat.leb_le; reflexivity|by_vm|by_vm
    |apply Nat.leb_le; vm_compute; reflexivity|apply Nat.leb_le; vm_compute; reflexivity|].
  exists i0, m1, c1, t. split; [exact E|]. split; [exact Hi|exact R].
Defined.
