(* ===== verification/Fuse.v ===== *)
(** The FUSE front end (fuse.cc): one handler per request of the kernel, which
    calls the file system and sends a reply.

    Replies are recorded in the order in which they are sent.  The layout of a
    directory entry ([fuse_dirent_size], [fuse_add_dirent]) belongs to the FUSE
    library. *)
From stdpp Require Import sorting.
From S2P Require Import Prelude ExtentServer ExtentCache YfsBlock YfsFile YfsDir YfsOps.
Local Open Scope Z_scope.

(** ** Constants: errno, modes, the bit of setattr *)
Definition ENOENT : Z := 2.
Definition EEXIST : Z := 17.
Definition ENOTDIR : Z := 20.
Definition ENOSYS : Z := 38.
Definition S_IFLNK : Z := 40960.
Definition S_IFREG : Z := 32768.
Definition S_IFDIR : Z := 16384.
Definition FUSE_SET_ATTR_SIZE : Z := 8.
Definition YFS_SET_ATTR_SIZE : Z := 1.

(** The fields of struct stat that are set. *)
Record stat := Stat {
  st_ino : Z; st_mode : Z; st_nlink : Z; st_size : Z; st_atime : Z; st_mtime : Z; st_ctime : Z }.

Definition stat_zero : stat := Stat 0 0 0 0 0 0 0.

(** struct fuse_entry_param: timeouts and generation are always 0. *)
Record entry_param := Entry { e_ino : Z; e_attr : stat }.

Inductive reply :=
  | fuse_reply_err (e : Z)
  | fuse_reply_attr (st : stat)
  | fuse_reply_buf (data : list Z)
  | fuse_reply_write (size : Z)
  | fuse_reply_create (e : entry_param)
  | fuse_reply_entry (e : entry_param)
  | fuse_reply_open
  | fuse_reply_readlink (link : list Z)
  | fuse_reply_statfs (f_namemax f_bsize : Z).

Record fuse (S : Type) := Fuse { f_yfs : yfs S; f_replies : list reply }.
Arguments Fuse {S}.
Arguments f_yfs {S}.
Arguments f_replies {S}.

(** ** The reply to readdir *)
Section dirbuf.
Context (fuse_dirent_size : Z → Z) (fuse_add_dirent : list Z → Z → Z → list Z).

(** dirbuf_add: the buffer grows by the size of an entry, which is then written
    at its end; the entry names the size of the buffer as the offset of the next
    one.  An entry that does not fit would leave the buffer. *)
Definition dirbuf_add (b name : list Z) (ino : Z) : res (list Z) :=
  let size := Z.of_nat (length b) + fuse_dirent_size (Z.of_nat (length (c_str name))) in
  let d := fuse_add_dirent (c_str name) ino size in
  if Z.of_nat (length b) + Z.of_nat (length d) =? size then Ret (b ++ d) else Undef.

Fixpoint dirbuf_all (items : list (Z * list Z)) (b : list Z) : res (list Z) :=
  match items with
  | [] => Ret b
  | (ino, name) :: items => b ← dirbuf_add b name ino; dirbuf_all items b
  end.
End dirbuf.

(** std::map<inum, string> is walked in the order of the inode numbers. *)
Definition key_le (x y : Z * list Z) : Prop := x.1 ≤ y.1.
#[export] Instance key_le_dec : RelDecision key_le := λ x y, decide (x.1 ≤ y.1).

Definition map_items (m : gmap Z (list Z)) : list (Z * list Z) := merge_sort key_le (map_to_list m).

(** buf + off, at most maxsize bytes; nothing beyond the end. *)
Definition reply_buf_limited (buf : list Z) (off maxsize : Z) : reply :=
  if u64 off <? Z.of_nat (length buf)
  then fuse_reply_buf (slice (Z.to_nat off) (Z.to_nat (Z.min (Z.of_nat (length buf) - off) maxsize)) buf)
  else fuse_reply_buf [].

Section handlers.
Context {S : Type} `{BlockStore S}.
(** As for the file system, and what the uninitialised variables [info] and
    [ino] of the handlers hold. *)
Context (time : nat → Z) (junk : list Z) (fuel : nat) (info0 : fileinfo) (ino0 : Z).
Context (fuse_dirent_size : Z → Z) (fuse_add_dirent : list Z → Z → Z → list Z).

Abbreviation F := (ST (fuse S)).

(** A call of the file system, and a reply. *)
Definition yfs_call {A} (p : ST (yfs S) A) : F A := λ s,
  '(a, y) ← p (f_yfs s); Ret (a, Fuse y (f_replies s)).

Definition reply_with (r : reply) : F unit := λ s, Ret (tt, Fuse (f_yfs s) (f_replies s ++ [r])).

(** getattr: the status, and what [st] holds afterwards.  The argument of printf
    calls isfile once more. *)
Definition getattr (inum : Z) : F (Z * stat) :=
  let st := Stat inum 0 0 0 0 0 0 in
  yfs_call (isfile junk inum);;
  sym ← yfs_call (issym junk inum);
  if sym : bool then
    '(ret, info) ← yfs_call (getfile junk inum info0);
    if negb (ret =? y_OK) then mret (ret, st)
    else mret (y_OK, Stat inum (Z.lor S_IFLNK 438) 1 (f_size info) (f_atime info) (f_mtime info) (f_ctime info))
  else
    file ← yfs_call (isfile junk inum);
    if file : bool then
      '(ret, info) ← yfs_call (getfile junk inum info0);
      if negb (ret =? y_OK) then mret (ret, st)
      else mret (y_OK, Stat inum (Z.lor S_IFREG 438) 1 (f_size info) (f_atime info) (f_mtime info) (f_ctime info))
    else
      '(ret, (atime, mtime, ctime)) ← yfs_call (getdir junk inum (f_atime info0, f_mtime info0, f_ctime info0));
      if negb (ret =? y_OK) then mret (ret, st)
      else mret (y_OK, Stat inum (Z.lor S_IFDIR 511) 2 0 atime mtime ctime).

Definition fuseserver_getattr (ino : Z) : F unit :=
  '(ret, st) ← getattr ino;
  if negb (ret =? y_OK) then reply_with (fuse_reply_err ENOENT) else reply_with (fuse_reply_attr st).

(** The result of the second getattr is not looked at. *)
Definition fuseserver_setattr (ino : Z) (attr : stat) (to_set : Z) : F unit :=
  if negb (Z.land FUSE_SET_ATTR_SIZE to_set =? 0) then
    let info := FileInfo (st_size attr) (st_atime attr) (st_mtime attr) (st_ctime attr) in
    ret ← yfs_call (setattr time junk fuel ino YFS_SET_ATTR_SIZE info);
    if ret =? y_OK then '(_, st) ← getattr ino; reply_with (fuse_reply_attr st)
    else reply_with (fuse_reply_err ENOSYS)
  else reply_with (fuse_reply_err ENOSYS).

Definition fuseserver_read (ino size off : Z) : F unit :=
  '(ret, buf) ← yfs_call (read time junk fuel ino size off);
  if ret =? y_OK then reply_with (fuse_reply_buf buf) else reply_with (fuse_reply_err ENOSYS).

Definition fuseserver_write (ino : Z) (buf : list Z) (size off : Z) : F unit :=
  ret ← yfs_call (write time junk fuel ino buf size off);
  if ret =? y_OK then reply_with (fuse_reply_write size) else reply_with (fuse_reply_err ENOSYS).

(** The status and, if it is OK, the entry. *)
Definition fuseserver_createhelper (parent : Z) (name : list Z) : F (Z * entry_param) :=
  '(ret, ino) ← yfs_call (create time junk fuel parent name ino0);
  if ret =? y_OK then '(_, st) ← getattr ino; mret (ret, Entry ino st)
  else mret (ret, Entry ino0 stat_zero).

Definition fuseserver_create (parent : Z) (name : list Z) : F unit :=
  '(ret, e) ← fuseserver_createhelper parent name;
  if ret =? y_OK then reply_with (fuse_reply_create e)
  else if ret =? y_EXIST then reply_with (fuse_reply_err EEXIST) else reply_with (fuse_reply_err ENOENT).

Definition fuseserver_mknod (parent : Z) (name : list Z) : F unit :=
  '(ret, e) ← fuseserver_createhelper parent name;
  if ret =? y_OK then reply_with (fuse_reply_entry e)
  else if ret =? y_EXIST then reply_with (fuse_reply_err EEXIST) else reply_with (fuse_reply_err ENOENT).

Definition fuseserver_lookup (parent : Z) (name : list Z) : F unit :=
  ino ← yfs_call (lookup time junk fuel parent name);
  if 0 <? ino then '(_, st) ← getattr ino; reply_with (fuse_reply_entry (Entry ino st))
  else reply_with (fuse_reply_err ENOENT).

Definition fuseserver_readdir (ino size off : Z) : F unit :=
  dir ← yfs_call (isdir junk ino);
  if negb dir then reply_with (fuse_reply_err ENOTDIR)
  else
    '(ret, items) ← yfs_call (readdir time junk fuel ino);
    if ret =? y_OK then
      b ← st_lift (dirbuf_all fuse_dirent_size fuse_add_dirent (map_items items) []);
      reply_with (reply_buf_limited b off size)
    else reply_with (fuse_reply_err ENOTDIR).

Definition fuseserver_open : F unit := reply_with fuse_reply_open.

(** mkdir and symlink answer in the same way. *)
Definition reply_new (ret ino : Z) : F unit :=
  if ret =? y_OK then '(_, st) ← getattr ino; reply_with (fuse_reply_entry (Entry ino st))
  else if ret =? y_EXIST then reply_with (fuse_reply_err EEXIST)
  else reply_with (fuse_reply_err ENOSYS).

Definition fuseserver_mkdir (parent : Z) (name : list Z) : F unit :=
  '(ret, ino) ← yfs_call (mkdir time junk fuel parent name); reply_new ret ino.

Definition fuseserver_symlink (link : list Z) (parent : Z) (name : list Z) : F unit :=
  '(ret, ino) ← yfs_call (symlink time junk fuel parent name link ino0 ino0); reply_new ret ino.

Definition fuseserver_unlink (parent : Z) (name : list Z) : F unit :=
  ret ← yfs_call (unlink time junk fuel parent name);
  if ret =? y_OK then reply_with (fuse_reply_err 0)
  else if ret =? y_NOENT then reply_with (fuse_reply_err ENOENT)
  else reply_with (fuse_reply_err ENOSYS).

Definition fuseserver_readlink (ino : Z) : F unit :=
  '(ret, link) ← yfs_call (readlink time junk fuel ino);
  if ret =? y_OK then reply_with (fuse_reply_readlink (c_str link))
  else if ret =? y_EXIST then reply_with (fuse_reply_err EEXIST)
  else reply_with (fuse_reply_err ENOSYS).

Definition fuseserver_statfs : F unit := reply_with (fuse_reply_statfs 255 512).

(** ** The table of handlers that main fills in *)
Inductive fuse_req :=
  | FGetattr (ino : Z)
  | FStatfs
  | FReaddir (ino size off : Z)
  | FLookup (parent : Z) (name : list Z)
  | FCreate (parent : Z) (name : list Z)
  | FMknod (parent : Z) (name : list Z)
  | FOpen (ino : Z)
  | FRead (ino size off : Z)
  | FWrite (ino : Z) (buf : list Z) (size off : Z)
  | FSetattr (ino : Z) (attr : stat) (to_set : Z)
  | FUnlink (parent : Z) (name : list Z)
  | FMkdir (parent : Z) (name : list Z)
  | FSymlink (link : list Z) (parent : Z) (name : list Z)
  | FReadlink (ino : Z).

Definition fuseserver_oper (r : fuse_req) : F unit :=
  match r with
  | FGetattr ino => fuseserver_getattr ino
  | FStatfs => fuseserver_statfs
  | FReaddir ino size off => fuseserver_readdir ino size off
  | FLookup parent name => fuseserver_lookup parent name
  | FCreate parent name => fuseserver_create parent name
  | FMknod parent name => fuseserver_mknod parent name
  | FOpen ino => fuseserver_open
  | FRead ino size off => fuseserver_read ino size off
  | FWrite ino buf size off => fuseserver_write ino buf size off
  | FSetattr ino attr to_set => fuseserver_setattr ino attr to_set
  | FUnlink parent name => fuseserver_unlink parent name
  | FMkdir parent name => fuseserver_mkdir parent name
  | FSymlink link parent name => fuseserver_symlink link parent name
  | FReadlink ino => fuseserver_readlink ino
  end.
End handlers.
