(* ===== verification/FuseSpec.v ===== *)
(** What the kernel sees of the file system through fuse.cc. *)
From stdpp Require Import sorting.
From S2P Require Import Prelude ExtentServer ExtentCache YfsBlock YfsFile YfsDir YfsOps YfsLocks YfsAlloc YfsDirSpec YfsListing YfsFileSpec Fuse.
Local Open Scope Z_scope.

(** ** Replies of a handler *)

(** A result that satisfies [Q], whenever the code returns. *)
Definition returns {S A} (Q : A → Prop) (p : ST S A) : Prop := ∀ s a s', p s = Ret (a, s') → Q a.

Lemma returns_bind {S A B} (Q : B → Prop) (p : ST S A) (f : A → ST S B) :
  (∀ a, returns Q (f a)) → returns Q (p ≫= f).
Proof. intros Hf s b s' (a & s1 & _ & E)%bind_ret. by eapply Hf. Qed.

Lemma returns_bind_with {S A B} (P : A → Prop) (Q : B → Prop) (p : ST S A) (f : A → ST S B) :
  returns P p → (∀ a, P a → returns Q (f a)) → returns Q (p ≫= f).
Proof. intros Hp Hf s b s' (a & s1 & E1 & E)%bind_ret. eapply Hf; [|exact E]. by eapply Hp. Qed.

Lemma returns_ret {S A} (Q : A → Prop) (a : A) : Q a → returns Q (mret a : ST S A).
Proof. by intros HQ s a' s' [= <- _]. Qed.

Lemma returns_fuel {S A} (Q : A → Prop) : returns Q (st_fuel : ST S A).
Proof. done. Qed.

Lemma returns_undef {S A} (Q : A → Prop) : returns Q (st_undef : ST S A).
Proof. done. Qed.

Create HintDb statuses.
#[export] Hint Resolve returns_ret returns_fuel returns_undef : statuses.

(** One step of a proof about results. *)
Ltac results1 :=
  match goal with
  | |- returns _ (mret _) => apply returns_ret
  | |- returns _ (match ?x with _ => _ end) => destruct x
  | |- returns _ (_ ≫= _) =>
      first [ eapply returns_bind_with; [solve [eauto with statuses]|intros ? ?]
            | apply returns_bind; intros ? ]
  | |- returns _ _ => solve [eauto with statuses]
  end.
Ltac results := repeat (results1; cbv beta zeta).

(** ** The statuses of the file system *)
Definition yfs_status (r : Z) : Prop := r = y_OK ∨ r = y_NOENT ∨ r = y_IOERR.
Definition status_and {A} (p : Z * A) : Prop := yfs_status p.1.

Section statuses.
Context {S : Type} `{BlockStore S} (time : nat → Z) (junk : list Z) (fuel : nat).

Lemma status_OK : yfs_status y_OK. Proof. by left. Qed.
Lemma status_NOENT : yfs_status y_NOENT. Proof. by right; left. Qed.
Lemma status_IOERR : yfs_status y_IOERR. Proof. by right; right. Qed.
Lemma status_pair {A} r (a : A) : yfs_status r → status_and (r, a). Proof. done. Qed.
#[local] Hint Resolve status_OK status_NOENT status_IOERR status_pair : statuses.

Lemma inner_read_status ino size off : returns status_and (inner_read (S := S) time junk fuel ino size off).
Proof. unfold inner_read. results; eauto with statuses. Qed.
Lemma inner_write_status ino buf size off :
  returns yfs_status (inner_write (S := S) time junk fuel ino buf size off).
Proof. unfold inner_write. results; eauto with statuses. Qed.
Lemma inner_create_status parent name ino :
  returns status_and (inner_create (S := S) time junk fuel parent name ino).
Proof. unfold inner_create. results; eauto with statuses. Qed.
#[local] Hint Resolve inner_read_status inner_write_status inner_create_status : statuses.

Lemma create_status parent name ino : returns status_and (create (S := S) time junk fuel parent name ino).
Proof.
  unfold create. apply returns_bind. intros _. eapply returns_bind_with; [apply inner_create_status|].
  intros r Hr. by results.
Qed.

Lemma mkdir_status parent name : returns status_and (mkdir (S := S) time junk fuel parent name).
Proof. unfold mkdir. results; eauto with statuses. Qed.

Lemma readlink_status ino : returns status_and (readlink (S := S) time junk fuel ino).
Proof.
  unfold readlink. apply returns_bind. intros _. apply returns_bind. intros [ret buf].
  eapply (returns_bind_with status_and); [results; eauto with statuses|]. intros r Hr. by results.
Qed.

Lemma symlink_status parent name link tmp ino :
  returns status_and (symlink (S := S) time junk fuel parent name link tmp ino).
Proof.
  unfold symlink. apply returns_bind. intros _. eapply returns_bind_with; [apply inner_create_status|].
  intros [ret t] Hr. eapply (returns_bind_with status_and); [|intros r Hr'; by results].
  results; eauto with statuses.
Qed.
End statuses.

(** ** Exactly one reply *)
Section replies.
Context {S : Type} `{BlockStore S}.

Definition silent {A} (p : ST (fuse S) A) : Prop :=
  ∀ s a s', p s = Ret (a, s') → f_replies s' = f_replies s.

Definition sends (P : reply → Prop) (p : ST (fuse S) unit) : Prop :=
  ∀ s a s', p s = Ret (a, s') → ∃ r, P r ∧ f_replies s' = f_replies s ++ [r].

Lemma silent_call {A} (p : ST (yfs S) A) : silent (yfs_call p).
Proof.
  intros s a s'. unfold yfs_call. destruct (p (f_yfs s)) as [[a' y]| | | |]; try done. by intros [= _ <-].
Qed.

Lemma silent_bind {A B} (p : ST (fuse S) A) (f : A → ST (fuse S) B) :
  silent p → (∀ a, silent (f a)) → silent (p ≫= f).
Proof. intros Hp Hf s b s' (a & s1 & E1 & E2)%bind_ret. by rewrite (Hf _ _ _ _ E2), (Hp _ _ _ E1). Qed.

Lemma silent_ret {A} (a : A) : silent (mret a).
Proof. by intros s a' s' [= _ <-]. Qed.

Lemma silent_lift {A} (r : res A) : silent (st_lift r).
Proof. intros s a s'. unfold st_lift. destruct r; simpl; try done. by intros [= _ <-]. Qed.

Lemma sends_reply (P : reply → Prop) r : P r → sends P (reply_with r).
Proof. intros HP s a s' [= _ <-]. by exists r. Qed.

Lemma sends_bind {A} (P : reply → Prop) (p : ST (fuse S) A) f :
  silent p → (∀ a, sends P (f a)) → sends P (p ≫= f).
Proof.
  intros Hp Hf s b s' (a & s1 & E1 & E2)%bind_ret. destruct (Hf _ _ _ _ E2) as (r & Hr & E).
  exists r. split; [done|]. by rewrite E, (Hp _ _ _ E1).
Qed.

Lemma sends_bind_with {A} (Q : A → Prop) (P : reply → Prop) (p : ST (fuse S) A) f :
  silent p → returns Q p → (∀ a, Q a → sends P (f a)) → sends P (p ≫= f).
Proof.
  intros Hp HQ Hf s b s' (a & s1 & E1 & E2)%bind_ret. destruct (Hf _ (HQ _ _ _ E1) _ _ _ E2) as (r & Hr & E).
  exists r. split; [done|]. by rewrite E, (Hp _ _ _ E1).
Qed.

Lemma returns_call {A} (Q : A → Prop) (p : ST (yfs S) A) : returns Q p → returns Q (yfs_call p).
Proof.
  intros Hp s a s'. unfold yfs_call. destruct (p (f_yfs s)) as [[a' y]| | | |] eqn:E; try done.
  intros [= <- _]. by eapply Hp.
Qed.
End replies.

#[export] Hint Resolve silent_call silent_ret silent_lift : silent.

Ltac silence1 :=
  match goal with
  | |- silent (match ?x with _ => _ end) => destruct x
  | |- silent (_ ≫= _) => apply silent_bind; [solve [eauto with silent] || idtac|intros ?]
  | |- silent _ => solve [eauto with silent]
  end.
Ltac silence := repeat (silence1; cbv beta zeta).

Lemma status_not_exist r : yfs_status r → (r =? y_EXIST) = false.
Proof. by intros [->|[->| ->]]. Qed.

Section handlers.
Context {S : Type} `{BlockStore S} (time : nat → Z) (junk : list Z) (fuel : nat) (info0 : fileinfo) (ino0 : Z).
Context (dsize : Z → Z) (dent : list Z → Z → Z → list Z).

Definition not_exist (r : reply) : Prop := r ≠ fuse_reply_err EEXIST.

(** The replies that the FUSE protocol has for a request: the one of its kind (the
    error 0 for unlink), or an error. *)
Definition answers (r : fuse_req) (rep : reply) : Prop :=
  match r, rep with
  | FUnlink _ _, fuse_reply_err e => e ∈ [0; ENOENT; ENOSYS]
  | FUnlink _ _, _ => False
  | _, fuse_reply_err e => e ∈ [ENOENT; EEXIST; ENOTDIR; ENOSYS]
  | FGetattr ino, fuse_reply_attr st => st_ino st = ino
  | FSetattr _ _ _, fuse_reply_attr _ => True
  | FStatfs, fuse_reply_statfs _ _ => True
  | FReaddir _ size _, fuse_reply_buf data => 0 ≤ size → Z.of_nat (length data) ≤ size
  | FRead _ _ _, fuse_reply_buf _ => True
  | FWrite _ _ size _, fuse_reply_write n => n = size
  | FLookup _ _, fuse_reply_entry e => 0 < e_ino e
  | (FMknod _ _ | FMkdir _ _ | FSymlink _ _ _), fuse_reply_entry _ => True
  | FCreate _ _, fuse_reply_create _ => True
  | FOpen _, fuse_reply_open => True
  | FReadlink _, fuse_reply_readlink _ => True
  | _, _ => False
  end.

Lemma silent_getattr ino : silent (getattr (S := S) junk info0 ino).
Proof. unfold getattr. silence. Qed.
#[local] Hint Resolve silent_getattr : silent.

Lemma createhelper_status parent name :
  silent (fuseserver_createhelper (S := S) time junk fuel info0 ino0 parent name) ∧
  returns status_and (fuseserver_createhelper (S := S) time junk fuel info0 ino0 parent name).
Proof.
  unfold fuseserver_createhelper. split; [silence|].
  eapply returns_bind_with; [apply returns_call, create_status|]. intros [ret ino] Hr. by results.
Qed.

Lemma getattr_ino ino : returns (λ r, st_ino r.2 = ino) (getattr (S := S) junk info0 ino).
Proof. unfold getattr. by results. Qed.

(** A reply that is right for the request and not EEXIST. *)
Definition answered (r : fuse_req) (rep : reply) : Prop := answers r rep ∧ not_exist rep.

Lemma answered_err r e :
  (if r is FUnlink _ _ then e ∈ [0; ENOENT; ENOSYS] else e ∈ [ENOENT; ENOTDIR; ENOSYS]) →
  answered r (fuse_reply_err e).
Proof.
  intros He. assert (e ≠ EEXIST) as Hn by (intros ->; destruct r; apply (bool_decide_pack _) in He; by vm_compute in He).
  split; [|intros [= ?]; congruence]. destruct r; simpl; decompose_list_elem_of; set_solver.
Qed.

Lemma sends_new r ret ino :
  (∀ e, answered r (fuse_reply_entry e)) → (if r is FUnlink _ _ then False else True) → yfs_status ret →
  sends (answered r) (reply_new (S := S) junk info0 ret ino).
Proof.
  intros Hk Hu Hr. unfold reply_new. rewrite (status_not_exist ret Hr). destruct (ret =? y_OK).
  - apply sends_bind; [silence|]. intros [_ st]. by apply sends_reply.
  - apply sends_reply, answered_err. destruct r; set_solver.
Qed.

Lemma limited_size buf off size n :
  0 ≤ size → reply_buf_limited buf off size = fuse_reply_buf n → Z.of_nat (length n) ≤ size.
Proof.
  intros Hs. unfold reply_buf_limited. case_match; intros [= <-]; [|simpl; lia].
  unfold slice. rewrite length_take. lia.
Qed.

(** One step of a proof that a handler replies once. *)
Ltac replies1 :=
  match goal with
  | |- sends _ (if 0 <? ?x then _ else _) => destruct (Z.ltb_spec 0 x)
  | |- sends _ (match ?x with _ => _ end) => destruct x
  | |- sends _ (reply_with (fuse_reply_err _)) => apply sends_reply, answered_err; set_solver
  | |- sends _ (reply_with _) => apply sends_reply; done
  | |- sends _ (_ ≫= _) => apply sends_bind; [solve [eauto with silent]|intros ?]
  end.
Ltac replies := repeat (replies1; cbv beta zeta).

Lemma handler_sends r :
  sends (answered r) (fuseserver_oper (S := S) time junk fuel info0 ino0 dsize dent r).
Proof.
  destruct r; cbn [fuseserver_oper]; unfold fuseserver_getattr, fuseserver_statfs, fuseserver_readdir,
    fuseserver_lookup, fuseserver_open, fuseserver_read, fuseserver_write, fuseserver_setattr, fuseserver_unlink;
    try solve [replies].
  - eapply sends_bind_with; [apply silent_getattr|apply getattr_ino|]. intros [ret st] Hst. simpl in Hst. replies.
  - replies. apply sends_reply. destruct (reply_buf_limited _ _ _) eqn:E; try by (revert E; unfold reply_buf_limited; case_match).
    split; [|done]. intros Hs. by eapply limited_size.
  - unfold fuseserver_create. destruct (createhelper_status parent name) as [Hs Hr].
    eapply (sends_bind_with status_and); [done..|]. intros [ret e] Hret. simpl in Hret.
    rewrite (status_not_exist ret Hret). replies.
  - unfold fuseserver_mknod. destruct (createhelper_status parent name) as [Hs Hr].
    eapply (sends_bind_with status_and); [done..|]. intros [ret e] Hret. simpl in Hret.
    rewrite (status_not_exist ret Hret). replies.
  - unfold fuseserver_mkdir. eapply (sends_bind_with status_and); [apply silent_call|apply returns_call, mkdir_status|].
    intros [ret ino] Hret. by apply sends_new.
  - unfold fuseserver_symlink. eapply (sends_bind_with status_and); [apply silent_call|apply returns_call, symlink_status|].
    intros [ret ino] Hret. by apply sends_new.
  - unfold fuseserver_readlink. eapply (sends_bind_with status_and); [apply silent_call|apply returns_call, readlink_status|].
    intros [ret link] Hret. simpl in Hret. rewrite (status_not_exist ret Hret). replies.
Qed.
End handlers.

(** ** The listing as the kernel reads it *)
Section listing.
Context (dsize : Z → Z) (dent : list Z → Z → Z → list Z).
(** fuse_add_dirent writes as many bytes as fuse_dirent_size says. *)
Hypothesis dent_size : ∀ nm ino off, Z.of_nat (length (dent nm ino off)) = dsize (Z.of_nat (length nm)).

(** Each entry holds the offset at which the next one starts. *)
Fixpoint listing (items : list (Z * list Z)) (off : Z) : list Z :=
  match items with
  | [] => []
  | (ino, nm) :: items =>
      let next := off + dsize (Z.of_nat (length (c_str nm))) in
      dent (c_str nm) ino next ++ listing items next
  end.

Lemma dirbuf_all_run items b :
  dirbuf_all dsize dent items b = Ret (b ++ listing items (Z.of_nat (length b))).
Proof.
  revert b. induction items as [|[ino nm] items IH]; intros b; cbn [dirbuf_all listing]; [by rewrite app_nil_r|].
  unfold dirbuf_add. cbv zeta. rewrite dent_size, Z.eqb_refl. cbn [mbind res_bind].
  rewrite IH, length_app, Nat2Z.inj_add, dent_size, <- app_assoc. done.
Qed.
End listing.

Lemma reply_buf_limited_slice buf off size :
  0 ≤ off < 2 ^ 64 → 0 ≤ size →
  reply_buf_limited buf off size = fuse_reply_buf (slice (Z.to_nat off) (Z.to_nat size) buf).
Proof.
  intros Ho Hs. unfold reply_buf_limited. rewrite uwrap_small by done.
  destruct (Z.ltb_spec off (Z.of_nat (length buf))) as [Hlt|Hge]; f_equal; unfold slice.
  - destruct (Z.min_spec (Z.of_nat (length buf) - off) size) as [[Hm ->]|[Hm ->]]; [|done].
    rewrite !take_ge; [done|..]; rewrite length_drop; lia.
  - by rewrite drop_ge, take_nil by lia.
Qed.

Lemma map_items_spec m : map_items m ≡ₚ map_to_list m ∧ Sorted key_le (map_items m).
Proof.
  split; [apply merge_sort_Permutation|]. apply Sorted_merge_sort. intros x y. unfold key_le. lia.
Qed.

(** ** Runs over a map of blocks *)
Section runs.
Context (time : nat → Z) (junk : list Z) (fuel : nat) (info0 : fileinfo) (ino0 : Z).
Implicit Types (m : gmap Z (list Z)) (h : gset Z) (rs : list reply).

Lemma call_run {A} (p : ST (yfs (gmap Z (list Z))) A) y a y' rs :
  p y = Ret (a, y') → yfs_call p (Fuse y rs) = Ret (a, Fuse y' rs).
Proof. unfold yfs_call. simpl. by intros ->. Qed.

Lemma has_mode_run m h c ino b k :
  ino ∉ h → used m ({[ino]} ∪ h) ino b →
  has_mode junk k ino (Yfs m h c) = Ret (i_mode b =? k, Yfs m h c).
Proof.
  intros Hh Hu. unfold has_mode. run (acquire_run _ _ c _ Hh). run (safe_get_own _ _ _ _ _ junk Hu).
  cbv beta iota. by run (release_run m h c ino Hh).
Qed.

Lemma issym_run m h c ino b :
  ino ∉ h → used m ({[ino]} ∪ h) ino b → issym junk ino (Yfs m h c) = Ret (i_mode b =? 2, Yfs m h c).
Proof.
  intros Hh Hu. unfold issym. run (acquire_run _ _ c _ Hh). run (used_get_run _ _ _ _ _ junk Hu).
  cbv beta iota. cbn [negb y_OK Z.eqb]. by run (release_run m h c ino Hh).
Qed.

Lemma getfile_run m h c ino b :
  ino ∉ h → used m ({[ino]} ∪ h) ino b →
  getfile junk ino info0 (Yfs m h c) = Ret ((y_OK, info_of b), Yfs m h c).
Proof.
  intros Hh Hu. unfold getfile. run (acquire_run _ _ c _ Hh). run (safe_get_own _ _ _ _ _ junk Hu).
  cbv beta iota. by run (release_run m h c ino Hh).
Qed.

Lemma getdir_run m h c ino b d :
  ino ∉ h → used m ({[ino]} ∪ h) ino b →
  getdir junk ino d (Yfs m h c) = Ret ((y_OK, (i_atime b, i_mtime b, i_ctime b)), Yfs m h c).
Proof.
  intros Hh Hu. unfold getdir. run (acquire_run _ _ c _ Hh). run (safe_get_own _ _ _ _ _ junk Hu).
  cbv beta iota. by run (release_run m h c ino Hh).
Qed.

(** The attributes of an inode. *)
Definition attr_of (ino : Z) (b : list Z) : stat :=
  if i_mode b =? 2 then Stat ino (Z.lor S_IFLNK 438) 1 (i_size b) (i_atime b) (i_mtime b) (i_ctime b)
  else if i_mode b =? 1 then Stat ino (Z.lor S_IFREG 438) 1 (i_size b) (i_atime b) (i_mtime b) (i_ctime b)
  else Stat ino (Z.lor S_IFDIR 511) 2 0 (i_atime b) (i_mtime b) (i_ctime b).

Lemma getattr_run m h c rs ino b :
  ino ∉ h → used m ({[ino]} ∪ h) ino b →
  getattr junk info0 ino (Fuse (Yfs m h c) rs) = Ret ((y_OK, attr_of ino b), Fuse (Yfs m h c) rs).
Proof.
  intros Hh Hu. unfold getattr, attr_of. cbv zeta.
  run (call_run _ _ _ _ rs (has_mode_run m h c ino b 1 Hh Hu)). cbv beta.
  run (call_run _ _ _ _ rs (issym_run m h c ino b Hh Hu)). cbv beta. destruct (i_mode b =? 2).
  - by run (call_run _ _ _ _ rs (getfile_run m h c ino b Hh Hu)).
  - run (call_run _ _ _ _ rs (has_mode_run m h c ino b 1 Hh Hu)). destruct (i_mode b =? 1).
    + by run (call_run _ _ _ _ rs (getfile_run m h c ino b Hh Hu)).
    + by run (call_run _ _ _ _ rs (getdir_run m h c ino b _ Hh Hu)).
Qed.

Lemma new_inode_attr ino x y :
  attr_of ino (new_inode (u64 x) (u64 y)) = Stat ino (Z.lor S_IFREG 438) 1 0 0 (u64 x) (u64 y).
Proof.
  unfold new_inode. set (b1 := set_mode 1 zero_block). set (b2 := set_atime 0 b1).
  set (b3 := set_mtime (u64 x) b2). set (b4 := set_ctime (u64 y) b3).
  assert (length b1 = 512 ∧ length b2 = 512 ∧ length b3 = 512)%nat as (L1 & L2 & L3).
  { assert (length b1 = 512%nat) by done. assert (length b2 = 512%nat) by (unfold b2, set_atime; rewrite length_wr; lia).
    assert (length b3 = 512%nat) by (unfold b3, set_mtime; rewrite length_wr; lia). done. }
  assert (∀ off n, (off + n ≤ 16)%nat → rd off n b4 = rd off n b1) as Hlow.
  { intros off n Ho. unfold b4, set_ctime. rewrite rd_wr_ne by lia. unfold b3, set_mtime. rewrite rd_wr_ne by lia.
    unfold b2, set_atime. by rewrite rd_wr_ne by lia. }
  assert (∀ v, u64 v `mod` 2 ^ (8 * Z.of_nat 8) = u64 v) as Hw by (intros v; apply (uwrap_idemp 64 v)).
  unfold attr_of, i_mode, i_size, i_atime, i_mtime, i_ctime. rewrite !Hlow by lia.
  assert (rd 32 8 b4 = u64 y) as -> by (unfold b4, set_ctime; by rewrite rd_wr_eq by lia).
  assert (rd 24 8 b4 = u64 x) as ->.
  { unfold b4, set_ctime. rewrite rd_wr_ne by lia. unfold b3, set_mtime. by rewrite rd_wr_eq by lia. }
  assert (rd 16 8 b4 = 0) as ->.
  { unfold b4, set_ctime. rewrite rd_wr_ne by lia. unfold b3, set_mtime. rewrite rd_wr_ne by lia.
    unfold b2, set_atime. by rewrite rd_wr_eq by lia. }
  clearbody b2 b3 b4. change (s8 (rd 0 1 b1)) with 1. by change (rd 8 8 b1) with 0.
Qed.
End runs.

(** * Theorems *)


(** The comments of create, mknod and mkdir ask for the error EEXIST when the name
    exists, and the handlers test for it; yet no request is ever answered so:
    create answers with the file that exists and mkdir makes a second entry. *)
Theorem eexist_never_sent {S : Type} `{BlockStore S} (time : nat → Z) (junk : list Z) (fuel : nat)
    (info0 : fileinfo) (ino0 : Z) (dsize : Z → Z) (dent : list Z → Z → Z → list Z) (r : fuse_req) (s s' : fuse S) :
  fuseserver_oper time junk fuel info0 ino0 dsize dent r s = Ret (tt, s') →
  ∃ rep, f_replies s' = f_replies s ++ [rep] ∧ rep ≠ fuse_reply_err EEXIST.
Proof. intros E. destruct (handler_sends time junk fuel info0 ino0 dsize dent r _ _ _ E) as (rep & [? ?] & ?). eauto. Qed.

(** Data through the kernel: a write request inside a file is answered with
    its size, and any later read request inside the file is answered with the
    bytes that are then in its range. *)
Theorem fuse_write_then_read (time : nat → Z) (junk : list Z) (fuel : nat) (m : gmap Z (list Z)) (h : gset Z)
    (c : nat) (rs : list reply) (ino : Z) (b : list Z) (ns : list Z) (ds : list (Z * list Z)) (buf : list Z)
    (size off size' off' : Z) :
  file m h ino b ns ds → Forall is_byte buf → 0 ≤ size ≤ Z.of_nat (length buf) → 0 ≤ off →
  off + size ≤ i_size b < 2 ^ 63 → off < 512 * Z.of_nat (length ds) →
  i_size b ≤ 512 * Z.of_nat (length ds) → (length ds < fuel)%nat →
  0 < size' → 0 ≤ off' → off' + size' ≤ i_size b →
  let data := splice (Z.to_nat off) (take (Z.to_nat size) buf) (bytes_of ds) in
  ∃ s1 s2, fuseserver_write time junk fuel ino buf size off (Fuse (Yfs m h c) rs) = Ret (tt, s1) ∧
    f_replies s1 = rs ++ [fuse_reply_write size] ∧
    fuseserver_read time junk fuel ino size' off' s1 = Ret (tt, s2) ∧
    f_replies s2 = f_replies s1 ++ [fuse_reply_buf (slice (Z.to_nat off') (Z.to_nat size') data)].
Proof.
  intros Hf Hby Hs Ho Hfs H1 H2 H3 Hs' Ho' Hfs' data.
  destruct (write_run time junk fuel m h c ino b ns ds buf size off) as
    (m' & b' & ds' & E & Hf' & Hsz & Hl & Hb & _); try done; [lia..|].
  assert (read_result (i_size b') size' off' (bytes_of ds') = slice (Z.to_nat off') (Z.to_nat size') data) as Er.
  { rewrite Hsz, Hb. unfold read_result. rewrite Z.min_l; [done|].
    pose proof (Z.div_mod off' 512 ltac:(lia)). pose proof (Z.mod_pos_bound off' 512 ltac:(lia)). lia. }
  pose proof (read_run time junk fuel m' h (S (S c)) ino b' ns ds' size' off' Hf' ltac:(lia) Ho'
    ltac:(lia)) as E2. rewrite Er in E2.
  eexists _, _. split; [unfold fuseserver_write; by run (call_run _ _ _ _ rs E)|]. split; [done|].
  split; [unfold fuseserver_read; by run (call_run _ _ _ _ (rs ++ [fuse_reply_write size]) E2)|done].
Qed.

(** A file created through the kernel is there: create is answered with the
    smallest free block as inode, an empty regular file with one link, and
    lookup of the name is then answered with the same inode and attributes. *)
Theorem fuse_create_then_lookup (time : nat → Z) (junk : list Z) (fuel : nat) (info0 : fileinfo) (ino0 : Z)
    (m : gmap Z (list Z)) (h : gset Z) (c : nat) (rs : list reply) (parent : Z) (b : list Z) (es : entries)
    (ess : list entries) (name : list Z) (i0 : Z) :
  parent ∉ h → used m ({[parent]} ∪ h) parent b → dir_chain m ({[parent]} ∪ h) parent b (es :: ess) →
  (length es < 5)%nat → Forall (λ c, 0 ≤ c) name → name_ok (c_str name) →
  find_es (c_str name) es = None → first_free m ({[parent]} ∪ h) i0 → in_bitmap_area i0 = false →
  has_bit i0 → 0 < i0 → (Z.to_nat i0 < fuel)%nat → (length (es :: ess) ≤ fuel)%nat →
  let st := Stat i0 (Z.lor S_IFREG 438) 1 0 0 (u64 (time (S c))) (u64 (time (S (S c)))) in
  ∃ s1 s2, fuseserver_create time junk fuel info0 ino0 parent name (Fuse (Yfs m h c) rs) = Ret (tt, s1) ∧
    f_replies s1 = rs ++ [fuse_reply_create (Entry i0 st)] ∧
    fuseserver_lookup time junk fuel info0 parent name s1 = Ret (tt, s2) ∧
    f_replies s2 = f_replies s1 ++ [fuse_reply_entry (Entry i0 st)].
Proof.
  intros Hh Hu Hc Hroom Hn Hok Hnew Hff Ha0 Hb0 Hpos Hf Hl st.
  destruct (create_run time junk fuel m h c parent b es ess name i0 ino0) as
    (m' & b' & E & Hu' & Hc' & Hbit & Hget); try done.
  pose proof (ff_held _ _ _ Hff) as Hi0. pose proof (not_bitmap i0 i0 Ha0 Hb0) as Hnb.
  assert (used m' ({[i0]} ∪ h) i0 (new_inode (u64 (time (S c))) (u64 (time (S (S c)))))) as Hu0.
  { split; try done. intros [Hx%elem_of_singleton|Hx]%elem_of_union; [by rewrite <- Hx in Hnb at 2|].
    destruct (ff_area _ _ _ Hff (bitmap_block i0)) as [Hy _]; [|set_solver].
    unfold bitmap_block, BITMAP_PER_BLOCK, BLOCK_BITMAP_BEGIN_BLOCK. pose proof (Z.div_pos i0 4096). lia. }
  assert (lookup_es (c_str name) ((es ++ [(c_str name, i0)]) :: ess) = i0) as El.
  { unfold lookup_es. simpl. rewrite <- app_assoc, find_es_app, Hnew. simpl. by rewrite bool_decide_true. }
  pose proof (lookup_run time junk fuel m' h (S (S (S c))) parent b' _ name Hh Hu' Hc' Hn Hl) as E2. rewrite El in E2.
  set (m2 := <[parent := set_atime (u64 (time (S (S (S c))))) b']> m') in E2.
  assert (used m2 ({[i0]} ∪ h) i0 (new_inode (u64 (time (S c))) (u64 (time (S (S c)))))) as Hu2.
  { apply used_insert_ne; [apply Hu'|set_solver|done]. }
  assert (i0 ∉ h) as Hi0' by set_solver.
  set (rs1 := rs ++ [fuse_reply_create (Entry i0 st)]).
  exists (Fuse (Yfs m' h (S (S (S c)))) rs1), (Fuse (Yfs m2 h (S (S (S (S c))))) (rs1 ++ [fuse_reply_entry (Entry i0 st)])).
  split; [|split; [done|split; [|done]]].
  - unfold fuseserver_create, fuseserver_createhelper.
    erewrite bind_run; [|run (call_run _ _ _ _ rs E); cbv beta iota; cbn [Z.eqb y_OK];
      run (getattr_run junk info0 _ _ (S (S (S c))) rs i0 _ Hi0' Hu0); reflexivity].
    cbv beta iota. by rewrite new_inode_attr.
  - unfold fuseserver_lookup. run (call_run _ _ _ _ rs1 E2). cbv beta. destruct (Z.ltb_spec 0 i0); [|lia].
    run (getattr_run junk info0 _ _ (S (S (S (S c)))) rs1 i0 _ Hi0' Hu2). cbv beta iota. by rewrite new_inode_attr.
Qed.

(** C32.  Listing a directory through the kernel: readdir is answered with the
    part that was asked for of one buffer, which holds the entries in the order
    of their inode numbers, each with the offset at which the next one starts;
    so reading on at the end of what came before gives the whole directory. *)
Theorem fuse_readdir_pages (time : nat → Z) (junk : list Z) (fuel : nat) (dsize : Z → Z)
    (dent : list Z → Z → Z → list Z) (m : gmap Z (list Z)) (h : gset Z) (c : nat) (rs : list reply) (ino : Z)
    (b : list Z) (ess : list entries) (size off : Z) :
  (∀ nm ino off, Z.of_nat (length (dent nm ino off)) = dsize (Z.of_nat (length nm))) →
  ino ∉ h → used m ({[ino]} ∪ h) ino b → i_mode b = 0 → dir_chain m ({[ino]} ∪ h) ino b ess →
  (length ess ≤ fuel)%nat → 0 ≤ off < 2 ^ 64 → 0 ≤ size →
  let items := map_items (list_es (concat ess) ∅) in
  let buf := listing dsize dent items 0 in
  ∃ s1, fuseserver_readdir time junk fuel dsize dent ino size off (Fuse (Yfs m h c) rs) = Ret (tt, s1) ∧
    f_replies s1 = rs ++ [fuse_reply_buf (slice (Z.to_nat off) (Z.to_nat size) buf)] ∧
    Sorted key_le items ∧ items ≡ₚ map_to_list (list_es (concat ess) ∅).
Proof.
  intros Hd Hh Hu Hm Hc Hl Ho Hs items buf. pose proof (map_items_spec (list_es (concat ess) ∅)) as [Hp Hsort].
  eexists. split; [|split; [|done]].
  - unfold fuseserver_readdir. run (call_run _ _ _ _ rs (has_mode_run junk m h c ino b 0 Hh Hu)). rewrite Hm.
    cbn [Z.eqb negb]. run (call_run _ _ _ _ rs (readdir_run time junk fuel m h c ino b ess Hh Hu Hc Hl)).
    cbv beta iota. cbn [Z.eqb y_OK]. rewrite (dirbuf_all_run dsize dent Hd). reflexivity.
  - simpl. fold items. fold buf. by rewrite reply_buf_limited_slice.
Qed.

(** ** Concrete requests *)
Definition ex_info : fileinfo := FileInfo 0 0 0 0.

(** An entry as the FUSE library lays it out: inode, offset, length of the name,
    type, name. *)
Definition ex_dirent (nm : list Z) (ino off : Z) : list Z :=
  le_bytes 8 ino ++ le_bytes 8 off ++ le_bytes 4 (Z.of_nat (length nm)) ++ le_bytes 4 0 ++ nm.
Definition ex_dirent_size (n : Z) : Z := 24 + n.

Lemma ex_dirent_ok nm ino off :
  Z.of_nat (length (ex_dirent nm ino off)) = ex_dirent_size (Z.of_nat (length nm)).
Proof. unfold ex_dirent, ex_dirent_size. rewrite !length_app, !length_le_bytes. lia. Qed.


Lemma fuse_write_then_read_witness :
  ∃ s1 s2, fuseserver_write ex_time ex_junk 5 2 [1; 2; 3] 3 511 (Fuse (Yfs (y_store ex_file_fs) ∅ 0) []) = Ret (tt, s1) ∧
    fuseserver_read ex_time ex_junk 5 2 5 510 s1 = Ret (tt, s2) ∧
    f_replies s2 = f_replies s1 ++ [fuse_reply_buf [7; 1; 2; 3; 7]].
Proof.
  pose proof (fuse_write_then_read ex_time ex_junk 5 (y_store ex_file_fs) ∅ 0 [] 2 (ex_block 2) []
    [(3, ex_block 3); (4, ex_block 4)] [1; 2; 3] 3 511 5 510 ex_file) as W.
  rewrite ex_size in W.
  specialize (W ltac:(by_vm) ltac:(simpl; lia) ltac:(lia) ltac:(lia) ltac:(simpl; lia) ltac:(simpl; lia)
    ltac:(simpl; lia) ltac:(lia) ltac:(lia) ltac:(lia)).
  destruct W as (s1 & s2 & E1 & _ & E2 & R). exists s1, s2. split; [exact E1|]. split; [exact E2|].
  rewrite R. vm_compute (slice _ _ _). reflexivity.
Defined.

Lemma fuse_create_then_lookup_witness :
  ∃ s1 s2, fuseserver_create ex_time ex_junk 3 ex_info 0 1 [97; 98] (Fuse (Yfs (y_store ex_fs) ∅ 0) []) = Ret (tt, s1) ∧
    fuseserver_lookup ex_time ex_junk 3 ex_info 1 [97; 98] s1 = Ret (tt, s2).
Proof.
  pose proof (fuse_create_then_lookup ex_time ex_junk 3 ex_info 0 (y_store ex_fs) ∅ 0 [] 1 root_block [] [] [97; 98] 2
    (not_elem_of_empty 1) ex_root_used ex_root_chain ltac:(simpl; lia) ltac:(repeat constructor; lia)
    ltac:(split; [simpl; lia|repeat constructor; lia]) eq_refl ex_root_free eq_refl
    ltac:(unfold has_bit; lia) ltac:(lia) ltac:(change (Z.to_nat 2) with 2%nat; lia) ltac:(simpl; lia)) as W.
  destruct W as (s1 & s2 & E1 & _ & E2 & _). exists s1, s2. exact (conj E1 E2).
Defined.

Lemma fuse_readdir_pages_witness :
  ∃ s1, fuseserver_readdir ex_time ex_junk 3 ex_dirent_size ex_dirent 1 4096 25 (Fuse (Yfs ex_dir_fs ∅ 0) []) = Ret (tt, s1) ∧
    f_replies s1 = [fuse_reply_buf (ex_dirent [98; 99] 3 51)].
Proof.
  pose proof (fuse_readdir_pages ex_time ex_junk 3 ex_dirent_size ex_dirent ex_dir_fs ∅ 0 [] 1 ex_dir_block [ex_dir_es]
    4096 25 ex_dirent_ok (not_elem_of_empty 1) ex_dir_used ltac:(by_vm) ex_dir_chain ltac:(simpl; lia)
    ltac:(lia) ltac:(lia)) as W.
  destruct W as (s1 & E & R & _). exists s1. split; [exact E|]. rewrite R. vm_compute. reflexivity.
Defined.
