(* ===== verification/FuseFile.v ===== *)
(** A file through the kernel: requests to create, write, read, stat, look up and
    unlink it, and the replies they get, over the file system of YfsLife.v. *)
From stdpp Require Import sorting.
From S2P Require Import Prelude ExtentServer ExtentCache YfsBlock YfsFile YfsDir YfsOps YfsLocks.
From S2P Require Import YfsRefine YfsAlloc YfsDirSpec YfsFileSpec YfsListing YfsUnlink YfsGrow YfsBytes YfsCreate YfsLife Fuse FuseSpec.
Local Open Scope Z_scope.

Section session.
Context (time : nat → Z) (junk : list Z) (fuel : nat) (info0 : fileinfo) (ino0 : Z).
Context (dsize : Z → Z) (dent : list Z → Z → Z → list Z).

Abbreviation oper := (fuseserver_oper (S := gmap Z (list Z)) time junk fuel info0 ino0 dsize dent).

(** Requests one after the other. *)
Fixpoint run_reqs (rs : list fuse_req) : ST (fuse (gmap Z (list Z))) unit :=
  match rs with [] => mret tt | r :: rs => oper r;; run_reqs rs end.

(** The request for an operation on a file, and its reply. *)
Definition fop_req (ino : Z) (o : fop) : fuse_req :=
  match o with
  | PWrite off x => FWrite ino x (Z.of_nat (length x)) off
  | PRead off size => FRead ino size off
  end.

Definition fop_reply (data : list Z) (o : fop) : reply :=
  match o with
  | PWrite _ x => fuse_reply_write (Z.of_nat (length x))
  | PRead off size => fuse_reply_buf (slice (Z.to_nat off) (Z.to_nat size) data)
  end.

Fixpoint fop_replies (data : list Z) (os : list fop) : list reply :=
  match os with [] => [] | o :: os => fop_reply data o :: fop_replies (fop_data data o) os end.

Lemma fop_req_run ino o data y y' rs :
  run_fop time junk fuel ino o y = Ret (fop_result data o, y') →
  oper (fop_req ino o) (Fuse y rs) = Ret (tt, Fuse y' (rs ++ [fop_reply data o])).
Proof.
  destruct o as [off x|off size]; simpl.
  - intros (r & y1 & E & [= -> <-])%bind_ret. unfold fuseserver_write. by run (call_run _ _ _ _ rs E).
  - intros E. unfold fuseserver_read. by run (call_run _ _ _ _ rs E).
Qed.

Lemma fop_reqs_run ino os data y y' rs :
  run_fops time junk fuel ino os y = Ret (fop_results data os, y') →
  run_reqs (fop_req ino <$> os) (Fuse y rs) = Ret (tt, Fuse y' (rs ++ fop_replies data os)).
Proof.
  revert data y rs. induction os as [|o os IH]; intros data y rs; simpl.
  - intros [= <-]. by rewrite app_nil_r.
  - intros (r & y1 & E & (q & y2 & Eq & [= -> -> <-])%bind_ret)%bind_ret.
    run (fop_req_run ino o data y y1 rs E). rewrite (IH _ y1 _ Eq). by rewrite <- app_assoc.
Qed.

Lemma run_reqs_app a b s s1 : run_reqs a s = Ret (tt, s1) → run_reqs (a ++ b) s = run_reqs b s1.
Proof.
  revert s. induction a as [|r a IH]; intros s; simpl; [by intros [= ->]|].
  intros ([] & s0 & E & Ea)%bind_ret. run E. by apply IH.
Qed.

Lemma run_reqs_one r s s1 : oper r s = Ret (tt, s1) → run_reqs [r] s = Ret (tt, s1).
Proof. intros E. simpl. by run E. Qed.

(** The replies of the handlers that look at one file. *)
Lemma getattr_req m h c rs ino b :
  ino ∉ h → used m ({[ino]} ∪ h) ino b →
  oper (FGetattr ino) (Fuse (Yfs m h c) rs) = Ret (tt, Fuse (Yfs m h c) (rs ++ [fuse_reply_attr (attr_of ino b)])).
Proof.
  intros Hh Hu. simpl. unfold fuseserver_getattr. by run (getattr_run junk info0 m h c rs ino b Hh Hu).
Qed.

Lemma create_req m h c m1 c1 rs parent name i0 b :
  create time junk fuel parent name ino0 (Yfs m h c) = Ret ((y_OK, i0), Yfs m1 h c1) → i0 ∉ h → used m1 ({[i0]} ∪ h) i0 b →
  oper (FCreate parent name) (Fuse (Yfs m h c) rs)
  = Ret (tt, Fuse (Yfs m1 h c1) (rs ++ [fuse_reply_create (Entry i0 (attr_of i0 b))])).
Proof.
  intros E Hh Hu. simpl. unfold fuseserver_create, fuseserver_createhelper.
  erewrite bind_run; [|run (call_run _ _ _ _ rs E); cbv beta iota; cbn [Z.eqb y_OK];
    run (getattr_run junk info0 m1 h c1 rs i0 b Hh Hu); reflexivity]. done.
Qed.

Lemma lookup_req m h c m1 c1 rs parent name i0 b :
  lookup time junk fuel parent name (Yfs m h c) = Ret (i0, Yfs m1 h c1) → 0 < i0 → i0 ∉ h → used m1 ({[i0]} ∪ h) i0 b →
  oper (FLookup parent name) (Fuse (Yfs m h c) rs)
  = Ret (tt, Fuse (Yfs m1 h c1) (rs ++ [fuse_reply_entry (Entry i0 (attr_of i0 b))])).
Proof.
  intros E H0 Hh Hu. simpl. unfold fuseserver_lookup. run (call_run _ _ _ _ rs E). cbv beta.
  destruct (Z.ltb_spec 0 i0); [|lia]. by run (getattr_run junk info0 m1 h c1 rs i0 b Hh Hu).
Qed.

Lemma lookup_req_none y y' rs parent name :
  lookup time junk fuel parent name y = Ret (0, y') →
  oper (FLookup parent name) (Fuse y rs) = Ret (tt, Fuse y' (rs ++ [fuse_reply_err ENOENT])).
Proof. intros E. simpl. unfold fuseserver_lookup. by run (call_run _ _ _ _ rs E). Qed.

Lemma unlink_req y y' rs parent name :
  unlink time junk fuel parent name y = Ret (y_OK, y') →
  oper (FUnlink parent name) (Fuse y rs) = Ret (tt, Fuse y' (rs ++ [fuse_reply_err 0])).
Proof. intros E. simpl. unfold fuseserver_unlink. by run (call_run _ _ _ _ rs E). Qed.
End session.

(** The attributes of a file that holds [data]. *)
Lemma stored_attr m h ino ins ds data :
  stored m ({[ino]} ∪ h) ino ins ds data → mode_of ins = Some 1 →
  ∃ b, used m ({[ino]} ∪ h) ino b ∧ st_ino (attr_of ino b) = ino ∧ st_mode (attr_of ino b) = Z.lor S_IFREG 438 ∧
    st_size (attr_of ino b) = Z.of_nat (length data).
Proof.
  intros Sd Hm. destruct (stored_first _ _ _ _ _ _ Sd) as (b & Hi & Hs). unfold mode_of in Hm. rewrite Hi in Hm.
  injection Hm as Hm. cbn [snd] in Hm. destruct (whole_inode (sd_whole _ _ _ _ _ _ Sd) _ _ _ Hi) as (Hu & _).
  exists b. split; [done|]. unfold attr_of. by rewrite Hm.
Qed.

(** * Theorems *)

(** C30.  A file through the kernel: the request to create a new name in a
    directory of any number of blocks is answered with a new regular file; every
    write within the free blocks is answered with its size and every read inside
    the file with the bytes that are there, zeroes in gaps; its attributes then
    have the size of the data; looking the name up gives the same inode and
    attributes; unlink succeeds, and afterwards the name is not found. *)
Theorem fuse_file_session (time : nat → Z) (junk : list Z) (fuel : nat) (info0 : fileinfo) (ino0 : Z) (dsize : Z → Z)
    (dent : list Z → Z → Z → list Z) (m : gmap Z (list Z)) (h : gset Z) (c : nat) (rs : list reply) (parent : Z)
    (b : list Z) (ns : list Z) (ess : list entries) (name : list Z) (l : list Z) (N : nat) (os : list fop) :
  parent ∉ h → used m ({[parent]} ∪ h) parent b → dir_blocks m ({[parent]} ∪ h) parent b ns ess →
  Forall (λ c, 0 ≤ c) name → name_ok (c_str name) → find_es (c_str name) (concat ess) = None →
  free_list fuel m ({[parent]} ∪ h) l → (length ess + 2 ≤ fuel)%nat → (N + (N + 15) `div` 16 + 2 < fuel)%nat →
  512 * Z.of_nat N < 2 ^ 63 → (N + (N + 15) `div` 16 + 2 ≤ length l)%nat → fops_ok N [] os →
  let oper := fuseserver_oper time junk fuel info0 ino0 dsize dent in
  let reqs := run_reqs time junk fuel info0 ino0 dsize dent in
  let st0 i0 := Stat i0 (Z.lor S_IFREG 438) 1 0 0 (u64 (time (S c))) (u64 (time (S (S c)))) in
  ∃ i0 st s1 s2 s3 s4,
    oper (FCreate parent name) (Fuse (Yfs m h c) rs) = Ret (tt, s1) ∧
    f_replies s1 = rs ++ [fuse_reply_create (Entry i0 (st0 i0))] ∧
    reqs ((fop_req i0 <$> os) ++ [FGetattr i0]) s1 = Ret (tt, s2) ∧
    f_replies s2 = f_replies s1 ++ fop_replies [] os ++ [fuse_reply_attr st] ∧
    st_ino st = i0 ∧ st_mode st = Z.lor S_IFREG 438 ∧ st_size st = Z.of_nat (length (foldl fop_data [] os)) ∧
    oper (FLookup parent name) s2 = Ret (tt, s3) ∧ f_replies s3 = f_replies s2 ++ [fuse_reply_entry (Entry i0 st)] ∧
    reqs [FUnlink parent name; FLookup parent name] s2 = Ret (tt, s4) ∧
    f_replies s4 = f_replies s2 ++ [fuse_reply_err 0; fuse_reply_err ENOENT].
Proof.
  intros Hh Hu Hb Hn Hok Hnew F Hf1 Hf2 HN Hl Hops oper reqs st0.
  destruct (create_fops_run time junk fuel m h c parent b ns ess name ino0 l N os) as
    (i0 & m1 & b' & ns' & ess' & l' & m2 & c2 & ins & ds & l2 & E & En & Hi0 & Er & Hg & R & Hk); try done; [lia|].
  pose proof (fl_each _ _ _ _ F) as He. rewrite Forall_forall in He.
  destruct (He i0 (en_new _ _ _ _ _ _ _ _ _ _ _ _ _ _ _ En)) as (A & _ & C & _).
  destruct (new_inode_fields (u64 (time (S c))) (u64 (time (S (S c))))) as (_ & _ & Hm & _).
  assert (mode_of ins = Some 1) as Hmode.
  { rewrite (gr_mode _ _ _ _ _ _ _ _ R). unfold mode_of. simpl. by rewrite Hm. }
  destruct (stored_attr _ _ _ _ _ _ (gn_stored _ _ _ _ _ _ _ _ _ Hg) Hmode) as (b2 & Hu2 & S1 & S2 & S3).
  pose proof (create_req time junk fuel info0 ino0 dsize dent m h c m1 _ rs parent name i0 _ E Hi0
    (used_other _ _ _ _ _ (en_used _ _ _ _ _ _ _ _ _ _ _ _ _ _ _ En))) as Ec.
  rewrite new_inode_attr in Ec. fold (st0 i0) in Ec. set (rs1 := rs ++ [_]) in Ec.
  pose proof (fop_reqs_run time junk fuel info0 ino0 dsize dent i0 os [] _ _ rs1 Er) as Ef.
  set (rs2 := rs1 ++ fop_replies [] os) in Ef. set (rs3 := rs2 ++ [fuse_reply_attr (attr_of i0 b2)]).
  destruct (entered_dir _ _ _ _ _ _ _ _ _ _ _ _ _ _ _ _ En Hk) as [Hup Hbp].
  destruct (en_entry _ _ _ _ _ _ _ _ _ _ _ _ _ _ _ En) as (l1 & l3 & C1 & C2).
  pose proof (en_length _ _ _ _ _ _ _ _ _ _ _ _ _ _ _ En) as Hle.
  destruct (find_entered (c_str name) i0 l1 l3) as [Hfind _]; [by rewrite <- C1|].
  pose proof (lookup_run time junk fuel m2 h c2 parent b' ess' name Hh Hup (dir_blocks_chain _ _ _ _ _ _ Hbp) Hn ltac:(lia)) as El.
  unfold lookup_es in El. rewrite C2, Hfind in El. cbn [fmap option_fmap option_map snd default] in El.
  assert (used (<[parent := set_atime (u64 (time c2)) b']> m2) ({[i0]} ∪ h) i0 b2) as Hu3.
  { apply used_insert_ne; [apply Hup| |done]. apply not_eq_sym. by destruct (en_not_dir _ _ _ _ _ _ _ _ _ _ _ _ _ _ _ En). }
  destruct (unlink_created time junk fuel m h parent ns ess name l N i0 _ m1 b' ns' ess' l' m2 c2 ins ds l2 _ Hh Hn Hnew Hf1 Hf2 F En Hi0 Hg R Hk)
    as (m3 & b3 & ess3 & E3 & Hux & Hbx & L3 & C3 & _ & _).
  pose proof (lookup_run time junk fuel m3 h (S (S c2)) parent b3 ess3 name Hh Hux (dir_blocks_chain _ _ _ _ _ _ Hbx) Hn ltac:(lia)) as E4.
  unfold lookup_es in E4. rewrite C3, Hnew in E4. cbn [fmap option_fmap option_map default] in E4.
  eexists i0, (attr_of i0 b2), _, (Fuse (Yfs m2 h c2) rs3), _,
    (Fuse _ ((rs3 ++ [fuse_reply_err 0]) ++ [fuse_reply_err ENOENT])). split; [exact Ec|]. split; [done|]. split.
  { unfold reqs. rewrite (run_reqs_app _ _ _ _ _ _ _ _ _ _ _ Ef). by apply run_reqs_one, getattr_req. }
  split; [by rewrite app_assoc|]. do 3 (split; [done|]).
  split; [apply (lookup_req _ _ _ _ _ _ _ m2 h c2 _ _ rs3 parent name i0 b2 El); [unfold has_bit in A; lia|done|done]|]. split; [done|].
  split; [|cbn [f_replies]; by rewrite <- app_assoc]. unfold reqs. cbn [run_reqs].
  run (unlink_req time junk fuel info0 ino0 dsize dent _ _ rs3 _ _ E3).
  by run (lookup_req_none time junk fuel info0 ino0 dsize dent _ _ (rs3 ++ [fuse_reply_err 0]) _ _ E4).
Qed.

(** ** The sixth file of a full root directory *)
Lemma fuse_file_session_witness :
  ∃ s1 s2 s3 st, fuseserver_oper ex_time ex_junk 300 ex_info 0 ex_dirent_size ex_dirent (FCreate 1 [102]) (Fuse (Yfs (y_store ex_full_fs) ∅ 0) [])
    = Ret (tt, s1) ∧
    run_reqs ex_time ex_junk 300 ex_info 0 ex_dirent_size ex_dirent
      [FWrite 8 [5; 6] 2 2; FRead 8 4 0; FGetattr 8] s1 = Ret (tt, s2) ∧
    f_replies s2 = f_replies s1 ++ [fuse_reply_write 2; fuse_reply_buf [0; 0; 5; 6]; fuse_reply_attr st] ∧ st_size st = 4 ∧
    run_reqs ex_time ex_junk 300 ex_info 0 ex_dirent_size ex_dirent [FUnlink 1 [102]; FLookup 1 [102]] s2 = Ret (tt, s3).
Proof.
  destruct (fuse_file_session ex_time ex_junk 300 ex_info 0 ex_dirent_size ex_dirent (y_store ex_full_fs) ∅ 0 [] 1 ex_full_root []
    [ex_full_entries] [102] ex_full_free 1 [PWrite 2 [5; 6]; PRead 0 4])
    as (i0 & st & s1 & s2 & s3 & s4 & E1 & R1 & E2 & R2 & _ & _ & Hs & _ & _ & E4 & _);
    [apply not_elem_of_empty|ex_used|exact ex_full_blocks|by_vm|split; [simpl; lia|repeat constructor; lia]
    |reflexivity|exact ex_full_free_list|apply Nat.leb_le; reflexivity|apply Nat.ltb_lt; reflexivity|lia
    |apply Nat.leb_le; reflexivity|split_and!; by_vm|].
  assert (i0 = 8) as ->.
  { vm_compute in E1. injection E1 as <-. vm_compute in R1. by injection R1 as <-. }
  exists s1, s2, s4, st. split; [exact E1|]. split; [exact E2|]. split; [exact R2|]. split; [exact Hs|exact E4].
Defined.
