(* ===== verification/Posix.v ===== *)
(** Programs over the system calls of a POSIX kernel: the calls that the test
    programs make (test-lab-2-a.c, test-lab-2-b.c), what POSIX documents of
    their effect on one file system, the runs of a process with at most one
    child, and a logic for processes that own different files.

    The kernel is not part of the sources: it is a parameter, and [KernelLaws]
    says what is used of it. *)
From Stdlib Require Import Ascii String.
From S2P Require Import Prelude.
Local Open Scope Z_scope.

(** * Programs *)
Inductive oflag := O_RDONLY | O_WRONLY | O_WRONLY_APPEND | O_WRONLY_CREAT.

Inductive call :=
  | Creat (n : string)
  | Open (n : string) (flags : oflag)
  | Write (fd : Z) (x : list Z)
  | Read (fd n : Z)
  | Lseek (fd off : Z)
  | Fsync (fd : Z)
  | Close (fd : Z)
  | Unlink (n : string)
  | Mkdir (n : string)
  | Access (n : string)
  | Listdir (n : string)       (* opendir, readdir to the end, closedir *)
  | Sleep (n : Z)
  | Forked.

(** The value of a call, errno, the bytes that read stores and the names that
    readdir delivers. *)
Record answer := Ans { ret : Z; errno : Z; bytes : list Z; names : list string }.

(** exit, a system call, fork with the program of the child, waitpid with the
    process number and the status it returns, and undefined behaviour. *)
Inductive prog :=
  | Exit (code : Z)
  | Sys (c : call) (k : answer → prog)
  | Fork (child : prog) (k : Z → prog)
  | Waitpid (pid : Z) (k : Z → option Z → prog)
  | Undefined.

Declare Scope prog_scope.
Delimit Scope prog_scope with prog.
Notation "'let*' a := c 'in' k" := (Sys c (λ a, k)) (at level 200, a name, c at level 100, k at level 200) : prog_scope.
Notation "'call*' c 'in' k" := (Sys c (λ _, k)) (at level 200, c at level 100, k at level 200) : prog_scope.
Notation "'exit_if' b 'else' k" := (if b then Exit 1 else k) (at level 200, b at level 100, k at level 200) : prog_scope.

(** * One file system as POSIX describes it *)
Abbreviation fpath := (list string).

(** The directories, the files with their bytes, and the open files of each
    process: the file, the offset and whether it is open for appending. *)
Record view := View { dirs : gset fpath; files : gmap fpath (list Z); fds : gmap (Z * Z) (fpath * Z * bool) }.

(** Bytes [x] at offset [off] of a file, zeroes in a gap. *)
Definition store_at (data : list Z) (off : nat) (x : list Z) : list Z :=
  splice off x (data ++ replicate (off + length x - length data) 0).

Definition entry_of (v : view) (d : fpath) (s : string) : Prop := d ++ [s] ∈ dirs v ∨ is_Some (files v !! (d ++ [s])).

(** A file at a path: its directory is there, and the path is no directory. *)
Definition may_create (D : gset fpath) (p : fpath) : Prop := p ∉ D ∧ ∃ d s, p = d ++ [s] ∧ d ∈ D.

Section spec.
Context (place : string → fpath) (q : Z).

(** What is known of the answer [a] and of the file system [v'] after the call of
    process [q]; nothing is said where the condition does not hold. *)
Definition posix (c : call) (v : view) (a : answer) (v' : view) : Prop :=
  match c with
  | Creat n =>
      may_create (dirs v) (place n) →
      0 ≤ ret a ∧ fds v !! (q, ret a) = None ∧
      v' = View (dirs v) (<[place n := []]> (files v)) (<[(q, ret a) := (place n, 0, false)]> (fds v))
  | Open n fl =>
      match files v !! place n with
      | Some x =>
          place n ∉ dirs v →
          0 ≤ ret a ∧ fds v !! (q, ret a) = None ∧
          v' = View (dirs v) (files v)
                 (<[(q, ret a) := (place n, 0, match fl with O_WRONLY_APPEND => true | _ => false end)]> (fds v))
      | None =>
          match fl with
          | O_WRONLY_CREAT =>
              may_create (dirs v) (place n) →
              0 ≤ ret a ∧ fds v !! (q, ret a) = None ∧
              v' = View (dirs v) (<[place n := []]> (files v)) (<[(q, ret a) := (place n, 0, false)]> (fds v))
          | _ => place n ∉ dirs v → ret a < 0 ∧ v' = v
          end
      end
  | Write fd x =>
      match fds v !! (q, fd) with
      | Some (p, off, app) =>
          match files v !! p with
          | Some data =>
              let off := if app : bool then Z.of_nat (length data) else off in
              0 ≤ off →
              ret a = Z.of_nat (length x) ∧
              v' = View (dirs v) (<[p := store_at data (Z.to_nat off) x]> (files v))
                     (<[(q, fd) := (p, off + Z.of_nat (length x), app)]> (fds v))
          | None => True
          end
      | None => True
      end
  | Read fd n =>
      match fds v !! (q, fd) with
      | Some (p, off, app) =>
          match files v !! p with
          | Some data =>
              0 ≤ n → 0 ≤ off →
              bytes a = slice (Z.to_nat off) (Z.to_nat n) data ∧ ret a = Z.of_nat (length (bytes a)) ∧
              v' = View (dirs v) (files v) (<[(q, fd) := (p, off + ret a, app)]> (fds v))
          | None => True
          end
      | None => True
      end
  | Lseek fd off =>
      match fds v !! (q, fd) with
      | Some (p, _, app) => 0 ≤ off → ret a = off ∧ v' = View (dirs v) (files v) (<[(q, fd) := (p, off, app)]> (fds v))
      | None => True
      end
  | Fsync fd => is_Some (fds v !! (q, fd)) → ret a = 0 ∧ v' = v
  | Close fd => is_Some (fds v !! (q, fd)) → ret a = 0 ∧ v' = View (dirs v) (files v) (delete (q, fd) (fds v))
  | Unlink n =>
      is_Some (files v !! place n) → ret a = 0 ∧ v' = View (dirs v) (delete (place n) (files v)) (fds v)
  | Mkdir n =>
      may_create (dirs v) (place n) → files v !! place n = None →
      ret a = 0 ∧ v' = View ({[place n]} ∪ dirs v) (files v) (fds v)
  | Access n => place n ∈ dirs v ∨ is_Some (files v !! place n) → ret a = 0 ∧ v' = v
  | Listdir n =>
      place n ∈ dirs v →
      ret a ≠ 0 ∧ NoDup (names a) ∧ v' = v ∧
      ∀ s, s ∈ names a ↔ s = "." ∨ s = ".." ∨ entry_of v (place n) s
  | Sleep _ => v' = v
  | Forked =>
      0 < ret a ∧ ret a ≠ q ∧ dirs v' = dirs v ∧ files v' = files v ∧
      ∀ x fd, fds v' !! (x, fd) = if decide (x = ret a) then fds v !! (q, fd) else fds v !! (x, fd)
  end.
End spec.

(** * Kernels *)
Definition no_slash (s : string) : Prop := "/"%char ∉ list_ascii_of_string s.

Class Kernel (W : Type) := {
  k_call : Z → call → W → answer → W → Prop;
  k_view : W → view;
  k_place : string → fpath }.

(** Every call returns, and does what POSIX says; a path below a directory is
    found in it. *)
Class KernelLaws (W : Type) `{Kernel W} := {
  k_returns : ∀ q c w, ∃ a w', k_call q c w a w';
  k_posix : ∀ q c w a w', k_call q c w a w' → posix k_place q c (k_view w) a (k_view w');
  k_below : ∀ d s, no_slash s → k_place (d +:+ "/" +:+ s) = k_place d ++ [s] }.

(** * Runs of a process and its child *)
Inductive child := NoChild | Running (pid : Z) (p : prog) | Exited (pid code : Z).

Section runs.
Context {W : Type} `{KernelLaws W} (self : Z).

Record config := Cfg { c_world : W; c_main : prog; c_child : child }.

Inductive run_step : config → config → Prop :=
  | st_main w c k ch a w' : k_call self c w a w' → run_step (Cfg w (Sys c k) ch) (Cfg w' (k a) ch)
  | st_child w p pid c k a w' :
      k_call pid c w a w' → run_step (Cfg w p (Running pid (Sys c k))) (Cfg w' p (Running pid (k a)))
  | st_exit w p pid code : run_step (Cfg w p (Running pid (Exit code))) (Cfg w p (Exited pid code))
  | st_fork w child k a w' :
      k_call self Forked w a w' →
      run_step (Cfg w (Fork child k) NoChild) (Cfg w' (k (ret a)) (if 0 <? ret a then Running (ret a) child else NoChild))
  | st_wait w pid k code : run_step (Cfg w (Waitpid pid k) (Exited pid code)) (Cfg w (k pid (Some code)) NoChild).

(** Whatever the schedule and the answers of the kernel, the process ends, with
    exit code 0. *)
Inductive passes : config → Prop :=
  | ps_exit w ch : passes (Cfg w (Exit 0) ch)
  | ps_step x : (∃ y, run_step x y) → (∀ y, run_step x y → passes y) → passes x.

(** ** Rely and guarantee *)

(** A process [q] among others whose steps are in [R], with own steps in [G]: [Q]
    holds where the program stops making calls, whatever the others do. *)
Fixpoint safe (R G : view → view → Prop) (q : Z) (Q : prog → view → Prop) (p : prog) (v : view) : Prop :=
  ∀ v', R v v' →
  match p with
  | Sys c k => ∀ a v'', posix k_place q c v' a v'' → G v' v'' ∧ safe R G q Q (k a) v''
  | p => Q p v'
  end.

Lemma safe_rely R G q Q p v v' : Transitive R → safe R G q Q p v → R v v' → safe R G q Q p v'.
Proof.
  intros HR Hs Hr. assert (∀ u, R v' u → R v u) as Hu by (intros u; by apply HR). destruct p; simpl in *; auto.
Qed.

(** A program alone. *)
Lemma passes_call w c k :
  (∀ a w', posix k_place self c (k_view w) a (k_view w') → passes (Cfg w' (k a) NoChild)) → passes (Cfg w (Sys c k) NoChild).
Proof.
  intros Hk. apply ps_step.
  - destruct (k_returns self c w) as (a & w' & Hc). eexists. by apply st_main.
  - intros y Hy. inversion Hy; subst. by apply Hk, k_posix.
Qed.

Lemma passes_alone R G Q p w :
  (∀ v, R v v) → safe R G self Q p (k_view w) →
  (∀ p w, Q p (k_view w) → passes (Cfg w p NoChild)) → passes (Cfg w p NoChild).
Proof.
  intros HR Hs HQ. revert w Hs. induction p as [code|c k IH|ch IHch k IHk|pid k IH|]; intros w Hs; simpl in Hs; try by apply HQ, Hs.
  apply passes_call. intros a w' Hp. destruct (Hs _ (HR _) a _ Hp) as [_ Hk]. by apply IH.
Qed.

(** Two programs together, until the first waits for the second. *)
Section par.
Context (R1 G1 R2 G2 : view → view → Prop) (pid : Z) (Q1 Q2 : prog → view → Prop).
Context `{!Reflexive R1, !Transitive R1, !Reflexive R2, !Transitive R2}.
Context (HG1 : ∀ v v', G1 v v' → R2 v v') (HG2 : ∀ v v', G2 v v' → R1 v v').
Context (HQ1 : ∀ p v, Q1 p v → ∃ k, p = Waitpid pid k).
Context (HQ2 : ∀ p v, Q2 p v → ∃ code, p = Exit code).
Context (Hjoin : ∀ k code w, Q1 (Waitpid pid k) (k_view w) → Q2 (Exit code) (k_view w) → passes (Cfg w (k pid (Some code)) NoChild)).

Definition child_safe (ch : child) (v : view) : Prop :=
  match ch with
  | NoChild => False
  | Running x p => x = pid ∧ safe R2 G2 pid Q2 p v
  | Exited x code => x = pid ∧ ∀ v', R2 v v' → Q2 (Exit code) v'
  end.

Lemma child_safe_rely ch v v' : child_safe ch v → R2 v v' → child_safe ch v'.
Proof using All.
  intros Hc Hr. destruct ch as [|x p|x code]; simpl in *; [done| |].
  - destruct Hc as [-> Hs]. split; [done|]. by eapply safe_rely.
  - destruct Hc as [-> Hs]. split; [done|]. intros u Hu. apply Hs. by trans v'.
Qed.

(** The child alone, while the process waits. *)
Lemma passes_wait k ch w :
  (∀ v', R1 (k_view w) v' → Q1 (Waitpid pid k) v') → child_safe ch (k_view w) → passes (Cfg w (Waitpid pid k) ch).
Proof using All.
  intros H1 Hc. destruct ch as [|x p|x code]; simpl in Hc; [done| |].
  - destruct Hc as [-> Hs]. revert w H1 Hs. induction p as [code|c k' IH|? ? k' IHk|? k' IH|]; intros w H1 Hs; simpl in Hs;
      try (by destruct (HQ2 _ _ (Hs _ (reflexivity _)))).
    + assert (passes (Cfg w (Waitpid pid k) (Exited pid code))) as Hw.
      { apply ps_step; [eexists; by constructor|]. intros y Hy. inversion Hy; subst. apply Hjoin; [by apply H1|by apply Hs]. }
      apply ps_step; [eexists; by constructor|]. intros y Hy. by inversion Hy; subst.
    + apply ps_step.
      * destruct (k_returns pid c w) as (a & w' & Hc). eexists. by apply st_child.
      * intros y Hy. inversion Hy; subst. destruct (Hs _ (reflexivity _) a _ (k_posix _ _ _ _ _ ltac:(eassumption))) as [Hg Hk].
        apply IH; [|done]. intros v' Hv. apply H1. trans (k_view w'); [by apply HG2|done].
  - destruct Hc as [-> Hs]. apply ps_step; [eexists; by constructor|]. intros y Hy. inversion Hy; subst. apply Hjoin; [by apply H1|by apply Hs].
Qed.

Lemma passes_par p1 ch w :
  safe R1 G1 self Q1 p1 (k_view w) → child_safe ch (k_view w) → passes (Cfg w p1 ch).
Proof using All.
  revert ch w. induction p1 as [code|c k IH|? ? k IH|x k IH|]; intros ch w H1; simpl in H1;
    try (by destruct (HQ1 _ _ (H1 _ (reflexivity _)))).
  - intros Hc. assert (∃ y, run_step (Cfg w (Sys c k) ch) y) as Hex.
    { destruct (k_returns self c w) as (a & w' & Hcl). eexists. by apply st_main. }
    assert (∀ a w' ch, k_call self c w a w' → child_safe ch (k_view w) → passes (Cfg w' (k a) ch)) as Hmain.
    { intros a w' ch' Hcl Hc'. destruct (H1 _ (reflexivity _) a _ (k_posix _ _ _ _ _ Hcl)) as [Hg Hk].
      apply IH; [done|]. eapply child_safe_rely; [done|by apply HG1]. }
    destruct ch as [|x p|x code]; [done| |].
    + destruct Hc as [-> Hs]. revert w H1 Hex Hmain Hs. induction p as [code|c2 k' IH2|? ? k' IHk|? k' IH2|]; intros w H1 Hex Hmain Hs;
        try (by destruct (HQ2 _ _ (Hs _ (reflexivity _)))).
      * apply ps_step; [done|]. intros y Hy. inversion Hy; subst; [by apply (Hmain a w')|].
        apply ps_step; [destruct (k_returns self c w) as (a & w' & Hcl); eexists; by apply st_main|].
        intros y Hy2. inversion Hy2; subst. apply (Hmain a w'); [done|]. by split.
      * apply ps_step; [done|]. intros y Hy. inversion Hy; subst; [by apply (Hmain a w')|].
        destruct (Hs _ (reflexivity _) a _ (k_posix _ _ _ _ _ ltac:(eassumption))) as [Hg Hk]. apply HG2 in Hg.
        assert (safe R1 G1 self Q1 (Sys c k) (k_view w')) as H1' by (eapply (safe_rely R1 G1 self Q1 (Sys c k)); [done|exact H1|done]).
        apply IH2; [exact H1'| | |done].
        -- destruct (k_returns self c w') as (a' & w'' & Hcl). eexists. by apply st_main.
        -- intros a' w'' ch' Hcl Hc'. destruct (H1' _ (reflexivity _) a' _ (k_posix _ _ _ _ _ Hcl)) as [Hg' Hk'].
           apply IH; [done|]. eapply child_safe_rely; [done|by apply HG1].
    + apply ps_step; [done|]. intros y Hy. inversion Hy; subst. by apply (Hmain a w').
  - intros Hc. destruct (HQ1 _ _ (H1 _ (reflexivity _))) as [k' [= -> ->]]. by apply passes_wait.
Qed.
End par.
End runs.

(** * Processes that own their files *)
Section owners.
Context (place : string → fpath) (q : Z) (own : fpath → Prop).

(** What the others leave alone, and what the process leaves alone. *)
Definition rely (v v' : view) : Prop :=
  dirs v' = dirs v ∧ (∀ p, own p → files v' !! p = files v !! p) ∧ (∀ fd, fds v' !! (q, fd) = fds v !! (q, fd)).

Definition guar (v v' : view) : Prop :=
  dirs v' = dirs v ∧ (∀ p, ¬ own p → files v' !! p = files v !! p) ∧ (∀ x fd, x ≠ q → fds v' !! (x, fd) = fds v !! (x, fd)).

#[export] Instance rely_refl : Reflexive rely.
Proof. intros v. by split_and!. Qed.

#[export] Instance rely_trans : Transitive rely.
Proof.
  intros v1 v2 v3 (A1 & A2 & A3) (B1 & B2 & B3).
  split_and!; [by rewrite B1|intros p Hp; by rewrite B2, A2|intros fd; by rewrite B3].
Qed.

(** The process's own part of the file system: the directories [D], its files as
    in [F] and its open files [O]. *)
Record sees (v : view) (D : gset fpath) (F : gmap fpath (list Z)) (O : gmap Z (fpath * Z * bool)) : Prop := {
  se_dirs : dirs v = D;
  se_files : ∀ p, own p → files v !! p = F !! p;
  se_fds : ∀ fd, fds v !! (q, fd) = O !! fd }.

Lemma sees_rely v v' D F O : sees v D F O → rely v v' → sees v' D F O.
Proof.
  intros [A B C] (D1 & D2 & D3). split; [congruence|intros p Hp; by rewrite D2, B|intros fd; by rewrite D3].
Qed.

Lemma guar_refl v : guar v v.
Proof. by split_and!. Qed.

Lemma guar_upd v D F' O' :
  dirs v = D → (∀ p, ¬ own p → F' !! p = files v !! p) → (∀ x fd, x ≠ q → O' !! (x, fd) = fds v !! (x, fd)) →
  guar v (View D F' O').
Proof. intros. by split_and!. Qed.

Lemma sees_upd v D F O p x fd y :
  sees v D F O → sees (View D (<[p := x]> (files v)) (<[(q, fd) := y]> (fds v))) D (<[p := x]> F) (<[fd := y]> O).
Proof.
  intros [A B C]. split; simpl; [done| |].
  - intros p' Hp. rewrite !lookup_insert. case_decide; [done|by apply B].
  - intros fd'. rewrite !lookup_insert. repeat case_decide; simplify_eq; [done..|by apply C].
Qed.

Lemma guar_upd_own v D p x fd y : dirs v = D → own p → guar v (View D (<[p := x]> (files v)) (<[(q, fd) := y]> (fds v))).
Proof.
  intros HD Hp. apply guar_upd; [done|intros p' Hp'; rewrite lookup_insert_ne by (by intros ->); done|].
  intros z fd' Hz. rewrite lookup_insert_ne by congruence. done.
Qed.
End owners.

Lemma guar_rely q q' own own' v v' : guar q own v v' → q ≠ q' → (∀ p, own' p → ¬ own p) → rely q' own' v v'.
Proof. intros (G1 & G2 & G3) Hq Ho. split_and!; [done|intros p Hp; by apply G2, Ho|intros fd; by apply G3]. Qed.

(** ** Rules for the calls *)
Section rules.
Context {W : Type} `{Kn : Kernel W} (q : Z) (own : fpath → Prop) (Q : prog → view → Prop).

(** The program is safe from where its own part is [D], [F], [O]. *)
Definition does (D : gset fpath) (F : gmap fpath (list Z)) (O : gmap Z (fpath * Z * bool)) (p : prog) : Prop :=
  ∀ v, sees q own v D F O → safe (rely q own) (guar q own) q Q p v.

Lemma does_call D F O c k :
  (∀ v a v', sees q own v D F O → posix k_place q c v a v' →
     guar q own v v' ∧ ∃ F' O', sees q own v' D F' O' ∧ does D F' O' (k a)) → does D F O (Sys c k).
Proof.
  intros Hc v Hv u Hu a u' Hp. destruct (Hc u a u') as (Hg & F' & O' & Hs & Hk); [by eapply sees_rely|done|].
  split; [done|]. by apply Hk.
Qed.

Context (D : gset fpath) (F : gmap fpath (list Z)) (O : gmap Z (fpath * Z * bool)).

Lemma does_creat n k :
  may_create D (k_place n) → own (k_place n) →
  (∀ a, 0 ≤ ret a → O !! ret a = None →
     does D (<[k_place n := []]> F) (<[ret a := (k_place n, 0, false)]> O) (k a)) → does D F O (Sys (Creat n) k).
Proof.
  intros Hd Ho Hk. apply does_call. intros v a v' Hs Hp. pose proof Hs as [S1 S2 S3]. simpl in Hp. rewrite S1 in Hp.
  destruct (Hp Hd) as (H0 & Hf & ->). rewrite S3 in Hf.
  split; [by apply guar_upd_own|]. eexists _, _. split; [by apply sees_upd|]. by apply Hk.
Qed.

Lemma does_open n fl x k :
  F !! k_place n = Some x → own (k_place n) → k_place n ∉ D →
  (∀ a, 0 ≤ ret a → O !! ret a = None →
     does D F (<[ret a := (k_place n, 0, match fl with O_WRONLY_APPEND => true | _ => false end)]> O) (k a)) →
  does D F O (Sys (Open n fl) k).
Proof.
  intros Hx Ho Hd Hk. apply does_call. intros v a v' Hs Hp. pose proof Hs as [S1 S2 S3]. simpl in Hp.
  rewrite (S2 _ Ho), Hx, S1 in Hp. destruct (Hp Hd) as (H0 & Hf & ->). rewrite S3 in Hf. split.
  - apply guar_upd; [done|done|]. intros z fd Hz. by rewrite lookup_insert_ne by congruence.
  - eexists F, _. split; [|by apply Hk]. split; simpl; [done|done|]. intros fd. rewrite !lookup_insert.
    repeat case_decide; simplify_eq; [done..|by apply S3].
Qed.

Lemma does_open_none n fl k :
  F !! k_place n = None → own (k_place n) → k_place n ∉ D → fl ≠ O_WRONLY_CREAT →
  (∀ a, ret a < 0 → does D F O (k a)) → does D F O (Sys (Open n fl) k).
Proof.
  intros Hx Ho Hd Hfl Hk. apply does_call. intros v a v' Hs Hp. pose proof Hs as [S1 S2 S3]. simpl in Hp.
  rewrite (S2 _ Ho), Hx, S1 in Hp. assert (ret a < 0 ∧ v' = v) as [H0 ->] by (destruct fl; [by apply Hp..|done]).
  split; [apply guar_refl|]. exists F, O. split; [done|by apply Hk].
Qed.

Lemma does_write fd x p off data (app : bool) k :
  O !! fd = Some (p, off, app) → F !! p = Some data → own p → 0 ≤ off →
  (∀ a, ret a = Z.of_nat (length x) →
     let off := if app then Z.of_nat (length data) else off in
     does D (<[p := store_at data (Z.to_nat off) x]> F) (<[fd := (p, off + Z.of_nat (length x), app)]> O) (k a)) →
  does D F O (Sys (Write fd x) k).
Proof.
  intros Hfd Hd Ho H0 Hk. apply does_call. intros v a v' Hs Hp. pose proof Hs as [S1 S2 S3]. simpl in Hp.
  rewrite S3, Hfd, (S2 _ Ho), Hd, S1 in Hp. destruct Hp as [Hr ->]; [destruct app; lia|].
  split; [by apply guar_upd_own|]. eexists _, _. split; [by apply sees_upd|]. by apply Hk.
Qed.

(** Only the open files of the process change. *)
Lemma does_fds (v : view) (O' : gmap Z (fpath * Z * bool)) (y : gmap (Z * Z) (fpath * Z * bool)) :
  sees q own v D F O → (∀ fd, y !! (q, fd) = O' !! fd) → (∀ x fd, x ≠ q → y !! (x, fd) = fds v !! (x, fd)) →
  guar q own v (View (dirs v) (files v) y) ∧ sees q own (View (dirs v) (files v) y) D F O'.
Proof. intros [S1 S2 S3] Hy Hx. split; [by apply guar_upd|by split]. Qed.

Lemma does_read fd n p off data (app : bool) k :
  O !! fd = Some (p, off, app) → F !! p = Some data → own p → 0 ≤ off → 0 ≤ n →
  (∀ a, bytes a = slice (Z.to_nat off) (Z.to_nat n) data → ret a = Z.of_nat (length (bytes a)) →
     does D F (<[fd := (p, off + ret a, app)]> O) (k a)) →
  does D F O (Sys (Read fd n) k).
Proof.
  intros Hfd Hd Ho H0 Hn Hk. apply does_call. intros v a v' Hs Hp. pose proof Hs as [S1 S2 S3]. simpl in Hp.
  rewrite S3, Hfd, (S2 _ Ho), Hd in Hp. destruct (Hp Hn H0) as (Hb & Hr & ->).
  destruct (does_fds v (<[fd := (p, off + ret a, app)]> O) (<[(q, fd) := (p, off + ret a, app)]> (fds v)) Hs) as [Hg Hs'].
  - intros fd'. rewrite !lookup_insert. repeat case_decide; simplify_eq; [done..|by apply S3].
  - intros x fd' Hx. by rewrite lookup_insert_ne by congruence.
  - split; [done|]. eexists _, _. split; [done|by apply Hk].
Qed.

Lemma does_lseek fd off p off' (app : bool) k :
  O !! fd = Some (p, off', app) → 0 ≤ off →
  (∀ a, ret a = off → does D F (<[fd := (p, off, app)]> O) (k a)) → does D F O (Sys (Lseek fd off) k).
Proof.
  intros Hfd H0 Hk. apply does_call. intros v a v' Hs Hp. pose proof Hs as [S1 S2 S3]. simpl in Hp.
  rewrite S3, Hfd in Hp. destruct (Hp H0) as (Hr & ->).
  destruct (does_fds v (<[fd := (p, off, app)]> O) (<[(q, fd) := (p, off, app)]> (fds v)) Hs) as [Hg Hs'].
  - intros fd'. rewrite !lookup_insert. repeat case_decide; simplify_eq; [done..|by apply S3].
  - intros x fd' Hx. by rewrite lookup_insert_ne by congruence.
  - split; [done|]. eexists _, _. split; [done|by apply Hk].
Qed.

Lemma does_close fd y k :
  O !! fd = Some y → (∀ a, ret a = 0 → does D F (delete fd O) (k a)) → does D F O (Sys (Close fd) k).
Proof.
  intros Hfd Hk. apply does_call. intros v a v' Hs Hp. pose proof Hs as [S1 S2 S3]. simpl in Hp.
  rewrite S3, Hfd in Hp. destruct Hp as (Hr & ->); [done|].
  destruct (does_fds v (delete fd O) (delete (q, fd) (fds v)) Hs) as [Hg Hs'].
  - intros fd'. rewrite !lookup_delete. repeat case_decide; simplify_eq; [done..|by apply S3].
  - intros x fd' Hx. by rewrite lookup_delete_ne by congruence.
  - split; [done|]. eexists _, _. split; [done|by apply Hk].
Qed.

Lemma does_fsync fd k :
  is_Some (O !! fd) → (∀ a, ret a = 0 → does D F O (k a)) → does D F O (Sys (Fsync fd) k).
Proof.
  intros Hfd Hk. apply does_call. intros v a v' Hs Hp. pose proof Hs as [S1 S2 S3]. simpl in Hp. rewrite S3 in Hp.
  destruct (Hp Hfd) as [Hr ->]. split; [apply guar_refl|]. exists F, O. split; [done|by apply Hk].
Qed.

Lemma does_sleep n k : (∀ a, does D F O (k a)) → does D F O (Sys (Sleep n) k).
Proof.
  intros Hk. apply does_call. intros v a v' Hs Hp. simpl in Hp. subst v'. split; [apply guar_refl|]. exists F, O. by split.
Qed.

Lemma does_unlink n k :
  is_Some (F !! k_place n) → own (k_place n) →
  (∀ a, ret a = 0 → does D (delete (k_place n) F) O (k a)) → does D F O (Sys (Unlink n) k).
Proof.
  intros Hn Ho Hk. apply does_call. intros v a v' Hs Hp. pose proof Hs as [S1 S2 S3]. simpl in Hp. rewrite (S2 _ Ho) in Hp.
  destruct (Hp Hn) as [Hr ->]. split.
  - apply guar_upd; [done| |done]. intros p Hno. by rewrite lookup_delete_ne by (by intros <-).
  - eexists (delete (k_place n) F), O. split; [|by apply Hk]. split; simpl; [done| |done]. intros p Hp'. rewrite !lookup_delete.
    case_decide; [done|by apply S2].
Qed.

(** The listing of a directory all of whose files the process owns. *)
Lemma does_listdir n k :
  k_place n ∈ D → (∀ s, own (k_place n ++ [s])) →
  (∀ a, ret a ≠ 0 → NoDup (names a) →
     (∀ s, s ∈ names a ↔ s = "." ∨ s = ".." ∨ k_place n ++ [s] ∈ D ∨ is_Some (F !! (k_place n ++ [s]))) → does D F O (k a)) →
  does D F O (Sys (Listdir n) k).
Proof.
  intros Hn Ho Hk. apply does_call. intros v a v' Hs Hp. pose proof Hs as [S1 S2 S3]. simpl in Hp. rewrite S1 in Hp.
  destruct (Hp Hn) as (Hr & Hd & -> & Hall). split; [apply guar_refl|]. exists F, O. split; [done|]. apply Hk; [done|done|].
  intros s. rewrite Hall. unfold entry_of. by rewrite S1, S2 by done.
Qed.

Lemma does_end p : (∀ v, sees q own v D F O → Q p v) → (∀ c k, p ≠ Sys c k) → does D F O p.
Proof. intros HQ Hp v Hv. destruct p; simpl; try (intros u Hu; by eapply HQ, sees_rely). by destruct (Hp c k). Qed.
End rules.

(** * A kernel that keeps the laws *)

(** Paths are relative; the first component is the mount, and all mounts show the
    same file system. *)
Fixpoint split_path (s : string) : list string :=
  match s with
  | EmptyString => [EmptyString]
  | String c s =>
      if bool_decide (c = "/"%char) then EmptyString :: split_path s
      else match split_path s with x :: l => String c x :: l | [] => [] end
  end.

Definition ex_place (s : string) : fpath := tail (split_path s).

Lemma split_path_nil s : split_path s ≠ [].
Proof. induction s as [|c s IH]; simpl; [done|]. case_bool_decide; [done|]. by destruct (split_path s). Qed.

Lemma split_path_one s : no_slash s → split_path s = [s].
Proof.
  unfold no_slash. induction s as [|c s IH]; [done|]. simpl. rewrite not_elem_of_cons. intros [Hc Hs].
  rewrite bool_decide_false by congruence. by rewrite IH.
Qed.

Lemma split_path_below d s : no_slash s → split_path (d +:+ "/" +:+ s) = split_path d ++ [s].
Proof.
  intros Hs. induction d as [|c d IH]; simpl.
  - by rewrite split_path_one.
  - case_bool_decide; [by rewrite IH|]. rewrite IH. pose proof (split_path_nil d). by destruct (split_path d).
Qed.

(** The smallest free file descriptor is not looked for; any free one will do. *)
Definition ex_fd (q : Z) (v : view) : Z := Z.of_nat (fresh (set_map (λ k : Z * Z, Z.to_nat k.2) (dom (fds v)) : gset nat)).

Lemma ex_fd_free q v : 0 ≤ ex_fd q v ∧ fds v !! (q, ex_fd q v) = None.
Proof.
  split; [unfold ex_fd; lia|]. apply not_elem_of_dom. intros Hin.
  apply (is_fresh (set_map (λ k : Z * Z, Z.to_nat k.2) (dom (fds v)) : gset nat)). apply elem_of_map.
  exists (q, ex_fd q v). split; [|done]. unfold ex_fd. simpl. by rewrite Nat2Z.id.
Qed.

Definition ex_names (v : view) (d : fpath) : gset string :=
  {["."]} ∪ {[".."]} ∪
  set_omap (λ p : fpath, s ← last p; if decide (p = d ++ [s]) then Some s else None) (dirs v ∪ dom (files v)).

Lemma elem_of_ex_names v d s : s ∈ ex_names v d ↔ s = "." ∨ s = ".." ∨ entry_of v d s.
Proof.
  unfold ex_names, entry_of. rewrite !elem_of_union, !elem_of_singleton, elem_of_set_omap. 
  assert ((∃ p, p ∈ dirs v ∪ dom (files v) ∧ (s' ← last p; if decide (p = d ++ [s']) then Some s' else None) = Some s) ↔
    d ++ [s] ∈ dirs v ∨ is_Some (files v !! (d ++ [s]))) as ->; [|tauto]. split.
  - intros (p & Hp & Hs). apply bind_Some in Hs as (s' & Hl & Hs). case_decide as Hd; [|done]. injection Hs as ->. subst p.
    apply elem_of_union in Hp as [?|?%elem_of_dom]; [by left|by right].
  - intros Hp. exists (d ++ [s]). split; [apply elem_of_union; destruct Hp; [by left|right; by apply elem_of_dom]|].
    rewrite last_snoc. simpl. by rewrite decide_True.
Qed.

Definition answered (r : Z) : answer := Ans r 0 [] [].

(** The file descriptors of a process, as those of another. *)
Definition exchange (a b : Z) (k : Z * Z) : Z * Z := (if decide (k.1 = a) then b else if decide (k.1 = b) then a else k.1, k.2).

Lemma exchange_twice a b k : exchange a b (exchange a b k) = k.
Proof. destruct k as [x fd]. unfold exchange. simpl. repeat case_decide; simplify_eq; done. Qed.

#[export] Instance exchange_inj a b : Inj (=) (=) (exchange a b).
Proof. intros k k' E%(f_equal (exchange a b)). by rewrite !exchange_twice in E. Qed.

(** One call, as the description says; -1 where it says nothing. *)
Definition ex_call (q : Z) (c : call) (v : view) : answer * view :=
  let open p app F := (answered (ex_fd q v), View (dirs v) F (<[(q, ex_fd q v) := (p, 0, app)]> (fds v))) in
  let failed := (answered (-1), v) in
  match c with
  | Creat n => open (ex_place n) false (<[ex_place n := []]> (files v))
  | Open n fl =>
      match files v !! ex_place n, fl with
      | Some _, O_WRONLY_APPEND => open (ex_place n) true (files v)
      | Some _, _ => open (ex_place n) false (files v)
      | None, O_WRONLY_CREAT => open (ex_place n) false (<[ex_place n := []]> (files v))
      | None, _ => failed
      end
  | Write fd x =>
      match fds v !! (q, fd) with
      | Some (p, off, app) =>
          match files v !! p with
          | Some data =>
              let off := if app : bool then Z.of_nat (length data) else off in
              (answered (Z.of_nat (length x)),
               View (dirs v) (<[p := store_at data (Z.to_nat off) x]> (files v))
                 (<[(q, fd) := (p, off + Z.of_nat (length x), app)]> (fds v)))
          | None => failed
          end
      | None => failed
      end
  | Read fd n =>
      match fds v !! (q, fd) with
      | Some (p, off, app) =>
          match files v !! p with
          | Some data =>
              let x := slice (Z.to_nat off) (Z.to_nat n) data in
              (Ans (Z.of_nat (length x)) 0 x [],
               View (dirs v) (files v) (<[(q, fd) := (p, off + Z.of_nat (length x), app)]> (fds v)))
          | None => failed
          end
      | None => failed
      end
  | Lseek fd off =>
      match fds v !! (q, fd) with
      | Some (p, _, app) => (answered off, View (dirs v) (files v) (<[(q, fd) := (p, off, app)]> (fds v)))
      | None => failed
      end
  | Fsync _ | Access _ | Sleep _ => (answered 0, v)
  | Close fd => (answered 0, View (dirs v) (files v) (delete (q, fd) (fds v)))
  | Unlink n => (answered 0, View (dirs v) (delete (ex_place n) (files v)) (fds v))
  | Mkdir n => (answered 0, View ({[ex_place n]} ∪ dirs v) (files v) (fds v))
  | Listdir n => (Ans 1 0 [] (elements (ex_names v (ex_place n))), v)
  | Forked =>
      let pid := Z.abs q + 1 in
      (answered pid,
       View (dirs v) (files v)
         (kmap (exchange q pid) (filter (λ e, e.1.1 = q) (fds v)) ∪ filter (λ e, e.1.1 ≠ pid) (fds v)))
  end.

Lemma ex_forked (q pid x fd : Z) (m : gmap (Z * Z) (fpath * Z * bool)) :
  pid ≠ q →
  (kmap (exchange q pid) (filter (λ e, e.1.1 = q) m) ∪ filter (λ e, e.1.1 ≠ pid) m) !! (x, fd)
  = if decide (x = pid) then m !! (q, fd) else m !! (x, fd).
Proof.
  intros Hne. rewrite lookup_union, map_lookup_filter.
  assert (kmap (exchange q pid) (filter (λ e, e.1.1 = q) m) !! (x, fd) = if decide (x = pid) then m !! (q, fd) else None) as ->.
  { rewrite <- (exchange_twice q pid (x, fd)), (lookup_kmap (exchange q pid)), map_lookup_filter. unfold exchange. simpl.
    repeat case_decide; simplify_eq; simpl; by destruct (m !! _); simpl; rewrite ?option_guard_True, ?option_guard_False by done. }
  case_decide as Hx; simpl.
  - subst x. destruct (m !! (pid, fd)); simpl; [rewrite option_guard_False by tauto|]; by destruct (m !! (q, fd)).
  - destruct (m !! (x, fd)); simpl; [by rewrite option_guard_True|done].
Qed.

#[export] Instance ex_kernel : Kernel view := {|
  k_call q c v a v' := ex_call q c v = (a, v');
  k_view v := v;
  k_place := ex_place |}.

#[export] Instance ex_kernel_laws : KernelLaws view.
Proof.
  split.
  - intros q c v. destruct (ex_call q c v) as [a v'] eqn:E. by exists a, v'.
  - intros q c v a v'. change (k_view v) with v. change (k_view v') with v'. change (ex_call q c v = (a, v') → posix ex_place q c v a v').
    intros E. destruct (ex_fd_free q v) as [Hf Hn].
    destruct c as [n|n fl|fd x|fd n|fd off|fd|fd|n|n|n|n|n|]; simpl in *; unfold answered in *; try by simplify_eq.
    + destruct (files v !! ex_place n), fl; by simplify_eq.
    + destruct (fds v !! (q, fd)) as [[[p off] app]|]; [|done]. destruct (files v !! p); by simplify_eq.
    + destruct (fds v !! (q, fd)) as [[[p off] app]|]; [|done]. destruct (files v !! p); by simplify_eq.
    + destruct (fds v !! (q, fd)) as [[[p off'] app]|]; [|done]. by simplify_eq.
    + intros _. simplify_eq. simpl. split_and!; [done|apply NoDup_elements|done|]. intros s. rewrite elem_of_elements. apply elem_of_ex_names.
    + simplify_eq. simpl. split_and!; [lia|lia|done|done|]. intros x fd. apply ex_forked. lia.
  - intros d s Hs. change (ex_place (d +:+ "/" +:+ s) = ex_place d ++ [s]). unfold ex_place. rewrite split_path_below by done.
    pose proof (split_path_nil d). by destruct (split_path d).
Qed.
