(* ===== verification/FsTester.v ===== *)
(** The test programs of the file system, test-lab-2-a.c and test-lab-2-b.c, over
    the system calls of Posix.v.  What they print is left out.  A path that does
    not fit its buffer of 512 bytes, and a thousand-and-first name in dircheck,
    are undefined behaviour. *)
From Stdlib Require Import Ascii String.
From stdpp Require Import pretty sorting.
From S2P Require Import Prelude ExtentServer ExtentCache YfsBlock Posix.
Local Open Scope Z_scope.
Local Open Scope prog_scope.

(** * Strings *)
Definition chars (s : string) : list Z := (λ c, Z.of_nat (nat_of_ascii c)) <$> list_ascii_of_string s.

Definition strlen (s : list Z) : Z := Z.of_nat (length (c_str s)).

(** strncmp(a, b, n) == 0; past its end a string has its NUL. *)
Fixpoint strncmp_eq (n : nat) (a b : list Z) : bool :=
  match n with
  | O => true
  | S n =>
      let x := default 0 (head a) in
      if x =? default 0 (head b) then (x =? 0) || strncmp_eq n (tail a) (tail b) else false
  end.

(** sprintf into char n[512]. *)
Definition sprintf (n : string) (k : string → prog) : prog :=
  if (512 <=? String.length n)%nat then Undefined else k n.

Definition path (d f : string) : string := d +:+ "/" +:+ f.
Definition numbered (prefix : string) (i : Z) : string := prefix +:+ "-" +:+ pretty i.

(** * test-lab-2-a.c *)
Definition create1 (d f : string) (inp : list Z) (k : prog) : prog :=
  call* Sleep 1 in
  sprintf (path d f) (λ n,
  let* fd := Creat n in
  exit_if ret fd <? 0 else
  let* r := Write (ret fd) (c_str inp) in
  exit_if negb (ret r =? strlen inp) else
  let* r := Close (ret fd) in
  exit_if negb (ret r =? 0) else
  k).

(** strncmp is given the length of the path, not that of the data. *)
Definition check1 (d f : string) (inp : list Z) (k : prog) : prog :=
  sprintf (path d f) (λ n,
  let* fd := Open n O_RDONLY in
  exit_if ret fd <? 0 else
  let* cc := Read (ret fd) 20999 in
  exit_if negb (ret cc =? strlen inp) else
  call* Close (ret fd) in
  exit_if negb (strncmp_eq (String.length n) (bytes cc) inp) else
  k).

Definition unlink1 (d f : string) (k : prog) : prog :=
  call* Sleep 1 in
  sprintf (path d f) (λ n,
  let* r := Unlink n in
  exit_if negb (ret r =? 0) else
  k).

Definition checknot (d f : string) (k : prog) : prog :=
  sprintf (path d f) (λ n,
  let* fd := Open n O_RDONLY in
  exit_if 0 <=? ret fd else
  k).

Definition append1 (d f : string) (inp : list Z) (k : prog) : prog :=
  call* Sleep 1 in
  sprintf (path d f) (λ n,
  let* fd := Open n O_WRONLY_APPEND in
  exit_if ret fd <? 0 else
  let* r := Write (ret fd) (c_str inp) in
  exit_if negb (ret r =? strlen inp) else
  let* r := Close (ret fd) in
  exit_if negb (ret r =? 0) else
  k).

Definition EEXIST : Z := 17.

(** Writes n characters from offset start on, one at a time. *)
Fixpoint write1_loop (n : nat) (fd c : Z) (k : prog) : prog :=
  match n with
  | O => k
  | S n =>
      let* r := Write fd [c] in
      exit_if negb (ret r =? 1) else
      let* r := Fsync fd in
      exit_if negb (ret r =? 0) else
      write1_loop n fd c k
  end.

Definition write1_at (fd start n c : Z) (k : prog) : prog :=
  exit_if fd <? 0 else
  let* r := Lseek fd start in
  exit_if negb (ret r =? start) else
  write1_loop (Z.to_nat n) fd c (
  let* r := Close fd in
  exit_if negb (ret r =? 0) else
  k).

Definition write1 (d f : string) (start n c : Z) (k : prog) : prog :=
  call* Sleep 1 in
  sprintf (path d f) (λ name,
  let* fd := Open name O_WRONLY_CREAT in
  if (ret fd <? 0) && (errno fd =? EEXIST) then
    let* fd := Open name O_WRONLY in write1_at (ret fd) start n c k
  else write1_at (ret fd) start n c k).

(** The n bytes from offset start on are all c. *)
Fixpoint checkread_loop (n : nat) (fd c : Z) (k : prog) : prog :=
  match n with
  | O => k
  | S n =>
      let* r := Read fd 1 in
      exit_if negb (ret r =? 1) else
      exit_if negb (default 0 (head (bytes r)) =? c) else
      checkread_loop n fd c k
  end.

Definition checkread (d f : string) (start n c : Z) (k : prog) : prog :=
  call* Sleep 1 in
  sprintf (path d f) (λ name,
  let* fd := Open name O_RDONLY in
  exit_if ret fd <? 0 else
  let* r := Lseek (ret fd) start in
  exit_if negb (ret r =? start) else
  checkread_loop (Z.to_nat n) (ret fd) c (
  call* Close (ret fd) in
  k)).

(** One file with its own number as its four bytes. *)
Definition create_numbered (n : string) (i : Z) (possible_dup : bool) (k : prog) : prog :=
  let* fd := Creat n in
  if (ret fd <? 0) && possible_dup && (errno fd =? EEXIST) then k
  else
    exit_if ret fd <? 0 else
    let* r := Write (ret fd) (le_bytes 4 i) in
    exit_if negb (ret r =? 4) else
    let* r := Close (ret fd) in
    exit_if negb (ret r =? 0) else
    k.

Fixpoint createn_loop (n : nat) (i : Z) (d prefix : string) (possible_dup : bool) (k : prog) : prog :=
  match n with
  | O => k
  | S n =>
      sprintf (path d (numbered prefix i)) (λ f,
      create_numbered f i possible_dup (createn_loop n (i + 1) d prefix possible_dup k))
  end.

Definition createn (d prefix : string) (nf : Z) (possible_dup : bool) (k : prog) : prog :=
  call* Sleep 1 in createn_loop (Z.to_nat nf) 0 d prefix possible_dup k.

Fixpoint checkn_loop (n : nat) (i : Z) (d prefix : string) (k : prog) : prog :=
  match n with
  | O => k
  | S n =>
      sprintf (path d (numbered prefix i)) (λ f,
      let* fd := Open f O_RDONLY in
      exit_if ret fd <? 0 else
      let* cc := Read (ret fd) 4 in
      exit_if negb (ret cc =? 4) else
      exit_if negb (s32 (le_val (bytes cc)) =? i) else
      call* Close (ret fd) in
      checkn_loop n (i + 1) d prefix k)
  end.

Definition checkn (d prefix : string) (nf : Z) (k : prog) : prog := checkn_loop (Z.to_nat nf) 0 d prefix k.

Fixpoint unlinkn_loop (n : nat) (i : Z) (d prefix : string) (k : prog) : prog :=
  match n with
  | O => k
  | S n =>
      sprintf (path d (numbered prefix i)) (λ f,
      let* r := Unlink f in
      exit_if negb (ret r =? 0) else
      unlinkn_loop n (i + 1) d prefix k)
  end.

Definition unlinkn (d prefix : string) (nf : Z) (k : prog) : prog :=
  call* Sleep 1 in unlinkn_loop (Z.to_nat nf) 0 d prefix k.

(** compar: strcmp of the two strings. *)
Definition compar (a b : string) : Prop := String.leb a b = true.

#[export] Instance compar_dec a b : Decision (compar a b).
Proof. unfold compar. apply _. Defined.

Fixpoint adjacent_equal (l : list string) : bool :=
  match l with
  | a :: (b :: _) as l => bool_decide (a = b) || adjacent_equal l
  | _ => false
  end.

Definition is_dot (s : string) : bool :=
  match s with String c _ => bool_decide (c = "."%char) | EmptyString => false end.

(** The names that do not begin with a dot go into char *names[1000]. *)
Definition dircheck_names (nf : Z) (dp : answer) (k : prog) : prog :=
  exit_if ret dp =? 0 else
  let l := filter (λ s, is_dot s = false) (names dp) in
  if (1000 <? length l)%nat then Undefined
  else
    exit_if negb (nf =? Z.of_nat (length l)) else
    exit_if adjacent_equal (merge_sort compar l) else
    k.

Definition dircheck (d : string) (nf : Z) (k : prog) : prog :=
  let* dp := Listdir d in dircheck_names nf dp k.

Definition reap (pid : Z) (k : prog) : prog :=
  Waitpid pid (λ wpid status,
  exit_if wpid <? 0 else
  exit_if negb (wpid =? pid) else
  match status with
  | Some code => exit_if negb (code =? 0) else k
  | None => Exit 1
  end).

Definition big : list Z := replicate 20000 120.
Definition huge : list Z := replicate 131072 48.

Definition fork (child : prog) (k : Z → prog) : prog :=
  Fork child (λ pid, exit_if pid <? 0 else k pid).

(** The parts of main, each up to its printf("OK"). *)
Section parts.
Context (d1 d2 : string).

Definition concurrent_creates (k : prog) : prog :=
  fork (createn d2 "xx" 20 false (Exit 0)) (λ pid,
  createn d1 "yy" 20 false (
  call* Sleep 10 in
  reap pid (
  dircheck d1 40 (
  checkn d1 "xx" 20 (
  checkn d2 "yy" 20 (
  unlinkn d1 "xx" 20 (
  unlinkn d1 "yy" 20 k))))))).

Definition concurrent_create_delete (k : prog) : prog :=
  createn d1 "x1" 20 false (
  createn d2 "x2" 20 false (
  fork (unlinkn d2 "x1" 20 (createn d1 "x3" 20 false (Exit 0))) (λ pid,
  createn d1 "x4" 20 false (
  reap pid (
  unlinkn d2 "x2" 20 (
  unlinkn d2 "x4" 20 (
  unlinkn d2 "x3" 20 (
  dircheck d1 0 k)))))))).

Definition create_then_read (k : prog) : prog :=
  create1 d1 "f1" (chars "aaa") (check1 d2 "f1" (chars "aaa") (check1 d1 "f1" (chars "aaa") k)).

Definition unlink_test (k : prog) : prog :=
  unlink1 d2 "f1" (
  create1 d1 "fx1" (chars "fxx") (
  unlink1 d1 "fx1" (
  checknot d1 "f1" (
  checknot d2 "f1" (
  create1 d1 "f2" (chars "222") (
  unlink1 d2 "f2" (
  checknot d1 "f2" (
  checknot d2 "f2" (
  create1 d1 "f3" (chars "333") (
  check1 d2 "f3" (chars "333") (
  check1 d1 "f3" (chars "333") (
  unlink1 d1 "f3" (
  create1 d2 "fx2" (chars "22") (
  unlink1 d2 "fx2" (
  checknot d2 "f3" (
  checknot d1 "f3" k)))))))))))))))).

Definition append_test (k : prog) : prog :=
  create1 d2 "f1" (chars "aaa") (
  append1 d1 "f1" (chars "bbb") (
  append1 d2 "f1" (chars "ccc") (
  check1 d1 "f1" (chars "aaabbbccc") (
  check1 d2 "f1" (chars "aaabbbccc") k)))).

Definition readdir_test (k : prog) : prog :=
  dircheck d1 1 (
  dircheck d2 1 (
  unlink1 d1 "f1" (
  dircheck d1 0 (
  dircheck d2 0 (
  create1 d2 "f2" (chars "aaa") (
  create1 d1 "f3" (chars "aaa") (
  dircheck d1 2 (
  dircheck d2 2 (
  unlink1 d2 "f2" (
  dircheck d2 1 (
  dircheck d1 1 (
  unlink1 d2 "f3" (
  dircheck d1 0 (
  dircheck d2 0 k)))))))))))))).

Definition many_creates (k : prog) : prog :=
  createn d1 "aa" 10 false (
  createn d2 "bb" 10 false (
  dircheck d2 20 (
  checkn d2 "bb" 10 (
  checkn d2 "aa" 10 (
  checkn d1 "aa" 10 (
  checkn d1 "bb" 10 (
  unlinkn d1 "aa" 10 (
  unlinkn d2 "bb" 10 k)))))))).

Definition write_20000 (k : prog) : prog :=
  create1 d1 "bf" big (check1 d1 "bf" big (check1 d2 "bf" big (unlink1 d1 "bf" k))).

Definition same_file (k : prog) : prog :=
  fork (createn d2 "zz" 20 true (Exit 0)) (λ pid,
  createn d1 "zz" 20 true (
  call* Sleep 4 in
  dircheck d1 20 (
  reap pid (
  checkn d1 "zz" 20 (
  checkn d2 "zz" 20 (
  unlinkn d1 "zz" 20 k)))))).

Definition same_file_same_server (k : prog) : prog :=
  fork (createn d1 "zz" 20 true (Exit 0)) (λ pid,
  createn d1 "zz" 20 true (
  call* Sleep 2 in
  dircheck d1 20 (
  reap pid (
  checkn d1 "zz" 20 (
  unlinkn d1 "zz" 20 k))))).

Definition concurrent_writes (k : prog) : prog :=
  create1 d1 "www" huge (
  fork (write1 d2 "www" 65536 64 50 (Exit 0)) (λ pid,
  write1 d1 "www" 0 64 49 (
  reap pid (
  checkread d1 "www" 0 64 49 (
  checkread d2 "www" 0 64 49 (
  checkread d1 "www" 65536 64 50 (
  checkread d2 "www" 65536 64 50 k))))))).
End parts.

Definition main_a (pid : Z) (argv : list string) : prog :=
  match argv with
  | [_; a1; a2] =>
      sprintf (path a1 ("d" +:+ pretty pid)) (λ d1,
      let* r := Mkdir d1 in
      exit_if negb (ret r =? 0) else
      sprintf (path a2 ("d" +:+ pretty pid)) (λ d2,
      let* r := Access d2 in
      exit_if negb (ret r =? 0) else
      concurrent_creates d1 d2 (
      concurrent_create_delete d1 d2 (
      create_then_read d1 d2 (
      unlink_test d1 d2 (
      append_test d1 d2 (
      readdir_test d1 d2 (
      many_creates d1 d2 (
      write_20000 d1 d2 (
      concurrent_creates d1 d2 (
      same_file d1 d2 (
      concurrent_create_delete d1 d2 (
      same_file_same_server d1 (
      concurrent_writes d1 d2 (
      Exit 0)))))))))))))))
  | _ => Exit 1
  end.

(** * test-lab-2-b.c *)
Module LabB.
Fixpoint createn_b_loop (n : nat) (i : Z) (d prefix : string) (k : prog) : prog :=
  match n with
  | O => k
  | S n =>
      sprintf (path d (numbered prefix i)) (λ f,
      let* fd := Creat f in
      exit_if ret fd <? 0 else
      let* r := Write (ret fd) (le_bytes 4 i) in
      exit_if negb (ret r =? 4) else
      let* r := Close (ret fd) in
      exit_if negb (ret r =? 0) else
      createn_b_loop n (i + 1) d prefix k)
  end.

Definition createn_b (d prefix : string) (nf : Z) (k : prog) : prog :=
  call* Sleep 1 in createn_b_loop (Z.to_nat nf) 0 d prefix k.

Definition main_b (pid : Z) (argv : list string) : prog :=
  match argv with
  | [_; a1; a2] =>
      sprintf (path a1 ("da" +:+ pretty pid)) (λ d1,
      let* r := Mkdir d1 in
      exit_if negb (ret r =? 0) else
      sprintf (path a2 ("db" +:+ pretty pid)) (λ d2,
      let* r := Mkdir d2 in
      exit_if negb (ret r =? 0) else
      sprintf (path a2 ("da" +:+ pretty pid)) (λ dd,
      let* r := Access dd in
      exit_if negb (ret r =? 0) else
      fork (createn_b d2 "xx" 100 (unlinkn d2 "xx" 99 (Exit 0))) (λ pid,
      createn_b d1 "yy" 100 (
      unlinkn d1 "yy" 99 (
      call* Sleep 4 in
      reap pid (
      dircheck d1 1 (
      dircheck d2 1 (
      Exit 0)))))))))
  | _ => Exit 1
  end.
End LabB.
