(* ===== verification/FsTesterSpec.v ===== *)
(** The test programs pass on every kernel that keeps its promises (Posix.v),
    however the two processes of a test are scheduled. *)
From Stdlib Require Import Ascii String Sorted.
From stdpp Require Import pretty sorting.
From S2P Require Import Prelude ExtentServer ExtentCache YfsBlock Posix FsTester.
Local Open Scope Z_scope.

(** * Names *)
Lemma no_slash_app s t : no_slash s → no_slash t → no_slash (s +:+ t).
Proof.
  intros Hs Ht. unfold no_slash. assert (list_ascii_of_string (s +:+ t) = list_ascii_of_string s ++ list_ascii_of_string t) as ->.
  { clear. induction s as [|c s IH]; [done|]. simpl. by rewrite <- IH. }
  by apply not_elem_of_app.
Qed.

Lemma no_slash_cons c s : c ≠ "/"%char → no_slash s → no_slash (String c s).
Proof. intros Hc Hs. unfold no_slash. simpl. apply not_elem_of_cons. split; [congruence|done]. Qed.

Lemma no_slash_pretty_N x s : no_slash s → no_slash (pretty_N_go x s).
Proof.
  revert s. induction (N.lt_wf_0 x) as [x _ IH]; intros s Hs. destruct (decide (0 < x)%N) as [Hx|Hx].
  - rewrite pretty_N_go_step by done. apply IH; [by apply N.div_lt|]. apply no_slash_cons; [|done].
    unfold pretty_N_char. by repeat case_match.
  - assert (x = 0%N) as -> by lia. by rewrite pretty_N_go_0.
Qed.

Lemma no_slash_pretty (i : Z) : no_slash (pretty i).
Proof.
  assert (∀ n : N, no_slash (pretty n)) as Hn.
  { intros n. unfold pretty, pretty_N. case_decide; [by_vm|]. apply no_slash_pretty_N. by_vm. }
  destruct i as [|p|p]; simpl; [by_vm|apply Hn|]. apply (no_slash_app "-"); [by_vm|apply Hn].
Qed.

Lemma no_slash_numbered prefix i : no_slash prefix → no_slash (numbered prefix i).
Proof.
  intros Hp. unfold numbered. apply no_slash_app; [done|]. apply no_slash_cons; [done|apply no_slash_pretty].
Qed.

Lemma numbered_inj prefix i j : numbered prefix i = numbered prefix j → i = j.
Proof.
  unfold numbered. intros H. apply (inj (String.append prefix)) in H. injection H as H. by apply (inj pretty).
Qed.

Lemma string_length_app s t : String.length (s +:+ t) = (String.length s + String.length t)%nat.
Proof. induction s as [|c s IH]; simpl; [done|]. by rewrite IH. Qed.

(** * The numbered files of a directory *)
Definition nth_file (dp : fpath) (prefix : string) (j : Z) : fpath := dp ++ [numbered prefix j].

Definition keys (dp : fpath) (prefix : string) (i : Z) (n : nat) : list fpath :=
  nth_file dp prefix <$> seqZ i (Z.of_nat n).

Lemma nth_file_inj dp prefix i j : nth_file dp prefix i = nth_file dp prefix j → i = j.
Proof. unfold nth_file. intros [= H]%(inj (dp ++.)). by eapply numbered_inj. Qed.

Lemma elem_of_keys dp prefix i n p :
  p ∈ keys dp prefix i n ↔ ∃ j, p = nth_file dp prefix j ∧ i ≤ j < i + Z.of_nat n.
Proof. unfold keys. rewrite list_elem_of_fmap. by setoid_rewrite elem_of_seqZ. Qed.

Lemma keys_S dp prefix i n : keys dp prefix i (S n) = nth_file dp prefix i :: keys dp prefix (i + 1) n.
Proof. unfold keys. rewrite seqZ_cons by lia. simpl. do 3 f_equal; lia. Qed.

(** The files with the numbered files created, or removed. *)
Fixpoint put_numbered (n : nat) (i : Z) (dp : fpath) (prefix : string) (F : gmap fpath (list Z)) : gmap fpath (list Z) :=
  match n with
  | O => F
  | S n => put_numbered n (i + 1) dp prefix (<[nth_file dp prefix i := le_bytes 4 i]> F)
  end.

Fixpoint del_numbered (n : nat) (i : Z) (dp : fpath) (prefix : string) (F : gmap fpath (list Z)) : gmap fpath (list Z) :=
  match n with
  | O => F
  | S n => del_numbered n (i + 1) dp prefix (delete (nth_file dp prefix i) F)
  end.

Lemma put_out n i dp prefix F p : p ∉ keys dp prefix i n → put_numbered n i dp prefix F !! p = F !! p.
Proof.
  revert i F. induction n as [|n IH]; intros i F; [done|]. rewrite keys_S, not_elem_of_cons. intros [Hne Hp]. simpl.
  rewrite IH by done. by rewrite lookup_insert_ne.
Qed.

Lemma put_in n i dp prefix F j :
  i ≤ j < i + Z.of_nat n → put_numbered n i dp prefix F !! nth_file dp prefix j = Some (le_bytes 4 j).
Proof.
  revert i F. induction n as [|n IH]; intros i F Hj; [lia|]. cbn [put_numbered]. destruct (decide (j = i)) as [->|Hne].
  - rewrite put_out; [by rewrite lookup_insert_eq|]. intros (j & E%nth_file_inj & ?)%elem_of_keys. lia.
  - apply IH. lia.
Qed.

Lemma del_out n i dp prefix F p : p ∉ keys dp prefix i n → del_numbered n i dp prefix F !! p = F !! p.
Proof.
  revert i F. induction n as [|n IH]; intros i F; [done|]. rewrite keys_S, not_elem_of_cons. intros [Hne Hp]. simpl.
  rewrite IH by done. by rewrite lookup_delete_ne.
Qed.

Lemma del_in n i dp prefix F p : p ∈ keys dp prefix i n → del_numbered n i dp prefix F !! p = None.
Proof.
  revert i F. induction n as [|n IH]; intros i F; [by intros ?%elem_of_nil|]. rewrite keys_S, elem_of_cons. cbn [del_numbered].
  intros [->|Hp]; [|by apply IH]. destruct (decide (nth_file dp prefix i ∈ keys dp prefix (i + 1) n)); [by apply IH|].
  rewrite del_out by done. apply lookup_delete_eq.
Qed.

Lemma put_some n i dp prefix F p : p ∈ keys dp prefix i n → is_Some (put_numbered n i dp prefix F !! p).
Proof. intros (j & -> & Hj)%elem_of_keys. rewrite put_in by done. by eexists. Qed.

Lemma del_put n i dp prefix F :
  (∀ p, p ∈ keys dp prefix i n → F !! p = None) → del_numbered n i dp prefix (put_numbered n i dp prefix F) = F.
Proof.
  intros HF. apply map_eq. intros p. destruct (decide (p ∈ keys dp prefix i n)) as [Hp|Hp].
  - rewrite del_in by done. by rewrite HF.
  - by rewrite del_out, put_out.
Qed.

(** * What each function does to the files of its process *)
Lemma store_at_all x : store_at [] 0 x = x.
Proof.
  unfold store_at. simpl. rewrite Nat.sub_0_r. unfold splice. simpl. rewrite drop_replicate, Nat.sub_diag. by rewrite app_nil_r.
Qed.

Lemma store_at_end data x : store_at data (length data) x = data ++ x.
Proof.
  unfold store_at, splice. rewrite take_app_length, drop_app_ge, drop_replicate by lia.
  replace (length data + length x - length data - (length data + length x - length data))%nat with 0%nat by lia.
  by rewrite app_nil_r.
Qed.

(** Different names have no equal neighbours, sorted or not. *)
Lemma adjacent_nodup l : NoDup l → adjacent_equal l = false.
Proof.
  induction l as [|a [|b l] IH]; intros Hd; [done|done|]. apply NoDup_cons in Hd as [Ha Hd].
  change (bool_decide (a = b) || adjacent_equal (b :: l) = false). rewrite IH by done. rewrite bool_decide_false; [done|].
  intros ->. apply Ha. by left.
Qed.

Lemma dircheck_found (l : list string) a k :
  ret a ≠ 0 → NoDup (names a) → NoDup l → (length l ≤ 1000)%nat → (∀ s, s ∈ l ↔ is_dot s = false ∧ s ∈ names a) →
  dircheck_names (Z.of_nat (length l)) a k = k.
Proof.
  intros Ha Hn Hl Hlen Hs. unfold dircheck_names. destruct (Z.eqb_spec (ret a) 0); [done|]. set (l' := filter _ (names a)). cbv zeta.
  assert (l' ≡ₚ l) as Hp.
  { apply NoDup_Permutation; [by apply NoDup_filter|done|]. intros s. unfold l'. by rewrite list_elem_of_filter, Hs. }
  rewrite (Permutation_length Hp). destruct (Nat.ltb_spec 1000 (length l)); [lia|]. rewrite Z.eqb_refl. simpl.
  rewrite adjacent_nodup; [done|]. rewrite merge_sort_Permutation, Hp. done.
Qed.

(** The entries of a directory besides its dots. *)
Lemma listed (a : answer) (l : list string) (P : string → Prop) :
  (∀ s, s ∈ names a ↔ s = "." ∨ s = ".." ∨ P s) → (∀ s, s ∈ l ↔ is_dot s = false ∧ P s) →
  ∀ s, s ∈ l ↔ is_dot s = false ∧ s ∈ names a.
Proof.
  intros Hin Hs s. rewrite Hs, Hin. split; [tauto|]. intros [Hdot [->|[->|?]]]; [done..|]. done.
Qed.

Section specs.
Context {W : Type} `{Kn : Kernel W} {Kl : KernelLaws W}.
Context (q : Z) (own : fpath → Prop) (Q : prog → view → Prop) (D : gset fpath).

Abbreviation does := (does q own Q D).

(** A path in the directory [d], for a buffer of 512 bytes. *)
Record good (d f : string) : Prop := {
  gd_slash : no_slash f;
  gd_fits : (String.length (path d f) < 512)%nat;
  gd_dir : k_place d ∈ D;
  gd_file : k_place d ++ [f] ∉ D;
  gd_own : own (k_place d ++ [f]) }.

Lemma good_place d f : good d f → k_place (path d f) = k_place d ++ [f].
Proof. intros G. apply k_below, G. Qed.

Lemma good_create d f : good d f → may_create D (k_place (path d f)).
Proof. intros G. rewrite (good_place _ _ G). split; [apply G|]. exists (k_place d), f. split; [done|apply G]. Qed.

Lemma does_sprintf F O d f k : good d f → does F O (k (path d f)) → does F O (sprintf (path d f) k).
Proof. intros G Hk. unfold sprintf. destruct (Nat.leb_spec 512 (String.length (path d f))); [|done]. pose proof (gd_fits _ _ G). lia. Qed.

(** A new file, its bytes, and the file closed again. *)
Lemma does_create_write F d f x k1 k2 k3 :
  good d f →
  (∀ a, 0 ≤ ret a → k1 a = Sys (Write (ret a) x) (k2 a)) →
  (∀ a r, ret r = Z.of_nat (length x) → k2 a r = Sys (Close (ret a)) k3) →
  (∀ r, ret r = 0 → does (<[k_place d ++ [f] := x]> F) ∅ (k3 r)) →
  does F ∅ (Sys (Creat (path d f)) k1).
Proof.
  intros G H1 H2 H3. pose proof (good_place _ _ G) as Ep. apply does_creat; [by apply good_create|rewrite Ep; apply G|].
  intros a Ha _. rewrite (H1 a Ha), Ep. eapply does_write; [apply lookup_insert_eq|apply lookup_insert_eq|apply G|lia|].
  intros r Hr. cbv zeta. rewrite (H2 a r Hr). eapply does_close; [apply lookup_insert_eq|]. intros r' Hr'.
  rewrite insert_insert_eq, insert_insert_eq, delete_insert_id by done. change (Z.to_nat 0) with 0%nat. rewrite store_at_all. by apply H3.
Qed.

Lemma does_create1 F d f inp k :
  good d f → does (<[k_place d ++ [f] := c_str inp]> F) ∅ k → does F ∅ (create1 d f inp k).
Proof.
  intros G Hk. unfold create1. apply does_sleep. intros _. apply does_sprintf; [done|].
  eapply (does_create_write F d f (c_str inp)); [done| | |].
  - intros a Ha. simpl. destruct (Z.ltb_spec (ret a) 0); [lia|done].
  - intros a r Hr. simpl. unfold strlen. rewrite Hr, Z.eqb_refl. done.
  - intros r Hr. simpl. by rewrite Hr.
Qed.

Lemma does_create_numbered F d f i dup k :
  good d f → does (<[k_place d ++ [f] := le_bytes 4 i]> F) ∅ k → does F ∅ (create_numbered (path d f) i dup k).
Proof.
  intros G Hk. unfold create_numbered. eapply (does_create_write F d f (le_bytes 4 i)); [done| | |].
  - intros a Ha. simpl. destruct (Z.ltb_spec (ret a) 0); [lia|done].
  - intros a r Hr. rewrite length_le_bytes in Hr. simpl. by rewrite Hr.
  - intros r Hr. simpl. by rewrite Hr.
Qed.

Lemma does_createn_loop n i F d prefix dup k :
  (∀ j, i ≤ j < i + Z.of_nat n → good d (numbered prefix j)) →
  does (put_numbered n i (k_place d) prefix F) ∅ k → does F ∅ (createn_loop n i d prefix dup k).
Proof.
  revert i F. induction n as [|n IH]; intros i F G Hk; [done|]. cbn [createn_loop put_numbered] in *.
  apply does_sprintf; [apply G; lia|]. apply does_create_numbered; [apply G; lia|]. apply IH; [intros j Hj; apply G; lia|done].
Qed.

Lemma does_createn nf F d prefix dup k :
  (∀ j, 0 ≤ j < nf → good d (numbered prefix j)) →
  does (put_numbered (Z.to_nat nf) 0 (k_place d) prefix F) ∅ k → does F ∅ (createn d prefix nf dup k).
Proof.
  intros G Hk. unfold createn. apply does_sleep. intros _. apply does_createn_loop; [|done]. intros j Hj. apply G. lia.
Qed.

Lemma does_createn_b_loop n i F d prefix k :
  (∀ j, i ≤ j < i + Z.of_nat n → good d (numbered prefix j)) →
  does (put_numbered n i (k_place d) prefix F) ∅ k → does F ∅ (LabB.createn_b_loop n i d prefix k).
Proof.
  revert i F. induction n as [|n IH]; intros i F G Hk; [done|]. cbn [LabB.createn_b_loop put_numbered] in *.
  apply does_sprintf; [apply G; lia|]. eapply (does_create_write F d _ (le_bytes 4 i)); [apply G; lia| | |].
  - intros a Ha. simpl. destruct (Z.ltb_spec (ret a) 0); [lia|done].
  - intros a r Hr. rewrite length_le_bytes in Hr. simpl. by rewrite Hr.
  - intros r Hr. simpl. rewrite Hr. apply IH; [intros j Hj; apply G; lia|done].
Qed.

Lemma does_createn_b nf F d prefix k :
  (∀ j, 0 ≤ j < nf → good d (numbered prefix j)) →
  does (put_numbered (Z.to_nat nf) 0 (k_place d) prefix F) ∅ k → does F ∅ (LabB.createn_b d prefix nf k).
Proof.
  intros G Hk. unfold LabB.createn_b. apply does_sleep. intros _. apply does_createn_b_loop; [|done]. intros j Hj. apply G. lia.
Qed.

Lemma does_unlink1 F d f k :
  good d f → is_Some (F !! (k_place d ++ [f])) → does (delete (k_place d ++ [f]) F) ∅ k → does F ∅ (unlink1 d f k).
Proof.
  intros G Hf Hk. unfold unlink1. apply does_sleep. intros _. apply does_sprintf; [done|].
  apply does_unlink; rewrite (good_place _ _ G); [done|apply G|]. intros a Ha. by rewrite Ha.
Qed.

Lemma does_unlinkn_loop n i F d prefix k :
  (∀ j, i ≤ j < i + Z.of_nat n → good d (numbered prefix j) ∧ is_Some (F !! nth_file (k_place d) prefix j)) →
  does (del_numbered n i (k_place d) prefix F) ∅ k → does F ∅ (unlinkn_loop n i d prefix k).
Proof.
  revert i F. induction n as [|n IH]; intros i F G Hk; [done|]. cbn [unlinkn_loop del_numbered] in *.
  destruct (G i) as [Gi Hi]; [lia|]. apply does_sprintf; [done|].
  apply does_unlink; rewrite (good_place _ _ Gi); [done|apply Gi|]. intros a Ha. rewrite Ha. apply IH; [|done].
  intros j Hj. destruct (G j) as [Gj Hj']; [lia|]. split; [done|]. rewrite lookup_delete_ne; [done|].
  intros E%nth_file_inj. lia.
Qed.

Lemma does_unlinkn nf F d prefix k :
  (∀ j, 0 ≤ j < nf → good d (numbered prefix j) ∧ is_Some (F !! nth_file (k_place d) prefix j)) →
  does (del_numbered (Z.to_nat nf) 0 (k_place d) prefix F) ∅ k → does F ∅ (unlinkn d prefix nf k).
Proof.
  intros G Hk. unfold unlinkn. apply does_sleep. intros _. apply does_unlinkn_loop; [|done]. intros j Hj. apply G. lia.
Qed.

Lemma does_checknot F d f k :
  good d f → F !! (k_place d ++ [f]) = None → does F ∅ k → does F ∅ (checknot d f k).
Proof.
  intros G Hf Hk. unfold checknot. apply does_sprintf; [done|].
  apply does_open_none; rewrite ?(good_place _ _ G); [done|apply G|apply G|done|]. intros a Ha.
  destruct (Z.leb_spec 0 (ret a)); [lia|done].
Qed.

(** An existing file, opened for reading. *)
Lemma does_open_read F d f x k :
  good d f → F !! (k_place d ++ [f]) = Some x →
  (∀ a, 0 ≤ ret a → does F {[ret a := (k_place d ++ [f], 0, false)]} (k a)) →
  does F ∅ (Sys (Open (path d f) O_RDONLY) k).
Proof.
  intros G Hf Hk. eapply does_open; rewrite ?(good_place _ _ G); [done|apply G|apply G|]. intros a Ha _. by apply Hk.
Qed.

Lemma strncmp_refl n x : strncmp_eq n x x = true.
Proof. revert x. induction n as [|n IH]; intros x; [done|]. simpl. rewrite Z.eqb_refl, IH. apply orb_true_r. Qed.

Lemma does_check1 F d f x k :
  good d f → F !! (k_place d ++ [f]) = Some x → c_str x = x → Z.of_nat (length x) < 21000 →
  does F ∅ k → does F ∅ (check1 d f x k).
Proof.
  intros G Hf Hx Hl Hk. unfold check1. apply does_sprintf; [done|]. eapply does_open_read; [done|done|]. intros a Ha.
  destruct (Z.ltb_spec (ret a) 0); [lia|]. eapply does_read; [apply lookup_insert_eq|done|apply G|lia|lia|].
  intros r Hb Hr. rewrite Hr, Hb. unfold slice, strlen. rewrite Hx, drop_0, take_ge by lia. rewrite Z.eqb_refl.
  simpl. eapply does_close; [apply lookup_insert_eq|]. intros _ _. rewrite strncmp_refl. simpl.
  by rewrite delete_insert_eq, delete_singleton_eq.
Qed.

Lemma does_append1 F d f x inp k :
  good d f → F !! (k_place d ++ [f]) = Some x →
  does (<[k_place d ++ [f] := x ++ c_str inp]> F) ∅ k → does F ∅ (append1 d f inp k).
Proof.
  intros G Hf Hk. unfold append1. apply does_sleep. intros _. apply does_sprintf; [done|].
  eapply does_open; rewrite ?(good_place _ _ G); [done|apply G|apply G|]. intros a Ha _. destruct (Z.ltb_spec (ret a) 0); [lia|].
  eapply does_write; [apply lookup_insert_eq|done|apply G|lia|]. intros r Hr. unfold strlen. rewrite Hr, Z.eqb_refl. simpl.
  eapply does_close; [apply lookup_insert_eq|]. intros r' ->. simpl. rewrite Nat2Z.id, store_at_end.
  by rewrite delete_insert_eq, delete_insert_id.
Qed.

Lemma does_checkn_loop n i F d prefix k :
  0 ≤ i → i + Z.of_nat n < 2 ^ 31 →
  (∀ j, i ≤ j < i + Z.of_nat n → good d (numbered prefix j) ∧ F !! nth_file (k_place d) prefix j = Some (le_bytes 4 j)) →
  does F ∅ k → does F ∅ (checkn_loop n i d prefix k).
Proof.
  revert i. induction n as [|n IH]; intros i H0 Hb G Hk; [done|]. cbn [checkn_loop] in *.
  destruct (G i) as [Gi Hi]; [lia|]. apply does_sprintf; [done|]. eapply does_open_read; [done|done|]. intros a Ha.
  destruct (Z.ltb_spec (ret a) 0); [lia|]. eapply does_read; [apply lookup_insert_eq|done|apply Gi|lia|lia|].
  intros r Hb' Hr. change (slice _ _ _) with (take 4 (le_bytes 4 i)) in Hb'.
  rewrite take_ge in Hb' by (by rewrite length_le_bytes). rewrite Hb', length_le_bytes in Hr. rewrite Hr, Hb', le_val_bytes.
  assert (s32 (i `mod` 2 ^ (8 * Z.of_nat 4)) = i) as ->.
  { change (2 ^ (8 * Z.of_nat 4)) with (2 ^ 32). rewrite Z.mod_small by lia. apply (swrap_small 32); lia. }
  change (Z.of_nat 4 =? 4) with true. rewrite Z.eqb_refl. simpl. eapply does_close; [apply lookup_insert_eq|]. intros _ _. rewrite delete_insert_eq, delete_singleton_eq.
  apply IH; [lia|lia|intros j Hj; apply G; lia|done].
Qed.

Lemma does_checkn nf F d prefix k :
  0 ≤ nf < 2 ^ 31 →
  (∀ j, 0 ≤ j < nf → good d (numbered prefix j) ∧ F !! nth_file (k_place d) prefix j = Some (le_bytes 4 j)) →
  does F ∅ k → does F ∅ (checkn d prefix nf k).
Proof. intros Hn G Hk. apply does_checkn_loop; [lia|lia|intros j Hj; apply G; lia|done]. Qed.

Lemma does_dircheck F d (l : list string) nf k :
  k_place d ∈ D → (∀ s, own (k_place d ++ [s])) → NoDup l → nf = Z.of_nat (length l) → (length l ≤ 1000)%nat →
  (∀ s, s ∈ l ↔ is_dot s = false ∧ (k_place d ++ [s] ∈ D ∨ is_Some (F !! (k_place d ++ [s])))) →
  does F ∅ k → does F ∅ (dircheck d nf k).
Proof.
  intros Hd Ho Hl -> Hlen Hs Hk. unfold dircheck. apply does_listdir; [done|done|]. intros a Ha Hn Hin.
  rewrite (dircheck_found l); [done|done|done|done|done|]. exact (listed a l _ Hin Hs).
Qed.
End specs.

(** * The main process *)
Section main.
Context {W : Type} `{Kn : Kernel W} {Kl : KernelLaws W} (self : Z).

(** The main process without a child, in a file system of which it sees all; at
    the end of its calls the rest of the program passes. *)
Definition finish (pr : prog) (v : view) : Prop := ∀ w : W, k_view w = v → passes self (Cfg w pr NoChild).

Definition alone (D : gset fpath) (F : gmap fpath (list Z)) (p : prog) : Prop := does self (λ _, True) finish D F ∅ p.

Lemma alone_exit D F : alone D F (Exit 0).
Proof. apply does_end; [|done]. intros v _ w _. apply ps_exit. Qed.

Lemma alone_passes D F p (w : W) : alone D F p → sees self (λ _, True) (k_view w) D F ∅ → passes self (Cfg w p NoChild).
Proof.
  intros Ha Hs. eapply (passes_alone self (rely self (λ _, True)) (guar self (λ _, True)) finish); [intros v; reflexivity|by apply Ha|].
  intros p' w' Hf. by apply Hf.
Qed.

Lemma alone_fork_gen D F c p :
  (∀ (w : W) pid, 0 < pid → pid ≠ self → dirs (k_view w) = D → files (k_view w) = F →
     (∀ fd, fds (k_view w) !! (self, fd) = None) → (∀ fd, fds (k_view w) !! (pid, fd) = None) →
     passes self (Cfg w (p pid) (Running pid c))) → alone D F (fork c p).
Proof.
  intros Hp. apply does_end; [|done]. intros v [S1 S2 S3] w <-. apply ps_step.
  - destruct (k_returns self Forked w) as (a & w' & Hc). eexists. by apply st_fork.
  - intros y Hy. inversion Hy as [| | |? ? ? a w' Hc|]; subst. pose proof (k_posix _ _ _ _ _ Hc) as (H0 & Hne & E1 & E2 & E3).
    destruct (Z.ltb_spec 0 (ret a)); [|lia]. destruct (Z.ltb_spec (ret a) 0); [lia|]. apply Hp; try done.
    + rewrite E2. apply map_eq. intros x. by apply S2.
    + intros fd. rewrite E3, decide_False by done. by rewrite S3.
    + intros fd. rewrite E3, decide_True by done. by rewrite S3.
Qed.

(** The child and the process work on different files, until the process reaps
    the child. *)
Lemma alone_fork D F F1 F2 Fj (own : fpath → Prop) `{∀ x, Decision (own x)} c p K :
  (∀ pid, does pid own (λ pr v, pr = Exit 0 ∧ sees pid own v D F2 ∅) D F ∅ c) →
  (∀ pid, does self (λ x, ¬ own x) (λ pr v, pr = reap pid K ∧ sees self (λ x, ¬ own x) v D F1 ∅) D F ∅ (p pid)) →
  (∀ x, own x → Fj !! x = F2 !! x) → (∀ x, ¬ own x → Fj !! x = F1 !! x) → alone D Fj K → alone D F (fork c p).
Proof.
  intros Hc Hp H2 H1 HK. apply alone_fork_gen. intros w pid H0 Hne E1 E2 E3 E4.
  eapply (passes_par self (rely self (λ x, ¬ own x)) (guar self (λ x, ¬ own x)) (rely pid own) (guar pid own) pid
    (λ pr v, pr = reap pid K ∧ sees self (λ x, ¬ own x) v D F1 ∅) (λ pr v, pr = Exit 0 ∧ sees pid own v D F2 ∅)).
  - intros v v' Hg. eapply guar_rely; [done|done|]. tauto.
  - intros v v' Hg. eapply guar_rely; [done|done|]. tauto.
  - intros p' v [-> _]. by eexists.
  - intros p' v [-> _]. by eexists.
  - intros k code w' [[= ->] S1] [[= ->] S2]. destruct (Z.ltb_spec pid 0); [lia|]. rewrite Z.eqb_refl. simpl.
    eapply alone_passes; [exact HK|]. destruct S1 as [A1 A2 A3], S2 as [B1 B2 B3]. split; [done| |done].
    intros x _. destruct (decide (own x)); [by rewrite B2, H2|by rewrite A2, H1].
  - apply Hp. split; [done| |done]. intros x _. by rewrite E2.
  - split; [done|]. apply Hc. split; [done| |done]. intros x _. by rewrite E2.
Qed.

Lemma does_reap q own (Q : prog → view → Prop) D F pid K :
  (∀ v, sees q own v D F ∅ → Q (reap pid K) v) → does q own Q D F ∅ (reap pid K).
Proof. intros HQ. by apply does_end. Qed.
End main.

(** * Directories of the test *)
Definition below (dp x : fpath) : Prop := take (length dp) x = dp ∧ length x = S (length dp).

#[export] Instance below_dec dp x : Decision (below dp x).
Proof. unfold below. apply _. Defined.

Lemma below_app dp s : below dp (dp ++ [s]).
Proof. split; [by rewrite take_app_length|rewrite length_app; simpl; lia]. Qed.

Lemma below_inv dp dp' s : below dp (dp' ++ [s]) → dp' = dp.
Proof.
  intros [E L]. rewrite length_app in L. simpl in L. assert (length dp' = length dp) as El by lia.
  by rewrite <- El, take_app_length in E.
Qed.

Lemma below_unique dp dp' x : below dp x → below dp' x → dp = dp'.
Proof. intros [A B] [A' B']. assert (length dp = length dp') as E by lia. rewrite E in A. congruence. Qed.

Lemma keys_below dp prefix i n x : x ∈ keys dp prefix i n → below dp x.
Proof. intros (j & -> & _)%elem_of_keys. apply below_app. Qed.

Lemma put_ext n i dp prefix F G x : F !! x = G !! x → put_numbered n i dp prefix F !! x = put_numbered n i dp prefix G !! x.
Proof.
  intros E. destruct (decide (x ∈ keys dp prefix i n)) as [(j & -> & Hj)%elem_of_keys|Hx]; [by rewrite !put_in|by rewrite !put_out].
Qed.

Lemma del_ext n i dp prefix F G x : F !! x = G !! x → del_numbered n i dp prefix F !! x = del_numbered n i dp prefix G !! x.
Proof. intros E. destruct (decide (x ∈ keys dp prefix i n)) as [Hx|Hx]; [by rewrite !del_in|by rewrite !del_out]. Qed.

(** [m + 1] files created and the first [m] of them removed: one is left. *)
Lemma one_left (m : nat) dp prefix F s :
  (∀ s, F !! (dp ++ [s]) = None) →
  is_Some (del_numbered m 0 dp prefix (put_numbered (S m) 0 dp prefix F) !! (dp ++ [s])) ↔ s = numbered prefix (Z.of_nat m).
Proof.
  intros HF. destruct (decide (dp ++ [s] ∈ keys dp prefix 0 m)) as [Hk|Hk].
  - rewrite del_in by done. split; [by intros []|]. intros ->. apply elem_of_keys in Hk as (j & E%(nth_file_inj dp prefix (Z.of_nat m)) & Hj). lia.
  - rewrite del_out by done. split.
    + intros [y Hy]. destruct (decide (dp ++ [s] ∈ keys dp prefix 0 (S m))) as [(j & E & Hj)%elem_of_keys|Hn].
      * apply (inj (dp ++.)) in E. injection E as ->. f_equal. apply dec_stable. intros Hne. apply Hk, elem_of_keys. exists j. split; [done|lia].
      * rewrite put_out, HF in Hy by done. done.
    + intros ->. apply put_some, elem_of_keys. exists (Z.of_nat m). split; [done|lia].
Qed.

Lemma pretty_short j : 0 ≤ j < 1000 → (String.length (pretty j) ≤ 3)%nat.
Proof.
  intros Hj. assert (forallb (λ j, String.length (pretty j) <=? 3)%nat (seqZ 0 1000) = true) as Hall by (vm_compute; reflexivity).
  rewrite forallb_forall in Hall. apply Nat.leb_le, Hall, list_elem_of_In, elem_of_seqZ. lia.
Qed.

Lemma path_length d f : String.length (path d f) = (String.length d + 1 + String.length f)%nat.
Proof. unfold path. rewrite !string_length_app. simpl. lia. Qed.

Lemma numbered_short prefix j : 0 ≤ j < 1000 → (String.length (numbered prefix j) ≤ String.length prefix + 4)%nat.
Proof. intros Hj%pretty_short. unfold numbered. rewrite !string_length_app. simpl. lia. Qed.

(** A file system in which every entry lies in a directory. *)
Definition tree (v : view) : Prop := ∀ d s, entry_of v d s → d ∈ dirs v.

(** A new directory of the test: it is there, and nothing is in it. *)
Record fresh_dir (D : gset fpath) (F : gmap fpath (list Z)) (dp : fpath) : Prop := {
  fd_dir : dp ∈ D;
  fd_none : ∀ s, dp ++ [s] ∉ D ∧ F !! (dp ++ [s]) = None }.

Lemma good_numbered {W} `{Kn : Kernel W} own D F d prefix j :
  fresh_dir D F (k_place d) → own (nth_file (k_place d) prefix j) → no_slash prefix →
  (String.length d + String.length prefix ≤ 500)%nat → 0 ≤ j < 1000 → good own D d (numbered prefix j).
Proof.
  intros Fd Ho Hs Hl Hj. split; [by apply no_slash_numbered| |apply Fd|apply Fd|done].
  rewrite path_length. pose proof (numbered_short prefix j Hj). lia.
Qed.

(** mkdir of a new name gives an empty directory. *)
Definition with_dir (v : view) (p : fpath) : view := View ({[p]} ∪ dirs v) (files v) (fds v).

Lemma tree_with_dir v d s : tree v → d ∈ dirs v → tree (with_dir v (d ++ [s])).
Proof.
  intros Ht Hd d' s' [H|H]; simpl in *.
  - apply elem_of_union in H as [H|H]; [|apply elem_of_union; right; apply (Ht d' s'); by left].
    apply elem_of_singleton, app_inj_tail in H as [-> _]. set_solver.
  - apply elem_of_union. right. apply (Ht d' s'). by right.
Qed.

Lemma fresh_with_dir v d s :
  tree v → ¬ entry_of v d s → fresh_dir (dirs (with_dir v (d ++ [s]))) (files v) (d ++ [s]).
Proof.
  intros Ht Hn. split; simpl; [set_solver|]. intros s'. split.
  - intros [H|H]%elem_of_union; [|apply Hn; left; apply (Ht _ s'); by left].
    apply elem_of_singleton in H. apply (f_equal length) in H. rewrite !length_app in H. simpl in H. lia.
  - apply eq_None_not_Some. intros H. apply Hn. left. apply (Ht _ s'). by right.
Qed.

Lemma fresh_kept D F dp p : fresh_dir D F dp → (∀ s, dp ++ [s] ≠ p) → fresh_dir ({[p]} ∪ D) F dp.
Proof. intros [A B] Hne. split; [set_solver|]. intros s. destruct (B s). specialize (Hne s). set_solver. Qed.

Section start.
Context {W : Type} `{Kn : Kernel W} {Kl : KernelLaws W} (self : Z).

Lemma passes_sprintf (w : W) n k :
  (String.length n < 512)%nat → passes self (Cfg w (k n) NoChild) → passes self (Cfg w (sprintf n k) NoChild).
Proof. intros Hn Hk. unfold sprintf. destruct (Nat.leb_spec 512 (String.length n)); [lia|done]. Qed.

Lemma passes_mkdir (w : W) a s k :
  k_place a ∈ dirs (k_view w) → no_slash s → ¬ entry_of (k_view w) (k_place a) s →
  (∀ r w', ret r = 0 → k_view w' = with_dir (k_view w) (k_place a ++ [s]) → passes self (Cfg w' (k r) NoChild)) →
  passes self (Cfg w (Sys (Mkdir (path a s)) k) NoChild).
Proof.
  intros Hd Hs Hn Hk. apply passes_call. intros r w' Hp. simpl in Hp. unfold path in Hp. rewrite k_below in Hp by done.
  destruct Hp as [Hr Hv].
  - split; [intros H; apply Hn; by left|]. by exists (k_place a), s.
  - apply eq_None_not_Some. intros H. apply Hn. by right.
  - by apply Hk.
Qed.

Lemma passes_access (w : W) a s k :
  no_slash s → k_place a ++ [s] ∈ dirs (k_view w) →
  (∀ r w', ret r = 0 → k_view w' = k_view w → passes self (Cfg w' (k r) NoChild)) →
  passes self (Cfg w (Sys (Access (path a s)) k) NoChild).
Proof.
  intros Hs Hd Hk. apply passes_call. intros r w' Hp. simpl in Hp. unfold path in Hp. rewrite k_below in Hp by done.
  destruct Hp as [Hr Hv]; [by left|]. by apply Hk.
Qed.
End start.

(** Both arguments of a test are mounts of one file system, which has none of the
    directories [new] of the test yet; the paths fit their buffers. *)
Record ready {W} `{Kn : Kernel W} (self : Z) (a1 a2 : string) (w : W) (new : list string) : Prop := {
  rd_same : k_place a1 = k_place a2;
  rd_root : k_place a1 ∈ dirs (k_view w);
  rd_tree : tree (k_view w);
  rd_fds : ∀ fd, fds (k_view w) !! (self, fd) = None;
  rd_new : ∀ s, s ∈ new → ¬ entry_of (k_view w) (k_place a1) s ∧ no_slash s ∧
    (String.length a1 + String.length s ≤ 490)%nat ∧ (String.length a2 + String.length s ≤ 490)%nat }.

(** * test-lab-2-b *)
Section lab_b.
Context {W : Type} `{Kn : Kernel W} {Kl : KernelLaws W} (self : Z) (D : gset fpath) (F : gmap fpath (list Z)).

Definition left_in (d prefix : string) (F : gmap fpath (list Z)) : gmap fpath (list Z) :=
  del_numbered 99 0 (k_place d) prefix (put_numbered 100 0 (k_place d) prefix F).

(** What either process does: a hundred files, and ninety-nine of them removed. *)
Lemma does_half q own (Q : prog → view → Prop) d prefix k :
  fresh_dir D F (k_place d) → (∀ s, own (k_place d ++ [s])) → no_slash prefix → (String.length d + String.length prefix ≤ 500)%nat →
  does q own Q D (left_in d prefix F) ∅ k → does q own Q D F ∅ (LabB.createn_b d prefix 100 (unlinkn d prefix 99 k)).
Proof using Kl.
  intros Fd Ho Hs Hl Hk. apply does_createn_b; [intros j Hj; eapply good_numbered; [done|apply Ho|done|done|lia]|].
  apply does_unlinkn; [|exact Hk]. intros j Hj. split; [eapply good_numbered; [done|apply Ho|done|done|lia]|].
  apply put_some, elem_of_keys. exists j. split; [done|lia].
Qed.

Lemma half_out d prefix x : ¬ below (k_place d) x → left_in d prefix F !! x = F !! x.
Proof using. intros Hx. unfold left_in. rewrite del_out, put_out; [done|by intros ?%keys_below..]. Qed.

Lemma does_one d prefix G k :
  k_place d ∈ D → (∀ s, k_place d ++ [s] ∉ D) →
  (∀ s, is_Some (G !! (k_place d ++ [s])) ↔ s = numbered prefix 99) → is_dot (numbered prefix 99) = false →
  alone self D G k → alone self D G (dircheck d 1 k).
Proof using.
  intros Hd Hn HG Hdot Hk. apply (does_dircheck _ _ _ _ _ _ [numbered prefix 99]); try done; [apply NoDup_singleton|simpl; lia|].
  intros s. rewrite list_elem_of_singleton, HG. split; [intros ->; split; [done|by right]|]. intros [_ [?|?]]; [by destruct (Hn s)|done].
Qed.

Context (d1 d2 : string) (Fd1 : fresh_dir D F (k_place d1)) (Fd2 : fresh_dir D F (k_place d2)) (Hne : k_place d1 ≠ k_place d2).
Context (L1 : (String.length d1 ≤ 495)%nat) (L2 : (String.length d2 ≤ 495)%nat).

(** The two processes together, and the two directories after them. *)
Lemma alone_halves :
  alone self D F (
    fork (LabB.createn_b d2 "xx" 100 (unlinkn d2 "xx" 99 (Exit 0))) (λ pid,
    LabB.createn_b d1 "yy" 100 (unlinkn d1 "yy" 99 (Sys (Sleep 4) (λ _,
    reap pid (dircheck d1 1 (dircheck d2 1 (Exit 0)))))))).
Proof using All.
  assert (∀ s, ¬ below (k_place d2) (k_place d1 ++ [s])) as Hb by (intros s Hb%below_inv; done).
  assert (∀ s, ¬ below (k_place d1) (k_place d2 ++ [s])) as Hb' by (intros s Hb'%below_inv; done).
  set (G := left_in d1 "yy" F). set (Fj := del_numbered 99 0 (k_place d2) "xx" (put_numbered 100 0 (k_place d2) "xx" G)).
  assert (∀ x, ¬ below (k_place d2) x → Fj !! x = G !! x) as HFj.
  { intros x Hx. unfold Fj. rewrite del_out, put_out; [done|by intros ?%keys_below..]. }
  apply (alone_fork self D F G (left_in d2 "xx" F) Fj (below (k_place d2)) _ _ (dircheck d1 1 (dircheck d2 1 (Exit 0)))).
  - intros pid. apply does_half; [done|intros s; apply below_app|by_vm|simpl; lia|]. by apply does_end.
  - intros pid. apply does_half; [done|done|by_vm|simpl; lia|]. apply does_sleep. intros _. by apply does_reap.
  - intros x Hx. unfold Fj, left_in. apply del_ext, put_ext. apply half_out. intros Hx'.
    by apply Hne, (below_unique _ _ x).
  - exact HFj.
  - assert (∀ s, G !! (k_place d2 ++ [s]) = None) as HG by (intros s; unfold G; rewrite half_out by done; apply Fd2).
    apply (does_one d1 "yy"); [apply Fd1|apply Fd1| |done|].
    { intros s. rewrite HFj by done. apply (one_left 99). apply Fd1. }
    apply (does_one d2 "xx"); [apply Fd2|apply Fd2| |done|apply alone_exit].
    intros s. by apply (one_left 99).
Qed.
End lab_b.

(** * What dircheck accepts *)
Lemma ascii_compare_N a b : Ascii.compare a b = N.compare (N_of_ascii a) (N_of_ascii b).
Proof. done. Qed.

Lemma compar_spec a s b t :
  compar (String a s) (String b t) ↔ (N_of_ascii a < N_of_ascii b)%N ∨ a = b ∧ compar s t.
Proof.
  unfold compar, String.leb. simpl. rewrite ascii_compare_N. destruct (N.compare_spec (N_of_ascii a) (N_of_ascii b)) as [E|E|E].
  - apply (f_equal ascii_of_N) in E. rewrite !ascii_N_embedding in E. subst b. split; [by right|]. intros [?|[_ ?]]; [lia|done].
  - split; [by left|done].
  - split; [done|]. intros [?|[-> _]]; lia.
Qed.

#[export] Instance compar_trans : Transitive compar.
Proof.
  intros s. induction s as [|a s IH]; intros [|b t] [|c u] H1 H2; try done. apply compar_spec in H1, H2. apply compar_spec.
  destruct H1 as [H1|[-> H1]], H2 as [H2|[-> H2]]; [left; lia|by left|by left|right; split; [done|by eapply IH]].
Qed.

#[export] Instance compar_total : Total compar.
Proof. intros s t. apply String.leb_total. Qed.

Lemma compar_antisym s t : compar s t → compar t s → s = t.
Proof. apply String.leb_antisym. Qed.

(** In a sorted list equal names are neighbours. *)
Lemma sorted_adjacent l : StronglySorted compar l → adjacent_equal l = false → NoDup l.
Proof.
  induction l as [|a [|b l] IH]; intros Hs Ha; [constructor|apply NoDup_singleton|].
  change (bool_decide (a = b) || adjacent_equal (b :: l) = false) in Ha. apply orb_false_iff in Ha as [Hab Ha].
  apply bool_decide_eq_false in Hab. apply StronglySorted_inv in Hs as [Hs Hall]. apply NoDup_cons. split; [|by apply IH].
  intros Hin. apply Hab. apply StronglySorted_inv in Hs as [_ Hb]. rewrite Forall_forall in Hall, Hb.
  apply elem_of_cons in Hin as [|Hin]; [done|]. apply compar_antisym; [apply Hall; by left|by apply Hb].
Qed.

(** * Theorems *)

(** C21.  test-lab-2-b passes: on every kernel whose calls return and do what POSIX
    says, with both arguments mounts of one file system, the test ends with exit
    code 0 whatever the schedule of its two processes: the directories can be
    made, each process creates its hundred files and removes ninety-nine, and
    dircheck finds one file in each directory. *)
Theorem lab_2_b_passes {W : Type} `{Kn : Kernel W} {Kl : KernelLaws W} (self : Z) (w : W) (pname a1 a2 : string) :
  ready self a1 a2 w ["da" +:+ pretty self; "db" +:+ pretty self] →
  passes self (Cfg w (LabB.main_b self [pname; a1; a2]) NoChild).
Proof.
  intros [R1 R2 R3 R4 R5]. set (da := "da" +:+ pretty self) in *. set (db := "db" +:+ pretty self) in *.
  destruct (R5 da) as (N1 & S1 & LA1 & LA2); [by left|]. destruct (R5 db) as (N2 & S2 & LB1 & LB2); [by right; left|].
  set (r := k_place a1) in *. assert (r ++ [da] ≠ r ++ [db]) as Hne by (intros [= ?]%(inj (r ++.))).
  unfold LabB.main_b. fold da db. apply passes_sprintf; [rewrite path_length; lia|].
  apply passes_mkdir; [done|done|done|]. fold r. intros r1 w1 -> V1. simpl. apply passes_sprintf; [rewrite path_length; lia|].
  assert (¬ entry_of (k_view w1) r db) as N2'.
  { rewrite V1. intros [[E%elem_of_singleton|H]%elem_of_union|H]; simpl in *; [congruence|apply N2; by left|apply N2; by right]. }
  apply passes_mkdir; [rewrite <- R1, V1; simpl; set_solver|done|by rewrite <- R1|]. rewrite <- R1. fold r. intros r2 w2 -> V2. simpl.
  apply passes_sprintf; [rewrite path_length; lia|].
  apply passes_access; [done|rewrite <- R1; fold r; rewrite V2, V1; simpl; set_solver|]. intros r3 w3 -> V3. simpl.
  assert (k_place (path a1 da) = r ++ [da]) as P1 by (by apply k_below).
  assert (k_place (path a2 db) = r ++ [db]) as P2 by (rewrite R1; by apply k_below).
  assert (∀ x y s, r ++ [x] ++ [s] ≠ r ++ [y]) as Hd by (intros x y s E%(f_equal length); rewrite !length_app in E; simpl in E; lia).
  apply (alone_passes self (dirs (k_view w2)) (files (k_view w2))).
  - apply alone_halves; rewrite ?P1, ?P2; [| |done|rewrite path_length; lia|rewrite path_length; lia].
    + rewrite V2. simpl. apply fresh_kept; [|intros s; rewrite <- app_assoc; apply Hd]. rewrite V1. simpl. by apply fresh_with_dir.
    + rewrite V2. apply (fresh_with_dir (k_view w1) r db); [|done]. rewrite V1. by apply tree_with_dir.
  - rewrite V3. split; [done|done|]. intros fd. rewrite V2, V1. simpl. by rewrite R4.
Qed.

(** C23.  dircheck accepts a directory exactly when the listing can be read and has
    as many names that do not begin with a dot as it was told, at most a thousand,
    and none of them twice. *)
Theorem dircheck_accepts (nf : Z) (dp : answer) :
  let l := filter (λ s, is_dot s = false) (names dp) in
  dircheck_names nf dp (Exit 0) = Exit 0 ↔ ret dp ≠ 0 ∧ (length l ≤ 1000)%nat ∧ nf = Z.of_nat (length l) ∧ NoDup l.
Proof.
  intros l. unfold dircheck_names. fold l. cbv zeta. destruct (Z.eqb_spec (ret dp) 0) as [E0|E0]; [by split; [|intros [? _]]|].
  destruct (Nat.ltb_spec 1000 (length l)) as [Hl|Hl]; [split; [done|lia]|].
  destruct (Z.eqb_spec nf (Z.of_nat (length l))) as [En|En]; [|split; [done|lia]]. simpl.
  destruct (adjacent_equal (merge_sort compar l)) eqn:Ea; (split; [|]); try done.
  - intros (_ & _ & _ & Hd). rewrite adjacent_nodup in Ea; [done|]. by rewrite merge_sort_Permutation.
  - intros _. split_and!; [done|done|done|]. rewrite <- (merge_sort_Permutation compar l).
    apply sorted_adjacent; [apply (StronglySorted_merge_sort compar)|done].
Qed.

(** ** What the tests do not notice *)

(** A program without fork, on the kernel of Posix.v: its exit code. *)
Fixpoint run_calls (n : nat) (q : Z) (p : prog) (v : view) : option Z :=
  match n, p with
  | _, Exit code => Some code
  | S n, Sys c k => let '(a, v) := ex_call q c v in run_calls n q (k a) v
  | _, _ => None
  end.

(** check1 compares as many bytes as the path is long, here four: it accepts a file
    of the right length that differs after them. *)
Example check1_misses_data :
  run_calls 9 7 (check1 "m1" "f" (chars "aaaaXX") (Exit 0)) (View {[ [] ]} {[ ["f"] := chars "aaaaYY" ]} ∅) = Some 0.
Proof. vm_compute. reflexivity. Qed.

(** With one name more than the array holds dircheck writes past its end, whatever
    number it was told. *)
Example dircheck_leaves_array :
  dircheck_names 20 (Ans 1 0 [] (numbered "f" <$> seqZ 0 1001)) (Exit 0) = Undefined.
Proof. vm_compute. reflexivity. Qed.

(** ** On the kernel of Posix.v, with process number 7 and the mounts m1 and m2 *)
Definition ex_world : view := View {[ [] ]} ∅ ∅.

Lemma ex_tree : tree ex_world.
Proof.
  intros d s [H|H]; simpl in H; [|by rewrite lookup_empty in H; destruct H]. apply elem_of_singleton in H.
  by apply app_eq_nil in H as [-> ?].
Qed.

Lemma ex_ready (new : list string) :
  Forall (λ s, no_slash s ∧ (String.length s ≤ 480)%nat) new → ready (W := view) 7 "m1" "m2" ex_world new.
Proof.
  intros Hn. rewrite Forall_forall in Hn. split; [done|by_vm|exact ex_tree|done|]. intros s [Hs Hl]%Hn. split_and!; [|done|simpl; lia..].
  intros [H|H]; simpl in H; [|by rewrite lookup_empty in H; destruct H]. by apply elem_of_singleton in H.
Qed.

Lemma lab_2_b_passes_witness : passes (W := view) 7 (Cfg ex_world (LabB.main_b 7 ["test-lab-2-b"; "m1"; "m2"]) NoChild).
Proof. apply (lab_2_b_passes 7 ex_world). apply ex_ready. repeat constructor; by_vm. Defined.
