(* ===== verification/FsTesterA.v ===== *)
(** test-lab-2-a: its thirteen parts, three of them with two processes on the same
    files, pass on every kernel that keeps its promises. *)
From Stdlib Require Import Ascii String.
From stdpp Require Import pretty.
From S2P Require Import Prelude ExtentServer ExtentCache YfsBlock Posix FsTester FsTesterSpec.
Local Open Scope Z_scope.

(** * The names in a directory *)
Lemma append_inj a b s t : String.length a = String.length b → a +:+ s = b +:+ t → a = b.
Proof.
  revert b. induction a as [|c a IH]; intros [|c' b] Hl E; simpl in *; try done. injection E as -> E. f_equal. by apply IH; [lia|].
Qed.

Lemma numbered_ne p p' i j : String.length p = String.length p' → p ≠ p' → numbered p i ≠ numbered p' j.
Proof. intros Hl Hne E. apply Hne. by apply (append_inj _ _ _ _ Hl E). Qed.

Lemma keys_ne dp p p' i n i' n' x :
  String.length p = String.length p' → p ≠ p' → x ∈ keys dp p i n → x ∉ keys dp p' i' n'.
Proof.
  intros Hl Hne (j & -> & _)%elem_of_keys (j' & E & _)%elem_of_keys. apply (inj (dp ++.)) in E. injection E as E.
  by apply (numbered_ne p p' j j').
Qed.

Lemma put_same n i dp p F G x : x ∈ keys dp p i n → put_numbered n i dp p F !! x = put_numbered n i dp p G !! x.
Proof. intros (j & -> & Hj)%elem_of_keys. by rewrite !put_in. Qed.

(** The files of directory [dp] are the names [l]. *)
Definition lists (dp : fpath) (F : gmap fpath (list Z)) (l : list string) : Prop :=
  ∀ s, is_Some (F !! (dp ++ [s])) ↔ s ∈ l.

Definition nums (p : string) (n : nat) : list string := numbered p <$> seqZ 0 (Z.of_nat n).

Lemma lists_put dp F l p n : lists dp F l → lists dp (put_numbered n 0 dp p F) (nums p n ++ l).
Proof.
  intros Hl s. rewrite elem_of_app, <- (Hl s). unfold nums. rewrite list_elem_of_fmap. destruct (decide (dp ++ [s] ∈ keys dp p 0 n)) as [Hk|Hk].
  - split; [intros _; left|by intros _; apply put_some]. apply elem_of_keys in Hk as (j & E & Hj). apply (inj (dp ++.)) in E.
    injection E as ->. exists j. split; [done|]. apply elem_of_seqZ. lia.
  - rewrite put_out by done. split; [by right|]. intros [(j & -> & Hj%elem_of_seqZ)|]; [|done].
    destruct Hk. apply elem_of_keys. exists j. split; [done|lia].
Qed.

Lemma lists_insert dp F l f x : lists dp F l → lists dp (<[dp ++ [f] := x]> F) (f :: l).
Proof.
  intros Hl s. rewrite elem_of_cons, <- (Hl s), lookup_insert. case_decide as E.
  - apply (inj (dp ++.)) in E. injection E as ->. split; [by left|by eexists].
  - split; [by right|]. by intros [->|].
Qed.

Lemma nums_nodup p n : NoDup (nums p n).
Proof. apply NoDup_fmap_2; [intros i j; apply numbered_inj|apply NoDup_seqZ]. Qed.

Lemma nums_length p n : length (nums p n) = n.
Proof. unfold nums. rewrite length_fmap, length_seqZ. lia. Qed.

Lemma nums_apart p p' n n' s : String.length p = String.length p' → p ≠ p' → s ∈ nums p n → s ∉ nums p' n'.
Proof. intros Hl Hne (i & -> & _)%list_elem_of_fmap (j & E & _)%list_elem_of_fmap. by apply (numbered_ne p p' i j). Qed.

Lemma nums_dot p n s : is_dot p = false → p ≠ EmptyString → s ∈ nums p n → is_dot s = false.
Proof. intros Hd Hp (i & -> & _)%list_elem_of_fmap. by destruct p. Qed.

Lemma c_str_replicate n c : c ≠ 0 → c_str (replicate n c) = replicate n c.
Proof. intros Hc. induction n as [|n IH]; [done|]. simpl. destruct (Z.eqb_spec c 0); [done|]. by rewrite IH. Qed.

(** * The parts of the test *)
Section parts.
Context {W : Type} `{Kn : Kernel W} {Kl : KernelLaws W} (self : Z) (d1 d2 : string) (dp : fpath).
Context (P1 : k_place d1 = dp) (P2 : k_place d2 = dp).
Context (L1 : (String.length d1 ≤ 495)%nat) (L2 : (String.length d2 ≤ 495)%nat).
Context (D : gset fpath) (F : gmap fpath (list Z)) (Fd : fresh_dir D F dp).

(** Either of the two mounts of the directory. *)
Definition mount (d : string) : Prop := d = d1 ∨ d = d2.

Lemma mount_place d : mount d → k_place d = dp.
Proof using P1 P2. by intros [->| ->]. Qed.

Lemma mount_good own d f : mount d → no_slash f → (String.length f ≤ 10)%nat → own (dp ++ [f]) → good own D d f.
Proof using P1 P2 L1 L2 Fd.
  intros Hm Hs Hl Ho. pose proof (mount_place d Hm) as E. split; rewrite ?E; [done| |apply Fd|apply Fd|done].
  rewrite path_length. destruct Hm as [->| ->]; lia.
Qed.

Lemma mount_numbered own d p j :
  mount d → no_slash p → (String.length p ≤ 4)%nat → 0 ≤ j < 1000 → own (nth_file dp p j) → good own D d (numbered p j).
Proof using P1 P2 L1 L2 Fd.
  intros Hm Hs Hl Hj Ho. apply mount_good; [done|by apply no_slash_numbered| |done]. pose proof (numbered_short p j Hj). lia.
Qed.

Lemma fresh_lists : lists dp F [].
Proof using Fd. intros s. destruct (fd_none _ _ _ Fd s) as [_ ->]. split; [by intros []|by intros ?%elem_of_nil]. Qed.

Abbreviation alone := (alone self D).

Lemma alone_dircheck d G l nf k :
  mount d → lists dp G l → NoDup l → (∀ s, s ∈ l → is_dot s = false) → nf = Z.of_nat (length l) → (length l ≤ 1000)%nat →
  alone G k → alone G (dircheck d nf k).
Proof using P1 P2 Fd.
  intros Hm Hl Hd Hdot Hn Hlen Hk. pose proof (mount_place d Hm) as E. apply (does_dircheck _ _ _ _ _ _ l); rewrite ?E; try done; [apply Fd|].
  intros s. rewrite (Hl s). split; [intros Hs; split; [by apply Hdot|by right]|]. intros [_ [Hs|Hs]]; [|done].
  by destruct (proj1 (fd_none _ _ _ Fd s)).
Qed.

Lemma alone_createn d p nf dup G k :
  mount d → no_slash p → (String.length p ≤ 4)%nat → 0 ≤ nf ≤ 1000 →
  alone (put_numbered (Z.to_nat nf) 0 dp p G) k → alone G (createn d p nf dup k).
Proof using P1 P2 L1 L2 Fd Kl.
  intros Hm Hs Hl Hn Hk. apply does_createn; [|by rewrite mount_place]. intros j Hj. apply mount_numbered; try done; lia.
Qed.

Lemma alone_checkn d p nf G k :
  mount d → no_slash p → (String.length p ≤ 4)%nat → 0 ≤ nf ≤ 1000 →
  (∀ j, 0 ≤ j < nf → G !! nth_file dp p j = Some (le_bytes 4 j)) → alone G k → alone G (checkn d p nf k).
Proof using P1 P2 L1 L2 Fd Kl.
  intros Hm Hs Hl Hn HG Hk. apply does_checkn; [lia| |done]. intros j Hj. split; [apply mount_numbered; try done; lia|].
  rewrite mount_place by done. by apply HG.
Qed.

(** The numbered files go; they were put on top of [G]. *)
Lemma alone_unlinkn d p nf G k :
  mount d → no_slash p → (String.length p ≤ 4)%nat → 0 ≤ nf ≤ 1000 →
  (∀ x, x ∈ keys dp p 0 (Z.to_nat nf) → G !! x = None) →
  alone G k → alone (put_numbered (Z.to_nat nf) 0 dp p G) (unlinkn d p nf k).
Proof using P1 P2 L1 L2 Fd Kl.
  intros Hm Hs Hl Hn HG Hk. apply does_unlinkn; rewrite mount_place by done.
  - intros j Hj. split; [apply mount_numbered; try done; lia|]. apply put_some, elem_of_keys. exists j. split; [done|lia].
  - by rewrite del_put.
Qed.

Lemma fresh_key p i n x : x ∈ keys dp p i n → F !! x = None.
Proof using Fd. intros (j & -> & _)%elem_of_keys. apply Fd. Qed.

(** The same for a process that owns the numbered files. *)
Lemma own_createn q own (Q : prog → view → Prop) d p nf dup G k :
  mount d → no_slash p → (String.length p ≤ 4)%nat → 0 ≤ nf ≤ 1000 → (∀ j, 0 ≤ j < nf → own (nth_file dp p j)) →
  does q own Q D (put_numbered (Z.to_nat nf) 0 dp p G) ∅ k → does q own Q D G ∅ (createn d p nf dup k).
Proof using P1 P2 L1 L2 Fd Kl.
  intros Hm Hs Hl Hn Ho Hk. apply does_createn; [|by rewrite mount_place]. intros j Hj. apply mount_numbered; try done; [lia|by apply Ho].
Qed.

Lemma own_unlinkn q own (Q : prog → view → Prop) d p nf G k :
  mount d → no_slash p → (String.length p ≤ 4)%nat → 0 ≤ nf ≤ 1000 →
  (∀ j, 0 ≤ j < nf → own (nth_file dp p j) ∧ is_Some (G !! nth_file dp p j)) →
  does q own Q D (del_numbered (Z.to_nat nf) 0 dp p G) ∅ k → does q own Q D G ∅ (unlinkn d p nf k).
Proof using P1 P2 L1 L2 Fd Kl.
  intros Hm Hs Hl Hn Ho Hk. apply does_unlinkn; rewrite mount_place by done; [|done]. intros j Hj.
  split; [apply mount_numbered; try done; [lia|by apply Ho]|by apply Ho].
Qed.

Lemma key_in p n j : 0 ≤ j < Z.of_nat n → nth_file dp p j ∈ keys dp p 0 n.
Proof using. intros Hj. apply elem_of_keys. by exists j. Qed.

(** Side conditions on names and mounts. *)
#[local] Ltac side :=
  solve [by left | by right | by_vm | apply Nat.leb_le; reflexivity | split; [apply Z.leb_le; reflexivity|apply Z.leb_le; reflexivity]].

Lemma alone_concurrent_creates k : alone F k → alone F (concurrent_creates d1 d2 k).
Proof using P1 P2 L1 L2 Fd Kl.
  intros Hk. unfold concurrent_creates. set (Y := put_numbered 20 0 dp "yy" F). set (X := put_numbered 20 0 dp "xx" Y).
  eapply (alone_fork self D F Y (put_numbered 20 0 dp "xx" F) X (λ x, x ∈ keys dp "xx" 0 20)).
  - intros pid. apply own_createn; [side..|intros j Hj; by apply key_in|]. by apply does_end.
  - intros pid. apply own_createn; [side..|intros j Hj; apply (keys_ne dp "yy" "xx" 0 20); [done|done|by apply key_in]|].
    apply does_sleep. intros _. by apply does_reap.
  - intros x Hx. by apply put_same.
  - intros x Hx. by apply put_out.
  - assert (∀ j, 0 ≤ j < 20 → nth_file dp "yy" j ∉ keys dp "xx" 0 20) as Hxy.
    { intros j Hj. apply (keys_ne dp "yy" "xx" 0 20); [done|done|by apply key_in]. }
    apply (alone_dircheck d1 X (nums "xx" 20 ++ nums "yy" 20 ++ [])); [side|apply lists_put, lists_put, fresh_lists| | |side|side|].
    { rewrite app_nil_r. apply NoDup_app. split_and!; [apply nums_nodup| |apply nums_nodup]. intros s. by apply nums_apart. }
    { intros s. rewrite !elem_of_app. intros [?|[?|?%elem_of_nil]]; [by eapply (nums_dot "xx")|by eapply (nums_dot "yy")|done]. }
    apply alone_checkn; [side..|intros j Hj; by apply (put_in 20)|].
    apply alone_checkn; [side..|intros j Hj; unfold X; rewrite put_out by (by apply Hxy); by apply (put_in 20)|].
    apply (alone_unlinkn d1 "xx" 20); [side..| |].
    { intros x Hx. unfold Y. rewrite put_out; [by eapply fresh_key|]. by apply (keys_ne dp "xx" "yy" 0 20). }
    apply (alone_unlinkn d1 "yy" 20); [side..| |done]. intros x Hx. by eapply fresh_key.
Qed.

(** Keys of one prefix are none of another. *)
#[local] Ltac apart :=
  match goal with
  | Hx : ?x ∈ keys dp ?p 0 _ |- ?x ∉ keys dp ?p' 0 _ => by apply (keys_ne dp p p' 0 20)
  end.

Lemma alone_concurrent_create_delete k : alone F k → alone F (concurrent_create_delete d1 d2 k).
Proof using P1 P2 L1 L2 Fd Kl.
  intros Hk. unfold concurrent_create_delete. apply alone_createn; [side..|]. apply alone_createn; [side..|].
  set (G := put_numbered 20 0 dp "x2" (put_numbered 20 0 dp "x1" F)).
  set (X3 := put_numbered 20 0 dp "x3" F). set (X4 := put_numbered 20 0 dp "x4" X3).
  eapply (alone_fork self D G (put_numbered 20 0 dp "x4" G) (put_numbered 20 0 dp "x3" (del_numbered 20 0 dp "x1" G))
    (put_numbered 20 0 dp "x2" X4) (λ x, x ∈ keys dp "x1" 0 20 ∨ x ∈ keys dp "x3" 0 20)).
  - intros pid. apply own_unlinkn; [side..| |].
    { intros j Hj. assert (nth_file dp "x1" j ∈ keys dp "x1" 0 20) as Hx by (by apply key_in). split; [by left|].
      unfold G. rewrite put_out by apart. by apply put_some. }
    apply own_createn; [side..|intros j Hj; right; by apply key_in|]. by apply does_end.
  - intros pid. apply own_createn; [side..| |by apply does_reap]. intros j Hj.
    assert (nth_file dp "x4" j ∈ keys dp "x4" 0 20) as Hx by (by apply key_in). 
    assert (nth_file dp "x4" j ∉ keys dp "x1" 0 20) by apart. assert (nth_file dp "x4" j ∉ keys dp "x3" 0 20) by apart. tauto.
  - intros x [Hx|Hx].
    + rewrite (put_out _ _ _ "x3"), del_in by (apart || done). unfold X4, X3. rewrite !put_out by apart. by eapply fresh_key.
    + unfold X4, X3. rewrite (put_out _ _ _ "x2"), (put_out _ _ _ "x4") by apart. by apply put_same.
  - intros x Hx. apply Decidable.not_or in Hx as [H1 H3]. destruct (decide (x ∈ keys dp "x4" 0 20)) as [H4|H4].
    { rewrite (put_out _ _ _ "x2") by apart. by apply put_same. }
    rewrite (put_out _ _ _ "x4" G) by done. destruct (decide (x ∈ keys dp "x2" 0 20)) as [H2|H2]; [by apply put_same|].
    unfold G, X4, X3. by rewrite !put_out by done.
  - apply (alone_unlinkn d2 "x2" 20); [side..|intros x Hx; unfold X4, X3; rewrite !put_out by apart; by eapply fresh_key|].
    apply (alone_unlinkn d2 "x4" 20); [side..|intros x Hx; unfold X3; rewrite !put_out by apart; by eapply fresh_key|].
    apply (alone_unlinkn d2 "x3" 20); [side..|intros x Hx; by eapply fresh_key|].
    apply (alone_dircheck d1 F []); [side|apply fresh_lists|apply NoDup_nil_2|by intros s ?%elem_of_nil|done|simpl; lia|done].
Qed.

Lemma alone_many_creates k : alone F k → alone F (many_creates d1 d2 k).
Proof using P1 P2 L1 L2 Fd Kl.
  intros Hk. unfold many_creates. apply alone_createn; [side..|]. apply alone_createn; [side..|].
  set (A := put_numbered 10 0 dp "aa" F). set (B := put_numbered 10 0 dp "bb" A).
  assert (∀ x, x ∈ keys dp "aa" 0 10 → x ∉ keys dp "bb" 0 10) as Hab by (intros x; by apply keys_ne).
  assert (∀ j, 0 ≤ j < 10 → B !! nth_file dp "aa" j = Some (le_bytes 4 j)) as HA.
  { intros j Hj. unfold B. rewrite put_out by (apply Hab; by apply key_in). by apply (put_in 10). }
  assert (∀ j, 0 ≤ j < 10 → B !! nth_file dp "bb" j = Some (le_bytes 4 j)) as HB by (intros j Hj; by apply (put_in 10)).
  apply (alone_dircheck d2 B (nums "bb" 10 ++ nums "aa" 10 ++ [])); [side|apply lists_put, lists_put, fresh_lists| | |side|side|].
  { rewrite app_nil_r. apply NoDup_app. split_and!; [apply nums_nodup| |apply nums_nodup]. intros s. by apply nums_apart. }
  { intros s. rewrite !elem_of_app. intros [?|[?|?%elem_of_nil]]; [by eapply (nums_dot "bb")|by eapply (nums_dot "aa")|done]. }
  do 4 (apply alone_checkn; [side..|done|]). unfold B.
  assert (put_numbered 10 0 dp "bb" A = put_numbered 10 0 dp "aa" (put_numbered 10 0 dp "bb" F)) as ->.
  { apply map_eq. intros x. unfold A. destruct (decide (x ∈ keys dp "aa" 0 10)) as [Ha|Ha].
    - rewrite put_out by (by apply Hab). by apply put_same.
    - rewrite (put_out _ _ _ "aa" (put_numbered _ _ _ _ _)) by done. apply put_ext. by rewrite put_out. }
  apply (alone_unlinkn d1 "aa" 10); [side..|intros x Hx; rewrite put_out by (by apply Hab); by eapply fresh_key|].
  apply (alone_unlinkn d2 "bb" 10); [side..| |done]. intros x Hx. by eapply fresh_key.
Qed.

(** ** Single files *)
Lemma alone_create1 d f inp G k :
  mount d → no_slash f → (String.length f ≤ 10)%nat → alone (<[dp ++ [f] := c_str inp]> G) k → alone G (create1 d f inp k).
Proof using P1 P2 L1 L2 Fd Kl. intros Hm Hs Hl Hk. apply does_create1; [by apply mount_good|by rewrite mount_place]. Qed.

Lemma alone_check1 d f x G k :
  mount d → no_slash f → (String.length f ≤ 10)%nat → G !! (dp ++ [f]) = Some x → c_str x = x → Z.of_nat (length x) < 21000 →
  alone G k → alone G (check1 d f x k).
Proof using P1 P2 L1 L2 Fd Kl. intros Hm Hs Hl Hx Hc Hz Hk. apply does_check1; [by apply mount_good|by rewrite mount_place|done..]. Qed.

Lemma alone_append1 d f x inp G k :
  mount d → no_slash f → (String.length f ≤ 10)%nat → G !! (dp ++ [f]) = Some x →
  alone (<[dp ++ [f] := x ++ c_str inp]> G) k → alone G (append1 d f inp k).
Proof using P1 P2 L1 L2 Fd Kl. intros Hm Hs Hl Hx Hk. eapply does_append1; [by apply mount_good|by rewrite mount_place|by rewrite mount_place]. Qed.

Lemma alone_checknot d f G k :
  mount d → no_slash f → (String.length f ≤ 10)%nat → G !! (dp ++ [f]) = None → alone G k → alone G (checknot d f k).
Proof using P1 P2 L1 L2 Fd Kl. intros Hm Hs Hl Hx Hk. apply does_checknot; [by apply mount_good|by rewrite mount_place|done]. Qed.

(** The file goes that was put on top of [G]. *)
Lemma alone_unlink1 d f x G k :
  mount d → no_slash f → (String.length f ≤ 10)%nat → G !! (dp ++ [f]) = None →
  alone G k → alone (<[dp ++ [f] := x]> G) (unlink1 d f k).
Proof using P1 P2 L1 L2 Fd Kl.
  intros Hm Hs Hl Hx Hk. apply does_unlink1; [by apply mount_good|by rewrite mount_place, lookup_insert_eq|].
  by rewrite mount_place, delete_insert_id.
Qed.

Lemma fresh_file f : F !! (dp ++ [f]) = None.
Proof using Fd. apply Fd. Qed.

Lemma alone_create_unlink k : alone F k → alone F (create_then_read d1 d2 (unlink_test d1 d2 k)).
Proof using P1 P2 L1 L2 Fd Kl.
  intros Hk. unfold create_then_read, unlink_test. apply alone_create1; [side..|].
  do 2 (apply alone_check1; [side..|apply lookup_insert_eq|side|side|]). apply alone_unlink1; [side..|apply fresh_file|].
  apply alone_create1; [side..|]. apply alone_unlink1; [side..|apply fresh_file|]. do 2 (apply alone_checknot; [side..|apply fresh_file|]).
  apply alone_create1; [side..|]. apply alone_unlink1; [side..|apply fresh_file|]. do 2 (apply alone_checknot; [side..|apply fresh_file|]).
  apply alone_create1; [side..|]. do 2 (apply alone_check1; [side..|apply lookup_insert_eq|side|side|]).
  apply alone_unlink1; [side..|apply fresh_file|]. apply alone_create1; [side..|]. apply alone_unlink1; [side..|apply fresh_file|].
  do 2 (apply alone_checknot; [side..|apply fresh_file|]). done.
Qed.

(** dircheck of the names [l], on either mount. *)
Lemma alone_dircheck_few d G l k :
  mount d → lists dp G l → NoDup l → forallb (λ s, negb (is_dot s)) l = true → (length l ≤ 1000)%nat →
  alone G k → alone G (dircheck d (Z.of_nat (length l)) k).
Proof using P1 P2 Fd.
  intros Hm Hl Hd Hdot Hn Hk. apply (alone_dircheck d G l); try done. intros s Hs. rewrite forallb_forall in Hdot.
  apply negb_true_iff, Hdot. by apply list_elem_of_In.
Qed.

Lemma alone_append_readdir k : alone F k → alone F (append_test d1 d2 (readdir_test d1 d2 k)).
Proof using P1 P2 L1 L2 Fd Kl.
  intros Hk. unfold append_test, readdir_test. pose proof fresh_lists as L0. apply alone_create1; [side..|].
  apply (alone_append1 d1 "f1" (chars "aaa")); [side..|apply lookup_insert_eq|]. rewrite insert_insert_eq.
  apply (alone_append1 d2 "f1" (chars "aaabbb")); [side..|apply lookup_insert_eq|]. rewrite insert_insert_eq.
  change (chars "aaabbb" ++ c_str (chars "ccc")) with (chars "aaabbbccc").
  do 2 (apply alone_check1; [side..|apply lookup_insert_eq|side|side|]).
  do 2 (apply (alone_dircheck_few _ _ ["f1"]); [side|by apply lists_insert|side|side|side|]).
  apply alone_unlink1; [side..|apply fresh_file|]. do 2 (apply (alone_dircheck_few _ _ []); [side|done|side|side|side|]).
  apply alone_create1; [side..|]. apply alone_create1; [side..|].
  do 2 (apply (alone_dircheck_few _ _ ["f3"; "f2"]); [side|by apply lists_insert, lists_insert|side|side|side|]).
  assert (dp ++ ["f2"] ≠ dp ++ ["f3"]) as Hne by (by intros ?%(inj (dp ++.))). rewrite insert_insert_ne by done.
  apply alone_unlink1; [side..|by rewrite lookup_insert_ne, fresh_file by done|].
  do 2 (apply (alone_dircheck_few _ _ ["f3"]); [side|by apply lists_insert|side|side|side|]).
  apply alone_unlink1; [side..|apply fresh_file|]. by do 2 (apply (alone_dircheck_few _ _ []); [side|done|side|side|side|]).
Qed.

Lemma alone_write_check x k :
  c_str x = x → Z.of_nat (length x) < 21000 → alone F k →
  alone F (create1 d1 "bf" x (check1 d1 "bf" x (check1 d2 "bf" x (unlink1 d1 "bf" k)))).
Proof using P1 P2 L1 L2 Fd Kl.
  intros Hb Hl Hk. apply alone_create1; [side..|]. rewrite Hb. do 2 (apply alone_check1; [side..|apply lookup_insert_eq|done|done|]).
  apply alone_unlink1; [side..|apply fresh_file|done].
Qed.

Lemma alone_write_20000 k : alone F k → alone F (write_20000 d1 d2 k).
Proof using P1 P2 L1 L2 Fd Kl.
  apply alone_write_check; [by apply c_str_replicate|]. unfold big. rewrite length_replicate. by_vm.
Qed.
End parts.

(** * Two processes that create the same files *)
Section same.
Context (self pid : Z) (dp : fpath) (D : gset fpath) (F : gmap fpath (list Z)).

Abbreviation zz := (nth_file dp "zz").

(** A file with its number, or an empty one that one of the two has still open at
    its start. *)
Definition pending (v : view) (j : Z) : Prop :=
  files v !! zz j = Some [] ∧ ∃ q fd, (q = self ∨ q = pid) ∧ fds v !! (q, fd) = Some (zz j, 0, false).

Record inv (v : view) : Prop := {
  iv_dirs : dirs v = D;
  iv_rest : ∀ x, x ∉ keys dp "zz" 0 20 → files v !! x = F !! x;
  iv_zz : ∀ j, 0 ≤ j < 20 → files v !! zz j = None ∨ files v !! zz j = Some (le_bytes 4 j) ∨ pending v j }.

(** Both processes keep the invariant and remove no file. *)
Definition keeps (v v' : view) : Prop :=
  (inv v → inv v') ∧ ∀ j, is_Some (files v !! zz j) → is_Some (files v' !! zz j).

Definition rely_zz (q : Z) (v v' : view) : Prop := keeps v v' ∧ ∀ fd, fds v' !! (q, fd) = fds v !! (q, fd).
Definition guar_zz (q : Z) (v v' : view) : Prop := keeps v v' ∧ ∀ x fd, x ≠ q → fds v' !! (x, fd) = fds v !! (x, fd).

#[export] Instance rely_zz_refl q : Reflexive (rely_zz q).
Proof. intros v. by split; [split|]. Qed.

#[export] Instance rely_zz_trans q : Transitive (rely_zz q).
Proof. intros v1 v2 v3 [[A1 A2] A3] [[B1 B2] B3]. split; [split; auto|]. intros fd. by rewrite B3. Qed.

Lemma guar_rely_zz q q' v v' : q ≠ q' → guar_zz q v v' → rely_zz q' v v'.
Proof. intros Hne [Hk Hf]. split; [done|]. intros fd. by apply Hf. Qed.

(** The process [q] has created the first [i] files and has none open. *)
Record created (q i : Z) (v : view) : Prop := {
  cr_inv : inv v;
  cr_some : ∀ j, 0 ≤ j < i → is_Some (files v !! zz j);
  cr_fds : ∀ fd, fds v !! (q, fd) = None }.

Lemma created_rely q i v v' : created q i v → rely_zz q v v' → created q i v'.
Proof. intros [A B C] [[H1 H2] H3]. split; [auto|auto|]. intros fd. by rewrite H3. Qed.

(** An update of file [i] and of a descriptor of [q] that leaves no other pending
    file behind. *)
Lemma inv_upd (v : view) (q fd i : Z) (x : list Z) (o : option (fpath * Z * bool)) (y : gmap (Z * Z) (fpath * Z * bool)) :
  inv v → 0 ≤ i < 20 → (q = self ∨ q = pid) → (∀ k, y !! k = if decide (k = (q, fd)) then o else fds v !! k) →
  (∀ j, j ≠ i → fds v !! (q, fd) ≠ Some (zz j, 0, false)) →
  x = le_bytes 4 i ∨ x = [] ∧ o = Some (zz i, 0, false) → inv (View D (<[zz i := x]> (files v)) y).
Proof.
  intros [A B C] Hi Hq Hy Hn Hx. split; simpl; [done| |].
  - intros z Hz. rewrite lookup_insert_ne; [by apply B|]. intros <-. apply Hz. apply elem_of_keys. exists i. split; [done|lia].
  - intros j Hj. rewrite lookup_insert. case_decide as E.
    + apply nth_file_inj in E as <-. destruct Hx as [->|[-> ->]]; [by right; left|right; right]. split; [apply lookup_insert_eq|].
      exists q, fd. split; [done|]. simpl. by rewrite Hy, decide_True.
    + destruct (C j Hj) as [?|[?|(H1 & q' & fd' & Hq' & H2)]]; [by left|by right; left|right; right].
      split; [simpl; by rewrite lookup_insert_ne|]. exists q', fd'. split; [done|]. simpl. rewrite Hy. case_decide as Hk; [|done].
      injection Hk as -> ->. exfalso. apply (Hn j); [congruence|done].
Qed.

Lemma keeps_upd (v : view) (i : Z) (x : list Z) y : (inv v → inv (View D (<[zz i := x]> (files v)) y)) → keeps v (View D (<[zz i := x]> (files v)) y).
Proof.
  intros Hi. split; [done|]. intros j Hj. simpl. rewrite lookup_insert. case_decide; [by eexists|done].
Qed.

Context {W : Type} `{Kn : Kernel W} {Kl : KernelLaws W} (Fd : fresh_dir D F dp).

Section process.
Context (q : Z) (Hq : q = self ∨ q = pid) (Q : prog → view → Prop) (d : string) (Pd : k_place d = dp).

Abbreviation safe := (safe (rely_zz q) (guar_zz q) q Q).

Lemma zz_place i : k_place (path d (numbered "zz" i)) = zz i.
Proof using Pd Kl. unfold path. rewrite k_below; [by rewrite Pd|]. apply no_slash_numbered. by_vm. Qed.

Lemma zz_close i fd k v :
  0 ≤ i < 20 → inv v → (∀ j, 0 ≤ j < i + 1 → is_Some (files v !! zz j)) → fds v !! (q, fd) = Some (zz i, 4, false) →
  (∀ fd', fd' ≠ fd → fds v !! (q, fd') = None) → (∀ v', created q (i + 1) v' → safe k v') →
  safe (Sys (Close fd) (λ r, if negb (ret r =? 0) then Exit 1 else k)) v.
Proof using.
  intros Hi I0 S0 Hfd Ho Hk v1 [[Rk Rs] Rf] a v2 Hp. specialize (Rk I0). simpl in Hp. rewrite Rf, Hfd in Hp. destruct Hp as [-> ->]; [done|].
  assert (inv (View (dirs v1) (files v1) (delete (q, fd) (fds v1)))) as I2.
  { destruct Rk as [A B C]. split; simpl; [done|done|]. intros j Hj. destruct (C j Hj) as [?|[?|(H1 & q' & fd' & Hq' & H2)]]; [by left|by right; left|right; right].
    split; [done|]. exists q', fd'. split; [done|]. simpl. rewrite lookup_delete_ne; [done|]. intros [= <- <-]. rewrite Rf, Hfd in H2. congruence. }
  split.
  - split; [by split|]. intros x fd' Hx. simpl. by rewrite lookup_delete_ne by congruence.
  - simpl. apply Hk. split; [done|intros j Hj; simpl; auto|]. intros fd'. simpl. rewrite lookup_delete.
    case_decide as E; [done|]. rewrite Rf. apply Ho. congruence.
Qed.

Lemma zz_write i fd k v :
  0 ≤ i < 20 → inv v → (∀ j, 0 ≤ j < i + 1 → is_Some (files v !! zz j)) → fds v !! (q, fd) = Some (zz i, 0, false) →
  (∀ fd', fd' ≠ fd → fds v !! (q, fd') = None) → (∀ v', created q (i + 1) v' → safe k v') →
  safe (Sys (Write fd (le_bytes 4 i)) (λ r, if negb (ret r =? 4) then Exit 1 else
          Sys (Close fd) (λ r, if negb (ret r =? 0) then Exit 1 else k))) v.
Proof using Hq.
  intros Hi I0 S0 Hfd Ho Hk v1 [[Rk Rs] Rf] a v2 Hp. specialize (Rk I0). cbn [posix] in Hp. rewrite Rf, Hfd in Hp.
  destruct (Rs i) as [data Hd]; [apply S0; lia|]. rewrite Hd in Hp. destruct Hp as [Hr ->]; [lia|]. rewrite length_le_bytes in Hr.
  assert (store_at data (Z.to_nat 0) (le_bytes 4 i) = le_bytes 4 i) as ->.
  { destruct (iv_zz _ Rk i Hi) as [?|[E|[E _]]]; [congruence|..]; rewrite Hd in E; injection E as ->; [done|by apply store_at_all]. }
  rewrite length_le_bytes, (iv_dirs _ Rk). change (0 + Z.of_nat 4) with 4. set (y := <[(q, fd) := _]> _).
  assert (inv (View D (<[zz i := le_bytes 4 i]> (files v1)) y)) as I2.
  { apply (inv_upd v1 q fd i _ (Some (zz i, 4, false))); [done|done|done| | |by left].
    - intros k'. unfold y. rewrite lookup_insert. repeat case_decide; congruence.
    - intros j Hj. rewrite Rf, Hfd. intros [= E%nth_file_inj]. congruence. }
  split.
  - split; [by apply keeps_upd|]. intros x fd' Hx. simpl. unfold y. by rewrite lookup_insert_ne by congruence.
  - rewrite Hr. change (negb (Z.of_nat 4 =? 4)) with false. cbv iota. apply (zz_close i); simpl; try done.
    + intros j Hj. rewrite lookup_insert. case_decide; [by eexists|]. apply Rs. auto.
    + apply lookup_insert_eq.
    + intros fd' Hne. unfold y. rewrite lookup_insert_ne by congruence. rewrite Rf. by apply Ho.
Qed.

Lemma zz_create i k v :
  0 ≤ i < 20 → created q i v → (∀ v', created q (i + 1) v' → safe k v') →
  safe (create_numbered (path d (numbered "zz" i)) i true k) v.
Proof using Kl Pd Hq Fd.
  intros Hi Hc Hk v1 Hr a v2 Hp. destruct (created_rely _ _ _ _ Hc Hr) as [I1 S1 O1]. simpl in Hp. rewrite zz_place in Hp.
  rewrite (iv_dirs _ I1) in Hp. destruct Hp as (Ha & _ & ->).
  { split; [apply Fd|]. exists dp, (numbered "zz" i). split; [done|apply Fd]. }
  set (y := <[(q, ret a) := _]> _).
  assert (inv (View D (<[zz i := []]> (files v1)) y)) as I2.
  { apply (inv_upd v1 q (ret a) i _ (Some (zz i, 0, false))); [done|done|done| | |by right].
    - intros k'. unfold y. rewrite lookup_insert. repeat case_decide; congruence.
    - intros j Hj. by rewrite O1. }
  split.
  - split; [by apply keeps_upd|]. intros x fd' Hx. simpl. unfold y. by rewrite lookup_insert_ne by congruence.
  - destruct (Z.ltb_spec (ret a) 0); [lia|]. cbn [andb]. apply (zz_write i); simpl; try done.
    + intros j Hj. rewrite lookup_insert. case_decide as E; [by eexists|]. apply S1. assert (j ≠ i) by (intros ->; done). lia.
    + apply lookup_insert_eq.
    + intros fd' Hne. unfold y. by rewrite lookup_insert_ne by congruence.
Qed.

Context (Ld : (String.length d ≤ 495)%nat).

Lemma zz_loop n i k v :
  i + Z.of_nat n = 20 → 0 ≤ i → created q i v → (∀ v', created q 20 v' → safe k v') →
  safe (createn_loop n i d "zz" true k) v.
Proof using Kl Pd Ld Hq Fd.
  revert i v. induction n as [|n IH]; intros i v En Hi Hc Hk; cbn [createn_loop].
  - replace i with 20 in Hc by lia. by apply Hk.
  - unfold sprintf. destruct (Nat.leb_spec 512 (String.length (path d (numbered "zz" i)))) as [Hl|_].
    { rewrite path_length in Hl. pose proof (numbered_short "zz" i ltac:(lia)) as Hs. change (String.length "zz") with 2%nat in Hs. lia. }
    apply zz_create; [lia|done|]. intros v' Hc'. apply IH; [lia|lia|done|done].
Qed.

Lemma zz_createn k v :
  created q 0 v → (∀ v', created q 20 v' → safe k v') → safe (createn d "zz" 20 true k) v.
Proof using Kl Pd Ld Hq Fd.
  intros Hc Hk v1 Hr a v2 Hp. simpl in Hp. subst v2. split; [by split; [split|]|]. apply zz_loop; [done|done| |done].
  by eapply created_rely.
Qed.
End process.

(** What the two leave behind. *)
Lemma created_both v : created self 20 v → created pid 20 v → sees self (λ _, True) v D (put_numbered 20 0 dp "zz" F) ∅.
Proof using.
  intros [I1 S1 O1] [_ _ O2]. split; [apply I1| |by intros fd; rewrite O1]. intros x _.
  destruct (decide (x ∈ keys dp "zz" 0 20)) as [(j & -> & Hj)%elem_of_keys|Hx]; [|by rewrite put_out by done; apply I1].
  rewrite put_in by done. destruct (iv_zz _ I1 j) as [E|[?|(_ & q & fd & [->| ->] & E)]]; [lia| |done|by rewrite O1 in E|by rewrite O2 in E].
  destruct (S1 j) as [y Hy]; [lia|congruence].
Qed.

(** dircheck finds the twenty files as soon as one process has created them. *)
Lemma zz_dircheck q (Q : prog → view → Prop) d k v :
  k_place d = dp → created q 20 v → (∀ v', created q 20 v' → safe (rely_zz q) (guar_zz q) q Q k v') →
  safe (rely_zz q) (guar_zz q) q Q (dircheck d 20 k) v.
Proof using Fd.
  intros Pd Hc Hk v1 Hr a v2 Hp. pose proof (created_rely _ _ _ _ Hc Hr) as Hc1. simpl in Hp. rewrite Pd, (iv_dirs _ (cr_inv _ _ _ Hc1)) in Hp.
  destruct Hp as (Ha & Hn & -> & Hin); [apply Fd|]. split; [by split; [split|]|].
  assert (20 = Z.of_nat (length (nums "zz" 20))) as E20 by (by rewrite nums_length).
  rewrite E20. rewrite (dircheck_found (nums "zz" 20)); [by apply Hk|done|done|apply nums_nodup|rewrite nums_length; lia|].
  apply (listed a _ (entry_of v1 dp) Hin). intros s. unfold entry_of. rewrite (iv_dirs _ (cr_inv _ _ _ Hc1)). split.
  - intros Hs. split; [by eapply (nums_dot "zz")|]. right. apply list_elem_of_fmap in Hs as (j & -> & Hj%elem_of_seqZ).
    apply (cr_some _ _ _ Hc1). lia.
  - intros [_ [Hs|[y Hy]]]; [by destruct (proj1 (fd_none _ _ _ Fd s))|]. destruct (decide (dp ++ [s] ∈ keys dp "zz" 0 20)) as [Hk'|Hk'].
    + apply elem_of_keys in Hk' as (j & E & Hj). apply (inj (dp ++.)) in E. injection E as ->. apply list_elem_of_fmap. exists j.
      split; [done|]. apply elem_of_seqZ. lia.
    + rewrite (iv_rest _ (cr_inv _ _ _ Hc1)) in Hy by done. by rewrite (proj2 (fd_none _ _ _ Fd s)) in Hy.
Qed.
End same.

Section zz.
Context {W : Type} `{Kn : Kernel W} {Kl : KernelLaws W} (self : Z) (dp : fpath).
Context (D : gset fpath) (F : gmap fpath (list Z)) (Fd : fresh_dir D F dp).

Lemma alone_same (dc d : string) t K :
  k_place dc = dp → k_place d = dp → (String.length dc ≤ 495)%nat → (String.length d ≤ 495)%nat →
  alone self D (put_numbered 20 0 dp "zz" F) K →
  alone self D F (
    fork (createn dc "zz" 20 true (Exit 0)) (λ pid,
    createn d "zz" 20 true (Sys (Sleep t) (λ _, dircheck d 20 (reap pid K))))).
Proof using Kl Fd.
  intros Pc Pd Lc Ld HK. apply alone_fork_gen. intros w pid H0 Hne E1 E2 E3 E4.
  assert (∀ q, (∀ fd, fds (k_view w) !! (q, fd) = None) → created self pid dp D F q 0 (k_view w)) as Hst.
  { intros q Hf. split; [|lia|done]. split; [done|by intros; rewrite E2|]. intros j Hj. left. rewrite E2. apply Fd. }
  eapply (passes_par self (rely_zz self pid dp D F self) (guar_zz self pid dp D F self) (rely_zz self pid dp D F pid)
    (guar_zz self pid dp D F pid) pid (λ pr v, pr = reap pid K ∧ created self pid dp D F self 20 v)
    (λ pr v, pr = Exit 0 ∧ created self pid dp D F pid 20 v)).
  - intros v v'. by apply guar_rely_zz.
  - intros v v'. by apply guar_rely_zz.
  - intros p' v [-> _]. by eexists.
  - intros p' v [-> _]. by eexists.
  - intros k code w' [[= ->] C1] [[= ->] C2]. destruct (Z.ltb_spec pid 0); [lia|]. rewrite Z.eqb_refl. simpl.
    eapply alone_passes; [exact HK|by eapply created_both].
  - refine (zz_createn self pid dp D F Fd self (or_introl eq_refl) _ d Pd Ld _ _ (Hst _ E3) _). intros v Hv v1 Hr a v2 Hp. simpl in Hp. subst v2. split; [by split; [split|]|].
    refine (zz_dircheck self pid dp D F Fd self _ d _ _ Pd (created_rely _ _ _ _ _ _ _ _ _ Hv Hr) _). intros v' Hv' u Hu. split; [done|]. by eapply created_rely.
  - split; [done|]. refine (zz_createn self pid dp D F Fd pid (or_intror eq_refl) _ dc Pc Lc _ _ (Hst _ E4) _). intros v Hv u Hu. split; [done|]. by eapply created_rely.
Qed.
End zz.

Section parts2.
Context {W : Type} `{Kn : Kernel W} {Kl : KernelLaws W} (self : Z) (d1 d2 : string) (dp : fpath).
Context (P1 : k_place d1 = dp) (P2 : k_place d2 = dp).
Context (L1 : (String.length d1 ≤ 495)%nat) (L2 : (String.length d2 ≤ 495)%nat).
Context (D : gset fpath) (F : gmap fpath (list Z)) (Fd : fresh_dir D F dp).

#[local] Ltac side :=
  solve [exact P1 | exact P2 | exact L1 | exact L2 | exact Fd | by left | by right | by_vm | apply Nat.leb_le; reflexivity
        | split; [apply Z.leb_le; reflexivity|apply Z.leb_le; reflexivity]].

Lemma alone_same_file k : alone self D F k → alone self D F (same_file d1 d2 k).
Proof using P1 P2 L1 L2 Fd Kl.
  intros Hk. unfold same_file. apply (alone_same self dp); [side..|].
  do 2 (apply (alone_checkn self d1 d2 dp P1 P2 L1 L2 D F Fd); [side..|intros j Hj; by apply (put_in 20)|]).
  apply (alone_unlinkn self d1 d2 dp P1 P2 L1 L2 D F Fd d1 "zz" 20); [side..| |done]. intros x Hx. by eapply fresh_key.
Qed.

Lemma alone_same_file_same_server k : alone self D F k → alone self D F (same_file_same_server d1 k).
Proof using P1 P2 L1 L2 Fd Kl.
  intros Hk. unfold same_file_same_server. apply (alone_same self dp); [side..|].
  apply (alone_checkn self d1 d2 dp P1 P2 L1 L2 D F Fd); [side..|intros j Hj; by apply (put_in 20)|].
  apply (alone_unlinkn self d1 d2 dp P1 P2 L1 L2 D F Fd d1 "zz" 20); [side..| |done]. intros x Hx. by eapply fresh_key.
Qed.
End parts2.

(** * Two processes that write different parts of one file *)
Lemma store_at_one data off c : (off < length data)%nat → store_at data off [c] = <[off := c]> data.
Proof.
  intros Hl. unfold store_at. replace (off + length [c] - length data)%nat with 0%nat by (simpl; lia). rewrite app_nil_r.
  unfold splice. rewrite insert_take_drop by done. simpl. by rewrite Nat.add_1_r.
Qed.

Section www.
Context (P : fpath) (D : gset fpath) (F : gmap fpath (list Z)) (L : Z).

Definition byte_at (v : view) (i : Z) : option Z := data ← files v !! P; data !! Z.to_nat i.

(** The file has [L] bytes, and nothing else changes. *)
Record kept (v v' : view) : Prop := {
  kp_dirs : dirs v' = dirs v;
  kp_rest : ∀ x, x ≠ P → files v' !! x = files v !! x;
  kp_len : length <$> files v' !! P = length <$> files v !! P }.

(** A process writes only the bytes [mine]. *)
Definition rely_w (q : Z) (mine : Z → Prop) (v v' : view) : Prop :=
  kept v v' ∧ (∀ i, 0 ≤ i → mine i → byte_at v' i = byte_at v i) ∧ ∀ fd, fds v' !! (q, fd) = fds v !! (q, fd).

Definition guar_w (q : Z) (mine : Z → Prop) (v v' : view) : Prop :=
  kept v v' ∧ (∀ i, 0 ≤ i → ¬ mine i → byte_at v' i = byte_at v i) ∧ ∀ x fd, x ≠ q → fds v' !! (x, fd) = fds v !! (x, fd).

#[export] Instance rely_w_refl q mine : Reflexive (rely_w q mine).
Proof. intros v. by split; [split|]. Qed.

#[export] Instance rely_w_trans q mine : Transitive (rely_w q mine).
Proof.
  intros v1 v2 v3 ([A1 A2 A3] & A4 & A5) ([B1 B2 B3] & B4 & B5). split_and!.
  - split; [congruence|intros x Hx; by rewrite B2, A2|congruence].
  - intros i H0 Hi. by rewrite B4, A4.
  - intros fd. by rewrite B5.
Qed.

Lemma guar_rely_w q q' mine mine' v v' :
  q ≠ q' → (∀ i, mine' i → ¬ mine i) → guar_w q mine v v' → rely_w q' mine' v v'.
Proof. intros Hne Hm (A & B & C). split_and!; [done|intros i H0 Hi; apply B; [done|by apply Hm]|intros fd; by apply C]. Qed.

(** The process [q] has written [c] to the bytes from [s] to [e] and has the open
    files [O]. *)
Record written (q c s e : Z) (O : gmap Z (fpath * Z * bool)) (v : view) : Prop := {
  wr_dirs : dirs v = D;
  wr_rest : ∀ x, x ≠ P → files v !! x = F !! x;
  wr_len : (λ x, Z.of_nat (length x)) <$> files v !! P = Some L;
  wr_bytes : ∀ i, s ≤ i < e → byte_at v i = Some c;
  wr_fds : ∀ fd, fds v !! (q, fd) = O !! fd }.

Lemma written_rely q (mine : Z → Prop) c s e O v v' :
  0 ≤ s → (∀ i, s ≤ i < e → mine i) → written q c s e O v → rely_w q mine v v' → written q c s e O v'.
Proof.
  intros H0 Hm [A B C E G] ([K1 K2 K3] & K4 & K5). split; [congruence|intros x Hx; by rewrite K2, B| | |].
  - destruct (files v !! P), (files v' !! P); simpl in *; congruence.
  - intros i Hi. rewrite K4; [by apply E|lia|by apply Hm].
  - intros fd. by rewrite K5.
Qed.

Lemma written_file q c s e O v : written q c s e O v → ∃ data, files v !! P = Some data ∧ Z.of_nat (length data) = L.
Proof. intros [_ _ C _ _]. destruct (files v !! P) as [data|]; [|done]. injection C as C. by exists data. Qed.

(** Only descriptors of the process change. *)
Lemma written_fds (q : Z) (mine : Z → Prop) (c s e : Z) (O O' : gmap Z (fpath * Z * bool)) (v : view) (y : gmap (Z * Z) (fpath * Z * bool)) :
  written q c s e O v → (∀ fd, y !! (q, fd) = O' !! fd) → (∀ x fd, x ≠ q → y !! (x, fd) = fds v !! (x, fd)) →
  guar_w q mine v (View (dirs v) (files v) y) ∧ written q c s e O' (View (dirs v) (files v) y).
Proof. intros [A B C E G] Hy Hx. split; [by split; [split|]|by split]. Qed.

Section writer.
Context {W : Type} `{Kn : Kernel W} {Kl : KernelLaws W} (q : Z) (mine : Z → Prop) (Q : prog → view → Prop) (c s hi : Z).
Context (Hs : 0 ≤ s) (Hhi : hi ≤ L) (Hmine : ∀ i, s ≤ i < hi → mine i).

Abbreviation safe := (safe (rely_w q mine) (guar_w q mine) q Q).
Abbreviation written := (written q c s).

(** One byte at the end of what is written. *)
Lemma written_byte e fd v data :
  written e {[fd := (P, e, false)]} v → files v !! P = Some data → s ≤ e < hi →
  let v' := View (dirs v) (<[P := store_at data (Z.to_nat e) [c]]> (files v)) (<[(q, fd) := (P, e + 1, false)]> (fds v)) in
  guar_w q mine v v' ∧ written (e + 1) {[fd := (P, e + 1, false)]} v'.
Proof using Hs Hhi Hmine.
  intros Hw Hd He v'. destruct (written_file _ _ _ _ _ _ Hw) as (data' & Hd' & HL). rewrite Hd in Hd'. injection Hd' as <-.
  assert (store_at data (Z.to_nat e) [c] = <[Z.to_nat e := c]> data) as Es by (apply store_at_one; lia). destruct Hw as [A B C E G].
  assert (∀ i, 0 ≤ i → i ≠ e → byte_at v' i = byte_at v i) as Hb.
  { intros i Hi Hne. unfold byte_at, v'. simpl. rewrite lookup_insert_eq, Hd, Es. simpl. apply list_lookup_insert_ne. lia. }
  split; [split_and!|split]; simpl.
  - split; simpl; [done|intros x Hx; by rewrite lookup_insert_ne|]. rewrite lookup_insert_eq, Hd, Es. simpl. by rewrite length_insert.
  - intros i Hi Hn. apply Hb; [done|]. intros ->. apply Hn, Hmine. lia.
  - intros x fd' Hx. simpl. by rewrite lookup_insert_ne by congruence.
  - done.
  - intros x Hx. rewrite lookup_insert_ne by done. by apply B.
  - rewrite lookup_insert_eq, Es. simpl. by rewrite length_insert, HL.
  - intros i Hi. destruct (decide (i = e)) as [->|Hne]; [|rewrite Hb by lia; apply E; lia].
    unfold byte_at. simpl. rewrite lookup_insert_eq, Es. simpl. apply list_lookup_insert_eq. lia.
  - intros fd'. rewrite lookup_insert. destruct (decide (fd = fd')) as [<-|Hne].
    + rewrite decide_True by done. by rewrite lookup_singleton_eq.
    + rewrite decide_False by congruence. rewrite G, !lookup_singleton_ne by done. done.
Qed.

Lemma www_loop n e fd k v :
  written e {[fd := (P, e, false)]} v → s ≤ e → e + Z.of_nat n ≤ hi →
  (∀ v', written (e + Z.of_nat n) {[fd := (P, e + Z.of_nat n, false)]} v' → safe k v') → safe (write1_loop n fd c k) v.
Proof using Hs Hhi Hmine.
  revert e v. induction n as [|n IH]; intros e v Hw He Hn Hk; cbn [write1_loop].
  { apply Hk. by replace (e + Z.of_nat 0) with e by lia. }
  intros v1 R1 a v2 Hp. assert (written e {[fd := (P, e, false)]} v1) as Hw1 by (eapply written_rely; [done| |done|done]; intros i Hi; apply Hmine; lia).
  destruct (written_file _ _ _ _ _ _ Hw1) as (data & Hd & HL). cbn [posix] in Hp. rewrite (wr_fds _ _ _ _ _ _ Hw1), lookup_singleton_eq, Hd in Hp.
  destruct Hp as [-> ->]; [lia|]. destruct (written_byte e fd v1 data Hw1 Hd) as [Hg Hw2]; [lia|]. split; [exact Hg|].
  change (negb (Z.of_nat (length [c]) =? 1)) with false. cbv iota. change (Z.of_nat (length [c])) with 1. revert Hw2. set (v2 := View _ _ _). clearbody v2.
  intros Hw2 v3 R3 a3 v4 Hp4.
  assert (written (e + 1) {[fd := (P, e + 1, false)]} v3) as Hw3 by (eapply written_rely; [done| |done|done]; intros i Hi; apply Hmine; lia).
  cbn [posix] in Hp4. rewrite (wr_fds _ _ _ _ _ _ Hw3), lookup_singleton_eq in Hp4. destruct Hp4 as [-> ->]; [by eexists|].
  split; [by split; [split|]|]. apply (IH (e + 1)); [done|lia|lia|]. intros v' Hw'. apply Hk.
  by replace (e + Z.of_nat (S n)) with (e + 1 + Z.of_nat n) by lia.
Qed.

(** A call on a descriptor of the process that changes no file; [ok] is what is
    known of its answer. *)
Lemma www_fd (e : Z) (O : gmap Z (fpath * Z * bool)) (ok : answer → Prop) (O' : answer → gmap Z (fpath * Z * bool))
    (y : view → answer → gmap (Z * Z) (fpath * Z * bool)) (cl : call) (k : answer → prog) (v : view) :
  written e O v → e ≤ hi →
  (∀ v1 a v2, written e O v1 → posix k_place q cl v1 a v2 →
     ok a ∧ v2 = View (dirs v1) (files v1) (y v1 a) ∧ (∀ fd, y v1 a !! (q, fd) = O' a !! fd) ∧
     (∀ x fd, x ≠ q → y v1 a !! (x, fd) = fds v1 !! (x, fd))) →
  (∀ a v', ok a → written e (O' a) v' → safe (k a) v') → safe (Sys cl k) v.
Proof using Hs Hhi Hmine.
  intros Hw He Hy Hk v1 R1 a v2 Hp. assert (written e O v1) as Hw1 by (eapply written_rely; [done| |done|done]; intros i Hi; apply Hmine; lia).
  destruct (Hy v1 a v2 Hw1 Hp) as (Ho & -> & H1 & H2). destruct (written_fds q mine c s e O (O' a) v1 (y v1 a) Hw1 H1 H2) as [Hg Hw2].
  split; [done|]. by apply Hk.
Qed.

(** The descriptor [fd], and no other, refers to the file. *)
Lemma www_open e d k v :
  k_place (path d "www") = P → P ∉ D → written e ∅ v → e ≤ hi →
  (∀ a v', 0 ≤ ret a → written e {[ret a := (P, 0, false)]} v' → safe (k a) v') → safe (Sys (Open (path d "www") O_WRONLY_CREAT) k) v.
Proof using Hs Hhi Hmine.
  intros Ep Hd Hw He Hk.
  apply (www_fd e ∅ (λ a, 0 ≤ ret a) (λ a, {[ret a := (P, 0, false)]}) (λ v1 a, <[(q, ret a) := (P, 0, false)]> (fds v1)) _ _ _ Hw He); [|done].
  intros v2 a v3 Hw2 Hp. destruct (written_file _ _ _ _ _ _ Hw2) as (data & Hda & _). cbn [posix] in Hp. rewrite Ep, Hda, (wr_dirs _ _ _ _ _ _ Hw2) in Hp.
  destruct (Hp Hd) as (H0 & _ & ->). rewrite (wr_dirs _ _ _ _ _ _ Hw2). split_and!; [done|done| |].
  - intros fd. rewrite lookup_insert, lookup_singleton. repeat case_decide; simplify_eq; [done..|]. by rewrite (wr_fds _ _ _ _ _ _ Hw2).
  - intros x fd Hx. by rewrite lookup_insert_ne by congruence.
Qed.

Lemma www_lseek e fd off off' k v :
  written e {[fd := (P, off', false)]} v → e ≤ hi → 0 ≤ off →
  (∀ a v', ret a = off → written e {[fd := (P, off, false)]} v' → safe (k a) v') → safe (Sys (Lseek fd off) k) v.
Proof using Hs Hhi Hmine.
  intros Hw He Hoff Hk.
  apply (www_fd e _ (λ a, ret a = off) (λ _, {[fd := (P, off, false)]}) (λ v1 _, <[(q, fd) := (P, off, false)]> (fds v1)) _ _ _ Hw He); [|done].
  intros v5 a5 v6 Hw5 Hp. cbn [posix] in Hp. rewrite (wr_fds _ _ _ _ _ _ Hw5), lookup_singleton_eq in Hp. destruct (Hp Hoff) as [Hr ->]. split_and!; [done|done| |].
  - intros fd'. rewrite lookup_insert, lookup_singleton. repeat case_decide; simplify_eq; [done..|].
    rewrite (wr_fds _ _ _ _ _ _ Hw5). by rewrite lookup_singleton_ne by congruence.
  - intros x fd' Hx. by rewrite lookup_insert_ne by congruence.
Qed.

Lemma www_close e fd y k v :
  written e {[fd := y]} v → e ≤ hi → (∀ a v', ret a = 0 → written e ∅ v' → safe (k a) v') → safe (Sys (Close fd) k) v.
Proof using Hs Hhi Hmine.
  intros Hw He Hk. apply (www_fd e _ (λ a, ret a = 0) (λ _, ∅) (λ v1 _, delete (q, fd) (fds v1)) _ _ _ Hw He); [|done].
  intros v9 a9 v10 Hw9 Hp9. cbn [posix] in Hp9. rewrite (wr_fds _ _ _ _ _ _ Hw9), lookup_singleton_eq in Hp9. destruct Hp9 as [Hr ->]; [by eexists|].
  split_and!; [done|done| |].
  - intros fd'. rewrite lookup_delete, lookup_empty. case_decide; [done|]. rewrite (wr_fds _ _ _ _ _ _ Hw9). by rewrite lookup_singleton_ne by congruence.
  - intros x fd' Hx. by rewrite lookup_delete_ne by congruence.
Qed.

Lemma www_write1 d n k v :
  k_place (path d "www") = P → (String.length (path d "www") < 512)%nat → P ∉ D → 0 ≤ n → s + n ≤ hi →
  written s ∅ v → (∀ v', written (s + n) ∅ v' → safe k v') → safe (write1 d "www" s n c k) v.
Proof using Hs Hhi Hmine.
  intros Ep El Hd Hn He Hw Hk. unfold write1, sprintf. destruct (Nat.leb_spec 512 (String.length (path d "www"))); [lia|].
  apply (www_fd s ∅ (λ _, True) (λ _, ∅) (λ v1 _, fds v1) _ _ _ Hw); [lia| |].
  { intros v1 a v2 Hw1 Hp. simpl in Hp. subst v2. split; [done|]. split; [by destruct v1|]. split; [apply Hw1|done]. }
  intros _ v1 _ Hw1. apply (www_open s d _ _ Ep Hd Hw1); [lia|]. intros a v2 Ha Hw2. set (fd := ret a) in *.
  destruct (Z.ltb_spec fd 0); [lia|]. cbn [andb]. unfold write1_at. destruct (Z.ltb_spec fd 0); [lia|].
  apply (www_lseek s fd s 0 _ _ Hw2); [lia|done|]. intros a3 v3 -> Hw3. rewrite Z.eqb_refl. cbn [negb].
  apply (www_loop (Z.to_nat n) s fd _ v3 Hw3); [lia|lia|]. rewrite Z2Nat.id by done. intros v4 Hw4.
  apply (www_close (s + n) fd _ _ _ Hw4); [lia|]. intros a5 v5 -> Hw5. by apply Hk.
Qed.
End writer.
End www.

(** Reading bytes one at a time. *)
Lemma does_checkread_loop {W} `{Kn : Kernel W} q own (Q : prog → view → Prop) D F fd p data c n off k :
  F !! p = Some data → own p → 0 ≤ off → (∀ i, off ≤ i < off + Z.of_nat n → data !! Z.to_nat i = Some c) →
  does q own Q D F {[fd := (p, off + Z.of_nat n, false)]} k → does q own Q D F {[fd := (p, off, false)]} (checkread_loop n fd c k).
Proof.
  revert off. induction n as [|n IH]; intros off Hp Ho H0 Hc Hk; cbn [checkread_loop].
  { by replace (off + Z.of_nat 0) with off in Hk by lia. }
  eapply does_read; [apply lookup_singleton_eq|done|done|done|lia|]. intros a Hb Hr.
  assert (bytes a = [c]) as Ea.
  { rewrite Hb. unfold slice. change (Z.to_nat 1) with 1%nat. rewrite (drop_S data c); [done|]. apply Hc. lia. }
  rewrite Ea in Hr |- *. rewrite Hr. change (negb (Z.of_nat (length [c]) =? 1)) with false. simpl. rewrite Z.eqb_refl. simpl.
  rewrite insert_singleton_eq. apply IH; [done|done|lia|intros i Hi; apply Hc; lia|].
  replace (off + Z.of_nat (S n)) with (off + 1 + Z.of_nat n) in Hk by lia. exact Hk.
Qed.

Lemma does_checkread {W} `{Kn : Kernel W} {Kl : KernelLaws W} q own (Q : prog → view → Prop) D F d f data c start n k :
  good own D d f → F !! (k_place d ++ [f]) = Some data → 0 ≤ start → 0 ≤ n →
  (∀ i, start ≤ i < start + n → data !! Z.to_nat i = Some c) →
  does q own Q D F ∅ k → does q own Q D F ∅ (checkread d f start n c k).
Proof.
  intros G Hd H0 Hn Hc Hk. unfold checkread. apply does_sleep. intros _. apply does_sprintf; [done|].
  eapply does_open_read; [done|done|]. intros a Ha. destruct (Z.ltb_spec (ret a) 0); [lia|].
  eapply does_lseek; [apply lookup_singleton_eq|done|]. intros r ->. rewrite Z.eqb_refl, insert_singleton_eq. simpl.
  eapply does_checkread_loop; [done|apply G|done|intros i Hi; apply Hc; lia|].
  eapply does_close; [apply lookup_singleton_eq|]. intros _ _. by rewrite delete_singleton_eq.
Qed.

Section parts3.
Context {W : Type} `{Kn : Kernel W} {Kl : KernelLaws W} (self : Z) (d1 d2 : string) (dp : fpath).
Context (P1 : k_place d1 = dp) (P2 : k_place d2 = dp).
Context (L1 : (String.length d1 ≤ 495)%nat) (L2 : (String.length d2 ≤ 495)%nat).
Context (D : gset fpath) (F : gmap fpath (list Z)) (Fd : fresh_dir D F dp).

Lemma www_place d : mount d1 d2 d → k_place (path d "www") = dp ++ ["www"] ∧ (String.length (path d "www") < 512)%nat.
Proof using P1 P2 L1 L2 Kl.
  intros Hm. split; [unfold path; rewrite k_below by by_vm; by rewrite (mount_place d1 d2 dp P1 P2 d Hm)|].
  rewrite path_length. change (String.length "www") with 3%nat. destruct Hm as [->| ->]; lia.
Qed.

Lemma alone_writes x k :
  Z.of_nat (length x) = 131072 → (∀ y, alone self D (<[dp ++ ["www"] := y]> F) k) →
  alone self D (<[dp ++ ["www"] := x]> F) (
    fork (write1 d2 "www" 65536 64 50 (Exit 0)) (λ pid,
    write1 d1 "www" 0 64 49 (
    reap pid (
    checkread d1 "www" 0 64 49 (
    checkread d2 "www" 0 64 49 (
    checkread d1 "www" 65536 64 50 (
    checkread d2 "www" 65536 64 50 k))))))).
Proof using P1 P2 L1 L2 Fd Kl.
  intros Hx Hk. set (P := dp ++ ["www"]). set (K := checkread d1 _ _ _ _ _). apply alone_fork_gen. intros w pid H0 Hne E1 E2 E3 E4.
  assert (P ∉ D) as HP by apply Fd.
  assert (∀ q c s, (∀ fd, fds (k_view w) !! (q, fd) = None) → written P D F 131072 q c s s ∅ (k_view w)) as Hst.
  { intros q c s Hf. split; [done|intros z Hz; by rewrite E2, lookup_insert_ne| |lia|intros fd; by rewrite Hf]. by rewrite E2, lookup_insert_eq, <- Hx. }
  set (lo := λ i : Z, i < 65536). set (up := λ i : Z, 65536 ≤ i).
  eapply (passes_par self (rely_w P self lo) (guar_w P self lo) (rely_w P pid up) (guar_w P pid up) pid
    (λ pr v, pr = reap pid K ∧ written P D F 131072 self 49 0 64 ∅ v) (λ pr v, pr = Exit 0 ∧ written P D F 131072 pid 50 65536 65600 ∅ v)).
  - intros v v'. apply guar_rely_w; [done|]. unfold lo, up. lia.
  - intros v v'. apply guar_rely_w; [done|]. unfold lo, up. lia.
  - intros p' v [-> _]. by eexists.
  - intros p' v [-> _]. by eexists.
  - intros k' code w' [[= ->] C1] [[= ->] C2]. destruct (Z.ltb_spec pid 0); [lia|]. rewrite Z.eqb_refl. simpl.
    destruct (written_file _ _ _ _ _ _ _ _ _ _ C1) as (y & Hy & _).
    assert (∀ c i, byte_at P (k_view w') i = Some c → y !! Z.to_nat i = Some c) as Hb by (intros c i; unfold byte_at; by rewrite Hy).
    assert (sees self (λ _, True) (k_view w') D (<[P := y]> F) ∅) as Hsee.
    { destruct C1 as [A B C E G]. split; [done| |done]. intros z _. rewrite lookup_insert. case_decide as Ez; [by subst z|]. apply B. congruence. }
    eapply alone_passes; [|exact Hsee]. unfold K.
    assert (∀ d, mount d1 d2 d → good (λ _, True) D d "www") as Hg.
    { intros d Hm. apply (mount_good d1 d2 dp P1 P2 L1 L2 D F Fd); [done|by_vm|apply Nat.leb_le; reflexivity|done]. }
    assert (∀ d, mount d1 d2 d → <[P := y]> F !! (k_place d ++ ["www"]) = Some y) as HF.
    { intros d Hm. rewrite (mount_place d1 d2 dp P1 P2 d Hm). apply lookup_insert_eq. }
    do 2 (eapply does_checkread; [apply Hg; solve [by left|by right]|apply HF; solve [by left|by right]|lia|lia|intros i Hi; apply Hb, C1; lia|]).
    do 2 (eapply does_checkread; [apply Hg; solve [by left|by right]|apply HF; solve [by left|by right]|lia|lia|intros i Hi; apply Hb, C2; lia|]).
    apply Hk.
  - destruct (www_place d1) as [Ep El]; [by left|].
    refine (www_write1 P D F 131072 self lo _ 49 0 65536 _ _ _ d1 64 _ _ Ep El HP _ _ (Hst _ _ _ E3) _); [lia|lia|unfold lo; lia|lia|lia|].
    intros v Hv u Hu. split; [done|]. eapply written_rely; [| |exact Hv|exact Hu]; unfold lo; lia.
  - split; [done|]. destruct (www_place d2) as [Ep El]; [by right|].
    refine (www_write1 P D F 131072 pid up _ 50 65536 131072 _ _ _ d2 64 _ _ Ep El HP _ _ (Hst _ _ _ E4) _); [lia|lia|unfold up; lia|lia|lia|].
    intros v Hv u Hu. split; [done|]. eapply written_rely; [| |exact Hv|exact Hu]; unfold up; lia.
Qed.

Lemma alone_concurrent_writes k :
  (∀ y, alone self D (<[dp ++ ["www"] := y]> F) k) → alone self D F (concurrent_writes d1 d2 k).
Proof using P1 P2 L1 L2 Fd Kl.
  intros Hk. unfold concurrent_writes. apply (alone_create1 self d1 d2 dp P1 P2 L1 L2 D F Fd); [by left|by_vm|apply Nat.leb_le; reflexivity|].
  unfold huge. rewrite c_str_replicate by done. apply alone_writes; [|done]. rewrite length_replicate. by_vm.
Qed.
End parts3.

(** * Theorems *)

(** C22.  test-lab-2-a passes: on every kernel whose calls return and do what POSIX
    says, with both arguments mounts of one file system, the test ends with exit
    code 0 whatever the schedule of its processes: also where two processes create
    and remove files of one directory, create the same files, or write different
    parts of one file. *)
Theorem lab_2_a_passes {W : Type} `{Kn : Kernel W} {Kl : KernelLaws W} (self : Z) (w : W) (pname a1 a2 : string) :
  ready self a1 a2 w ["d" +:+ pretty self] → passes self (Cfg w (main_a self [pname; a1; a2]) NoChild).
Proof.
  intros [R1 R2 R3 R4 R5]. set (dn := "d" +:+ pretty self) in *. destruct (R5 dn) as (N1 & S1 & LA1 & LA2); [by left|].
  set (r := k_place a1) in *. unfold main_a. fold dn. apply passes_sprintf; [rewrite path_length; lia|].
  apply passes_mkdir; [done|done|done|]. fold r. intros r1 w1 -> V1. simpl. apply passes_sprintf; [rewrite path_length; lia|].
  apply passes_access; [done|rewrite <- R1; fold r; rewrite V1; simpl; set_solver|]. intros r2 w2 -> V2. simpl.
  assert (k_place (path a1 dn) = r ++ [dn]) as P1 by (by apply k_below).
  assert (k_place (path a2 dn) = r ++ [dn]) as P2 by (rewrite R1; by apply k_below).
  assert (String.length (path a1 dn) ≤ 495)%nat as L1 by (rewrite path_length; lia).
  assert (String.length (path a2 dn) ≤ 495)%nat as L2 by (rewrite path_length; lia).
  apply (alone_passes self (dirs (k_view w1)) (files (k_view w1)));
    [|rewrite V2; split; [done|done|]; intros fd; rewrite V1; simpl; by rewrite R4].
  assert (fresh_dir (dirs (k_view w1)) (files (k_view w1)) (r ++ [dn])) as Fd
    by (rewrite V1; by apply (fresh_with_dir (k_view w) r dn)).
  revert P1 P2 L1 L2 Fd. generalize (path a1 dn) (path a2 dn) (r ++ [dn]) (dirs (k_view w1)) (files (k_view w1)).
  clear - Kl. intros d1 d2 dp D F P1 P2 L1 L2 Fd.
  apply (alone_concurrent_creates self d1 d2 dp P1 P2 L1 L2 D F Fd).
  apply (alone_concurrent_create_delete self d1 d2 dp P1 P2 L1 L2 D F Fd).
  apply (alone_create_unlink self d1 d2 dp P1 P2 L1 L2 D F Fd).
  apply (alone_append_readdir self d1 d2 dp P1 P2 L1 L2 D F Fd).
  apply (alone_many_creates self d1 d2 dp P1 P2 L1 L2 D F Fd).
  apply (alone_write_20000 self d1 d2 dp P1 P2 L1 L2 D F Fd).
  apply (alone_concurrent_creates self d1 d2 dp P1 P2 L1 L2 D F Fd).
  apply (alone_same_file self d1 d2 dp P1 P2 L1 L2 D F Fd).
  apply (alone_concurrent_create_delete self d1 d2 dp P1 P2 L1 L2 D F Fd).
  apply (alone_same_file_same_server self d1 d2 dp P1 P2 L1 L2 D F Fd).
  apply (alone_concurrent_writes self d1 d2 dp P1 P2 L1 L2 D F Fd). intros y. apply alone_exit.
Qed.

Lemma lab_2_a_passes_witness : passes (W := view) 7 (Cfg ex_world (main_a 7 ["test-lab-2-a"; "m1"; "m2"]) NoChild).
Proof. apply (lab_2_a_passes 7 ex_world). apply ex_ready. repeat constructor; by_vm. Defined.
